(* ===== verification/_CoqProject ===== *)
-Q . S2P
Prelude.v
IpcTypes.v
IpcBits.v
IpcTable.v
IpcHash.v
IpcHashSaturation.v
KernelState.v
Kernel.v
IpcFreelist.v
IpcEntry.v
IpcSpaceInit.v
IpcEntryInv.v
IpcGrow.v
IpcAlloc.v
IpcAllocName.v
IpcPort.v
IpcRight.v
IpcHeld.v
IpcRights.v
IpcNaked.v
IpcRequests.v
IpcRightCheck.v
IpcRightLive.v
IpcRightDealloc.v
IpcDestroy.v
IpcRightDelta.v
IpcCopyin.v
IpcRightReceive.v
IpcObject.v
MachPort.v
IpcObjectCopyin.v
IpcObjectAlloc.v
MachPortAlloc.v
MachPortCalls.v
MachPortNames.v
MachPortGuard.v
MachSystem.v
IpcScenario.v
IpcSpace.v
