(* ===== verification/Prelude.v ===== *)
(** * Mach IPC of XNU: the port name spaces, rights and ports of osfmk/ipc

    The program is the Mach IPC of the XNU kernel, osfmk/ipc.  A task has a
    space: a table of entries, indexed by the upper part of a port name, each
    of which holds a right (send, receive, send-once, port set or dead name)
    for an object, with a count of user references and a generation that is
    the lower part of the name.  Ports count the send and send-once rights
    that exist for them, wherever these are: in entries, in messages or in the
    kernel.  Objects count the references to them.  Entries for send rights
    are found by port through a hash that lives inside the table.

    ** Files, and the code they model

    - [Prelude]: integers of a given width, arrays ([aget], [aset], [alen]),
      the option monad, generic lemmas and tactics.
    - [IpcTypes], [IpcBits]: mach/port.h, ipc/port.h, ipc/ipc_entry.h: port
      names, the word of an entry (generation, roll point, type, user
      references) and its arithmetic.
    - [IpcTable]: ipc/ipc_table.c, the sizes of tables.
    - [IpcHash], [IpcHashSaturation]: ipc/ipc_hash.c, the reverse hash, as
      functions from tables to tables.
    - [KernelState], [Kernel]: the records of spaces, ports and objects, the
      world of all of them with the locks held and the trace of calls to code
      outside osfmk/ipc; the monad [M] of kernel routines, of which a failed
      assertion, an access out of bounds or a lock order violation is a
      [Panic]; weakest preconditions [wp] and the tactics that execute
      routines symbolically.
    - [IpcEntry], [IpcFreelist], [IpcEntryInv], [IpcGrow], [IpcAlloc],
      [IpcAllocName]: ipc/ipc_entry.c and the free list of ipc/ipc_space.c.
    - [IpcSpaceInit], [IpcSpace]: ipc/ipc_space.c, creation, and cleaning and
      termination.
    - [IpcPort]: ipc/ipc_port.c, with the parts of ipc_object.c, ipc_pset.c,
      ipc_mqueue.c, ipc_kmsg.c and ipc_notify.c that it calls.
    - [IpcRight]: ipc/ipc_right.c, every routine.
    - [IpcObject]: ipc/ipc_object.c.
    - [IpcHeld], [IpcRights], [IpcNaked], [IpcRequests], [IpcRightCheck],
      [IpcRightLive], [IpcRightDealloc], [IpcDestroy], [IpcRightDelta],
      [IpcCopyin], [IpcRightReceive]: the invariant of the whole system and the
      routines of ipc_right.c and ipc_port.c that keep it.
    - [IpcObjectCopyin], [IpcObjectAlloc]: the contracts of ipc_object_copyin
      and of the allocation of ports.
    - [MachPort]: ipc/mach_port.c, the system calls on ports, with the routines
      of ipc_pset.c and ipc_mqueue.c that they call.
    - [MachPortAlloc], [MachPortCalls], [MachPortNames], [MachPortGuard]: the
      contracts of these calls.
    - [MachSystem]: the machine whose steps are calls, and its reachable states.
    - [IpcScenario]: a concrete state with a space and a port, at which the
      theorems about rights and calls are applied.

    Definitions have the names of the source.  A routine that the source
    splits by a switch is split the same way; a [goto] to a shared tail is a
    definition of its own.

    ** What the theorems show

    - The reverse hash of a table of at most 4096 entries implements a finite
      map under any sequence of insertions, deletions and lookups; lookup and
      insertion are right in tables of any size; with saturated distances a
      deletion can lose an entry.
    - A space stays well-formed: the free list is a list without repetition of
      exactly the free entries, the hash has exactly the entries of send
      rights.  Creation establishes this; allocation, allocation of a given
      name, growth, lookup and deallocation keep it and do what they promise.
      A name that was deallocated is not valid again before the generation
      of its entry has gone round.
    - The counts of ports are right.  The abstract state is a finite map from
      entries to rights and a count of the naked rights, those that no entry
      holds ([IpcRights]).  The invariant says that the send and send-once
      counts of a live port are the numbers of such rights, that it has
      exactly one receive right, that the reference count of an object is the
      number of entries and of naked references, and that notification
      requests are slots of their own.  The contracts of the routines say how
      they change the abstract state.  All assertions in them hold: from a
      state with the invariant none of them panics.
    - The system calls do what the routines under them promise, and leave no lock
      held.  [mach_port_names] reports exactly the names of a space.  The guard of
      a port is an abstract machine that the guard calls refine; a strict guard
      holds.  Sequences of calls from an empty machine reach only states with the
      invariant, in which every allowed call returns.
    - Where the code does not do what it means to, a theorem says so: an index at
      which ipc_entry_alloc_name panics, a name that mach_port_allocate_name
      ignores, a count that mach_port_names lets overflow.

    ** Bounds and fuel

    Loops of the source are fixpoints with fuel where they are not structural:
    the hash loops take the size of the table plus one, growth and allocation
    the number of sizes there are, the free list the number of its entries;
    the theorems show that this is enough, by proving that the routines
    return.  The loop of mach_port_names takes two rounds.  The invariant bounds
    no table.  The contracts of routines that delete from the hash have the
    hypothesis that the table of their space has at most 4096 entries
    ([small_table], part of [at_right]), where no probe distance can saturate;
    the largest tables that the builds configure have from 37205 to 1186474.
    Routines that take a reference need a reference count with room for one
    more; giving up a receive right needs a port to which no special reply port,
    preallocated message, turnstile, importance or kernel object is attached
    ([plain]), and moving one the assertion of ipc_right_copyin ([port_of]).

    ** Not modelled

    The bodies of allocators, wait queues, turnstiles, importance inheritance,
    message queues and notification messages are external calls: they appear
    in the trace, and their results come from an arbitrary oracle of the
    world ([e_ext]).  Threads do not interleave inside a routine.  The members of
    port sets and the queues of messages are not part of the state, so
    mach_port_peek, mach_port_get_set_status and the calls that move members are
    left out, and so is the count of waiting senders of a queue.  Vouchers,
    event links, remote ports and everything outside osfmk/ipc are not part of
    this development. *)

From stdpp Require Export base tactics numbers list gmap strings.
From Stdlib Require Export ZArith Lia.

#[export] Set Default Goal Selector "!".
#[global] Open Scope Z_scope.

(** ** C integers

    A [w]-bit unsigned value is a [Z] in [0, 2^w); arithmetic that can wrap is
    written with [u32] or [u64]. *)

Definition u32 (x : Z) : Z := x mod 2 ^ 32.
Definition u64 (x : Z) : Z := x mod 2 ^ 64.

(** Linear arithmetic with division and modulo by constants. *)
Ltac zlia := Z.to_euclidean_division_equations; lia.

Lemma u32_id x : 0 <= x < 2 ^ 32 -> u32 x = x.
Proof. apply Z.mod_small. Qed.

Lemma u32_range x : 0 <= u32 x < 2 ^ 32.
Proof. apply Z.mod_pos_bound. lia. Qed.

Lemma u64_range x : 0 <= u64 x < 2 ^ 64.
Proof. apply Z.mod_pos_bound. lia. Qed.

(** A field mask [((1 << w) - 1) << p] selects [w] bits at position [p]. *)
Lemma land_field b w p :
  0 <= w -> 0 <= p ->
  Z.land b (Z.shiftl (Z.ones w) p) = (b / 2 ^ p) mod 2 ^ w * 2 ^ p.
Proof.
  intros Hw Hp.
  rewrite <- Z.shiftr_div_pow2, <- Z.shiftl_mul_pow2 by lia.
  rewrite <- Z.land_ones by lia.
  apply Z.bits_inj'. intros i Hi.
  rewrite Z.land_spec, !Z.shiftl_spec by lia.
  destruct (decide (p <= i)) as [Hpi|Hpi].
  - rewrite Z.land_spec, Z.shiftr_spec by lia. f_equal. f_equal. lia.
  - rewrite !(Z.testbit_neg_r _ (i - p)) by lia. by rewrite andb_false_r.
Qed.

(** Clearing a mask subtracts the bits it selects. *)
Lemma land_lnot_sub b m : Z.land b (Z.lnot m) = b - Z.land b m.
Proof.
  rewrite <- Z.ldiff_land, (Z.sub_nocarry_ldiff b (Z.land b m)).
  - apply Z.bits_inj'. intros i Hi.
    rewrite !Z.ldiff_spec, Z.land_spec. by destruct (Z.testbit b i), (Z.testbit m i).
  - apply Z.bits_inj'. intros i Hi.
    rewrite Z.ldiff_spec, Z.land_spec, Z.bits_0.
    by destruct (Z.testbit b i), (Z.testbit m i).
Qed.

(** Setting bits that are clear is an addition. *)
Lemma lor_add_disjoint b m : Z.land b m = 0 -> Z.lor b m = b + m.
Proof.
  intros H. rewrite <- Z.lxor_lor by done. by rewrite Z.add_nocarry_lxor.
Qed.

Lemma land_sub_mask b m s : Z.land m s = s -> Z.land b s = Z.land (Z.land b m) s.
Proof. intros H. by rewrite <- Z.land_assoc, H. Qed.

(** ** Arrays indexed by a C integer

    [aget] and [aset] are the reads and writes [t[i]]; both are undefined
    ([None], resp. no write) out of range, and every use in the model either
    guards the index or treats [None] as a failure. *)

Definition alen {A} (t : list A) : Z := Z.of_nat (length t).
Definition aget {A} (t : list A) (i : Z) : option A :=
  if i <? 0 then None else t !! Z.to_nat i.
Definition aset {A} (t : list A) (i : Z) (x : A) : list A :=
  if i <? 0 then t else <[Z.to_nat i := x]> t.

Section arrays.
Context {A : Type}.
Implicit Types (t : list A) (i j : Z) (x y : A).

Lemma alen_nonneg t : 0 <= alen t.
Proof. unfold alen. lia. Qed.

Lemma aget_Some_range t i x : aget t i = Some x -> 0 <= i < alen t.
Proof.
  unfold aget, alen. destruct (Z.ltb_spec i 0); [done|].
  intros Hl%lookup_lt_Some. lia.
Qed.

Lemma aget_lt_Some t i : 0 <= i < alen t -> is_Some (aget t i).
Proof.
  unfold aget, alen. intros H. destruct (Z.ltb_spec i 0); [lia|].
  apply lookup_lt_is_Some. lia.
Qed.

Lemma alen_aset t i x : alen (aset t i x) = alen t.
Proof. unfold alen, aset. destruct (i <? 0); [done|]. by rewrite length_insert. Qed.

Lemma aget_aset_eq t i x : 0 <= i < alen t -> aget (aset t i x) i = Some x.
Proof.
  unfold aget, aset, alen. intros H. destruct (Z.ltb_spec i 0); [lia|].
  apply list_lookup_insert_eq. lia.
Qed.

Lemma aget_aset_ne t i j x : i <> j -> aget (aset t i x) j = aget t j.
Proof.
  unfold aget, aset. intros H. destruct (Z.ltb_spec j 0); [done|].
  destruct (Z.ltb_spec i 0); [done|]. apply list_lookup_insert_ne. lia.
Qed.

Lemma aget_aset t i j x :
  aget (aset t i x) j =
  if decide (i = j /\ 0 <= i < alen t) then Some x else aget t j.
Proof.
  case_decide as H.
  - destruct H as [-> H]. by apply aget_aset_eq.
  - destruct (decide (i = j)) as [->|]; [|by apply aget_aset_ne].
    unfold aget, aset, alen in *. destruct (Z.ltb_spec j 0); [done|].
    rewrite list_insert_ge by lia. done.
Qed.

Lemma aget_cons x t i : 0 < i -> aget (x :: t) i = aget t (i - 1).
Proof.
  intros Hi. unfold aget. destruct (Z.ltb_spec i 0), (Z.ltb_spec (i - 1) 0); try lia.
  by replace (Z.to_nat i) with (S (Z.to_nat (i - 1))) by lia.
Qed.

Lemma alen_replicate n x : 0 <= n -> alen (replicate (Z.to_nat n) x) = n.
Proof. intros. unfold alen. rewrite length_replicate. lia. Qed.

Lemma aset_aset t i x y : aset (aset t i x) i y = aset t i y.
Proof. unfold aset. destruct (i <? 0); [done|]. by rewrite list_insert_insert_eq. Qed.

Lemma aset_id t i x : aget t i = Some x -> aset t i x = t.
Proof. unfold aget, aset. destruct (i <? 0); [done|]. apply list_insert_id. Qed.
End arrays.

Create Rewrite HintDb arr.
#[export] Hint Rewrite @alen_aset : arr.
