(* ===== verification/IpcTypes.v ===== *)
(** * Names, entry bits and table entries (mach/port.h, ipc/port.h, ipc/ipc_entry.h)

    The constants and macros of the public port interface, the layout of the
    32-bit [ie_bits] word of a table entry (generation, rollover point,
    ex-receive bit, capability type, user references) and the generation
    counter that makes port names hard to reuse.

    The configuration modelled is LP64 with port generations (the
    [#ifndef NO_PORT_GEN] branches). *)

From S2P Require Import Prelude.

(** ** Names *)

Definition MACH_PORT_NULL : Z := 0.
Definition MACH_PORT_DEAD : Z := 0xffffffff.
Definition MACH_PORT_VALID (name : Z) : bool :=
  negb (name =? MACH_PORT_NULL) && negb (name =? MACH_PORT_DEAD).
Definition MACH_PORT_INDEX (name : Z) : Z := Z.shiftr name 8.
Definition MACH_PORT_GEN (name : Z) : Z := u32 (Z.shiftl (Z.land name 0xff) 24).
Definition MACH_PORT_MAKE (index gen : Z) : Z :=
  Z.lor (u32 (Z.shiftl index 8)) (Z.shiftr gen 24).

(** ** Rights and types *)

Definition MACH_PORT_RIGHT_SEND : Z := 0.
Definition MACH_PORT_RIGHT_RECEIVE : Z := 1.
Definition MACH_PORT_RIGHT_SEND_ONCE : Z := 2.
Definition MACH_PORT_RIGHT_PORT_SET : Z := 3.
Definition MACH_PORT_RIGHT_DEAD_NAME : Z := 4.
Definition MACH_PORT_RIGHT_LABELH : Z := 5.
Definition MACH_PORT_RIGHT_NUMBER : Z := 6.

Definition MACH_PORT_TYPE (right : Z) : Z := u32 (Z.shiftl 1 (right + 16)).
Definition MACH_PORT_TYPE_NONE : Z := 0.
Definition MACH_PORT_TYPE_SEND : Z := MACH_PORT_TYPE MACH_PORT_RIGHT_SEND.
Definition MACH_PORT_TYPE_RECEIVE : Z := MACH_PORT_TYPE MACH_PORT_RIGHT_RECEIVE.
Definition MACH_PORT_TYPE_SEND_ONCE : Z := MACH_PORT_TYPE MACH_PORT_RIGHT_SEND_ONCE.
Definition MACH_PORT_TYPE_PORT_SET : Z := MACH_PORT_TYPE MACH_PORT_RIGHT_PORT_SET.
Definition MACH_PORT_TYPE_DEAD_NAME : Z := MACH_PORT_TYPE MACH_PORT_RIGHT_DEAD_NAME.
Definition MACH_PORT_TYPE_LABELH : Z := MACH_PORT_TYPE MACH_PORT_RIGHT_LABELH.
Definition MACH_PORT_TYPE_EX_RECEIVE : Z := MACH_PORT_TYPE_LABELH.
Definition MACH_PORT_TYPE_SEND_RECEIVE : Z :=
  Z.lor MACH_PORT_TYPE_SEND MACH_PORT_TYPE_RECEIVE.
Definition MACH_PORT_TYPE_SEND_RIGHTS : Z :=
  Z.lor MACH_PORT_TYPE_SEND MACH_PORT_TYPE_SEND_ONCE.
Definition MACH_PORT_TYPE_PORT_RIGHTS : Z :=
  Z.lor MACH_PORT_TYPE_SEND_RIGHTS MACH_PORT_TYPE_RECEIVE.
Definition MACH_PORT_TYPE_PORT_OR_DEAD : Z :=
  Z.lor MACH_PORT_TYPE_PORT_RIGHTS MACH_PORT_TYPE_DEAD_NAME.
Definition MACH_PORT_TYPE_ALL_RIGHTS : Z :=
  Z.lor MACH_PORT_TYPE_PORT_OR_DEAD MACH_PORT_TYPE_PORT_SET.
Definition MACH_PORT_TYPE_DNREQUEST : Z := 0x80000000.
Definition MACH_PORT_TYPE_SPREQUEST : Z := 0x40000000.
Definition MACH_PORT_TYPE_SPREQUEST_DELAYED : Z := 0x20000000.

(** ** User references (ipc/port.h) *)

Definition MACH_PORT_UREFS_MAX : Z := 2 ^ 16 - 1.

(** [urefs] is a [natural_t], [delta] an [integer_t]: the sums are taken
    modulo 2^32, and the negation is converted to [mach_port_urefs_t]. *)
Definition MACH_PORT_UREFS_OVERFLOW (urefs delta : Z) : bool :=
  (0 <? delta) &&
  ((u32 (urefs + delta) <=? urefs) || (MACH_PORT_UREFS_MAX <=? u32 (urefs + delta))).
Definition MACH_PORT_UREFS_UNDERFLOW (urefs delta : Z) : bool :=
  (delta <? 0) && (urefs <? u32 (- delta)).

(** ** The [ie_bits] word *)

Definition IE_BITS_UREFS_MASK : Z := 0x0000ffff.
Definition IE_BITS_UREFS (bits : Z) : Z := Z.land bits IE_BITS_UREFS_MASK.
Definition IE_BITS_TYPE_MASK : Z := 0x001f0000.
Definition IE_BITS_TYPE (bits : Z) : Z := Z.land bits IE_BITS_TYPE_MASK.
Definition IE_BITS_EXTYPE_MASK : Z := 0x00200000.
Definition IE_BITS_GEN_MASK : Z := 0xff000000.
Definition IE_BITS_GEN (bits : Z) : Z := Z.land bits IE_BITS_GEN_MASK.
Definition IE_BITS_GEN_ONE : Z := 0x04000000.
Definition IE_BITS_ROLL_POS : Z := 22.
Definition IE_BITS_ROLL_BITS : Z := 2.
Definition IE_BITS_ROLL_MASK : Z :=
  Z.shiftl (Z.shiftl 1 IE_BITS_ROLL_BITS - 1) IE_BITS_ROLL_POS.
Definition IE_BITS_ROLL (bits : Z) : Z :=
  Z.lxor (u32 (Z.shiftl (Z.land bits IE_BITS_ROLL_MASK) 8)) IE_BITS_GEN_MASK.

Definition ipc_entry_new_rollpoint (rollbits : Z) : Z :=
  let rollbits := Z.land (u32 (Z.shiftl rollbits IE_BITS_ROLL_POS)) IE_BITS_ROLL_MASK in
  let newgen := u32 (IE_BITS_GEN_MASK + IE_BITS_GEN_ONE) in
  Z.lor newgen rollbits.

Definition ipc_entry_new_gen (oldgen : Z) : Z :=
  let sum := Z.land (u32 (oldgen + IE_BITS_GEN_ONE)) IE_BITS_GEN_MASK in
  let roll := Z.land oldgen IE_BITS_ROLL_MASK in
  Z.lor (sum mod IE_BITS_ROLL oldgen) roll.

Definition ipc_entry_gen_rolled (oldgen newgen : Z) : bool :=
  Z.land newgen IE_BITS_GEN_MASK <? Z.land oldgen IE_BITS_GEN_MASK.

(** ** Entries

    [ie_next] and [ie_request] are two names of one word (a C union): the free
    list link of a free entry, the notification request of one in use. *)

Definition IO_NULL : Z := 0.
Definition IO_DEAD : Z := 2 ^ 64 - 1.
Definition IO_VALID (io : Z) : bool := negb (io =? IO_NULL) && negb (io =? IO_DEAD).
Definition IE_REQ_NONE : Z := 0.
Definition IPC_ENTRY_DIST_MAX : Z := 2 ^ 12 - 1.

Record ipc_entry := mkEntry {
  ie_object : Z;
  ie_bits : Z;
  ie_dist : Z;
  ie_index : Z;
  ie_next : Z
}.
Abbreviation ie_request := ie_next.

#[export] Instance ipc_entry_eq_dec : EqDecision ipc_entry.
Proof. solve_decision. Defined.

Definition ie_zero : ipc_entry := mkEntry IO_NULL 0 0 0 0.
Definition set_ie_object (v : Z) (e : ipc_entry) : ipc_entry :=
  mkEntry v (ie_bits e) (ie_dist e) (ie_index e) (ie_next e).
Definition set_ie_bits (v : Z) (e : ipc_entry) : ipc_entry :=
  mkEntry (ie_object e) v (ie_dist e) (ie_index e) (ie_next e).
Definition set_ie_hash (index dist : Z) (e : ipc_entry) : ipc_entry :=
  mkEntry (ie_object e) (ie_bits e) dist index (ie_next e).
Definition set_ie_next (v : Z) (e : ipc_entry) : ipc_entry :=
  mkEntry (ie_object e) (ie_bits e) (ie_dist e) (ie_index e) v.
Abbreviation set_ie_request := set_ie_next.

(** ** Names *)

(** A generation is the top byte of a word. *)
Definition is_gen (gen : Z) : Prop := exists g, 0 <= g < 256 /\ gen = g * 2 ^ 24.

Lemma make_name index g :
  0 <= index < 2 ^ 24 -> 0 <= g < 256 ->
  MACH_PORT_MAKE index (g * 2 ^ 24) = index * 256 + g.
Proof.
  intros Hi Hg. unfold MACH_PORT_MAKE.
  rewrite Z.shiftl_mul_pow2, u32_id, Z.shiftr_div_pow2, Z.div_mul by lia.
  change (index * 256) with (index * 2 ^ 8). apply lor_add_disjoint.
  rewrite <- (Z.shiftl_mul_pow2 index 8) by lia. apply Z.bits_inj'. intros n Hn.
  rewrite Z.land_spec, Z.bits_0. destruct (decide (n < 8)).
  - by rewrite Z.shiftl_spec_low.
  - rewrite andb_false_iff. right. apply Z.bits_above_log2; [lia|].
    destruct (decide (g = 0)) as [->|]; [simpl; lia|].
    apply Z.log2_lt_pow2; [lia|]. apply Z.lt_le_trans with (2 ^ 8); [lia|].
    apply Z.pow_le_mono_r; lia.
Qed.

Lemma MACH_PORT_GEN_mod name : MACH_PORT_GEN name = name mod 256 * 2 ^ 24.
Proof.
  unfold MACH_PORT_GEN. change 0xff with (Z.ones 8).
  rewrite (Z.land_ones name 8), Z.shiftl_mul_pow2 by lia.
  apply u32_id. pose proof (Z.mod_pos_bound name 256 eq_refl). lia.
Qed.

Lemma MACH_PORT_INDEX_div name : MACH_PORT_INDEX name = name / 256.
Proof. unfold MACH_PORT_INDEX. by rewrite Z.shiftr_div_pow2. Qed.

Lemma make_index index gen :
  0 <= index < 2 ^ 24 -> is_gen gen -> MACH_PORT_INDEX (MACH_PORT_MAKE index gen) = index.
Proof.
  intros Hi (g & Hg & ->). rewrite make_name, MACH_PORT_INDEX_div by done. zlia.
Qed.

Lemma make_gen index gen :
  0 <= index < 2 ^ 24 -> is_gen gen -> MACH_PORT_GEN (MACH_PORT_MAKE index gen) = gen.
Proof.
  intros Hi (g & Hg & ->). rewrite make_name, MACH_PORT_GEN_mod by done. zlia.
Qed.

Lemma make_index_gen name :
  0 <= name < 2 ^ 32 -> MACH_PORT_MAKE (MACH_PORT_INDEX name) (MACH_PORT_GEN name) = name.
Proof.
  intros Hn. rewrite MACH_PORT_INDEX_div, MACH_PORT_GEN_mod, make_name by zlia. zlia.
Qed.

Lemma IE_BITS_GEN_is_gen bits : is_gen (IE_BITS_GEN bits).
Proof.
  unfold IE_BITS_GEN. change IE_BITS_GEN_MASK with (Z.shiftl (Z.ones 8) 24).
  rewrite land_field by lia. exists ((bits / 2 ^ 24) mod 2 ^ 8). split; [|done].
  apply Z.mod_pos_bound. lia.
Qed.

#[export] Hint Resolve IE_BITS_GEN_is_gen : core.

(** C31. Port names are pairs of an index and a generation: packing an index of
    24 bits and a generation and taking the name apart gives them back, and
    every 32-bit name is the pack of its parts. *)
Theorem name_roundtrip (index gen name : Z) :
  0 <= index < 2 ^ 24 -> is_gen gen -> 0 <= name < 2 ^ 32 ->
  MACH_PORT_INDEX (MACH_PORT_MAKE index gen) = index /\
  MACH_PORT_GEN (MACH_PORT_MAKE index gen) = gen /\
  MACH_PORT_MAKE (MACH_PORT_INDEX name) (MACH_PORT_GEN name) = name.
Proof. intros. by rewrite make_index, make_gen, make_index_gen. Qed.

Lemma name_roundtrip_witness :
  MACH_PORT_INDEX (MACH_PORT_MAKE 5 0x13000000) = 5 /\
  MACH_PORT_GEN (MACH_PORT_MAKE 5 0x13000000) = 0x13000000 /\
  MACH_PORT_MAKE (MACH_PORT_INDEX 0x513) (MACH_PORT_GEN 0x513) = 0x513.
Proof.
  apply (name_roundtrip 5 0x13000000 0x513); [lia|by exists 0x13|lia].
Defined.

(** ** Generations *)

(** [b], its successor generation, and so on. *)
Fixpoint gen_sequence (n : nat) (b : Z) : list Z :=
  match n with
  | O => []
  | S n => b :: gen_sequence n (ipc_entry_new_gen b)
  end.

(** Which of the steps roll over. *)
Definition gen_rolls (l : list Z) : list bool :=
  (fun b => ipc_entry_gen_rolled b (ipc_entry_new_gen b)) <$> l.

(** C32. From the rollover point [r] an entry goes through 63 - 16 r generations,
    pairwise distinct, before it rolls over: 63, 47, 31 and 15, one less than
    the comment of ipc_entry.h says. *)
Theorem generation_period (r : Z) :
  0 <= r < 4 ->
  let p := Z.to_nat (63 - 16 * r) in
  let l := gen_sequence p (ipc_entry_new_rollpoint r) in
  NoDup (IE_BITS_GEN <$> l) /\ gen_rolls l = replicate (p - 1) false ++ [true].
Proof.
  intros Hr. assert (r = 0 \/ r = 1 \/ r = 2 \/ r = 3) as [->|[->|[->| ->]]] by lia;
    (split; [apply (bool_decide_unpack _); by vm_compute|by vm_compute]).
Qed.

Lemma generation_period_witness :
  let p := Z.to_nat (63 - 16 * 2) in
  let l := gen_sequence p (ipc_entry_new_rollpoint 2) in
  NoDup (IE_BITS_GEN <$> l) /\ gen_rolls l = replicate (p - 1) false ++ [true].
Proof. apply (generation_period 2). lia. Defined.
