(* ===== verification/IpcBits.v ===== *)
(** * Arithmetic of the [ie_bits] word

    The fields of the word under the updates the code makes: masks, added
    types, counts of user references that change, and generations. *)

From S2P Require Import Prelude IpcTypes.

(** ** Fields by division *)

Lemma IE_BITS_UREFS_mod b : IE_BITS_UREFS b = b mod 2 ^ 16.
Proof. unfold IE_BITS_UREFS, IE_BITS_UREFS_MASK. apply (Z.land_ones b 16). lia. Qed.

Lemma IE_BITS_TYPE_div b : IE_BITS_TYPE b = (b / 2 ^ 16) mod 2 ^ 5 * 2 ^ 16.
Proof. apply (land_field b 5 16); lia. Qed.

Lemma IE_BITS_GEN_div b : IE_BITS_GEN b = (b / 2 ^ 24) mod 2 ^ 8 * 2 ^ 24.
Proof. apply (land_field b 8 24); lia. Qed.

Lemma IE_BITS_UREFS_range b : 0 <= IE_BITS_UREFS b <= MACH_PORT_UREFS_MAX.
Proof. rewrite IE_BITS_UREFS_mod. unfold MACH_PORT_UREFS_MAX. zlia. Qed.

(** A mask that misses the user references, seen through a change of their
    count. *)
Lemma land_high_urefs b d m :
  0 <= IE_BITS_UREFS b + d <= MACH_PORT_UREFS_MAX ->
  Z.land (b + d) (m * 2 ^ 16) = Z.land b (m * 2 ^ 16).
Proof.
  rewrite IE_BITS_UREFS_mod. unfold MACH_PORT_UREFS_MAX. intros Hd.
  assert (E : (b + d) / 2 ^ 16 = b / 2 ^ 16) by zlia.
  apply Z.bits_inj'. intros n Hn. rewrite !Z.land_spec.
  destruct (decide (n < 16)).
  - rewrite Z.mul_pow2_bits_low by lia. by rewrite !andb_false_r.
  - f_equal. replace n with ((n - 16) + 16) by lia.
    rewrite <- !Z.div_pow2_bits, E by lia. done.
Qed.

Section urefs.
Context (b d : Z) (Hd : 0 <= IE_BITS_UREFS b + d <= MACH_PORT_UREFS_MAX).

Lemma urefs_add : IE_BITS_UREFS (b + d) = IE_BITS_UREFS b + d.
Proof. revert Hd. rewrite !IE_BITS_UREFS_mod. unfold MACH_PORT_UREFS_MAX. intros. zlia. Qed.

Lemma type_urefs_add : IE_BITS_TYPE (b + d) = IE_BITS_TYPE b.
Proof. by apply (land_high_urefs b d 0x1f). Qed.

Lemma gen_urefs_add : IE_BITS_GEN (b + d) = IE_BITS_GEN b.
Proof. by apply (land_high_urefs b d 0xff00). Qed.
End urefs.

(** ** Masks and added bits *)

Ltac zeval t := let v := eval vm_compute in t in change t with v.

(** Pushes a field through constant masks and unions, and evaluates. *)
Ltac bits_simpl :=
  unfold IE_BITS_TYPE, IE_BITS_UREFS, IE_BITS_GEN in *;
  rewrite ?Z.land_lor_distr_l, <- ?Z.land_assoc;
  repeat match goal with
  | |- context [Z.land ?x (Z.land ?m ?k)] =>
      is_ground m; is_ground k; zeval (Z.land m k)
  | |- context [Z.land ?m ?k] => is_ground m; is_ground k; zeval (Z.land m k)
  end;
  rewrite ?Z.land_0_r, ?Z.lor_0_r, ?Z.lor_0_l.

(** ** Generations *)

(** A generation is eight bits; its low two, [c], never change by counting, and
    are binary 11 for every name that the kernel chooses.  The generation
    stays below the rollover point [r] of the entry; the fresh word of a table is of
    this form too, and so is the word of a name that the user has chosen. *)
Definition gen_word (c k r : Z) : Z := (4 * k + c) * 2 ^ 24 + r * 2 ^ 22.
Definition gen_ok (bits : Z) : Prop :=
  exists c k r, 0 <= c < 4 /\ 0 <= k < 64 /\ 0 <= r < 4 /\ (4 * k + c < 255 - 64 * r \/ r = 0) /\
    bits = gen_word c k r.

Lemma gen_ok_fresh : gen_ok IE_BITS_GEN_MASK.
Proof. exists 3, 63, 0. repeat split; try lia. Qed.

Lemma new_rollpoint_word roll : ipc_entry_new_rollpoint roll = gen_word 3 0 (roll mod 4).
Proof.
  unfold ipc_entry_new_rollpoint. change IE_BITS_ROLL_MASK with (Z.shiftl (Z.ones 2) 22).
  rewrite land_field, Z.shiftl_mul_pow2 by (unfold IE_BITS_ROLL_POS; lia).
  unfold IE_BITS_ROLL_POS.
  assert (E : (u32 (roll * 2 ^ 22) / 2 ^ 22) mod 2 ^ 2 = roll mod 4) by (unfold u32; zlia).
  rewrite E. unfold gen_word. rewrite lor_add_disjoint; [done|].
  assert (0 <= roll mod 4 < 4) by (apply Z.mod_pos_bound; lia).
  assert (roll mod 4 = 0 \/ roll mod 4 = 1 \/ roll mod 4 = 2 \/ roll mod 4 = 3)
    as [->|[->|[->| ->]]] by lia; reflexivity.
Qed.

(** The word of a claimed entry whose word was [b]. *)
Definition next_gen (b roll : Z) : Z :=
  let gen := ipc_entry_new_gen b in
  if ipc_entry_gen_rolled b gen then ipc_entry_new_rollpoint roll else gen.

Definition next_gen_check (c k r : Z) : bool :=
  let b := gen_word c k r in
  let g := ipc_entry_new_gen b in
  if ipc_entry_gen_rolled b g then 0 <? k
  else (g =? gen_word c (k + 1) r) && (4 * (k + 1) + c <? 255 - 64 * r).

Lemma next_gen_checked c k r :
  0 <= c < 4 -> 0 <= k < 64 -> 0 <= r < 4 -> 4 * k + c < 255 - 64 * r \/ r = 0 ->
  next_gen_check c k r = true.
Proof.
  intros Hc Hk Hr Hkr.
  assert (H : forallb (fun c => forallb (fun r => forallb (fun k =>
      negb ((4 * k + c <? 255 - 64 * r) || (r =? 0)) || next_gen_check c k r)
      (seqZ 0 64)) (seqZ 0 4)) (seqZ 0 4) = true) by by vm_compute.
  rewrite forallb_forall in H. specialize (H c). rewrite <- list_elem_of_In, elem_of_seqZ in H.
  specialize (H ltac:(lia)).
  rewrite forallb_forall in H. specialize (H r). rewrite <- list_elem_of_In, elem_of_seqZ in H.
  specialize (H ltac:(lia)). rewrite forallb_forall in H. specialize (H k).
  rewrite <- list_elem_of_In, elem_of_seqZ in H. specialize (H ltac:(lia)).
  apply orb_true_iff in H as [H|H]; [|done].
  apply negb_true_iff, orb_false_iff in H. lia.
Qed.

Section word.
Context (c k r : Z) (Hc : 0 <= c < 4) (Hk : 0 <= k < 64) (Hr : 0 <= r < 4).

Lemma IE_BITS_GEN_word : IE_BITS_GEN (gen_word c k r) = (4 * k + c) * 2 ^ 24.
Proof. rewrite IE_BITS_GEN_div. unfold gen_word. zlia. Qed.

Lemma IE_BITS_TYPE_word : IE_BITS_TYPE (gen_word c k r) = 0.
Proof. rewrite IE_BITS_TYPE_div. unfold gen_word. zlia. Qed.

Lemma IE_BITS_UREFS_word : IE_BITS_UREFS (gen_word c k r) = 0.
Proof. rewrite IE_BITS_UREFS_mod. unfold gen_word. zlia. Qed.
End word.

(** A claimed entry never keeps the generation it had, nor takes the all-ones
    generation of [MACH_PORT_DEAD]. *)
Lemma next_gen_ok b roll :
  gen_ok b ->
  gen_ok (next_gen b roll) /\ IE_BITS_GEN (next_gen b roll) <> IE_BITS_GEN b /\
  exists g, 0 < g < 255 /\ IE_BITS_GEN (next_gen b roll) = g * 2 ^ 24.
Proof.
  intros (c & k & r & Hc & Hk & Hr & Hkr & ->).
  pose proof (next_gen_checked c k r Hc Hk Hr Hkr) as H. unfold next_gen_check in H.
  unfold next_gen. destruct (ipc_entry_gen_rolled _ _).
  - rewrite new_rollpoint_word. pose proof (Z.mod_pos_bound roll 4).
    rewrite !IE_BITS_GEN_word by lia. split; [|split; [lia|exists 3; lia]].
    exists 3, 0, (roll mod 4). repeat split; lia.
  - apply andb_true_iff in H as [->%Z.eqb_eq H]. apply Z.ltb_lt in H.
    rewrite !IE_BITS_GEN_word by lia. split; [|split; [lia|exists (4 * (k + 1) + c); lia]].
    exists c, (k + 1), r. repeat split; lia.
Qed.

Lemma gen_ok_type b : gen_ok b -> IE_BITS_TYPE b = MACH_PORT_TYPE_NONE.
Proof. intros (c & k & r & Hc & Hk & Hr & _ & ->). by apply IE_BITS_TYPE_word. Qed.

Lemma gen_ok_urefs b : gen_ok b -> IE_BITS_UREFS b = 0.
Proof. intros (c & k & r & Hc & Hk & Hr & _ & ->). by apply IE_BITS_UREFS_word. Qed.

(** The generation of any name will do. *)
Lemma gen_ok_name name : gen_ok (MACH_PORT_GEN name).
Proof.
  rewrite MACH_PORT_GEN_mod. exists (name mod 4), (name mod 256 / 4), 0. unfold gen_word.
  repeat split; try lia; zlia.
Qed.

Lemma IE_BITS_GEN_name name : IE_BITS_GEN (MACH_PORT_GEN name) = MACH_PORT_GEN name.
Proof. rewrite MACH_PORT_GEN_mod, IE_BITS_GEN_div. zlia. Qed.
