(* ===== verification/IpcTable.v ===== *)
(** * Table sizes (ipc/ipc_table.c, ipc/ipc_table.h)

    The two boot-time arrays of table sizes: [ipc_table_entries], the sizes an
    entry table grows through, and [ipc_table_requests], the sizes of a port's
    table of notification requests.  An array of [struct ipc_table_size] is the
    list of its [its_size] fields, and a pointer into it is an index. *)

From S2P Require Import Prelude IpcTypes.

(** ** ipc_table_fill *)

Section fill.
(** [PAGE_MAX_SIZE] is 4096 on x86_64 and 16384 on arm64. *)
Context (PAGE_MAX_SIZE : Z).
Context (num minsize elemsize : Z).

(** [its[index].its_size = ...; index++] when the size is large enough *)
Definition fill_put (its : list Z) (size : Z) : list Z :=
  if minsize <=? size then its ++ [u32 (size / elemsize)] else its.

(** The powers of two, up to the page size. *)
Fixpoint fill_pow2 (fuel : nat) (its : list Z) (size : Z) : option (list Z * Z) :=
  match fuel with
  | O => None
  | S fuel =>
      if (alen its <? num) && (size <? PAGE_MAX_SIZE) then
        fill_pow2 fuel (fill_put its size) (u64 (Z.shiftl size 1))
      else Some (its, size)
  end.

(** The inner loop of at most [n] increments. *)
Fixpoint fill_period (n : nat) (its : list Z) (size incrsize : Z) : list Z * Z :=
  match n with
  | O => (its, size)
  | S n =>
      if alen its <? num then
        fill_period n (fill_put its size) (u64 (size + incrsize)) incrsize
      else (its, size)
  end.

Fixpoint fill_pages (fuel : nat) (its : list Z) (size incrsize : Z) : option (list Z) :=
  match fuel with
  | O => None
  | S fuel =>
      if alen its <? num then
        let '(its, size) := fill_period 15 its size incrsize in
        fill_pages fuel its size
          (if incrsize <? Z.shiftl PAGE_MAX_SIZE 3 then u64 (Z.shiftl incrsize 1)
           else incrsize)
      else Some its
  end.
End fill.

Definition ipc_table_fill (PAGE_MAX_SIZE : Z) (fuel : nat) (num min elemsize : Z)
    : option (list Z) :=
  let minsize := u64 (min * elemsize) in
  '(its, size) ← fill_pow2 PAGE_MAX_SIZE num minsize elemsize fuel [] 1;
  fill_pages PAGE_MAX_SIZE num minsize elemsize fuel its size PAGE_MAX_SIZE.

(** ** ipc_table_init *)

Definition IPC_TABLE_REQUESTS_SIZE : Z := 64.
Definition sizeof_ipc_entry : Z := 24.
Definition sizeof_ipc_port_request : Z := 16.
Definition IPC_ENTRY_INDEX_MAX : Z := 2 ^ 32 - 1.

(** A build: [CONFIG_IPC_TABLE_ENTRIES_STEPS] and [PAGE_MAX_SIZE]. *)
Record ipc_config := { IPC_TABLE_ENTRIES_SIZE : Z; config_page : Z }.

(** Returns [ipc_table_entries] and [ipc_table_requests]; [None] also when the
    assertion on the largest size fails. *)
Definition ipc_table_init (fuel : nat) (c : ipc_config) : option (list Z * list Z) :=
  entries ← ipc_table_fill (config_page c) fuel (IPC_TABLE_ENTRIES_SIZE c - 1) 16
              sizeof_ipc_entry;
  last ← aget entries (IPC_TABLE_ENTRIES_SIZE c - 2);
  if negb (last <=? IPC_ENTRY_INDEX_MAX) then None
  else
    requests ← ipc_table_fill (config_page c) fuel (IPC_TABLE_REQUESTS_SIZE - 1) 2
                 sizeof_ipc_port_request;
    Some (entries ++ [last], requests ++ [0]).

(** [ipc_table_max_entries] and [ipc_table_max_requests] read the largest size. *)
Definition ipc_table_max_entries (entries : list Z) : Z :=
  default 0 (aget entries (alen entries - 1)).
Definition ipc_table_max_requests (requests : list Z) : Z :=
  default 0 (aget requests (alen requests - 2)).

(** ** The invariants that ipc_table.h states *)

Fixpoint increasing (l : list Z) : bool :=
  match l with
  | x :: (y :: _) as l' => (x <? y) && increasing l'
  | _ => true
  end.

(** Strictly increasing but for the last two sizes, which are equal; the largest
    is at most the index of [MACH_PORT_DEAD]. *)
Definition table_entries_ok (sizes : list Z) : bool :=
  increasing (removelast sizes) &&
  match aget sizes (alen sizes - 2), aget sizes (alen sizes - 1), aget sizes 0 with
  | Some x, Some y, Some z =>
      (x =? y) && (y <=? MACH_PORT_INDEX MACH_PORT_DEAD) && (16 <=? z)
  | _, _, _ => false
  end.

(** Strictly increasing but for the last size, which is zero. *)
Definition table_requests_ok (sizes : list Z) : bool :=
  increasing (removelast sizes) &&
  match aget sizes (alen sizes - 1), aget sizes 0 with
  | Some x, Some z => (x =? 0) && (2 <=? z)
  | _, _ => false
  end.

(** The builds of config/MASTER: 64 and 256 steps, on 4K and 16K pages. *)
Definition ipc_configs : list ipc_config :=
  [{| IPC_TABLE_ENTRIES_SIZE := 64; config_page := 4096 |};
   {| IPC_TABLE_ENTRIES_SIZE := 64; config_page := 16384 |};
   {| IPC_TABLE_ENTRIES_SIZE := 256; config_page := 4096 |};
   {| IPC_TABLE_ENTRIES_SIZE := 256; config_page := 16384 |}].

Definition table_init_check (c : ipc_config) : bool :=
  match ipc_table_init 64 c with
  | Some (e, r) =>
      (alen e =? IPC_TABLE_ENTRIES_SIZE c) && (alen r =? IPC_TABLE_REQUESTS_SIZE) &&
      table_entries_ok e && table_requests_ok r
  | None => false
  end.

(** C30. In every configured build [ipc_table_init] ends, its assertion on the
    largest size holds, and the two arrays satisfy what ipc_table.h requires:
    entry table sizes strictly increase up to the last two, which are equal and
    no larger than the index of [MACH_PORT_DEAD], and request table sizes
    strictly increase up to the final zero. *)
Theorem table_init_ok (c : ipc_config) :
  c ∈ ipc_configs ->
  exists e r, ipc_table_init 64 c = Some (e, r) /\
    alen e = IPC_TABLE_ENTRIES_SIZE c /\ alen r = IPC_TABLE_REQUESTS_SIZE /\
    table_entries_ok e = true /\ table_requests_ok r = true.
Proof.
  intros Hc. assert (H : table_init_check c = true).
  { revert c Hc. apply Forall_forall. repeat constructor. }
  unfold table_init_check in H. destruct (ipc_table_init 64 c) as [[e r]|]; [|done].
  exists e, r. rewrite !andb_true_iff, !Z.eqb_eq in H. naive_solver.
Qed.

Lemma table_init_ok_witness :
  exists e r, ipc_table_init 64 {| IPC_TABLE_ENTRIES_SIZE := 64; config_page := 4096 |}
      = Some (e, r) /\
    alen e = 64 /\ alen r = IPC_TABLE_REQUESTS_SIZE /\
    table_entries_ok e = true /\ table_requests_ok r = true.
Proof.
  apply (table_init_ok {| IPC_TABLE_ENTRIES_SIZE := 64; config_page := 4096 |}).
  by apply list_elem_of_In; left.
Defined.

(** With 256 steps and 4K pages the largest entry table has 299349 entries,
    not the 300714 that config/MASTER announces; the 137898 announced for 64
    steps is the size with 16K pages. *)
Theorem table_max_entries_values :
  (fun c => ipc_table_max_entries ∘ fst <$> ipc_table_init 64 c) <$> ipc_configs =
  [Some 37205; Some 137898; Some 299349; Some 1186474].
Proof. vm_compute. reflexivity. Qed.

(** ** Consequences of the invariants *)

Lemma increasing_next l k x y :
  increasing l = true -> aget l k = Some x -> aget l (k + 1) = Some y -> x < y.
Proof.
  intros Hi Hk Hk1. apply aget_Some_range in Hk as Hr. revert k Hk Hk1 Hr.
  induction l as [|a l IH]; intros k Hk Hk1 Hr; [unfold alen in Hr; simpl in Hr; lia|].
  destruct l as [|b l]; [by apply aget_Some_range in Hk1; unfold alen in *; simpl in *; lia|].
  cbn [increasing] in Hi. apply andb_true_iff in Hi as [Hab Hi].
  destruct (decide (k = 0)) as [->|]; [injection Hk as <-; injection Hk1 as <-; lia|].
  rewrite aget_cons in Hk by lia. rewrite aget_cons in Hk1 by lia.
  apply (IH Hi (k - 1)); [done| |unfold alen in *; simpl in *; lia].
  by replace (k - 1 + 1) with (k + 1 - 1) by lia.
Qed.

Lemma aget_removelast {A} (l : list A) k : k < alen l - 1 -> aget (removelast l) k = aget l k.
Proof.
  destruct (decide (l = [])) as [->|Hl]; [done|].
  destruct (exists_last Hl) as (l' & x & ->). rewrite removelast_last. unfold alen, aget.
  rewrite length_app. simpl. intros Hk. destruct (Z.ltb_spec k 0); [done|].
  by rewrite lookup_app_l by lia.
Qed.

Lemma alen_removelast {A} (l : list A) : 0 < alen l -> alen (removelast l) = alen l - 1.
Proof.
  destruct (decide (l = [])) as [->|Hl]; [done|].
  destruct (exists_last Hl) as (l' & x & ->). rewrite removelast_last. unfold alen.
  rewrite length_app. simpl. lia.
Qed.

(** Neighbouring sizes. *)
Lemma table_entries_next sizes k x y :
  table_entries_ok sizes = true -> aget sizes k = Some x -> aget sizes (k + 1) = Some y ->
  (x < y /\ k + 2 < alen sizes) \/ (x = y /\ k + 2 = alen sizes).
Proof.
  intros Hok Hk Hk1. apply andb_true_iff in Hok as [Hi Hl].
  apply aget_Some_range in Hk as Hr, Hk1 as Hr1. destruct (decide (k + 2 = alen sizes)) as [E|].
  - right. replace (alen sizes - 2) with k in Hl by lia.
    replace (alen sizes - 1) with (k + 1) in Hl by lia. rewrite Hk, Hk1 in Hl.
    destruct (aget sizes 0); [|done]. split; [lia|done].
  - left. split; [|lia]. eapply (increasing_next _ k); [exact Hi|..]; by rewrite aget_removelast by lia.
Qed.

Lemma table_entries_bound sizes k x :
  table_entries_ok sizes = true -> aget sizes k = Some x -> 16 <= x < 2 ^ 24.
Proof.
  intros Hok Hk. apply aget_Some_range in Hk as Hr.
  assert (Hlast : forall y, aget sizes (alen sizes - 1) = Some y -> y < 2 ^ 24).
  { intros y Hy. apply andb_true_iff in Hok as [_ Hl]. rewrite Hy in Hl.
    destruct (aget sizes (alen sizes - 2)), (aget sizes 0); try done.
    change (MACH_PORT_INDEX MACH_PORT_DEAD) with (2 ^ 24 - 1) in Hl. lia. }
  assert (Hfirst : forall y, aget sizes 0 = Some y -> 16 <= y).
  { intros y Hy. apply andb_true_iff in Hok as [_ Hl]. rewrite Hy in Hl.
    destruct (aget sizes (alen sizes - 2)), (aget sizes (alen sizes - 1)); try done. lia. }
  split.
  - assert (Hlow : forall n k x, k = Z.of_nat n -> aget sizes k = Some x -> 16 <= x); [|by
      apply (Hlow (Z.to_nat k) k x); [lia|]].
    clear k x Hk Hr. intros n. induction n as [|n IH]; intros k x -> Hk; [by apply Hfirst|].
    apply aget_Some_range in Hk as Hr. destruct (aget_lt_Some sizes (Z.of_nat n)) as [y Hy]; [lia|].
    pose proof (IH _ _ eq_refl Hy). replace (Z.of_nat (S n)) with (Z.of_nat n + 1) in Hk by lia.
    destruct (table_entries_next _ _ _ _ Hok Hy Hk); lia.
  - assert (Hup : forall n k x, alen sizes - 1 - k = Z.of_nat n -> aget sizes k = Some x -> x < 2 ^ 24);
      [|by apply (Hup (Z.to_nat (alen sizes - 1 - k)) k x); [lia|]].
    clear k x Hk Hr. intros n. induction n as [|n IH]; intros k x Hn Hk.
    { apply Hlast. by replace (alen sizes - 1) with k by lia. }
    apply aget_Some_range in Hk as Hr. destruct (aget_lt_Some sizes (k + 1)) as [y Hy]; [lia|].
    pose proof (IH (k + 1) y ltac:(lia) Hy). destruct (table_entries_next _ _ _ _ Hok Hk Hy); lia.
Qed.

Lemma table_entries_max sizes k x :
  table_entries_ok sizes = true -> aget sizes k = Some x -> x <= ipc_table_max_entries sizes.
Proof.
  intros Hok. remember (Z.to_nat (alen sizes - k)) as n eqn:En. revert k x En.
  induction n as [|n IH]; intros k x En Hk; apply aget_Some_range in Hk as Hr; [lia|].
  destruct (decide (k = alen sizes - 1)) as [->|].
  - unfold ipc_table_max_entries. by rewrite Hk.
  - destruct (aget_lt_Some sizes (k + 1)) as [y Hy]; [lia|].
    specialize (IH (k + 1) y ltac:(lia) Hy).
    destruct (table_entries_next _ _ _ _ Hok Hk Hy); lia.
Qed.
