(* ===== verification/IpcHash.v ===== *)
(** * The reverse hash of a space (ipc/ipc_hash.c, os/hash.h)

    Each space maps an object back to the name of its send right with an
    open-addressing hash table threaded through the [ie_index]/[ie_dist] fields
    of the entry table itself.  Insertion is Robin Hood: an element takes the
    slot of a less displaced one and carries the victim on.  [ie_dist] is the
    displacement of the element of the slot, saturated at [IPC_ENTRY_DIST_MAX].

    The operations return [None] when an assertion of the source fails, when an
    index leaves the table, or when the loop bound runs out; the theorems show
    that they return [Some] on well-formed tables. *)

From S2P Require Import Prelude IpcTypes.

(** ** The hash function *)

Definition bswap32 (x : Z) : Z :=
  Z.lor (Z.shiftl (Z.land x 0xff) 24)
    (Z.lor (Z.shiftl (Z.land (Z.shiftr x 8) 0xff) 16)
       (Z.lor (Z.shiftl (Z.land (Z.shiftr x 16) 0xff) 8)
          (Z.land (Z.shiftr x 24) 0xff))).

Definition os_hash_kernel_pointer (pointer : Z) : Z :=
  let key := Z.shiftr pointer 4 in
  let key := u64 (key * 0x5052acdb) in
  Z.lxor (u32 key) (bswap32 (u32 key)).

Definition IH_TABLE_HASH (obj size : Z) : Z := os_hash_kernel_pointer obj mod size.

(** ** Operations *)

(** [++hindex == size ? 0 : hindex] *)
Definition ih_next (size hindex : Z) : Z :=
  if hindex + 1 =? size then 0 else hindex + 1.

(** [if (hdist < IPC_ENTRY_DIST_MAX) ++hdist] *)
Definition ih_bump (hdist : Z) : Z :=
  if hdist <? IPC_ENTRY_DIST_MAX then hdist + 1 else hdist.

Fixpoint ipc_hash_table_lookup_loop (fuel : nat) (table : list ipc_entry)
    (size obj hindex hdist : Z) : option (option (Z * Z)) :=
  match fuel with
  | O => None
  | S fuel =>
      slot ← aget table hindex;
      let index := ie_index slot in
      if index =? 0 then Some None
      else if ie_dist slot <? hdist then Some None
      else
        entry ← aget table index;
        let again :=
          ipc_hash_table_lookup_loop fuel table size obj
            (ih_next size hindex) (ih_bump hdist) in
        if hdist =? ie_dist slot then
          if negb (index <? size) then None
          else if ie_object entry =? obj then
            Some (Some (MACH_PORT_MAKE index (IE_BITS_GEN (ie_bits entry)), index))
          else again
        else if ie_object entry =? obj then None
        else again
  end.

(** Returns the name and the index of the entry, [None] for [FALSE]. *)
Definition ipc_hash_table_lookup (table : list ipc_entry) (size obj : Z)
    : option (option (Z * Z)) :=
  if obj =? IO_NULL then Some None
  else
    ipc_hash_table_lookup_loop (S (Z.to_nat size)) table size obj
      (IH_TABLE_HASH obj size) 0.

Fixpoint ipc_hash_table_insert_loop (fuel : nat) (table : list ipc_entry)
    (size index hindex hdist : Z) : option (list ipc_entry) :=
  match fuel with
  | O => None
  | S fuel =>
      slot ← aget table hindex;
      if ie_index slot =? 0 then
        Some (aset table hindex (set_ie_hash index hdist slot))
      else if ie_dist slot <? hdist then
        (* steal the slot and keep inserting its element *)
        ipc_hash_table_insert_loop fuel
          (aset table hindex (set_ie_hash index hdist slot)) size
          (ie_index slot) (ih_next size hindex) (ih_bump (ie_dist slot))
      else
        ipc_hash_table_insert_loop fuel table size index
          (ih_next size hindex) (ih_bump hdist)
  end.

Definition ipc_hash_table_insert (table : list ipc_entry) (size obj index : Z)
    : option (list ipc_entry) :=
  if (index =? 0) || (obj =? IO_NULL) then None
  else
    entry ← aget table index;
    if negb (ie_object entry =? obj) then None
    else
      ipc_hash_table_insert_loop (S (Z.to_nat size)) table size index
        (IH_TABLE_HASH obj size) 0.

(** The search for the slot of [index]. *)
Fixpoint ipc_hash_table_delete_find (fuel : nat) (table : list ipc_entry)
    (size index hindex : Z) : option Z :=
  match fuel with
  | O => None
  | S fuel =>
      slot ← aget table hindex;
      if ie_index slot =? index then Some hindex
      else ipc_hash_table_delete_find fuel table size index (ih_next size hindex)
  end.

(** The backward shift: [hindex] is the hole. *)
Fixpoint ipc_hash_table_delete_shift (fuel : nat) (table : list ipc_entry)
    (size hindex : Z) : option (list ipc_entry) :=
  match fuel with
  | O => None
  | S fuel =>
      hole ← aget table hindex;
      let dindex := ih_next size hindex in
      dslot ← aget table dindex;
      let index := ie_index dslot in
      let dist := ie_dist dslot in
      if (index =? 0) || (dist =? 0) then
        Some (aset table hindex (set_ie_hash 0 0 hole))
      else
        dist' ←
          (if dist =? IPC_ENTRY_DIST_MAX then
             entry ← aget table index;
             let desired := IH_TABLE_HASH (ie_object entry) size in
             let d :=
               if desired <=? hindex then hindex - desired
               else hindex + size - desired in
             Some (if IPC_ENTRY_DIST_MAX <? d then IPC_ENTRY_DIST_MAX else d)
           else Some (dist - 1));
        ipc_hash_table_delete_shift fuel
          (aset table hindex (set_ie_hash index dist' hole)) size dindex
  end.

Definition ipc_hash_table_delete (table : list ipc_entry) (size obj index : Z)
    : option (list ipc_entry) :=
  if (index =? MACH_PORT_NULL) || (obj =? IO_NULL) then None
  else
    entry ← aget table index;
    if negb (ie_object entry =? obj) then None
    else
      hindex ← ipc_hash_table_delete_find (S (Z.to_nat size)) table size index
                 (IH_TABLE_HASH obj size);
      ipc_hash_table_delete_shift (S (Z.to_nat size)) table size hindex.

(** ** Invariant

    [ih_disp] is the displacement of slot [h] from the home slot [a], and
    [ih_pos] the slot at distance [k] after [a], both modulo the table size. *)

Definition ih_disp (n a h : Z) : Z := if a <=? h then h - a else h + n - a.
Definition ih_pos (n a k : Z) : Z := if a + k <? n then a + k else a + k - n.

Definition ih_index (t : list ipc_entry) (h : Z) : Z :=
  match aget t h with Some e => ie_index e | None => 0 end.
Definition ih_dist (t : list ipc_entry) (h : Z) : Z :=
  match aget t h with Some e => ie_dist e | None => 0 end.
Definition ih_object (t : list ipc_entry) (i : Z) : Z :=
  match aget t i with Some e => ie_object e | None => IO_NULL end.
Definition ih_home (t : list ipc_entry) (i : Z) : Z :=
  IH_TABLE_HASH (ih_object t i) (alen t).

(** The displacement of the element of slot [h]. *)
Definition ih_slot_disp (t : list ipc_entry) (h : Z) : Z :=
  ih_disp (alen t) (ih_home t (ih_index t h)) h.

(** Every slot between the home of an element and its slot is taken, by an
    element at least as displaced as the passing one was there. *)
Definition ih_path (t : list ipc_entry) (a k : Z) : Prop :=
  forall j, 0 <= j < k ->
    ih_index t (ih_pos (alen t) a j) <> 0 /\
    Z.min j IPC_ENTRY_DIST_MAX <= ih_dist t (ih_pos (alen t) a j).

Record ih_wf (t : list ipc_entry) : Prop := {
  ih_wf_len : 1 < alen t;
  ih_wf_range h : 0 <= h < alen t -> ih_index t h <> 0 -> 0 < ih_index t h < alen t;
  ih_wf_object h : 0 <= h < alen t -> ih_index t h <> 0 ->
    ih_object t (ih_index t h) <> IO_NULL;
  ih_wf_dist h : 0 <= h < alen t -> ih_index t h <> 0 ->
    ih_dist t h = Z.min (ih_slot_disp t h) IPC_ENTRY_DIST_MAX;
  ih_wf_inj h h' : 0 <= h < alen t -> 0 <= h' < alen t -> ih_index t h <> 0 ->
    ih_index t h = ih_index t h' -> h = h';
  ih_wf_path h : 0 <= h < alen t -> ih_index t h <> 0 ->
    ih_path t (ih_home t (ih_index t h)) (ih_slot_disp t h)
}.

(** The entries the hash table holds. *)
Definition ih_hashed (t : list ipc_entry) (i : Z) : Prop :=
  i <> 0 /\ exists h, 0 <= h < alen t /\ ih_index t h = i.

(** No element is displaced beyond what [ie_dist] can record. *)
Definition ih_unpegged (t : list ipc_entry) : Prop :=
  forall h, 0 <= h < alen t -> ih_index t h <> 0 ->
    ih_slot_disp t h <= IPC_ENTRY_DIST_MAX.

(** The fields of the entries that the hash does not own. *)
Definition ih_strip (t : list ipc_entry) : list ipc_entry := set_ie_hash 0 0 <$> t.

(** ** Modular positions *)

Ltac ih_arith :=
  unfold ih_pos, ih_disp, ih_next, ih_bump, IPC_ENTRY_DIST_MAX in *;
  repeat match goal with
  | |- context [if ?a <=? ?b then _ else _] => destruct (Z.leb_spec a b)
  | |- context [if ?a <? ?b then _ else _] => destruct (Z.ltb_spec a b)
  | |- context [if ?a =? ?b then _ else _] => destruct (Z.eqb_spec a b)
  | H : context [if ?a <=? ?b then _ else _] |- _ => destruct (Z.leb_spec a b)
  | H : context [if ?a <? ?b then _ else _] |- _ => destruct (Z.ltb_spec a b)
  | H : context [if ?a =? ?b then _ else _] |- _ => destruct (Z.eqb_spec a b)
  end; lia.

Section positions.
Context (n a : Z) (Ha : 0 <= a < n).

Lemma ih_pos_range k : 0 <= k < n -> 0 <= ih_pos n a k < n.
Proof. intros. ih_arith. Qed.
Lemma ih_disp_range h : 0 <= h < n -> 0 <= ih_disp n a h < n.
Proof. intros. ih_arith. Qed.
Lemma ih_pos_disp h : 0 <= h < n -> ih_pos n a (ih_disp n a h) = h.
Proof. intros. ih_arith. Qed.
Lemma ih_disp_pos k : 0 <= k < n -> ih_disp n a (ih_pos n a k) = k.
Proof. intros. ih_arith. Qed.
Lemma ih_disp_next h :
  0 <= h < n -> ih_disp n a h + 1 < n -> ih_disp n a (ih_next n h) = ih_disp n a h + 1.
Proof. intros. ih_arith. Qed.
End positions.

Lemma ih_next_range n h : 0 <= h < n -> 0 <= ih_next n h < n.
Proof. intros. ih_arith. Qed.
Lemma ih_disp_home n a : ih_disp n a a = 0.
Proof. ih_arith. Qed.

Lemma ih_bump_min k :
  0 <= k -> ih_bump (Z.min k IPC_ENTRY_DIST_MAX) = Z.min (k + 1) IPC_ENTRY_DIST_MAX.
Proof. intros. ih_arith. Qed.

(** The distance to a slot ahead decreases at each step. *)
Lemma ih_disp_ahead n h e :
  0 <= h < n -> 0 <= e < n -> h <> e ->
  ih_disp n (ih_next n h) e = ih_disp n h e - 1.
Proof. intros. ih_arith. Qed.

(** ** Reading through an update of the hash fields *)

Section hash_update.
Context (t : list ipc_entry) (h i d : Z) (slot : ipc_entry).
Hypothesis Hslot : aget t h = Some slot.
Let t' := aset t h (set_ie_hash i d slot).

Lemma ih_put_len : alen t' = alen t.
Proof. apply alen_aset. Qed.

Lemma ih_put_index x : ih_index t' x = if decide (x = h) then i else ih_index t x.
Proof.
  unfold ih_index, t'. pose proof (aget_Some_range _ _ _ Hslot).
  rewrite aget_aset. repeat case_decide; naive_solver.
Qed.

Lemma ih_put_dist x : ih_dist t' x = if decide (x = h) then d else ih_dist t x.
Proof.
  unfold ih_dist, t'. pose proof (aget_Some_range _ _ _ Hslot).
  rewrite aget_aset. repeat case_decide; naive_solver.
Qed.

Lemma ih_put_object x : ih_object t' x = ih_object t x.
Proof.
  unfold ih_object, t'. pose proof (aget_Some_range _ _ _ Hslot).
  rewrite aget_aset. repeat case_decide; [|done].
  destruct H0 as [-> _]. by rewrite Hslot.
Qed.

Lemma ih_put_home x : ih_home t' x = ih_home t x.
Proof. unfold ih_home. by rewrite ih_put_object, ih_put_len. Qed.

Lemma ih_put_strip : ih_strip t' = ih_strip t.
Proof.
  unfold ih_strip, t', aset, aget in *. destruct (h <? 0); [done|].
  rewrite list_fmap_insert. apply list_insert_id.
  by rewrite list_lookup_fmap, Hslot.
Qed.
End hash_update.

Lemma ih_index_slot t h slot : aget t h = Some slot -> ih_index t h = ie_index slot.
Proof. unfold ih_index. by intros ->. Qed.
Lemma ih_dist_slot t h slot : aget t h = Some slot -> ih_dist t h = ie_dist slot.
Proof. unfold ih_dist. by intros ->. Qed.
Lemma ih_object_slot t h slot : aget t h = Some slot -> ih_object t h = ie_object slot.
Proof. unfold ih_object. by intros ->. Qed.

Lemma ih_strip_len t t' : ih_strip t' = ih_strip t -> alen t' = alen t.
Proof.
  unfold ih_strip, alen. intros H%(f_equal length). by rewrite !length_fmap in H; rewrite H.
Qed.

Lemma ih_strip_object t t' i : ih_strip t' = ih_strip t -> ih_object t' i = ih_object t i.
Proof.
  unfold ih_strip, ih_object, aget. intros H. destruct (i <? 0); [done|].
  apply (f_equal (lookup (Z.to_nat i))) in H. rewrite !list_lookup_fmap in H.
  destruct (t' !! Z.to_nat i), (t !! Z.to_nat i); naive_solver.
Qed.

Lemma ih_home_range t i : 0 < alen t -> 0 <= ih_home t i < alen t.
Proof. intros. unfold ih_home, IH_TABLE_HASH. by apply Z.mod_pos_bound. Qed.

(** ** There is always an empty slot: index 0 is never hashed *)

Lemma ih_wf_empty t : ih_wf t -> exists e, 0 <= e < alen t /\ ih_index t e = 0.
Proof.
  intros W. pose proof (ih_wf_len _ W).
  destruct (decide (Exists (fun h => ih_index t (Z.of_nat h) = 0) (seq 0 (length t))))
    as [(h & Hin & Hh)%Exists_exists|Hno].
  - exists (Z.of_nat h). apply elem_of_seq in Hin. unfold alen. split; [lia|done].
  - exfalso.
    assert (Hocc : forall h, 0 <= h < alen t -> ih_index t h <> 0).
    { intros h Hh H0. apply Hno, Exists_exists. exists (Z.to_nat h).
      rewrite elem_of_seq, Z2Nat.id by lia. unfold alen in *. split; [lia|done]. }
    set (l := (fun h => Z.to_nat (ih_index t (Z.of_nat h))) <$> seq 0 (length t)).
    assert (NoDup l) as Hnd.
    { apply NoDup_fmap_2_strong; [|apply NoDup_seq].
      intros x y Hx%elem_of_seq Hy%elem_of_seq Heq.
      assert (0 <= Z.of_nat x < alen t) as Hx' by (unfold alen; lia).
      assert (0 <= Z.of_nat y < alen t) as Hy' by (unfold alen; lia).
      pose proof (ih_wf_range _ W _ Hx' (Hocc _ Hx')).
      pose proof (ih_wf_range _ W _ Hy' (Hocc _ Hy')).
      apply Nat2Z.inj, (ih_wf_inj _ W); auto; lia. }
    assert (l ⊆+ seq 1 (length t - 1)) as Hsub.
    { apply NoDup_submseteq; [done|]. intros x (h & -> & Hh%elem_of_seq)%list_elem_of_fmap.
      assert (0 <= Z.of_nat h < alen t) as Hh' by (unfold alen; lia).
      pose proof (ih_wf_range _ W _ Hh' (Hocc _ Hh')).
      apply elem_of_seq. unfold alen in *. lia. }
    apply submseteq_length in Hsub. unfold l in Hsub.
    rewrite length_fmap, !length_seq in Hsub. unfold alen in *. lia.
Qed.

(** ** Insertion *)

(** The element [c] in hand at slot [h] of the insertion loop. *)
Record ih_carry (t : list ipc_entry) (c h d : Z) : Prop := {
  ic_range : 0 < c < alen t;
  ic_object : ih_object t c <> IO_NULL;
  ic_fresh : ~ ih_hashed t c;
  ic_slot : 0 <= h < alen t;
  ic_dist : d = Z.min (ih_disp (alen t) (ih_home t c) h) IPC_ENTRY_DIST_MAX;
  ic_path : ih_path t (ih_home t c) (ih_disp (alen t) (ih_home t c) h)
}.

(** Overwriting a slot with a larger displacement keeps every path. *)
Lemma ih_path_put t h c d slot a k :
  aget t h = Some slot -> c <> 0 ->
  ih_index t h = 0 \/ ih_dist t h <= d ->
  ih_path t a k -> ih_path (aset t h (set_ie_hash c d slot)) a k.
Proof.
  intros Hs Hc Hd Hp j Hj. destruct (Hp j Hj) as [H1 H2].
  rewrite ih_put_len, ih_put_index, ih_put_dist by done.
  case_decide as Heq; [|done]. rewrite Heq in *. split; [done|]. naive_solver lia.
Qed.

Lemma ih_path_occupied t a k :
  0 <= a < alen t -> ih_path t a k -> (exists e, 0 <= e < alen t /\ ih_index t e = 0) ->
  k < alen t.
Proof.
  intros Ha Hp (e & He & He0). destruct (decide (k < alen t)) as [|Hk]; [done|exfalso].
  pose proof (ih_disp_range _ _ Ha _ He).
  destruct (Hp (ih_disp (alen t) a e)) as [H1 _]; [lia|].
  by rewrite ih_pos_disp in H1.
Qed.

Lemma ih_carry_advance t c h d :
  ih_carry t c h d -> ih_index t h <> 0 -> d <= ih_dist t h ->
  (exists e, 0 <= e < alen t /\ ih_index t e = 0) ->
  ih_carry t c (ih_next (alen t) h) (ih_bump d).
Proof.
  intros [Hc Hob Hfr Hh Hd Hp] Hocc Hle He.
  assert (Ha : 0 <= ih_home t c < alen t) by (apply ih_home_range; lia).
  pose proof (ih_disp_range _ _ Ha _ Hh) as Hr.
  assert (Hp' : ih_path t (ih_home t c) (ih_disp (alen t) (ih_home t c) h + 1)).
  { intros j Hj. destruct (decide (j = ih_disp (alen t) (ih_home t c) h)) as [->|].
    - rewrite ih_pos_disp by done. split; [done|lia].
    - apply Hp. lia. }
  pose proof (ih_path_occupied _ _ _ Ha Hp' He).
  split; try done.
  - by apply ih_next_range.
  - rewrite ih_disp_next by done. rewrite Hd. apply ih_bump_min. lia.
  - by rewrite ih_disp_next.
Qed.

Section store.
Context (t : list ipc_entry) (c h d : Z) (slot : ipc_entry).
Context (W : ih_wf t) (C : ih_carry t c h d) (Hslot : aget t h = Some slot).
Context (Hroom : ih_index t h = 0 \/ ih_dist t h <= d).
Let t' := aset t h (set_ie_hash c d slot).

Lemma ih_store_index x : ih_index t' x = if decide (x = h) then c else ih_index t x.
Proof. by apply ih_put_index. Qed.

Lemma ih_store_disp x :
  ih_slot_disp t' x =
  if decide (x = h) then ih_disp (alen t) (ih_home t c) h else ih_slot_disp t x.
Proof.
  unfold ih_slot_disp. unfold t' at 1. rewrite ih_put_len, ih_store_index.
  unfold t'. rewrite ih_put_home by done. by case_decide; subst.
Qed.

Lemma ih_store_wf : ih_wf t'.
Proof.
  pose proof (ic_range _ _ _ _ C) as Hc.
  assert (Hlen : alen t' = alen t) by apply ih_put_len.
  split; rewrite ?Hlen.
  - apply W.
  - intros x Hx. rewrite ih_store_index. case_decide; [done|]. by apply W.
  - intros x Hx. rewrite ih_store_index. unfold t'. rewrite ih_put_object by done.
    case_decide; [by intros; apply C|]. by apply W.
  - intros x Hx. rewrite ih_store_index, ih_store_disp. unfold t'.
    rewrite ih_put_dist by done. case_decide; [by intros; apply C|]. by apply W.
  - intros x y Hx Hy. rewrite !ih_store_index.
    repeat case_decide; subst; try done; intros Hnz Heq.
    + exfalso. apply (ic_fresh _ _ _ _ C). split; [done|]. by exists y.
    + exfalso. apply (ic_fresh _ _ _ _ C). split; [lia|]. by exists x.
    + by apply (ih_wf_inj _ W).
  - intros x Hx. rewrite ih_store_index, ih_store_disp. unfold t'.
    rewrite ih_put_home by done. intros Hnz.
    apply ih_path_put; [done|lia|done|].
    case_decide; [apply C|by apply W].
Qed.

Lemma ih_store_hashed i :
  ih_hashed t' i <-> i = c \/ (ih_hashed t i /\ i <> ih_index t h).
Proof.
  pose proof (ic_range _ _ _ _ C). pose proof (ic_slot _ _ _ _ C).
  unfold ih_hashed. rewrite (ih_put_len t h c d slot : alen t' = alen t).
  setoid_rewrite ih_store_index. split.
  - intros (Hi & x & Hx & Heq). case_decide; [by left|]. right.
    split; [naive_solver|]. intros ->.
    apply (ih_wf_inj _ W) in Heq; [done..|]. congruence.
  - intros [->|((Hi & x & Hx & Heq) & Hne)].
    + split; [lia|]. exists h. by rewrite decide_True.
    + split; [done|]. exists x. rewrite decide_False; [done|]. intros ->. congruence.
Qed.
End store.

(** The element whose slot was stolen is in hand, one slot further. *)
Lemma ih_carry_victim t c h d slot :
  ih_wf t -> ih_carry t c h d -> aget t h = Some slot ->
  ih_index t h <> 0 -> ih_dist t h < d ->
  ih_carry (aset t h (set_ie_hash c d slot)) (ih_index t h)
    (ih_next (alen t) h) (ih_bump (ih_dist t h)).
Proof.
  intros W C Hslot Hocc Hlt.
  pose proof (ic_slot _ _ _ _ C) as Hh. pose proof (ic_range _ _ _ _ C) as Hc.
  assert (Hroom : ih_index t h = 0 \/ ih_dist t h <= d) by lia.
  set (t' := aset t h (set_ie_hash c d slot)).
  assert (Hlen : alen t' = alen t) by apply ih_put_len.
  assert (Hhome : forall i, ih_home t' i = ih_home t i) by (intros; by apply ih_put_home).
  rewrite <- Hlen. apply ih_carry_advance.
  - split; rewrite ?Hlen, ?Hhome.
    + by apply W.
    + unfold t'. rewrite ih_put_object by done. by apply W.
    + unfold t'. rewrite ih_store_hashed by done.
      intros [Heq|[_ ?]]; [|done].
      apply (ic_fresh _ _ _ _ C). rewrite <- Heq. split; [done|]. by exists h.
    + done.
    + by apply W.
    + apply ih_path_put; [done|lia|done|]. by apply W.
  - unfold t'. rewrite ih_put_index, decide_True by done. lia.
  - unfold t'. rewrite ih_put_dist, decide_True by done. lia.
  - destruct (ih_wf_empty _ W) as (e & He & He0). exists e. rewrite Hlen. split; [done|].
    unfold t'. rewrite ih_put_index by done. case_decide; [by subst|done].
Qed.

Lemma ih_insert_loop_ok fuel t c h d e :
  ih_wf t -> ih_carry t c h d ->
  0 <= e < alen t -> ih_index t e = 0 -> ih_disp (alen t) h e < Z.of_nat fuel ->
  exists t', ipc_hash_table_insert_loop fuel t (alen t) c h d = Some t' /\
    ih_wf t' /\ ih_strip t' = ih_strip t /\
    (forall i, ih_hashed t' i <-> i = c \/ ih_hashed t i).
Proof.
  revert t c h d. induction fuel as [|fuel IH]; intros t c h d W C He He0 Hf.
  { pose proof (ic_slot _ _ _ _ C). ih_arith. }
  pose proof (ic_slot _ _ _ _ C) as Hh.
  destruct (aget_lt_Some t h Hh) as [slot Hslot]. simpl. rewrite Hslot. simpl.
  rewrite <- (ih_index_slot _ _ _ Hslot), <- (ih_dist_slot _ _ _ Hslot).
  destruct (Z.eqb_spec (ih_index t h) 0) as [H0|H0].
  { eexists. split; [done|]. split; [by apply ih_store_wf; auto|].
    split; [by apply ih_put_strip|]. intros i. rewrite ih_store_hashed by auto.
    rewrite H0. unfold ih_hashed. naive_solver. }
  assert (h <> e) by congruence.
  pose proof (ih_disp_ahead _ _ _ Hh He ltac:(done)) as Hstep.
  destruct (Z.ltb_spec (ih_dist t h) d) as [Hlt|Hge].
  - set (t1 := aset t h (set_ie_hash c d slot)).
    assert (Hlen : alen t1 = alen t) by apply ih_put_len.
    destruct (IH t1 (ih_index t h) (ih_next (alen t) h) (ih_bump (ih_dist t h)))
      as (t' & Hrun & W' & Hst & Hin).
    + apply ih_store_wf; auto with lia.
    + by apply ih_carry_victim.
    + by rewrite Hlen.
    + unfold t1. rewrite ih_put_index by done. case_decide; [by subst|done].
    + rewrite Hlen. lia.
    + rewrite Hlen in Hrun. exists t'. split; [done|]. split; [done|].
      split; [rewrite Hst; by apply ih_put_strip|].
      intros i. rewrite Hin. unfold t1. rewrite ih_store_hashed by auto with lia.
      assert (ih_hashed t (ih_index t h)) by (split; [done|by exists h]).
      destruct (decide (i = ih_index t h)) as [->|]; naive_solver.
  - destruct (IH t c (ih_next (alen t) h) (ih_bump d)) as (t' & Hrun & ?); auto with lia.
    + apply ih_carry_advance; auto. by exists e.
    + by exists t'.
Qed.

(** Inserting an entry that is not hashed yet returns, keeps the table
    well-formed, adds exactly this entry and changes no other field. *)
Lemma ih_insert_ok t obj i :
  ih_wf t -> 0 < i < alen t -> ih_object t i = obj -> obj <> IO_NULL -> ~ ih_hashed t i ->
  exists t', ipc_hash_table_insert t (alen t) obj i = Some t' /\
    ih_wf t' /\ ih_strip t' = ih_strip t /\
    (forall j, ih_hashed t' j <-> j = i \/ ih_hashed t j).
Proof.
  intros W Hi Hob Hnz Hfr. unfold ipc_hash_table_insert.
  rewrite (proj2 (Z.eqb_neq i 0)), (proj2 (Z.eqb_neq obj IO_NULL)) by (done || lia). simpl.
  destruct (aget_lt_Some t i) as [ent Hent]; [lia|]. rewrite Hent. simpl.
  rewrite <- (ih_object_slot _ _ _ Hent), Hob, Z.eqb_refl. simpl.
  destruct (ih_wf_empty _ W) as (e & He & He0).
  assert (Hhome : IH_TABLE_HASH obj (alen t) = ih_home t i) by (unfold ih_home; by rewrite Hob).
  rewrite Hhome. assert (Hr : 0 <= ih_home t i < alen t) by (apply ih_home_range; lia).
  apply (ih_insert_loop_ok (S (Z.to_nat (alen t))) t i (ih_home t i) 0 e); try done.
  - split; try done.
    + by rewrite Hob.
    + rewrite ih_disp_home. done.
    + intros j Hj. rewrite ih_disp_home in Hj. lia.
  - pose proof (ih_disp_range _ _ Hr _ He). lia.
Qed.

(** ** Lookup *)

(** [i] is a hashed entry for [obj]; [r] is what a lookup of [obj] must return. *)
Definition ih_lookup_spec (t : list ipc_entry) (obj : Z) (r : option (Z * Z)) : Prop :=
  match r with
  | Some (name, i) =>
      ih_hashed t i /\ ih_object t i = obj /\
      exists e, aget t i = Some e /\ name = MACH_PORT_MAKE i (IE_BITS_GEN (ie_bits e))
  | None => forall i, ih_hashed t i -> ih_object t i <> obj
  end.

(** A hashed entry for [obj] that the probe has not met lies at or after the
    probe, and everything in between is at least as displaced as the probe. *)
Lemma ih_probe_ahead t obj h i :
  ih_wf t -> 0 <= h < alen t ->
  let a := IH_TABLE_HASH obj (alen t) in
  let k := ih_disp (alen t) a h in
  (forall j, 0 <= j < k -> ih_object t (ih_index t (ih_pos (alen t) a j)) <> obj) ->
  ih_hashed t i -> ih_object t i = obj ->
  ih_index t h <> 0 /\ Z.min k IPC_ENTRY_DIST_MAX <= ih_dist t h.
Proof.
  intros W Hh a k Hseen (Hi & x & Hx & Hxi) Hob.
  pose proof (ih_wf_len _ W).
  assert (Ha : 0 <= a < alen t) by (apply Z.mod_pos_bound; lia).
  pose proof (ih_disp_range _ _ Ha _ Hh) as Hk. fold k in Hk.
  assert (Hhm : ih_home t (ih_index t x) = a) by (unfold ih_home; by rewrite Hxi, Hob).
  assert (Hxo : ih_index t x <> 0) by lia.
  pose proof (ih_wf_path _ W _ Hx Hxo) as Hp. pose proof (ih_wf_dist _ W _ Hx Hxo) as Hd.
  unfold ih_slot_disp in Hp, Hd. rewrite Hhm in Hp, Hd.
  pose proof (ih_disp_range _ _ Ha _ Hx) as Hdx.
  destruct (Z.lt_total (ih_disp (alen t) a x) k) as [Hlt|[Heq|Hgt]].
  - exfalso. apply (Hseen (ih_disp (alen t) a x)); [lia|].
    by rewrite ih_pos_disp, Hxi by done.
  - assert (x = h) as ->.
    { rewrite <- (ih_pos_disp (alen t) a x Hx), Heq. by apply ih_pos_disp. }
    split; [done|]. rewrite Hd. fold k. lia.
  - destruct (Hp k) as [H1 H2]; [lia|]. unfold k in H1, H2.
    rewrite ih_pos_disp in H1, H2 by done. by split.
Qed.

Lemma ih_lookup_loop_ok fuel t obj h e :
  ih_wf t -> 0 <= h < alen t ->
  let a := IH_TABLE_HASH obj (alen t) in
  let k := ih_disp (alen t) a h in
  ih_path t a k ->
  (forall j, 0 <= j < k -> ih_object t (ih_index t (ih_pos (alen t) a j)) <> obj) ->
  0 <= e < alen t -> ih_index t e = 0 -> ih_disp (alen t) h e < Z.of_nat fuel ->
  exists r, ipc_hash_table_lookup_loop fuel t (alen t) obj h (Z.min k IPC_ENTRY_DIST_MAX)
            = Some r /\ ih_lookup_spec t obj r.
Proof.
  revert h. induction fuel as [|fuel IH]; intros h W Hh a k Hp Hseen He He0 Hf.
  { ih_arith. }
  pose proof (ih_wf_len _ W).
  assert (Ha : 0 <= a < alen t) by (apply Z.mod_pos_bound; lia).
  pose proof (ih_disp_range _ _ Ha _ Hh) as Hk. fold k in Hk.
  pose proof (fun i => ih_probe_ahead t obj h i W Hh Hseen) as Hahead.
  cbn zeta in Hahead. fold a in Hahead. fold k in Hahead.
  destruct (aget_lt_Some t h Hh) as [slot Hslot]. simpl. rewrite Hslot. simpl.
  rewrite <- (ih_index_slot _ _ _ Hslot), <- (ih_dist_slot _ _ _ Hslot).
  destruct (Z.eqb_spec (ih_index t h) 0) as [H0|H0].
  { exists None. split; [done|]. intros i Hi Hob. by destruct (Hahead i Hi Hob). }
  destruct (Z.ltb_spec (ih_dist t h) (Z.min k IPC_ENTRY_DIST_MAX)) as [Hlt|Hge].
  { exists None. split; [done|]. intros i Hi Hob. destruct (Hahead i Hi Hob). lia. }
  pose proof (ih_wf_range _ W _ Hh H0) as Hri.
  destruct (aget_lt_Some t (ih_index t h)) as [ent Hent]; [lia|]. rewrite Hent. simpl.
  rewrite <- (ih_object_slot _ _ _ Hent).
  assert (h <> e) by congruence.
  pose proof (ih_disp_ahead _ _ _ Hh He ltac:(done)) as Hstep.
  assert (Hp' : ih_path t a (k + 1)).
  { intros j Hj. destruct (decide (j = k)) as [->|]; [|apply Hp; lia].
    unfold k. rewrite ih_pos_disp by done. by split. }
  assert (Hk1 : k + 1 < alen t) by (apply (ih_path_occupied t a); [done|done|by exists e]).
  pose proof (ih_disp_next _ _ Ha _ Hh Hk1) as Hnext. fold k in Hnext.
  assert (Hagain : ih_object t (ih_index t h) <> obj ->
    exists r, ipc_hash_table_lookup_loop fuel t (alen t) obj (ih_next (alen t) h)
                (ih_bump (Z.min k IPC_ENTRY_DIST_MAX)) = Some r /\ ih_lookup_spec t obj r).
  { intros Hno. rewrite ih_bump_min by lia. rewrite <- Hnext.
    apply IH; try done; fold a; rewrite ?Hnext; try done; try lia.
    - by apply ih_next_range.
    - intros j Hj. destruct (decide (j = k)) as [->|]; [|apply Hseen; lia].
      unfold k. by rewrite ih_pos_disp. }
  destruct (Z.eqb_spec (Z.min k IPC_ENTRY_DIST_MAX) (ih_dist t h)) as [Heq|Hneq].
  - rewrite (proj2 (Z.ltb_lt _ _)) by lia. simpl.
    destruct (Z.eqb_spec (ih_object t (ih_index t h)) obj) as [Hob|Hob]; [|by apply Hagain].
    eexists. split; [done|]. simpl. split; [by split; [|exists h]|]. split; [done|]. by exists ent.
  - destruct (Z.eqb_spec (ih_object t (ih_index t h)) obj) as [Hob|Hob]; [|by apply Hagain].
    exfalso. apply Hneq. rewrite (ih_wf_dist _ W _ Hh H0). unfold ih_slot_disp, ih_home.
    by rewrite Hob.
Qed.

(** A lookup returns, and finds an entry exactly when one is hashed. *)
Lemma ih_lookup_ok t obj :
  ih_wf t -> obj <> IO_NULL ->
  exists r, ipc_hash_table_lookup t (alen t) obj = Some r /\ ih_lookup_spec t obj r.
Proof.
  intros W Hnz. unfold ipc_hash_table_lookup.
  rewrite (proj2 (Z.eqb_neq _ _)) by done. pose proof (ih_wf_len _ W).
  destruct (ih_wf_empty _ W) as (e & He & He0).
  assert (Ha : 0 <= IH_TABLE_HASH obj (alen t) < alen t) by (apply Z.mod_pos_bound; lia).
  pose proof (ih_disp_home (alen t) (IH_TABLE_HASH obj (alen t))) as H0.
  destruct (ih_lookup_loop_ok (S (Z.to_nat (alen t))) t obj (IH_TABLE_HASH obj (alen t)) e)
    as (r & Hr & Hspec); try done.
  - rewrite H0. intros j Hj. lia.
  - rewrite H0. intros j Hj. lia.
  - pose proof (ih_disp_range _ _ Ha _ He). lia.
  - rewrite H0 in Hr. by exists r.
Qed.

(** ** Deletion *)

(** The table during the backward shift: slot [h] is a hole whose contents do
    not count, everything else is well-formed and not saturated. *)
Record ih_hole (t : list ipc_entry) (h : Z) : Prop := {
  hw_len : 1 < alen t;
  hw_slot : 0 <= h < alen t;
  hw_range x : 0 <= x < alen t -> x <> h -> ih_index t x <> 0 -> 0 < ih_index t x < alen t;
  hw_object x : 0 <= x < alen t -> x <> h -> ih_index t x <> 0 ->
    ih_object t (ih_index t x) <> IO_NULL;
  hw_dist x : 0 <= x < alen t -> x <> h -> ih_index t x <> 0 ->
    ih_dist t x = ih_slot_disp t x /\ ih_slot_disp t x <= IPC_ENTRY_DIST_MAX;
  hw_inj x y : 0 <= x < alen t -> 0 <= y < alen t -> x <> h -> y <> h ->
    ih_index t x <> 0 -> ih_index t x = ih_index t y -> x = y;
  hw_path x j : 0 <= x < alen t -> x <> h -> ih_index t x <> 0 ->
    0 <= j < ih_slot_disp t x ->
    let p := ih_pos (alen t) (ih_home t (ih_index t x)) j in
    p = h \/ (ih_index t p <> 0 /\ j <= ih_dist t p)
}.

(** The entries of a table with a hole at [h]. *)
Definition ih_live (t : list ipc_entry) (h i : Z) : Prop :=
  i <> 0 /\ exists x, 0 <= x < alen t /\ x <> h /\ ih_index t x = i.

Lemma ih_hole_start t h : ih_wf t -> ih_unpegged t -> 0 <= h < alen t -> ih_hole t h.
Proof.
  intros W U Hh. split; try done.
  - apply W.
  - intros x Hx _. by apply W.
  - intros x Hx _. by apply W.
  - intros x Hx _ Hnz. rewrite (ih_wf_dist _ W) by done. pose proof (U x Hx Hnz).
    split; lia.
  - intros x y Hx Hy _ _. by apply W.
  - intros x j Hx _ Hnz Hj p. right. destruct (ih_wf_path _ W x Hx Hnz j Hj) as [H1 H2].
    pose proof (U x Hx Hnz). fold p in H1, H2. split; [done|lia].
Qed.

(** If the next slot holds nothing displaced, nobody needs the hole. *)
Lemma ih_hole_unused t h :
  ih_hole t h ->
  ih_index t (ih_next (alen t) h) = 0 \/ ih_dist t (ih_next (alen t) h) = 0 ->
  forall x j, 0 <= x < alen t -> x <> h -> ih_index t x <> 0 -> 0 <= j < ih_slot_disp t x ->
    ih_pos (alen t) (ih_home t (ih_index t x)) j <> h.
Proof.
  intros H Hd x j Hx Hxh Hnz Hj Hp. pose proof (hw_len _ _ H). pose proof (hw_slot _ _ H).
  set (a := ih_home t (ih_index t x)) in *.
  assert (Ha : 0 <= a < alen t) by (apply ih_home_range; lia).
  pose proof (ih_disp_range _ _ Ha _ Hx) as Hdx.
  unfold ih_slot_disp in Hj. fold a in Hj.
  assert (Hnext : ih_pos (alen t) a (j + 1) = ih_next (alen t) h).
  { rewrite <- Hp. ih_arith. }
  destruct (decide (j + 1 < ih_disp (alen t) a x)) as [Hlt|Hge].
  - destruct (hw_path _ _ H x (j + 1) Hx Hxh Hnz) as [Heq|[Hp1 Hp2]].
    + unfold ih_slot_disp. fold a. lia.
    + fold a in Heq. rewrite Hnext in Heq. ih_arith.
    + fold a in Hp1, Hp2. rewrite Hnext in Hp1, Hp2. lia.
  - assert (Hxn : x = ih_next (alen t) h).
    { rewrite <- Hnext. replace (j + 1) with (ih_disp (alen t) a x) by lia.
      by rewrite ih_pos_disp. }
    rewrite <- Hxn in Hd. destruct (hw_dist _ _ H x Hx Hxh Hnz) as [Hdist _].
    unfold ih_slot_disp in Hdist. fold a in Hdist. lia.
Qed.

Lemma ih_hole_close t h hole :
  ih_hole t h -> aget t h = Some hole ->
  ih_index t (ih_next (alen t) h) = 0 \/ ih_dist t (ih_next (alen t) h) = 0 ->
  let t' := aset t h (set_ie_hash 0 0 hole) in
  ih_wf t' /\ ih_unpegged t' /\ (forall i, ih_hashed t' i <-> ih_live t h i).
Proof.
  intros H Hs Hd t'. pose proof (hw_slot _ _ H) as Hh.
  assert (Hlen : alen t' = alen t) by apply ih_put_len.
  assert (Hidx : forall x, ih_index t' x = if decide (x = h) then 0 else ih_index t x)
    by (intros; by apply ih_put_index).
  assert (Hdst : forall x, ih_dist t' x = if decide (x = h) then 0 else ih_dist t x)
    by (intros; by apply ih_put_dist).
  assert (Hob : forall x, ih_object t' x = ih_object t x)
    by (intros; by apply ih_put_object).
  assert (Hhm : forall x, ih_home t' x = ih_home t x) by (intros; by apply ih_put_home).
  assert (Hocc : forall x, ih_index t' x <> 0 -> x <> h /\ ih_index t x <> 0).
  { intros x. rewrite Hidx. by case_decide. }
  assert (Hsd : forall x, x <> h -> ih_slot_disp t' x = ih_slot_disp t x).
  { intros x Hx. unfold ih_slot_disp. by rewrite Hlen, Hhm, Hidx, decide_False. }
  split; [|split].
  - split; rewrite ?Hlen.
    + apply H.
    + intros x Hx [Hxh Hnz]%Hocc. rewrite Hidx, decide_False by done. by apply (hw_range _ _ H).
    + intros x Hx [Hxh Hnz]%Hocc. rewrite Hidx, decide_False, Hob by done.
      by apply (hw_object _ _ H).
    + intros x Hx [Hxh Hnz]%Hocc. rewrite Hdst, decide_False, Hsd by done.
      destruct (hw_dist _ _ H x Hx Hxh Hnz). lia.
    + intros x y Hx Hy [Hxh Hnz]%Hocc Heq. rewrite !Hidx in Heq.
      repeat case_decide; try done; by apply (hw_inj _ _ H).
    + intros x Hx [Hxh Hnz]%Hocc j Hj. rewrite Hsd in Hj by done.
      rewrite Hhm, Hlen, (Hidx x), (decide_False (P := x = h)) by done.
      pose proof (ih_hole_unused _ _ H Hd x j Hx Hxh Hnz Hj).
      rewrite Hidx, Hdst, !decide_False by done.
      destruct (hw_path _ _ H x j Hx Hxh Hnz Hj) as [|[H1 H2]]; [done|]. split; [done|lia].
  - intros x Hx [Hxh Hnz]%Hocc. rewrite Hlen in Hx. rewrite Hsd by done.
    by apply (hw_dist _ _ H).
  - intros i. unfold ih_hashed, ih_live. rewrite Hlen. setoid_rewrite Hidx.
    split; intros (Hi & x & Hx & Heq); (split; [done|]); exists x.
    + by case_decide; [congruence|].
    + destruct Heq as [Hxh Heq]. by rewrite decide_False.
Qed.

(** One iteration of the backward shift moves the element [m] of the next slot
    [d] into the hole [h]. *)
Section hole_shift.
Context (t : list ipc_entry) (h d m : Z) (hole : ipc_entry).
Hypothesis H : ih_hole t h.
Hypothesis Hs : aget t h = Some hole.
Hypothesis Hd : d = ih_next (alen t) h.
Hypothesis Hm : ih_index t d = m.
Hypothesis Hnz : m <> 0.
Hypothesis Hdnz : ih_dist t d <> 0.
Let t' := aset t h (set_ie_hash m (ih_slot_disp t d - 1) hole).
Let a := ih_home t m.

Local Lemma shift_slots : 0 <= d < alen t /\ d <> h /\ 0 <= h < alen t /\ 0 <= a < alen t.
Proof.
  pose proof (hw_slot _ _ H). pose proof (hw_len _ _ H).
  split; [|split; [|split]]; [subst d; by apply ih_next_range|subst d; ih_arith|done|].
  apply ih_home_range. lia.
Qed.

Local Lemma shift_len : alen t' = alen t.
Proof. apply ih_put_len. Qed.
Local Lemma shift_index x : ih_index t' x = if decide (x = h) then m else ih_index t x.
Proof. by apply ih_put_index. Qed.
Local Lemma shift_dist x :
  ih_dist t' x = if decide (x = h) then ih_slot_disp t d - 1 else ih_dist t x.
Proof. by apply ih_put_dist. Qed.
Local Lemma shift_object x : ih_object t' x = ih_object t x.
Proof. by apply ih_put_object. Qed.
Local Lemma shift_home x : ih_home t' x = ih_home t x.
Proof. by apply ih_put_home. Qed.

Local Lemma shift_disp_d :
  ih_slot_disp t d = ih_disp (alen t) a d /\
  (1 <= ih_slot_disp t d /\ ih_dist t d = ih_slot_disp t d) /\ ih_slot_disp t d <= IPC_ENTRY_DIST_MAX.
Proof.
  destruct shift_slots as (Hdr & Hdh & _ & Ha).
  destruct (hw_dist _ _ H d Hdr Hdh) as [Hdd Hdmax]; [congruence|].
  unfold ih_slot_disp in *. rewrite Hm in *. fold a in Hdd, Hdmax |- *.
  pose proof (ih_disp_range _ _ Ha _ Hdr). lia.
Qed.

Local Lemma shift_disp_h : ih_slot_disp t' h = ih_slot_disp t d - 1.
Proof.
  destruct shift_disp_d as (E & [Hge _] & _). destruct shift_slots as (_ & _ & Hh & Ha).
  rewrite E in *. unfold ih_slot_disp.
  rewrite shift_len, shift_home, shift_index, decide_True by done. fold a. clear Hm.
  subst d. ih_arith.
Qed.

Local Lemma shift_disp x : x <> h -> ih_slot_disp t' x = ih_slot_disp t x.
Proof.
  intros Hx. unfold ih_slot_disp. by rewrite shift_len, shift_home, shift_index, decide_False.
Qed.

(** The path of the moved element. *)
Local Lemma shift_path_h j :
  0 <= j < ih_slot_disp t d - 1 ->
  let p := ih_pos (alen t) a j in p <> h /\ ih_index t p <> 0 /\ j <= ih_dist t p.
Proof.
  destruct shift_disp_d as (E & _ & _). destruct shift_slots as (Hdr & Hdh & Hh & Ha).
  intros Hj p. assert (Hph : p <> h).
  { unfold p. rewrite E in Hj. clear Hm Hs. subst d. ih_arith. }
  split; [done|].
  destruct (hw_path _ _ H d j Hdr Hdh) as [Heq|Hp].
  - congruence.
  - lia.
  - rewrite Hm in Heq. done.
  - by rewrite Hm in Hp.
Qed.

(** The path of another element that went over the hole. *)
Local Lemma shift_path_over x j :
  0 <= x < alen t -> x <> h -> x <> d -> ih_index t x <> 0 -> 0 <= j < ih_slot_disp t x ->
  ih_pos (alen t) (ih_home t (ih_index t x)) j = h -> j <= ih_slot_disp t d - 1.
Proof.
  destruct shift_disp_d as (_ & [_ Hdd] & _). destruct shift_slots as (Hdr & Hdh & Hh & _).
  intros Hx Hxh Hxd Hxnz Hj Heq. pose proof (hw_len _ _ H).
  set (b := ih_home t (ih_index t x)) in *.
  assert (Hb : 0 <= b < alen t) by (apply ih_home_range; lia).
  pose proof (ih_disp_range _ _ Hb _ Hx) as Hdx.
  unfold ih_slot_disp in Hj. fold b in Hj.
  assert (Hpn : ih_pos (alen t) b (j + 1) = d).
  { rewrite Hd, <- Heq. clear - Hb Hj Hdx. ih_arith. }
  destruct (hw_path _ _ H x (j + 1) Hx Hxh Hxnz) as [Hq|[_ Hq]].
  - unfold ih_slot_disp. fold b. split; [lia|].
    destruct (decide (j + 1 = ih_disp (alen t) b x)) as [E|]; [|lia].
    rewrite E, ih_pos_disp in Hpn by done. congruence.
  - fold b in Hq. congruence.
  - fold b in Hq. rewrite Hpn in Hq. lia.
Qed.

Local Lemma shift_path x j :
  0 <= x < alen t -> x <> d -> ih_index t' x <> 0 -> 0 <= j < ih_slot_disp t' x ->
  let p := ih_pos (alen t) (ih_home t (ih_index t' x)) j in
  p = d \/ (ih_index t' p <> 0 /\ j <= ih_dist t' p).
Proof.
  intros Hx Hxd. rewrite (shift_index x).
  destruct (decide (x = h)) as [->|Hxh]; intros Hxnz Hj; cbv zeta.
  - right. rewrite shift_disp_h in Hj. destruct (shift_path_h j Hj) as (Hp & Hp').
    by rewrite shift_index, shift_dist, !decide_False.
  - rewrite shift_disp in Hj by done. right. rewrite shift_index, shift_dist.
    case_decide as Hp.
    + split; [done|]. by apply (shift_path_over x).
    + by destruct (hw_path _ _ H x j Hx Hxh Hxnz Hj).
Qed.

Lemma ih_hole_shift : ih_hole t' d.
Proof.
  destruct shift_slots as (Hdr & Hdh & Hh & Ha). destruct shift_disp_d as (_ & _ & Hmax).
  assert (Hdnz' : ih_index t d <> 0) by congruence.
  split; rewrite ?shift_len; [apply H|done|..].
  - intros x Hx Hxd. rewrite shift_index.
    case_decide; [rewrite <- Hm|]; by apply (hw_range _ _ H).
  - intros x Hx Hxd. rewrite shift_index, shift_object.
    case_decide; [rewrite <- Hm|]; by apply (hw_object _ _ H).
  - intros x Hx Hxd. rewrite shift_index, shift_dist. case_decide as Hxh.
    + subst x. rewrite shift_disp_h. lia.
    + rewrite shift_disp by done. by apply (hw_dist _ _ H).
  - intros x y Hx Hy Hxd Hyd. rewrite !shift_index, <- Hm.
    repeat case_decide; subst x || subst y || idtac; try done; intros Hnzx Heq.
    + by apply (hw_inj _ _ H) in Heq.
    + by apply (hw_inj _ _ H) in Heq.
    + by apply (hw_inj _ _ H).
  - intros x j. rewrite shift_home. apply shift_path.
Qed.

Lemma ih_hole_shift_live i : ih_live t' d i <-> ih_live t h i.
Proof.
  destruct shift_slots as (Hdr & Hdh & Hh & Ha).
  unfold ih_live. rewrite shift_len. setoid_rewrite shift_index.
  split; intros (Hi & x & Hx & Hxd & Heq); (split; [done|]).
  - case_decide; [exists d|exists x]; naive_solver.
  - destruct (decide (x = d)) as [->|].
    + exists h. rewrite decide_True by done. naive_solver.
    + exists x. by rewrite decide_False.
Qed.
End hole_shift.

Lemma ih_delete_shift_ok fuel t h e :
  ih_hole t h -> 0 <= e < alen t -> e <> h -> ih_index t e = 0 ->
  ih_disp (alen t) h e < Z.of_nat fuel ->
  exists t', ipc_hash_table_delete_shift fuel t (alen t) h = Some t' /\
    ih_wf t' /\ ih_unpegged t' /\ ih_strip t' = ih_strip t /\
    (forall i, ih_hashed t' i <-> ih_live t h i).
Proof.
  revert t h. induction fuel as [|fuel IH]; intros t h H He Heh He0 Hf;
    pose proof (hw_slot _ _ H) as Hh; [ih_arith|]. pose proof (hw_len _ _ H).
  set (d := ih_next (alen t) h).
  assert (Hd : 0 <= d < alen t) by (by apply ih_next_range).
  assert (Hdh : d <> h) by (unfold d; ih_arith).
  destruct (aget_lt_Some t h Hh) as [hole Hhole]. destruct (aget_lt_Some t d Hd) as [ds Hds].
  simpl. rewrite Hhole. simpl. fold d. rewrite Hds. simpl.
  rewrite <- (ih_index_slot _ _ _ Hds), <- (ih_dist_slot _ _ _ Hds).
  destruct ((ih_index t d =? 0) || (ih_dist t d =? 0)) eqn:E.
  { apply orb_true_iff in E. rewrite !Z.eqb_eq in E.
    destruct (ih_hole_close t h hole H Hhole E) as (W & U & Hlive).
    eexists. split; [done|]. split; [done|]. split; [done|]. split; [|done].
    by apply ih_put_strip. }
  apply orb_false_iff in E as [Hi0 Hd0]. rewrite Z.eqb_neq in Hi0, Hd0.
  pose proof (hw_range _ _ H d Hd Hdh Hi0) as Hir.
  destruct (aget_lt_Some t (ih_index t d)) as [ent Hent]; [lia|].
  destruct (hw_dist _ _ H d Hd Hdh Hi0) as [Hdd Hdm].
  match goal with |- context [mbind _ ?x] => assert (Hdist' : x = Some (ih_slot_disp t d - 1)) end.
  { rewrite Hent. cbn [mbind option_bind]. rewrite <- (ih_object_slot _ _ _ Hent).
    fold (ih_home t (ih_index t d)).
    assert (Ha : 0 <= ih_home t (ih_index t d) < alen t) by (apply ih_home_range; lia).
    unfold ih_slot_disp in *. rewrite Hdd in *. clear Hdd.
    generalize dependent (ih_home t (ih_index t d)). intros a.
    clear -Hd Hdh Hh H0. unfold d in *. clear d. intros.
    destruct (Z.eqb_spec (ih_disp (alen t) a (ih_next (alen t) h)) IPC_ENTRY_DIST_MAX);
      f_equal; ih_arith. }
  rewrite Hdist'. cbn [mbind option_bind]. clear Hdist'.
  pose proof (ih_hole_shift t h d _ hole H Hhole eq_refl eq_refl Hi0 Hd0) as H'.
  pose proof (ih_hole_shift_live t h d _ hole H Hhole eq_refl eq_refl Hi0 Hd0) as Hlive.
  pose proof (ih_put_strip t h (ih_index t d) (ih_slot_disp t d - 1) hole Hhole) as Hst.
  pose proof (ih_put_index t h (ih_index t d) (ih_slot_disp t d - 1) hole Hhole e) as Hie.
  set (t1 := aset t h _) in *.
  assert (Hlen : alen t1 = alen t) by apply ih_put_len.
  rewrite <- Hlen. destruct (IH t1 d H') as (t' & Ht' & W & U & Hst' & Hl').
  - by rewrite Hlen.
  - intros ->. done.
  - by rewrite Hie, decide_False.
  - rewrite Hlen. pose proof (ih_disp_ahead _ _ _ Hh He (not_eq_sym Heh)) as Ha. fold d in Ha. lia.
  - exists t'. split; [done|]. split; [done|]. split; [done|]. split; [congruence|].
    intros i. by rewrite Hl', Hlive.
Qed.

(** The search finds the slot of a hashed entry. *)
Lemma ih_delete_find_ok fuel t i h s :
  0 <= h < alen t -> 0 <= s < alen t -> ih_index t s = i ->
  ih_disp (alen t) h s < Z.of_nat fuel ->
  exists s', ipc_hash_table_delete_find fuel t (alen t) i h = Some s' /\
    0 <= s' < alen t /\ ih_index t s' = i.
Proof.
  revert h. induction fuel as [|fuel IH]; intros h Hh Hs Hi Hf; [ih_arith|].
  destruct (aget_lt_Some t h Hh) as [slot Hslot]. simpl. rewrite Hslot. simpl.
  rewrite <- (ih_index_slot _ _ _ Hslot). destruct (Z.eqb_spec (ih_index t h) i) as [|Hne].
  { by exists h. }
  apply IH; try done.
  - by apply ih_next_range.
  - rewrite ih_disp_ahead by (done || congruence). lia.
Qed.

Lemma ih_delete_ok t obj i :
  ih_wf t -> ih_unpegged t -> ih_hashed t i -> ih_object t i = obj ->
  exists t', ipc_hash_table_delete t (alen t) obj i = Some t' /\
    ih_wf t' /\ ih_unpegged t' /\ ih_strip t' = ih_strip t /\
    (forall j, ih_hashed t' j <-> j <> i /\ ih_hashed t j).
Proof.
  intros W U (Hi0 & s & Hs & Hsi) Hob. pose proof (ih_wf_len _ W).
  assert (Hnz : ih_index t s <> 0) by congruence.
  pose proof (ih_wf_range _ W s Hs Hnz). pose proof (ih_wf_object _ W s Hs Hnz) as Hobn.
  unfold ipc_hash_table_delete. rewrite Hsi in *. unfold MACH_PORT_NULL.
  rewrite (proj2 (Z.eqb_neq i 0)), (proj2 (Z.eqb_neq obj IO_NULL)) by congruence.
  cbn [orb].
  destruct (aget_lt_Some t i) as [ent Hent]; [lia|]. rewrite Hent.
  cbn [mbind option_bind].
  rewrite <- (ih_object_slot _ _ _ Hent), Hob, Z.eqb_refl. cbn [negb].
  assert (Ha : 0 <= IH_TABLE_HASH obj (alen t) < alen t) by (apply Z.mod_pos_bound; lia).
  destruct (ih_delete_find_ok (S (Z.to_nat (alen t))) t i _ s Ha Hs Hsi) as (h & Hf & Hh & Hhi).
  { pose proof (ih_disp_range _ _ Ha _ Hs). lia. }
  rewrite Hf. cbn [mbind option_bind].
  destruct (ih_wf_empty _ W) as (e & He & He0).
  destruct (ih_delete_shift_ok (S (Z.to_nat (alen t))) t h e) as (t' & Ht' & W' & U' & Hst & Hl).
  - by apply ih_hole_start.
  - done.
  - intros ->. congruence.
  - done.
  - pose proof (ih_disp_range _ _ Hh _ He). lia.
  - exists t'. split; [done|]. split; [done|]. split; [done|]. split; [done|].
    intros j. rewrite Hl. unfold ih_live, ih_hashed. split.
    + intros (Hj & x & Hx & Hxh & Hxj). split; [|by split; [|exists x]].
      intros ->. apply Hxh, (ih_wf_inj _ W); congruence.
    + intros (Hji & Hj & x & Hx & Hxj). split; [done|]. exists x. split; [done|].
      split; [|done]. intros ->. congruence.
Qed.

(** A table of at most 4096 entries is never saturated. *)
Lemma ih_small_unpegged t : alen t <= IPC_ENTRY_DIST_MAX + 1 -> ih_unpegged t.
Proof.
  intros Hn h Hh Hnz. unfold ih_slot_disp.
  assert (Ha : 0 <= ih_home t (ih_index t h) < alen t) by (apply ih_home_range; lia).
  pose proof (ih_disp_range _ _ Ha _ Hh). lia.
Qed.

(** A table in which nothing is hashed is well-formed. *)
Lemma ih_wf_unhashed t : 1 < alen t -> (forall h, ih_index t h = 0) -> ih_wf t.
Proof. intros Hn H0. split; try done; intros h; by rewrite H0. Qed.

(** ** The hash under changes of other fields *)

Lemma ih_wf_ext t t' :
  ih_wf t -> alen t' = alen t ->
  (forall h, ih_index t' h = ih_index t h) -> (forall h, ih_dist t' h = ih_dist t h) ->
  (forall i, ih_hashed t i -> ih_object t' i = ih_object t i) -> ih_wf t'.
Proof.
  intros W Hlen Hix Hdi Hob.
  assert (Hin : forall h, 0 <= h < alen t -> ih_index t h <> 0 -> ih_hashed t (ih_index t h)).
  { intros h Hh Hnz. split; [done|]. by exists h. }
  assert (Hhome : forall h, 0 <= h < alen t -> ih_index t h <> 0 ->
    ih_home t' (ih_index t h) = ih_home t (ih_index t h)).
  { intros h Hh Hnz. unfold ih_home. by rewrite Hlen, Hob by auto. }
  split; rewrite ?Hlen.
  - apply W.
  - intros h. rewrite Hix. apply W.
  - intros h Hh. rewrite Hix. intros Hnz. rewrite Hob by auto. by apply W.
  - intros h Hh. rewrite Hix, Hdi. intros Hnz. unfold ih_slot_disp.
    rewrite Hix, Hlen, Hhome by done. by apply W.
  - intros h h'. rewrite !Hix. apply W.
  - intros h Hh. rewrite Hix. intros Hnz. unfold ih_slot_disp, ih_path.
    rewrite Hix, Hlen, Hhome by done. intros j Hj. rewrite Hix, Hdi.
    by apply (ih_wf_path _ W h Hh Hnz).
Qed.

Lemma ih_hashed_ext t t' i :
  alen t' = alen t -> (forall h, ih_index t' h = ih_index t h) ->
  ih_hashed t' i <-> ih_hashed t i.
Proof.
  intros Hlen Hix. unfold ih_hashed. rewrite Hlen. split; intros (? & h & ? & Hh);
    (split; [done|]); exists h; rewrite Hix in *; done.
Qed.

(** A change to entry [i] that keeps its hash fields, and its object if it is
    hashed. *)
Section ih_upd.
Context (t : list ipc_entry) (i : Z) (e e' : ipc_entry).
Context (He : aget t i = Some e).
Context (Hx : ie_index e' = ie_index e) (Hd : ie_dist e' = ie_dist e).

Lemma ih_upd_index h : ih_index (aset t i e') h = ih_index t h.
Proof.
  unfold ih_index. destruct (decide (i = h)) as [<-|]; [|by rewrite aget_aset_ne].
  rewrite aget_aset_eq by (by eapply aget_Some_range). by rewrite He.
Qed.

Lemma ih_upd_dist h : ih_dist (aset t i e') h = ih_dist t h.
Proof.
  unfold ih_dist. destruct (decide (i = h)) as [<-|]; [|by rewrite aget_aset_ne].
  rewrite aget_aset_eq by (by eapply aget_Some_range). by rewrite He.
Qed.

Lemma ih_upd_hashed j : ih_hashed (aset t i e') j <-> ih_hashed t j.
Proof. apply ih_hashed_ext; [apply alen_aset|apply ih_upd_index]. Qed.

Lemma ih_upd_object j :
  ih_object (aset t i e') j = if decide (i = j) then ie_object e' else ih_object t j.
Proof.
  unfold ih_object. case_decide as E; [|by rewrite aget_aset_ne]. subst.
  by rewrite aget_aset_eq by (by eapply aget_Some_range).
Qed.

Lemma ih_upd_wf :
  ih_wf t -> (ih_hashed t i -> ie_object e' = ie_object e) -> ih_wf (aset t i e').
Proof.
  intros W Ho. apply (ih_wf_ext t); [done|apply alen_aset|apply ih_upd_index|apply ih_upd_dist|].
  intros j Hj. rewrite ih_upd_object. case_decide as E; [|done]. subst.
  unfold ih_object. rewrite He. auto.
Qed.
End ih_upd.

(** ** Stripped tables *)

Lemma ih_strip_aset t i e : ih_strip (aset t i e) = aset (ih_strip t) i (set_ie_hash 0 0 e).
Proof.
  unfold ih_strip, aset. destruct (i <? 0); [done|]. by rewrite list_fmap_insert.
Qed.

Lemma aget_ih_strip t i : aget (ih_strip t) i = set_ie_hash 0 0 <$> aget t i.
Proof. unfold ih_strip, aget. destruct (i <? 0); [done|]. apply list_lookup_fmap. Qed.

Lemma ih_strip_get t t' i e :
  ih_strip t' = ih_strip t -> aget t i = Some e ->
  exists e', aget t' i = Some e' /\ set_ie_hash 0 0 e' = set_ie_hash 0 0 e.
Proof.
  intros Hs He. apply (f_equal (fun t => aget t i)) in Hs. rewrite !aget_ih_strip, He in Hs.
  by apply fmap_Some in Hs as (e' & -> & ->); exists e'.
Qed.

Lemma strip_eq e e' :
  set_ie_hash 0 0 e' = set_ie_hash 0 0 e <->
  ie_object e' = ie_object e /\ ie_bits e' = ie_bits e /\ ie_next e' = ie_next e.
Proof. destruct e, e'. unfold set_ie_hash. simpl. split; [intros [=]|intros (? & ? & ?)]; naive_solver. Qed.

(** ** The reverse map

    [ih_repr t m]: the hash of [t] represents the finite map [m] from objects to
    entries. *)
Definition ih_repr (t : list ipc_entry) (m : gmap Z Z) : Prop :=
  ih_wf t /\ forall o i, m !! o = Some i <-> ih_hashed t i /\ ih_object t i = o.

Inductive ih_op := IhInsert (obj i : Z) | IhDelete (obj i : Z) | IhLookup (obj : Z).

(** What the callers guarantee. *)
Definition ih_op_ok (t : list ipc_entry) (m : gmap Z Z) (op : ih_op) : Prop :=
  match op with
  | IhInsert obj i => 0 < i < alen t /\ ih_object t i = obj /\ obj <> IO_NULL /\ m !! obj = None
  | IhDelete obj i => m !! obj = Some i
  | IhLookup obj => obj <> IO_NULL
  end.

(** An operation gives the name and the index that a lookup found, and the table. *)
Definition ih_op_run (t : list ipc_entry) (op : ih_op) : option (option (Z * Z) * list ipc_entry) :=
  match op with
  | IhInsert obj i => (fun t' => (None, t')) <$> ipc_hash_table_insert t (alen t) obj i
  | IhDelete obj i => (fun t' => (None, t')) <$> ipc_hash_table_delete t (alen t) obj i
  | IhLookup obj => (fun r => (r, t)) <$> ipc_hash_table_lookup t (alen t) obj
  end.

Fixpoint ih_run (t : list ipc_entry) (ops : list ih_op) : option (list (option (Z * Z)) * list ipc_entry) :=
  match ops with
  | [] => Some ([], t)
  | op :: ops =>
      '(r, t1) ← ih_op_run t op;
      '(rs, t2) ← ih_run t1 ops;
      Some (r :: rs, t2)
  end.

(** The name that entry [i] stands for. *)
Definition ih_name (t : list ipc_entry) (i : Z) : Z :=
  match aget t i with Some e => MACH_PORT_MAKE i (IE_BITS_GEN (ie_bits e)) | None => MACH_PORT_NULL end.

(** The same operations on the map. *)
Definition ih_op_spec (t : list ipc_entry) (m : gmap Z Z) (op : ih_op) : option (Z * Z) * gmap Z Z :=
  match op with
  | IhInsert obj i => (None, <[obj := i]> m)
  | IhDelete obj i => (None, delete obj m)
  | IhLookup obj => ((fun i => (ih_name t i, i)) <$> m !! obj, m)
  end.

Fixpoint ih_spec (t : list ipc_entry) (m : gmap Z Z) (ops : list ih_op) : list (option (Z * Z)) * gmap Z Z :=
  match ops with
  | [] => ([], m)
  | op :: ops =>
      let '(r, m1) := ih_op_spec t m op in
      let '(rs, m2) := ih_spec t m1 ops in (r :: rs, m2)
  end.

Fixpoint ih_ops_ok (t : list ipc_entry) (m : gmap Z Z) (ops : list ih_op) : Prop :=
  match ops with
  | [] => True
  | op :: ops => ih_op_ok t m op /\ ih_ops_ok t (ih_op_spec t m op).2 ops
  end.

Lemma ih_repr_insert t m obj i :
  ih_repr t m -> ih_op_ok t m (IhInsert obj i) ->
  exists t', ipc_hash_table_insert t (alen t) obj i = Some t' /\
    ih_repr t' (<[obj := i]> m) /\ ih_strip t' = ih_strip t.
Proof.
  intros (W & Hm) (Hi & Hob & Hnz & Hfresh).
  assert (Hnh : ~ ih_hashed t i).
  { intros Hh. assert (m !! obj = Some i) by (apply Hm; done). congruence. }
  destruct (ih_insert_ok t obj i W Hi Hob Hnz Hnh) as (t' & Ht' & W' & Hst & Hh').
  exists t'. split; [done|]. split; [|done]. split; [done|].
  intros o j. rewrite Hh', (ih_strip_object _ _ _ Hst), lookup_insert. case_decide as Ho.
  - subst o. split; [naive_solver|]. intros [[->|Hj] Hoj]; [done|].
    assert (m !! obj = Some j) by (apply Hm; done). congruence.
  - rewrite Hm. naive_solver.
Qed.

Lemma ih_repr_delete t m obj i :
  ih_repr t m -> alen t <= IPC_ENTRY_DIST_MAX + 1 -> ih_op_ok t m (IhDelete obj i) ->
  exists t', ipc_hash_table_delete t (alen t) obj i = Some t' /\
    ih_repr t' (delete obj m) /\ ih_strip t' = ih_strip t.
Proof.
  intros (W & Hm) Hlen Hmi. destruct (proj1 (Hm _ _) Hmi) as [Hh Hob].
  destruct (ih_delete_ok t obj i W (ih_small_unpegged _ Hlen) Hh Hob)
    as (t' & Ht' & W' & _ & Hst & Hh').
  exists t'. split; [done|]. split; [|done]. split; [done|].
  intros o j. rewrite Hh', (ih_strip_object _ _ _ Hst), lookup_delete. case_decide as Ho.
  - subst o. split; [done|]. intros [[Hji Hj] Hoj].
    assert (m !! obj = Some j) by (apply Hm; done). congruence.
  - rewrite Hm. split; [|naive_solver]. intros [Hj Hoj]. split; [|done]. split; [|done].
    intros ->. congruence.
Qed.

Lemma ih_repr_lookup t m obj :
  ih_repr t m -> obj <> IO_NULL ->
  ipc_hash_table_lookup t (alen t) obj = Some ((fun i => (ih_name t i, i)) <$> m !! obj).
Proof.
  intros (W & Hm) Ho. destruct (ih_lookup_ok t obj W Ho) as (r & -> & Hr). f_equal.
  destruct r as [[name i]|]; simpl in Hr.
  - destruct Hr as (Hh & Hob & e & He & ->). rewrite (proj2 (Hm obj i)) by done. simpl.
    unfold ih_name. by rewrite He.
  - destruct (m !! obj) as [i|] eqn:E; [|done]. apply Hm in E as [Hh Hob]. by destruct (Hr i Hh).
Qed.

Lemma ih_op_step t m op :
  ih_repr t m -> alen t <= IPC_ENTRY_DIST_MAX + 1 -> ih_op_ok t m op ->
  exists t', ih_op_run t op = Some ((ih_op_spec t m op).1, t') /\
    ih_repr t' (ih_op_spec t m op).2 /\ ih_strip t' = ih_strip t.
Proof.
  intros Hr Hlen Hok. destruct op as [obj i|obj i|obj]; simpl.
  - destruct (ih_repr_insert t m obj i Hr Hok) as (t' & -> & ?). by exists t'.
  - destruct (ih_repr_delete t m obj i Hr Hlen Hok) as (t' & -> & ?). by exists t'.
  - rewrite (ih_repr_lookup t m obj Hr Hok). by exists t.
Qed.

(** What the hash does not own stays, and so do names and preconditions. *)
Lemma ih_name_strip t t' i : ih_strip t' = ih_strip t -> ih_name t' i = ih_name t i.
Proof.
  intros Hs. apply (f_equal (fun t => aget t i)) in Hs. rewrite !aget_ih_strip in Hs. unfold ih_name.
  destruct (aget t i) as [e|], (aget t' i) as [e'|]; simplify_eq/=; [|done..].
  by destruct e, e'; simplify_eq/=.
Qed.

Lemma ih_op_spec_strip t t' m op : ih_strip t' = ih_strip t -> ih_op_spec t' m op = ih_op_spec t m op.
Proof.
  intros Hs. destruct op as [| |obj]; [done..|]. simpl. destruct (m !! obj); [|done]. simpl.
  by rewrite (ih_name_strip t t').
Qed.

Lemma ih_op_ok_strip t t' m op : ih_strip t' = ih_strip t -> ih_op_ok t m op -> ih_op_ok t' m op.
Proof.
  intros Hs. destruct op; [|done..]. simpl. by rewrite (ih_strip_len _ _ Hs), (ih_strip_object _ _ _ Hs).
Qed.

Lemma ih_run_ok t0 t m ops :
  ih_strip t = ih_strip t0 -> ih_repr t m -> alen t <= IPC_ENTRY_DIST_MAX + 1 -> ih_ops_ok t0 m ops ->
  exists t', ih_run t ops = Some ((ih_spec t0 m ops).1, t') /\
    ih_repr t' (ih_spec t0 m ops).2 /\ ih_strip t' = ih_strip t0.
Proof.
  revert t m. induction ops as [|op ops IH]; intros t m Hs Hr Hlen Hok; [by exists t|].
  destruct Hok as [Hop Hok]. apply (ih_op_ok_strip t0 t) in Hop; [|done].
  destruct (ih_op_step t m op Hr Hlen Hop) as (t1 & Hrun & Hr1 & Hs1).
  rewrite (ih_op_spec_strip t0 t) in Hrun, Hr1 by done.
  destruct (IH t1 _ (eq_trans Hs1 Hs) Hr1) as (t2 & Hrun2 & Hr2 & Hs2); [by rewrite (ih_strip_len _ _ Hs1)|done|].
  exists t2. simpl. rewrite Hrun. destruct (ih_op_spec t0 m op) as [r m1]. simpl in *. rewrite Hrun2.
  by destruct (ih_spec t0 m1 ops) as [rs m2].
Qed.

(** A small table: entries 1 and 2 denote two objects. *)
Definition ih_example : list ipc_entry :=
  [ie_zero; mkEntry 0x1000 0x03010001 0 0 0; mkEntry 0x2000 0x03010001 0 0 0; ie_zero].

Lemma ih_example_repr : ih_repr ih_example ∅.
Proof.
  assert (H0 : forall h, ih_index ih_example h = 0).
  { intros h. unfold ih_index, aget. destruct (h <? 0); [done|].
    destruct (Z.to_nat h) as [|[|[|[|n]]]]; [done..|]. by destruct n. }
  split; [by apply ih_wf_unhashed|].
  intros o i. rewrite lookup_empty. split; [done|]. intros [[Hi (h & _ & Hh)] _].
  rewrite H0 in Hh. congruence.
Qed.

(** C2. The reverse hash refines a finite map from objects to entries.  From a
    table of at most 4096 entries that represents the map [m], any sequence of
    insertions, deletions and lookups in which each one meets its callers'
    precondition returns (no assertion fails, no loop runs on), every lookup gives
    the name and the entry of the object in the map at that point, or nothing, the
    final table represents the map with the same operations applied, and no
    field of an entry other than the hash links has changed. *)
Theorem hash_refines_map (t : list ipc_entry) (m : gmap Z Z) (ops : list ih_op) :
  ih_repr t m -> alen t <= IPC_ENTRY_DIST_MAX + 1 -> ih_ops_ok t m ops ->
  exists t', ih_run t ops = Some ((ih_spec t m ops).1, t') /\
    ih_repr t' (ih_spec t m ops).2 /\ ih_strip t' = ih_strip t.
Proof. by apply ih_run_ok. Qed.

(** Two objects are inserted, found, and one is deleted and no longer found. *)
Definition ih_example_ops : list ih_op :=
  [IhInsert 0x1000 1; IhInsert 0x2000 2; IhLookup 0x1000; IhLookup 0x2000; IhDelete 0x1000 1;
   IhLookup 0x1000; IhLookup 0x2000].

Lemma hash_refines_map_witness :
  exists t', ih_run ih_example ih_example_ops
      = Some ([None; None; Some (0x103, 1); Some (0x203, 2); None; None; Some (0x203, 2)], t') /\
    ih_repr t' {[0x2000 := 2]} /\ ih_strip t' = ih_strip ih_example.
Proof.
  assert (E : ih_spec ih_example ∅ ih_example_ops
    = ([None; None; Some (0x103, 1); Some (0x203, 2); None; None; Some (0x203, 2)], {[0x2000 := 2]}))
    by (vm_compute; reflexivity).
  pose proof (hash_refines_map ih_example ∅ ih_example_ops) as H. rewrite E in H.
  apply H; [apply ih_example_repr|vm_compute; discriminate|].
  vm_compute. repeat split; discriminate.
Defined.

(** C3. Lookup is exact on every well-formed table, of any size and even with
    saturated distances: it returns, and it finds an entry for the object, with
    the entry's name, exactly when one is hashed. *)
Theorem hash_lookup_exact (t : list ipc_entry) (obj : Z) :
  ih_wf t -> obj <> IO_NULL ->
  exists r, ipc_hash_table_lookup t (alen t) obj = Some r /\ ih_lookup_spec t obj r.
Proof. apply ih_lookup_ok. Qed.

(** In the table with both objects, the second is found. *)
Lemma hash_lookup_exact_witness :
  exists t r, ih_run ih_example [IhInsert 0x1000 1; IhInsert 0x2000 2] = Some ([None; None], t) /\
    ipc_hash_table_lookup t (alen t) 0x2000 = Some r /\ ih_lookup_spec t 0x2000 r /\ r <> None.
Proof.
  destruct (ih_run_ok ih_example ih_example ∅ [IhInsert 0x1000 1; IhInsert 0x2000 2] eq_refl ih_example_repr)
    as (t & Hrun & [W Hm] & _); [vm_compute; discriminate|vm_compute; repeat split; discriminate|].
  destruct (hash_lookup_exact t 0x2000) as (r & Hr & Hspec); [exact W|discriminate|].
  exists t, r. split; [exact Hrun|]. split; [exact Hr|]. split; [exact Hspec|]. intros ->.
  destruct (proj1 (Hm 0x2000 2) eq_refl) as [Hh Ho]. exact (Hspec 2 Hh Ho).
Defined.

(** C4. Insertion keeps a table of any size well-formed, even with saturated
    distances: it returns, it adds exactly the new entry to the hashed ones, and
    it changes nothing but hash links. *)
Theorem hash_insert_correct (t : list ipc_entry) (obj i : Z) :
  ih_wf t -> 0 < i < alen t -> ih_object t i = obj -> obj <> IO_NULL -> ~ ih_hashed t i ->
  exists t', ipc_hash_table_insert t (alen t) obj i = Some t' /\
    ih_wf t' /\ ih_strip t' = ih_strip t /\
    (forall j, ih_hashed t' j <-> j = i \/ ih_hashed t j).
Proof. apply ih_insert_ok. Qed.

Lemma hash_insert_correct_witness :
  exists t', ipc_hash_table_insert ih_example (alen ih_example) 0x2000 2 = Some t' /\
    ih_wf t' /\ ih_strip t' = ih_strip ih_example /\
    (forall j, ih_hashed t' j <-> j = 2 \/ ih_hashed ih_example j).
Proof.
  apply (hash_insert_correct ih_example 0x2000 2);
    [apply ih_example_repr|vm_compute; split; reflexivity|reflexivity|discriminate|].
  intros H. assert (E : (∅ : gmap Z Z) !! 0x2000 = Some 2)
    by (apply ih_example_repr; split; [exact H|reflexivity]).
  discriminate E.
Defined.
