(* ===== verification/IpcHashSaturation.v ===== *)
(** * Deletion with saturated distances (ipc/ipc_hash.c)

    [ie_dist] has 12 bits: displacements beyond 4095 are recorded as 4095.  On a
    table with such elements [ipc_hash_table_delete] can lose an element: moving
    an element whose displacement was exactly 4095 lowers its recorded distance
    to 4094, and a lookup that reaches it with a saturated distance stops there,
    although the element it looks for lies further on. *)

From S2P Require Import Prelude IpcTypes IpcHash.

(** The size is one of [ipc_table_entries]; 4098 hashed entries are within the
    limit of 87.5% that [ipc_entries_hold] imposes. *)
Definition sat_size : Z := 4778.

(** The object in slot [k] of the clump: all have home slot 0, but for the one
    in slot 4096, with home slot 1. *)
Definition sat_object (k : Z) : Z := if k =? 4096 then 162368 else 77936 + k * 2 ^ 36.

Definition sat_entry (j : Z) : ipc_entry :=
  mkEntry (if (1 <=? j) && (j <=? 4098) then sat_object (j - 1) else IO_NULL)
    0x03010001
    (if j <=? 4097 then Z.min j IPC_ENTRY_DIST_MAX else 0)
    (if j <=? 4097 then j + 1 else 0) 0.

Definition sat_table : list ipc_entry := sat_entry <$> seqZ 0 sat_size.

Lemma sat_len : alen sat_table = sat_size.
Proof. unfold alen, sat_table. by rewrite length_fmap, length_seqZ. Qed.

Lemma sat_get j : 0 <= j < sat_size -> aget sat_table j = Some (sat_entry j).
Proof.
  intros Hj. unfold aget, sat_table. rewrite (proj2 (Z.ltb_ge j 0)) by lia.
  rewrite list_lookup_fmap, lookup_seqZ_lt by (unfold sat_size in *; lia). simpl.
  do 2 f_equal. lia.
Qed.

(** The hash depends on 32 bits of the pointer only. *)
Lemma hash_collide a k n :
  0 <= a -> 0 <= k -> IH_TABLE_HASH (a + k * 2 ^ 36) n = IH_TABLE_HASH a n.
Proof.
  intros Ha Hk. unfold IH_TABLE_HASH, os_hash_kernel_pointer.
  rewrite !Z.shiftr_div_pow2 by lia.
  replace (a + k * 2 ^ 36) with (a + (k * 2 ^ 32) * 2 ^ 4) by lia.
  rewrite Z.div_add by lia.
  assert (E : forall b, u32 (u64 ((b + k * 2 ^ 32) * 0x5052acdb)) = u32 (u64 (b * 0x5052acdb))).
  { intros b. unfold u32, u64.
    rewrite !Z.mod_mod_divide by (exists (2 ^ 32); lia).
    replace ((b + k * 2 ^ 32) * 0x5052acdb) with (b * 0x5052acdb + (k * 0x5052acdb) * 2 ^ 32) by lia.
    by rewrite Z.mod_add by lia. }
  by rewrite E.
Qed.

Lemma sat_home k :
  0 <= k < 4098 -> IH_TABLE_HASH (sat_object k) sat_size = if k =? 4096 then 1 else 0.
Proof.
  intros Hk. unfold sat_object. destruct (k =? 4096); [by vm_compute|].
  rewrite hash_collide by lia. by vm_compute.
Qed.

Lemma sat_index h : 0 <= h < sat_size -> ih_index sat_table h = if h <=? 4097 then h + 1 else 0.
Proof. intros Hh. unfold ih_index. by rewrite sat_get. Qed.

Lemma sat_dist h :
  0 <= h <= 4097 -> ih_dist sat_table h = Z.min h IPC_ENTRY_DIST_MAX.
Proof.
  intros Hh. unfold ih_dist. rewrite sat_get by (unfold sat_size; lia). simpl.
  by rewrite (proj2 (Z.leb_le _ _)) by lia.
Qed.

Lemma sat_obj i : 1 <= i <= 4098 -> ih_object sat_table i = sat_object (i - 1).
Proof.
  intros Hi. unfold ih_object. rewrite sat_get by (unfold sat_size; lia). simpl.
  rewrite !(proj2 (Z.leb_le _ _)) by lia. done.
Qed.

Lemma sat_occupied h : 0 <= h < sat_size -> ih_index sat_table h <> 0 -> h <= 4097.
Proof. intros Hh. rewrite sat_index by done. destruct (Z.leb_spec h 4097); [done|done]. Qed.

Lemma sat_slot h :
  0 <= h <= 4097 ->
  ih_home sat_table (ih_index sat_table h) = (if h =? 4096 then 1 else 0) /\
  ih_slot_disp sat_table h = if h =? 4096 then 4095 else h.
Proof.
  intros Hh. assert (Hi : ih_index sat_table h = h + 1).
  { rewrite sat_index by (unfold sat_size; lia). by rewrite (proj2 (Z.leb_le _ _)) by lia. }
  assert (Ha : ih_home sat_table (ih_index sat_table h) = if h =? 4096 then 1 else 0).
  { unfold ih_home. rewrite Hi, sat_obj, sat_len, Z.add_simpl_r by lia. apply sat_home. lia. }
  split; [done|]. unfold ih_slot_disp. rewrite Ha, sat_len. unfold sat_size.
  destruct (Z.eqb_spec h 4096); ih_arith.
Qed.

Lemma sat_wf : ih_wf sat_table.
Proof.
  split.
  - by rewrite sat_len.
  - rewrite sat_len. intros h Hh Hnz. pose proof (sat_occupied h Hh Hnz).
    rewrite sat_index, (proj2 (Z.leb_le _ _)) by lia. unfold sat_size. lia.
  - rewrite sat_len. intros h Hh Hnz. pose proof (sat_occupied h Hh Hnz).
    rewrite sat_index, (proj2 (Z.leb_le _ _)), sat_obj by lia.
    unfold sat_object, IO_NULL. destruct (_ =? _); lia.
  - rewrite sat_len. intros h Hh Hnz. pose proof (sat_occupied h Hh Hnz).
    rewrite sat_dist by lia. rewrite (proj2 (sat_slot h ltac:(lia))).
    unfold IPC_ENTRY_DIST_MAX. destruct (Z.eqb_spec h 4096); lia.
  - rewrite sat_len. intros h h' Hh Hh' Hnz. pose proof (sat_occupied h Hh Hnz).
    rewrite !sat_index by done. destruct (Z.leb_spec h 4097), (Z.leb_spec h' 4097); lia.
  - rewrite sat_len. intros h Hh Hnz j Hj. pose proof (sat_occupied h Hh Hnz).
    destruct (sat_slot h ltac:(lia)) as [Ha Hd]. rewrite Ha, sat_len. rewrite Hd in Hj.
    set (p := ih_pos _ _ j).
    assert (Hp : j <= p <= 4097 /\ 0 <= p).
    { unfold p, sat_size. destruct (Z.eqb_spec h 4096); ih_arith. }
    rewrite sat_index, sat_dist by (unfold sat_size; lia).
    rewrite (proj2 (Z.leb_le _ _)) by lia. lia.
Qed.

(** One evaluation of the deletion [d] and of the lookup after it. *)
Definition sat_check_with (lookup : list ipc_entry -> option (option (Z * Z)))
    (d : option (list ipc_entry)) : bool :=
  match d with
  | Some t =>
      (ih_index t 4096 =? 4098) && match lookup t with Some None => true | _ => false end
  | None => false
  end.

Lemma sat_check_with_spec lookup d :
  sat_check_with lookup d = true ->
  exists t, d = Some t /\ ih_index t 4096 = 4098 /\ lookup t = Some None.
Proof.
  unfold sat_check_with. destruct d as [t|]; [|done].
  intros [H1%Z.eqb_eq H2]%andb_true_iff. exists t. split; [done|]. split; [done|].
  by destruct (lookup t) as [[]|].
Qed.

Lemma sat_check_true :
  sat_check_with (fun t => ipc_hash_table_lookup t sat_size (sat_object 4097))
    (ipc_hash_table_delete sat_table sat_size (sat_object 4095) 4096) = true.
Proof. vm_compute. reflexivity. Qed.

Lemma sat_hashed i : ih_hashed sat_table i <-> 1 <= i <= 4098.
Proof.
  unfold ih_hashed. rewrite sat_len. split.
  - intros [Hi (h & Hh & Heq)]. rewrite sat_index in Heq by done.
    destruct (Z.leb_spec h 4097); lia.
  - intros Hi. split; [lia|]. exists (i - 1). unfold sat_size. split; [lia|].
    rewrite sat_index by (unfold sat_size; lia). rewrite (proj2 (Z.leb_le _ _)) by lia. lia.
Qed.

Lemma sat_lookup_before :
  ipc_hash_table_lookup sat_table sat_size (sat_object 4097) =
    Some (Some (MACH_PORT_MAKE 4098 0x03000000, 4098)).
Proof.
  destruct (ih_lookup_ok sat_table (sat_object 4097)) as (r & Hr & Hspec);
    [apply sat_wf|done|].
  rewrite sat_len in Hr. rewrite Hr. clear Hr. destruct r as [[name i]|].
  - destruct Hspec as (Hi%sat_hashed & Hob & e & He & ->). rewrite sat_obj in Hob by done.
    assert (i = 4098) as ->.
    { unfold sat_object in Hob. simpl in Hob. destruct (Z.eqb_spec (i - 1) 4096); lia. }
    rewrite sat_get in He by done. by inversion He.
  - exfalso. by apply (Hspec 4098); [apply sat_hashed|rewrite sat_obj].
Qed.

(** C27. On a well-formed table with saturated distances, deleting one entry can
    hide another: the entry for the object is found before the deletion, is
    still in the table after it, and is not found any more. *)
Theorem hash_delete_saturated_loses_entry :
  ih_wf sat_table /\
  ipc_hash_table_lookup sat_table sat_size (sat_object 4097) =
    Some (Some (MACH_PORT_MAKE 4098 0x03000000, 4098)) /\
  exists t',
    ipc_hash_table_delete sat_table sat_size (sat_object 4095) 4096 = Some t' /\
    ih_index t' 4096 = 4098 /\
    ipc_hash_table_lookup t' sat_size (sat_object 4097) = Some None.
Proof.
  split; [apply sat_wf|]. split; [apply sat_lookup_before|].
  exact (sat_check_with_spec _ _ sat_check_true).
Qed.
