(* ===== verification/KernelState.v ===== *)
(** * Kernel state of the IPC code

    The structures of ipc/ipc_object.h, ipc/ipc_port.h and ipc/ipc_space.h and
    the world the IPC routines act on, with one setter per field.

    - Objects, ports and spaces live in maps keyed by address.  A freed object
      is absent from its map.
    - A pointer to a table entry is the index of the entry.
    - [w_locks] is the set of locks held.
    - [w_trace] records, latest first, the calls into subsystems that are not
      modelled: turnstiles, message queues, task importance, kernel objects, the
      MIG notification stubs and the allocators. *)

From S2P Require Import Prelude IpcTypes.

(** ** Return codes *)

Definition KERN_SUCCESS : Z := 0.
Definition KERN_NO_SPACE : Z := 3.
Definition KERN_INVALID_ARGUMENT : Z := 4.
Definition KERN_FAILURE : Z := 5.
Definition KERN_RESOURCE_SHORTAGE : Z := 6.
Definition KERN_NAME_EXISTS : Z := 13.
Definition KERN_INVALID_NAME : Z := 15.
Definition KERN_INVALID_TASK : Z := 16.
Definition KERN_INVALID_RIGHT : Z := 17.
Definition KERN_INVALID_VALUE : Z := 18.
Definition KERN_INVALID_CAPABILITY : Z := 20.
Definition KERN_RIGHT_EXISTS : Z := 21.

(** ** Objects (ipc/ipc_object.h) *)

Definition IO_BITS_KOTYPE : Z := 0x000003ff.
Definition IO_BITS_KOBJECT : Z := 0x00000800.
Definition IO_BITS_KOLABEL : Z := 0x00000400.
Definition IO_BITS_OTYPE : Z := 0x7fff0000.
Definition IO_BITS_ACTIVE : Z := 0x80000000.
Definition IOT_PORT : Z := 0.
Definition IOT_PORT_SET : Z := 1.
Definition IOT_NUMBER : Z := 2.
Definition IO_MAX_REFERENCES : Z := 0x7fffffff.

(** The header shared by ports and port sets. *)
Record ipc_object := mkObject {
  io_bits : Z;
  io_references : Z
}.
Definition set_io_bits (v : Z) (o : ipc_object) : ipc_object :=
  mkObject v (io_references o).
Definition set_io_references (v : Z) (o : ipc_object) : ipc_object :=
  mkObject (io_bits o) v.

Definition io_active (o : ipc_object) : bool :=
  negb (Z.land (io_bits o) IO_BITS_ACTIVE =? 0).
Definition io_otype (o : ipc_object) : Z := Z.shiftr (Z.land (io_bits o) IO_BITS_OTYPE) 16.
Definition io_kotype (o : ipc_object) : Z := Z.land (io_bits o) IO_BITS_KOTYPE.
Definition io_is_kobject (o : ipc_object) : bool :=
  negb (Z.land (io_bits o) IO_BITS_KOBJECT =? 0).
Definition io_is_kolabeled (o : ipc_object) : bool :=
  negb (Z.land (io_bits o) IO_BITS_KOLABEL =? 0).
Definition io_makebits (active : bool) (otype kotype : Z) : Z :=
  Z.lor (if active then IO_BITS_ACTIVE else 0) (Z.lor (Z.shiftl otype 16) kotype).

(** ** Ports (ipc/ipc_port.h)

    A slot of a table of notification requests.  [ipr_notify] is the union of
    [ipr_soright] and of the free list link [ipr_next]; [ipr_name] is the union
    of the name and, in slot 0, of [ipr_size], an index of [ipc_table_requests]. *)
Record ipc_port_request := mkRequest { ipr_notify : Z; ipr_name : Z }.
Abbreviation ipr_soright := ipr_notify.
Abbreviation ipr_next := ipr_notify.
Abbreviation ipr_size := ipr_name.

(** A table of requests and its address. *)
Record ipr_table := mkRequests { ipt_addr : Z; ipt_slots : list ipc_port_request }.

(** The unions of the structure are one field each: [ip_receiver] is also
    [ip_destination] and [ip_timestamp], [ip_kobject] is also [ip_imp_task] and
    the [ip_sync_inheritor_*], [ip_premsg] is also [ip_send_turnstile],
    [imq_inheritor] is the union of the knote list and of the inheritors, and
    [waitq_tspriv] is the watchport element or the pid of a special reply port. *)
Record ipc_port := mkPort {
  ip_receiver_name : Z;
  ip_in_pset : bool;
  ip_reply_context : Z;
  imq_seqno : Z;
  imq_msgcount : Z;
  imq_qlimit : Z;
  imq_inheritor : Z;
  waitq_tspriv : Z;
  waitq_ts : Z;
  ip_receiver : Z;
  ip_kobject : Z;
  ip_nsrequest : Z;
  ip_pdrequest : Z;
  ip_requests : option ipr_table;
  ip_premsg : Z;
  ip_context : Z;
  ip_sprequests : bool;
  ip_spimportant : bool;
  ip_impdonation : bool;
  ip_tempowner : bool;
  ip_guarded : bool;
  ip_strict_guard : bool;
  ip_specialreply : bool;
  ip_sync_link_state : Z;
  ip_sync_bootstrap_checkin : bool;
  ip_immovable_receive : bool;
  ip_no_grant : bool;
  ip_immovable_send : bool;
  ip_tg_block_tracking : bool;
  ip_impcount : Z;
  ip_mscount : Z;
  ip_srights : Z;
  ip_sorights : Z;
  ip_srp_lost_link : bool;
  ip_srp_msg_sent : bool
}.
Abbreviation ip_destination := ip_receiver.
Abbreviation ip_timestamp := ip_receiver.
Abbreviation ip_imp_task := ip_kobject.
Abbreviation ip_sync_inheritor_port := ip_kobject.
Abbreviation ip_send_turnstile := ip_premsg.

Definition set_ip_receiver_name (v : Z) (p : ipc_port) : ipc_port :=
  mkPort v (ip_in_pset p) (ip_reply_context p) (imq_seqno p) (imq_msgcount p) (imq_qlimit p)
    (imq_inheritor p) (waitq_tspriv p) (waitq_ts p) (ip_receiver p) (ip_kobject p) (ip_nsrequest
    p) (ip_pdrequest p) (ip_requests p) (ip_premsg p) (ip_context p) (ip_sprequests p)
    (ip_spimportant p) (ip_impdonation p) (ip_tempowner p) (ip_guarded p) (ip_strict_guard p)
    (ip_specialreply p) (ip_sync_link_state p) (ip_sync_bootstrap_checkin p)
    (ip_immovable_receive p) (ip_no_grant p) (ip_immovable_send p) (ip_tg_block_tracking p)
    (ip_impcount p) (ip_mscount p) (ip_srights p) (ip_sorights p) (ip_srp_lost_link p)
    (ip_srp_msg_sent p).
Definition set_ip_in_pset (v : bool) (p : ipc_port) : ipc_port :=
  mkPort (ip_receiver_name p) v (ip_reply_context p) (imq_seqno p) (imq_msgcount p)
    (imq_qlimit p) (imq_inheritor p) (waitq_tspriv p) (waitq_ts p) (ip_receiver p) (ip_kobject
    p) (ip_nsrequest p) (ip_pdrequest p) (ip_requests p) (ip_premsg p) (ip_context p)
    (ip_sprequests p) (ip_spimportant p) (ip_impdonation p) (ip_tempowner p) (ip_guarded p)
    (ip_strict_guard p) (ip_specialreply p) (ip_sync_link_state p) (ip_sync_bootstrap_checkin p)
    (ip_immovable_receive p) (ip_no_grant p) (ip_immovable_send p) (ip_tg_block_tracking p)
    (ip_impcount p) (ip_mscount p) (ip_srights p) (ip_sorights p) (ip_srp_lost_link p)
    (ip_srp_msg_sent p).
Definition set_ip_reply_context (v : Z) (p : ipc_port) : ipc_port :=
  mkPort (ip_receiver_name p) (ip_in_pset p) v (imq_seqno p) (imq_msgcount p) (imq_qlimit p)
    (imq_inheritor p) (waitq_tspriv p) (waitq_ts p) (ip_receiver p) (ip_kobject p) (ip_nsrequest
    p) (ip_pdrequest p) (ip_requests p) (ip_premsg p) (ip_context p) (ip_sprequests p)
    (ip_spimportant p) (ip_impdonation p) (ip_tempowner p) (ip_guarded p) (ip_strict_guard p)
    (ip_specialreply p) (ip_sync_link_state p) (ip_sync_bootstrap_checkin p)
    (ip_immovable_receive p) (ip_no_grant p) (ip_immovable_send p) (ip_tg_block_tracking p)
    (ip_impcount p) (ip_mscount p) (ip_srights p) (ip_sorights p) (ip_srp_lost_link p)
    (ip_srp_msg_sent p).
Definition set_imq_seqno (v : Z) (p : ipc_port) : ipc_port :=
  mkPort (ip_receiver_name p) (ip_in_pset p) (ip_reply_context p) v (imq_msgcount p)
    (imq_qlimit p) (imq_inheritor p) (waitq_tspriv p) (waitq_ts p) (ip_receiver p) (ip_kobject
    p) (ip_nsrequest p) (ip_pdrequest p) (ip_requests p) (ip_premsg p) (ip_context p)
    (ip_sprequests p) (ip_spimportant p) (ip_impdonation p) (ip_tempowner p) (ip_guarded p)
    (ip_strict_guard p) (ip_specialreply p) (ip_sync_link_state p) (ip_sync_bootstrap_checkin p)
    (ip_immovable_receive p) (ip_no_grant p) (ip_immovable_send p) (ip_tg_block_tracking p)
    (ip_impcount p) (ip_mscount p) (ip_srights p) (ip_sorights p) (ip_srp_lost_link p)
    (ip_srp_msg_sent p).
Definition set_imq_msgcount (v : Z) (p : ipc_port) : ipc_port :=
  mkPort (ip_receiver_name p) (ip_in_pset p) (ip_reply_context p) (imq_seqno p) v (imq_qlimit
    p) (imq_inheritor p) (waitq_tspriv p) (waitq_ts p) (ip_receiver p) (ip_kobject p)
    (ip_nsrequest p) (ip_pdrequest p) (ip_requests p) (ip_premsg p) (ip_context p)
    (ip_sprequests p) (ip_spimportant p) (ip_impdonation p) (ip_tempowner p) (ip_guarded p)
    (ip_strict_guard p) (ip_specialreply p) (ip_sync_link_state p) (ip_sync_bootstrap_checkin p)
    (ip_immovable_receive p) (ip_no_grant p) (ip_immovable_send p) (ip_tg_block_tracking p)
    (ip_impcount p) (ip_mscount p) (ip_srights p) (ip_sorights p) (ip_srp_lost_link p)
    (ip_srp_msg_sent p).
Definition set_imq_qlimit (v : Z) (p : ipc_port) : ipc_port :=
  mkPort (ip_receiver_name p) (ip_in_pset p) (ip_reply_context p) (imq_seqno p) (imq_msgcount
    p) v (imq_inheritor p) (waitq_tspriv p) (waitq_ts p) (ip_receiver p) (ip_kobject p)
    (ip_nsrequest p) (ip_pdrequest p) (ip_requests p) (ip_premsg p) (ip_context p)
    (ip_sprequests p) (ip_spimportant p) (ip_impdonation p) (ip_tempowner p) (ip_guarded p)
    (ip_strict_guard p) (ip_specialreply p) (ip_sync_link_state p) (ip_sync_bootstrap_checkin p)
    (ip_immovable_receive p) (ip_no_grant p) (ip_immovable_send p) (ip_tg_block_tracking p)
    (ip_impcount p) (ip_mscount p) (ip_srights p) (ip_sorights p) (ip_srp_lost_link p)
    (ip_srp_msg_sent p).
Definition set_imq_inheritor (v : Z) (p : ipc_port) : ipc_port :=
  mkPort (ip_receiver_name p) (ip_in_pset p) (ip_reply_context p) (imq_seqno p) (imq_msgcount
    p) (imq_qlimit p) v (waitq_tspriv p) (waitq_ts p) (ip_receiver p) (ip_kobject p)
    (ip_nsrequest p) (ip_pdrequest p) (ip_requests p) (ip_premsg p) (ip_context p)
    (ip_sprequests p) (ip_spimportant p) (ip_impdonation p) (ip_tempowner p) (ip_guarded p)
    (ip_strict_guard p) (ip_specialreply p) (ip_sync_link_state p) (ip_sync_bootstrap_checkin p)
    (ip_immovable_receive p) (ip_no_grant p) (ip_immovable_send p) (ip_tg_block_tracking p)
    (ip_impcount p) (ip_mscount p) (ip_srights p) (ip_sorights p) (ip_srp_lost_link p)
    (ip_srp_msg_sent p).
Definition set_waitq_tspriv (v : Z) (p : ipc_port) : ipc_port :=
  mkPort (ip_receiver_name p) (ip_in_pset p) (ip_reply_context p) (imq_seqno p) (imq_msgcount
    p) (imq_qlimit p) (imq_inheritor p) v (waitq_ts p) (ip_receiver p) (ip_kobject p)
    (ip_nsrequest p) (ip_pdrequest p) (ip_requests p) (ip_premsg p) (ip_context p)
    (ip_sprequests p) (ip_spimportant p) (ip_impdonation p) (ip_tempowner p) (ip_guarded p)
    (ip_strict_guard p) (ip_specialreply p) (ip_sync_link_state p) (ip_sync_bootstrap_checkin p)
    (ip_immovable_receive p) (ip_no_grant p) (ip_immovable_send p) (ip_tg_block_tracking p)
    (ip_impcount p) (ip_mscount p) (ip_srights p) (ip_sorights p) (ip_srp_lost_link p)
    (ip_srp_msg_sent p).
Definition set_waitq_ts (v : Z) (p : ipc_port) : ipc_port :=
  mkPort (ip_receiver_name p) (ip_in_pset p) (ip_reply_context p) (imq_seqno p) (imq_msgcount
    p) (imq_qlimit p) (imq_inheritor p) (waitq_tspriv p) v (ip_receiver p) (ip_kobject p)
    (ip_nsrequest p) (ip_pdrequest p) (ip_requests p) (ip_premsg p) (ip_context p)
    (ip_sprequests p) (ip_spimportant p) (ip_impdonation p) (ip_tempowner p) (ip_guarded p)
    (ip_strict_guard p) (ip_specialreply p) (ip_sync_link_state p) (ip_sync_bootstrap_checkin p)
    (ip_immovable_receive p) (ip_no_grant p) (ip_immovable_send p) (ip_tg_block_tracking p)
    (ip_impcount p) (ip_mscount p) (ip_srights p) (ip_sorights p) (ip_srp_lost_link p)
    (ip_srp_msg_sent p).
Definition set_ip_receiver (v : Z) (p : ipc_port) : ipc_port :=
  mkPort (ip_receiver_name p) (ip_in_pset p) (ip_reply_context p) (imq_seqno p) (imq_msgcount
    p) (imq_qlimit p) (imq_inheritor p) (waitq_tspriv p) (waitq_ts p) v (ip_kobject p)
    (ip_nsrequest p) (ip_pdrequest p) (ip_requests p) (ip_premsg p) (ip_context p)
    (ip_sprequests p) (ip_spimportant p) (ip_impdonation p) (ip_tempowner p) (ip_guarded p)
    (ip_strict_guard p) (ip_specialreply p) (ip_sync_link_state p) (ip_sync_bootstrap_checkin p)
    (ip_immovable_receive p) (ip_no_grant p) (ip_immovable_send p) (ip_tg_block_tracking p)
    (ip_impcount p) (ip_mscount p) (ip_srights p) (ip_sorights p) (ip_srp_lost_link p)
    (ip_srp_msg_sent p).
Definition set_ip_kobject (v : Z) (p : ipc_port) : ipc_port :=
  mkPort (ip_receiver_name p) (ip_in_pset p) (ip_reply_context p) (imq_seqno p) (imq_msgcount
    p) (imq_qlimit p) (imq_inheritor p) (waitq_tspriv p) (waitq_ts p) (ip_receiver p) v
    (ip_nsrequest p) (ip_pdrequest p) (ip_requests p) (ip_premsg p) (ip_context p)
    (ip_sprequests p) (ip_spimportant p) (ip_impdonation p) (ip_tempowner p) (ip_guarded p)
    (ip_strict_guard p) (ip_specialreply p) (ip_sync_link_state p) (ip_sync_bootstrap_checkin p)
    (ip_immovable_receive p) (ip_no_grant p) (ip_immovable_send p) (ip_tg_block_tracking p)
    (ip_impcount p) (ip_mscount p) (ip_srights p) (ip_sorights p) (ip_srp_lost_link p)
    (ip_srp_msg_sent p).
Definition set_ip_nsrequest (v : Z) (p : ipc_port) : ipc_port :=
  mkPort (ip_receiver_name p) (ip_in_pset p) (ip_reply_context p) (imq_seqno p) (imq_msgcount
    p) (imq_qlimit p) (imq_inheritor p) (waitq_tspriv p) (waitq_ts p) (ip_receiver p)
    (ip_kobject p) v (ip_pdrequest p) (ip_requests p) (ip_premsg p) (ip_context p)
    (ip_sprequests p) (ip_spimportant p) (ip_impdonation p) (ip_tempowner p) (ip_guarded p)
    (ip_strict_guard p) (ip_specialreply p) (ip_sync_link_state p) (ip_sync_bootstrap_checkin p)
    (ip_immovable_receive p) (ip_no_grant p) (ip_immovable_send p) (ip_tg_block_tracking p)
    (ip_impcount p) (ip_mscount p) (ip_srights p) (ip_sorights p) (ip_srp_lost_link p)
    (ip_srp_msg_sent p).
Definition set_ip_pdrequest (v : Z) (p : ipc_port) : ipc_port :=
  mkPort (ip_receiver_name p) (ip_in_pset p) (ip_reply_context p) (imq_seqno p) (imq_msgcount
    p) (imq_qlimit p) (imq_inheritor p) (waitq_tspriv p) (waitq_ts p) (ip_receiver p)
    (ip_kobject p) (ip_nsrequest p) v (ip_requests p) (ip_premsg p) (ip_context p)
    (ip_sprequests p) (ip_spimportant p) (ip_impdonation p) (ip_tempowner p) (ip_guarded p)
    (ip_strict_guard p) (ip_specialreply p) (ip_sync_link_state p) (ip_sync_bootstrap_checkin p)
    (ip_immovable_receive p) (ip_no_grant p) (ip_immovable_send p) (ip_tg_block_tracking p)
    (ip_impcount p) (ip_mscount p) (ip_srights p) (ip_sorights p) (ip_srp_lost_link p)
    (ip_srp_msg_sent p).
Definition set_ip_requests (v : option ipr_table) (p : ipc_port) : ipc_port :=
  mkPort (ip_receiver_name p) (ip_in_pset p) (ip_reply_context p) (imq_seqno p) (imq_msgcount
    p) (imq_qlimit p) (imq_inheritor p) (waitq_tspriv p) (waitq_ts p) (ip_receiver p)
    (ip_kobject p) (ip_nsrequest p) (ip_pdrequest p) v (ip_premsg p) (ip_context p)
    (ip_sprequests p) (ip_spimportant p) (ip_impdonation p) (ip_tempowner p) (ip_guarded p)
    (ip_strict_guard p) (ip_specialreply p) (ip_sync_link_state p) (ip_sync_bootstrap_checkin p)
    (ip_immovable_receive p) (ip_no_grant p) (ip_immovable_send p) (ip_tg_block_tracking p)
    (ip_impcount p) (ip_mscount p) (ip_srights p) (ip_sorights p) (ip_srp_lost_link p)
    (ip_srp_msg_sent p).
Definition set_ip_premsg (v : Z) (p : ipc_port) : ipc_port :=
  mkPort (ip_receiver_name p) (ip_in_pset p) (ip_reply_context p) (imq_seqno p) (imq_msgcount
    p) (imq_qlimit p) (imq_inheritor p) (waitq_tspriv p) (waitq_ts p) (ip_receiver p)
    (ip_kobject p) (ip_nsrequest p) (ip_pdrequest p) (ip_requests p) v (ip_context p)
    (ip_sprequests p) (ip_spimportant p) (ip_impdonation p) (ip_tempowner p) (ip_guarded p)
    (ip_strict_guard p) (ip_specialreply p) (ip_sync_link_state p) (ip_sync_bootstrap_checkin p)
    (ip_immovable_receive p) (ip_no_grant p) (ip_immovable_send p) (ip_tg_block_tracking p)
    (ip_impcount p) (ip_mscount p) (ip_srights p) (ip_sorights p) (ip_srp_lost_link p)
    (ip_srp_msg_sent p).
Definition set_ip_context (v : Z) (p : ipc_port) : ipc_port :=
  mkPort (ip_receiver_name p) (ip_in_pset p) (ip_reply_context p) (imq_seqno p) (imq_msgcount
    p) (imq_qlimit p) (imq_inheritor p) (waitq_tspriv p) (waitq_ts p) (ip_receiver p)
    (ip_kobject p) (ip_nsrequest p) (ip_pdrequest p) (ip_requests p) (ip_premsg p) v
    (ip_sprequests p) (ip_spimportant p) (ip_impdonation p) (ip_tempowner p) (ip_guarded p)
    (ip_strict_guard p) (ip_specialreply p) (ip_sync_link_state p) (ip_sync_bootstrap_checkin p)
    (ip_immovable_receive p) (ip_no_grant p) (ip_immovable_send p) (ip_tg_block_tracking p)
    (ip_impcount p) (ip_mscount p) (ip_srights p) (ip_sorights p) (ip_srp_lost_link p)
    (ip_srp_msg_sent p).
Definition set_ip_sprequests (v : bool) (p : ipc_port) : ipc_port :=
  mkPort (ip_receiver_name p) (ip_in_pset p) (ip_reply_context p) (imq_seqno p) (imq_msgcount
    p) (imq_qlimit p) (imq_inheritor p) (waitq_tspriv p) (waitq_ts p) (ip_receiver p)
    (ip_kobject p) (ip_nsrequest p) (ip_pdrequest p) (ip_requests p) (ip_premsg p) (ip_context
    p) v (ip_spimportant p) (ip_impdonation p) (ip_tempowner p) (ip_guarded p) (ip_strict_guard
    p) (ip_specialreply p) (ip_sync_link_state p) (ip_sync_bootstrap_checkin p)
    (ip_immovable_receive p) (ip_no_grant p) (ip_immovable_send p) (ip_tg_block_tracking p)
    (ip_impcount p) (ip_mscount p) (ip_srights p) (ip_sorights p) (ip_srp_lost_link p)
    (ip_srp_msg_sent p).
Definition set_ip_spimportant (v : bool) (p : ipc_port) : ipc_port :=
  mkPort (ip_receiver_name p) (ip_in_pset p) (ip_reply_context p) (imq_seqno p) (imq_msgcount
    p) (imq_qlimit p) (imq_inheritor p) (waitq_tspriv p) (waitq_ts p) (ip_receiver p)
    (ip_kobject p) (ip_nsrequest p) (ip_pdrequest p) (ip_requests p) (ip_premsg p) (ip_context
    p) (ip_sprequests p) v (ip_impdonation p) (ip_tempowner p) (ip_guarded p) (ip_strict_guard
    p) (ip_specialreply p) (ip_sync_link_state p) (ip_sync_bootstrap_checkin p)
    (ip_immovable_receive p) (ip_no_grant p) (ip_immovable_send p) (ip_tg_block_tracking p)
    (ip_impcount p) (ip_mscount p) (ip_srights p) (ip_sorights p) (ip_srp_lost_link p)
    (ip_srp_msg_sent p).
Definition set_ip_impdonation (v : bool) (p : ipc_port) : ipc_port :=
  mkPort (ip_receiver_name p) (ip_in_pset p) (ip_reply_context p) (imq_seqno p) (imq_msgcount
    p) (imq_qlimit p) (imq_inheritor p) (waitq_tspriv p) (waitq_ts p) (ip_receiver p)
    (ip_kobject p) (ip_nsrequest p) (ip_pdrequest p) (ip_requests p) (ip_premsg p) (ip_context
    p) (ip_sprequests p) (ip_spimportant p) v (ip_tempowner p) (ip_guarded p) (ip_strict_guard
    p) (ip_specialreply p) (ip_sync_link_state p) (ip_sync_bootstrap_checkin p)
    (ip_immovable_receive p) (ip_no_grant p) (ip_immovable_send p) (ip_tg_block_tracking p)
    (ip_impcount p) (ip_mscount p) (ip_srights p) (ip_sorights p) (ip_srp_lost_link p)
    (ip_srp_msg_sent p).
Definition set_ip_tempowner (v : bool) (p : ipc_port) : ipc_port :=
  mkPort (ip_receiver_name p) (ip_in_pset p) (ip_reply_context p) (imq_seqno p) (imq_msgcount
    p) (imq_qlimit p) (imq_inheritor p) (waitq_tspriv p) (waitq_ts p) (ip_receiver p)
    (ip_kobject p) (ip_nsrequest p) (ip_pdrequest p) (ip_requests p) (ip_premsg p) (ip_context
    p) (ip_sprequests p) (ip_spimportant p) (ip_impdonation p) v (ip_guarded p) (ip_strict_guard
    p) (ip_specialreply p) (ip_sync_link_state p) (ip_sync_bootstrap_checkin p)
    (ip_immovable_receive p) (ip_no_grant p) (ip_immovable_send p) (ip_tg_block_tracking p)
    (ip_impcount p) (ip_mscount p) (ip_srights p) (ip_sorights p) (ip_srp_lost_link p)
    (ip_srp_msg_sent p).
Definition set_ip_guarded (v : bool) (p : ipc_port) : ipc_port :=
  mkPort (ip_receiver_name p) (ip_in_pset p) (ip_reply_context p) (imq_seqno p) (imq_msgcount
    p) (imq_qlimit p) (imq_inheritor p) (waitq_tspriv p) (waitq_ts p) (ip_receiver p)
    (ip_kobject p) (ip_nsrequest p) (ip_pdrequest p) (ip_requests p) (ip_premsg p) (ip_context
    p) (ip_sprequests p) (ip_spimportant p) (ip_impdonation p) (ip_tempowner p) v
    (ip_strict_guard p) (ip_specialreply p) (ip_sync_link_state p) (ip_sync_bootstrap_checkin p)
    (ip_immovable_receive p) (ip_no_grant p) (ip_immovable_send p) (ip_tg_block_tracking p)
    (ip_impcount p) (ip_mscount p) (ip_srights p) (ip_sorights p) (ip_srp_lost_link p)
    (ip_srp_msg_sent p).
Definition set_ip_strict_guard (v : bool) (p : ipc_port) : ipc_port :=
  mkPort (ip_receiver_name p) (ip_in_pset p) (ip_reply_context p) (imq_seqno p) (imq_msgcount
    p) (imq_qlimit p) (imq_inheritor p) (waitq_tspriv p) (waitq_ts p) (ip_receiver p)
    (ip_kobject p) (ip_nsrequest p) (ip_pdrequest p) (ip_requests p) (ip_premsg p) (ip_context
    p) (ip_sprequests p) (ip_spimportant p) (ip_impdonation p) (ip_tempowner p) (ip_guarded p) v
    (ip_specialreply p) (ip_sync_link_state p) (ip_sync_bootstrap_checkin p)
    (ip_immovable_receive p) (ip_no_grant p) (ip_immovable_send p) (ip_tg_block_tracking p)
    (ip_impcount p) (ip_mscount p) (ip_srights p) (ip_sorights p) (ip_srp_lost_link p)
    (ip_srp_msg_sent p).
Definition set_ip_specialreply (v : bool) (p : ipc_port) : ipc_port :=
  mkPort (ip_receiver_name p) (ip_in_pset p) (ip_reply_context p) (imq_seqno p) (imq_msgcount
    p) (imq_qlimit p) (imq_inheritor p) (waitq_tspriv p) (waitq_ts p) (ip_receiver p)
    (ip_kobject p) (ip_nsrequest p) (ip_pdrequest p) (ip_requests p) (ip_premsg p) (ip_context
    p) (ip_sprequests p) (ip_spimportant p) (ip_impdonation p) (ip_tempowner p) (ip_guarded p)
    (ip_strict_guard p) v (ip_sync_link_state p) (ip_sync_bootstrap_checkin p)
    (ip_immovable_receive p) (ip_no_grant p) (ip_immovable_send p) (ip_tg_block_tracking p)
    (ip_impcount p) (ip_mscount p) (ip_srights p) (ip_sorights p) (ip_srp_lost_link p)
    (ip_srp_msg_sent p).
Definition set_ip_sync_link_state (v : Z) (p : ipc_port) : ipc_port :=
  mkPort (ip_receiver_name p) (ip_in_pset p) (ip_reply_context p) (imq_seqno p) (imq_msgcount
    p) (imq_qlimit p) (imq_inheritor p) (waitq_tspriv p) (waitq_ts p) (ip_receiver p)
    (ip_kobject p) (ip_nsrequest p) (ip_pdrequest p) (ip_requests p) (ip_premsg p) (ip_context
    p) (ip_sprequests p) (ip_spimportant p) (ip_impdonation p) (ip_tempowner p) (ip_guarded p)
    (ip_strict_guard p) (ip_specialreply p) v (ip_sync_bootstrap_checkin p)
    (ip_immovable_receive p) (ip_no_grant p) (ip_immovable_send p) (ip_tg_block_tracking p)
    (ip_impcount p) (ip_mscount p) (ip_srights p) (ip_sorights p) (ip_srp_lost_link p)
    (ip_srp_msg_sent p).
Definition set_ip_sync_bootstrap_checkin (v : bool) (p : ipc_port) : ipc_port :=
  mkPort (ip_receiver_name p) (ip_in_pset p) (ip_reply_context p) (imq_seqno p) (imq_msgcount
    p) (imq_qlimit p) (imq_inheritor p) (waitq_tspriv p) (waitq_ts p) (ip_receiver p)
    (ip_kobject p) (ip_nsrequest p) (ip_pdrequest p) (ip_requests p) (ip_premsg p) (ip_context
    p) (ip_sprequests p) (ip_spimportant p) (ip_impdonation p) (ip_tempowner p) (ip_guarded p)
    (ip_strict_guard p) (ip_specialreply p) (ip_sync_link_state p) v (ip_immovable_receive p)
    (ip_no_grant p) (ip_immovable_send p) (ip_tg_block_tracking p) (ip_impcount p) (ip_mscount
    p) (ip_srights p) (ip_sorights p) (ip_srp_lost_link p) (ip_srp_msg_sent p).
Definition set_ip_immovable_receive (v : bool) (p : ipc_port) : ipc_port :=
  mkPort (ip_receiver_name p) (ip_in_pset p) (ip_reply_context p) (imq_seqno p) (imq_msgcount
    p) (imq_qlimit p) (imq_inheritor p) (waitq_tspriv p) (waitq_ts p) (ip_receiver p)
    (ip_kobject p) (ip_nsrequest p) (ip_pdrequest p) (ip_requests p) (ip_premsg p) (ip_context
    p) (ip_sprequests p) (ip_spimportant p) (ip_impdonation p) (ip_tempowner p) (ip_guarded p)
    (ip_strict_guard p) (ip_specialreply p) (ip_sync_link_state p) (ip_sync_bootstrap_checkin p)
    v (ip_no_grant p) (ip_immovable_send p) (ip_tg_block_tracking p) (ip_impcount p) (ip_mscount
    p) (ip_srights p) (ip_sorights p) (ip_srp_lost_link p) (ip_srp_msg_sent p).
Definition set_ip_no_grant (v : bool) (p : ipc_port) : ipc_port :=
  mkPort (ip_receiver_name p) (ip_in_pset p) (ip_reply_context p) (imq_seqno p) (imq_msgcount
    p) (imq_qlimit p) (imq_inheritor p) (waitq_tspriv p) (waitq_ts p) (ip_receiver p)
    (ip_kobject p) (ip_nsrequest p) (ip_pdrequest p) (ip_requests p) (ip_premsg p) (ip_context
    p) (ip_sprequests p) (ip_spimportant p) (ip_impdonation p) (ip_tempowner p) (ip_guarded p)
    (ip_strict_guard p) (ip_specialreply p) (ip_sync_link_state p) (ip_sync_bootstrap_checkin p)
    (ip_immovable_receive p) v (ip_immovable_send p) (ip_tg_block_tracking p) (ip_impcount p)
    (ip_mscount p) (ip_srights p) (ip_sorights p) (ip_srp_lost_link p) (ip_srp_msg_sent p).
Definition set_ip_immovable_send (v : bool) (p : ipc_port) : ipc_port :=
  mkPort (ip_receiver_name p) (ip_in_pset p) (ip_reply_context p) (imq_seqno p) (imq_msgcount
    p) (imq_qlimit p) (imq_inheritor p) (waitq_tspriv p) (waitq_ts p) (ip_receiver p)
    (ip_kobject p) (ip_nsrequest p) (ip_pdrequest p) (ip_requests p) (ip_premsg p) (ip_context
    p) (ip_sprequests p) (ip_spimportant p) (ip_impdonation p) (ip_tempowner p) (ip_guarded p)
    (ip_strict_guard p) (ip_specialreply p) (ip_sync_link_state p) (ip_sync_bootstrap_checkin p)
    (ip_immovable_receive p) (ip_no_grant p) v (ip_tg_block_tracking p) (ip_impcount p)
    (ip_mscount p) (ip_srights p) (ip_sorights p) (ip_srp_lost_link p) (ip_srp_msg_sent p).
Definition set_ip_tg_block_tracking (v : bool) (p : ipc_port) : ipc_port :=
  mkPort (ip_receiver_name p) (ip_in_pset p) (ip_reply_context p) (imq_seqno p) (imq_msgcount
    p) (imq_qlimit p) (imq_inheritor p) (waitq_tspriv p) (waitq_ts p) (ip_receiver p)
    (ip_kobject p) (ip_nsrequest p) (ip_pdrequest p) (ip_requests p) (ip_premsg p) (ip_context
    p) (ip_sprequests p) (ip_spimportant p) (ip_impdonation p) (ip_tempowner p) (ip_guarded p)
    (ip_strict_guard p) (ip_specialreply p) (ip_sync_link_state p) (ip_sync_bootstrap_checkin p)
    (ip_immovable_receive p) (ip_no_grant p) (ip_immovable_send p) v (ip_impcount p) (ip_mscount
    p) (ip_srights p) (ip_sorights p) (ip_srp_lost_link p) (ip_srp_msg_sent p).
Definition set_ip_impcount (v : Z) (p : ipc_port) : ipc_port :=
  mkPort (ip_receiver_name p) (ip_in_pset p) (ip_reply_context p) (imq_seqno p) (imq_msgcount
    p) (imq_qlimit p) (imq_inheritor p) (waitq_tspriv p) (waitq_ts p) (ip_receiver p)
    (ip_kobject p) (ip_nsrequest p) (ip_pdrequest p) (ip_requests p) (ip_premsg p) (ip_context
    p) (ip_sprequests p) (ip_spimportant p) (ip_impdonation p) (ip_tempowner p) (ip_guarded p)
    (ip_strict_guard p) (ip_specialreply p) (ip_sync_link_state p) (ip_sync_bootstrap_checkin p)
    (ip_immovable_receive p) (ip_no_grant p) (ip_immovable_send p) (ip_tg_block_tracking p) v
    (ip_mscount p) (ip_srights p) (ip_sorights p) (ip_srp_lost_link p) (ip_srp_msg_sent p).
Definition set_ip_mscount (v : Z) (p : ipc_port) : ipc_port :=
  mkPort (ip_receiver_name p) (ip_in_pset p) (ip_reply_context p) (imq_seqno p) (imq_msgcount
    p) (imq_qlimit p) (imq_inheritor p) (waitq_tspriv p) (waitq_ts p) (ip_receiver p)
    (ip_kobject p) (ip_nsrequest p) (ip_pdrequest p) (ip_requests p) (ip_premsg p) (ip_context
    p) (ip_sprequests p) (ip_spimportant p) (ip_impdonation p) (ip_tempowner p) (ip_guarded p)
    (ip_strict_guard p) (ip_specialreply p) (ip_sync_link_state p) (ip_sync_bootstrap_checkin p)
    (ip_immovable_receive p) (ip_no_grant p) (ip_immovable_send p) (ip_tg_block_tracking p)
    (ip_impcount p) v (ip_srights p) (ip_sorights p) (ip_srp_lost_link p) (ip_srp_msg_sent p).
Definition set_ip_srights (v : Z) (p : ipc_port) : ipc_port :=
  mkPort (ip_receiver_name p) (ip_in_pset p) (ip_reply_context p) (imq_seqno p) (imq_msgcount
    p) (imq_qlimit p) (imq_inheritor p) (waitq_tspriv p) (waitq_ts p) (ip_receiver p)
    (ip_kobject p) (ip_nsrequest p) (ip_pdrequest p) (ip_requests p) (ip_premsg p) (ip_context
    p) (ip_sprequests p) (ip_spimportant p) (ip_impdonation p) (ip_tempowner p) (ip_guarded p)
    (ip_strict_guard p) (ip_specialreply p) (ip_sync_link_state p) (ip_sync_bootstrap_checkin p)
    (ip_immovable_receive p) (ip_no_grant p) (ip_immovable_send p) (ip_tg_block_tracking p)
    (ip_impcount p) (ip_mscount p) v (ip_sorights p) (ip_srp_lost_link p) (ip_srp_msg_sent p).
Definition set_ip_sorights (v : Z) (p : ipc_port) : ipc_port :=
  mkPort (ip_receiver_name p) (ip_in_pset p) (ip_reply_context p) (imq_seqno p) (imq_msgcount
    p) (imq_qlimit p) (imq_inheritor p) (waitq_tspriv p) (waitq_ts p) (ip_receiver p)
    (ip_kobject p) (ip_nsrequest p) (ip_pdrequest p) (ip_requests p) (ip_premsg p) (ip_context
    p) (ip_sprequests p) (ip_spimportant p) (ip_impdonation p) (ip_tempowner p) (ip_guarded p)
    (ip_strict_guard p) (ip_specialreply p) (ip_sync_link_state p) (ip_sync_bootstrap_checkin p)
    (ip_immovable_receive p) (ip_no_grant p) (ip_immovable_send p) (ip_tg_block_tracking p)
    (ip_impcount p) (ip_mscount p) (ip_srights p) v (ip_srp_lost_link p) (ip_srp_msg_sent p).
Definition set_ip_srp_lost_link (v : bool) (p : ipc_port) : ipc_port :=
  mkPort (ip_receiver_name p) (ip_in_pset p) (ip_reply_context p) (imq_seqno p) (imq_msgcount
    p) (imq_qlimit p) (imq_inheritor p) (waitq_tspriv p) (waitq_ts p) (ip_receiver p)
    (ip_kobject p) (ip_nsrequest p) (ip_pdrequest p) (ip_requests p) (ip_premsg p) (ip_context
    p) (ip_sprequests p) (ip_spimportant p) (ip_impdonation p) (ip_tempowner p) (ip_guarded p)
    (ip_strict_guard p) (ip_specialreply p) (ip_sync_link_state p) (ip_sync_bootstrap_checkin p)
    (ip_immovable_receive p) (ip_no_grant p) (ip_immovable_send p) (ip_tg_block_tracking p)
    (ip_impcount p) (ip_mscount p) (ip_srights p) (ip_sorights p) v (ip_srp_msg_sent p).
Definition set_ip_srp_msg_sent (v : bool) (p : ipc_port) : ipc_port :=
  mkPort (ip_receiver_name p) (ip_in_pset p) (ip_reply_context p) (imq_seqno p) (imq_msgcount
    p) (imq_qlimit p) (imq_inheritor p) (waitq_tspriv p) (waitq_ts p) (ip_receiver p)
    (ip_kobject p) (ip_nsrequest p) (ip_pdrequest p) (ip_requests p) (ip_premsg p) (ip_context
    p) (ip_sprequests p) (ip_spimportant p) (ip_impdonation p) (ip_tempowner p) (ip_guarded p)
    (ip_strict_guard p) (ip_specialreply p) (ip_sync_link_state p) (ip_sync_bootstrap_checkin p)
    (ip_immovable_receive p) (ip_no_grant p) (ip_immovable_send p) (ip_tg_block_tracking p)
    (ip_impcount p) (ip_mscount p) (ip_srights p) (ip_sorights p) (ip_srp_lost_link p) v.
Abbreviation set_ip_destination := set_ip_receiver.
Abbreviation set_ip_timestamp := set_ip_receiver.
Abbreviation set_ip_imp_task := set_ip_kobject.
Abbreviation set_ip_sync_inheritor_port := set_ip_kobject.

(** [bzero] of a port *)
Definition ip_zero : ipc_port :=
  mkPort 0 false 0 0 0 0 0 0 0 0 0 0 0 None 0 0 false false false false false false false 0 false false false false false 0 0 0 0 false false.

Definition ip_full (p : ipc_port) : bool := imq_qlimit p <=? imq_msgcount p.
Definition MACH_PORT_QLIMIT_KERNEL : Z := 65534.
Definition ip_full_kernel (p : ipc_port) : bool :=
  MACH_PORT_QLIMIT_KERNEL <=? imq_msgcount p.

Definition IPR_SOR_SPARM_MASK : Z := 1.
Definition IPR_SOR_SPREQ_MASK : Z := 2.
Definition IPR_SOR_SPBIT_MASK : Z := 3.
Definition IPR_SOR_SPARMED (sor : Z) : bool := negb (Z.land sor IPR_SOR_SPARM_MASK =? 0).
Definition IPR_SOR_SPREQ (sor : Z) : bool := negb (Z.land sor IPR_SOR_SPREQ_MASK =? 0).
Definition IPR_SOR_PORT (sor : Z) : Z := Z.land sor (Z.lnot IPR_SOR_SPBIT_MASK).
Definition IPR_SOR_MAKE (p m : Z) : Z := Z.lor p m.

(** ** Spaces (ipc/ipc_space.h) *)

Record bool_gen := mkBoolGen { bg_seed0 : Z; bg_seed1 : Z; bg_seed2 : Z; bg_seed3 : Z; bg_state : Z }.

(** [is_table_next] is an index of [ipc_table_entries], [is_entropy] the one
    element of the entropy pool. *)
Record ipc_space := mkSpace {
  is_bits : Z;
  is_table_size : Z;
  is_table_hashed : Z;
  is_table_free : Z;
  is_table : list ipc_entry;
  is_table_next : Z;
  is_task : Z;
  is_label : Z;
  is_low_mod : Z;
  is_high_mod : Z;
  is_bool_gen : bool_gen;
  is_entropy : Z;
  is_node_id : Z
}.
Definition set_is_bits (v : Z) (s : ipc_space) : ipc_space :=
  mkSpace v (is_table_size s) (is_table_hashed s) (is_table_free s) (is_table s)
    (is_table_next s) (is_task s) (is_label s) (is_low_mod s) (is_high_mod s) (is_bool_gen s)
    (is_entropy s) (is_node_id s).
Definition set_is_table_size (v : Z) (s : ipc_space) : ipc_space :=
  mkSpace (is_bits s) v (is_table_hashed s) (is_table_free s) (is_table s) (is_table_next s)
    (is_task s) (is_label s) (is_low_mod s) (is_high_mod s) (is_bool_gen s) (is_entropy s)
    (is_node_id s).
Definition set_is_table_hashed (v : Z) (s : ipc_space) : ipc_space :=
  mkSpace (is_bits s) (is_table_size s) v (is_table_free s) (is_table s) (is_table_next s)
    (is_task s) (is_label s) (is_low_mod s) (is_high_mod s) (is_bool_gen s) (is_entropy s)
    (is_node_id s).
Definition set_is_table_free (v : Z) (s : ipc_space) : ipc_space :=
  mkSpace (is_bits s) (is_table_size s) (is_table_hashed s) v (is_table s) (is_table_next s)
    (is_task s) (is_label s) (is_low_mod s) (is_high_mod s) (is_bool_gen s) (is_entropy s)
    (is_node_id s).
Definition set_is_table (v : list ipc_entry) (s : ipc_space) : ipc_space :=
  mkSpace (is_bits s) (is_table_size s) (is_table_hashed s) (is_table_free s) v (is_table_next
    s) (is_task s) (is_label s) (is_low_mod s) (is_high_mod s) (is_bool_gen s) (is_entropy s)
    (is_node_id s).
Definition set_is_table_next (v : Z) (s : ipc_space) : ipc_space :=
  mkSpace (is_bits s) (is_table_size s) (is_table_hashed s) (is_table_free s) (is_table s) v
    (is_task s) (is_label s) (is_low_mod s) (is_high_mod s) (is_bool_gen s) (is_entropy s)
    (is_node_id s).
Definition set_is_task (v : Z) (s : ipc_space) : ipc_space :=
  mkSpace (is_bits s) (is_table_size s) (is_table_hashed s) (is_table_free s) (is_table s)
    (is_table_next s) v (is_label s) (is_low_mod s) (is_high_mod s) (is_bool_gen s) (is_entropy
    s) (is_node_id s).
Definition set_is_label (v : Z) (s : ipc_space) : ipc_space :=
  mkSpace (is_bits s) (is_table_size s) (is_table_hashed s) (is_table_free s) (is_table s)
    (is_table_next s) (is_task s) v (is_low_mod s) (is_high_mod s) (is_bool_gen s) (is_entropy
    s) (is_node_id s).
Definition set_is_low_mod (v : Z) (s : ipc_space) : ipc_space :=
  mkSpace (is_bits s) (is_table_size s) (is_table_hashed s) (is_table_free s) (is_table s)
    (is_table_next s) (is_task s) (is_label s) v (is_high_mod s) (is_bool_gen s) (is_entropy s)
    (is_node_id s).
Definition set_is_high_mod (v : Z) (s : ipc_space) : ipc_space :=
  mkSpace (is_bits s) (is_table_size s) (is_table_hashed s) (is_table_free s) (is_table s)
    (is_table_next s) (is_task s) (is_label s) (is_low_mod s) v (is_bool_gen s) (is_entropy s)
    (is_node_id s).
Definition set_is_bool_gen (v : bool_gen) (s : ipc_space) : ipc_space :=
  mkSpace (is_bits s) (is_table_size s) (is_table_hashed s) (is_table_free s) (is_table s)
    (is_table_next s) (is_task s) (is_label s) (is_low_mod s) (is_high_mod s) v (is_entropy s)
    (is_node_id s).
Definition set_is_entropy (v : Z) (s : ipc_space) : ipc_space :=
  mkSpace (is_bits s) (is_table_size s) (is_table_hashed s) (is_table_free s) (is_table s)
    (is_table_next s) (is_task s) (is_label s) (is_low_mod s) (is_high_mod s) (is_bool_gen s) v
    (is_node_id s).
Definition set_is_node_id (v : Z) (s : ipc_space) : ipc_space :=
  mkSpace (is_bits s) (is_table_size s) (is_table_hashed s) (is_table_free s) (is_table s)
    (is_table_next s) (is_task s) (is_label s) (is_low_mod s) (is_high_mod s) (is_bool_gen s)
    (is_entropy s) v.

Definition HOST_LOCAL_NODE : Z := -1.
Abbreviation TASK_NULL := 0.
Definition IS_NULL : Z := 0.
Definition IS_REFS_MAX : Z := 0x0fffffff.
Definition IS_INACTIVE : Z := 0x40000000.
Definition IS_GROWING : Z := 0x20000000.
Definition is_active (s : ipc_space) : bool :=
  negb (Z.land (is_bits s) IS_INACTIVE =? IS_INACTIVE).
Definition is_growing (s : ipc_space) : bool :=
  Z.land (is_bits s) IS_GROWING =? IS_GROWING.
Definition is_refs (s : ipc_space) : Z := Z.land (is_bits s) IS_REFS_MAX.

(** ** The world *)

Inductive event := Call (fn : string) (args : list Z).

Inductive klock := LSpace (s : Z) | LObject (o : Z) | LMqueue (p : Z) | LPortMultiple.

#[export] Instance event_eq_dec : EqDecision event.
Proof. solve_decision. Defined.
#[export] Instance klock_eq_dec : EqDecision klock.
Proof. solve_decision. Defined.
#[export] Instance klock_countable : Countable klock.
Proof.
  refine (inj_countable'
    (fun l => match l with
              | LSpace s => (0, s) | LObject o => (1, o) | LMqueue p => (2, p)
              | LPortMultiple => (3, 0) end)
    (fun '(t, a) => if t =? 0 then LSpace a else if t =? 1 then LObject a
                    else if t =? 2 then LMqueue a else LPortMultiple) _).
  by intros [].
Defined.

(** What does not change: the results of external calls, the boot-time table
    sizes, and the current thread and task. *)
Record kenv := mkEnv {
  e_ext : list event -> string -> list Z -> Z;
  e_table_entries : list Z;
  e_table_requests : list Z;
  e_space_kernel : Z;
  e_current_task : Z;
  e_kernel_task : Z;
  e_current_thread : Z;
  e_ith_knote : Z;
  e_ith_msg_addr : Z
}.

(** [w_assertions] is [ith_assertions] of the current thread. *)
Record world := mkWorld {
  w_io : gmap Z ipc_object;
  w_port : gmap Z ipc_port;
  w_space : gmap Z ipc_space;
  w_locks : gset klock;
  w_trace : list event;
  w_timestamp : Z;
  w_assertions : Z;
  w_env : kenv
}.
Definition set_w_io (v : gmap Z ipc_object) (w : world) : world :=
  mkWorld v (w_port w) (w_space w) (w_locks w) (w_trace w) (w_timestamp w) (w_assertions w)
    (w_env w).
Definition set_w_port (v : gmap Z ipc_port) (w : world) : world :=
  mkWorld (w_io w) v (w_space w) (w_locks w) (w_trace w) (w_timestamp w) (w_assertions w)
    (w_env w).
Definition set_w_space (v : gmap Z ipc_space) (w : world) : world :=
  mkWorld (w_io w) (w_port w) v (w_locks w) (w_trace w) (w_timestamp w) (w_assertions w)
    (w_env w).
Definition set_w_locks (v : gset klock) (w : world) : world :=
  mkWorld (w_io w) (w_port w) (w_space w) v (w_trace w) (w_timestamp w) (w_assertions w)
    (w_env w).
Definition set_w_trace (v : list event) (w : world) : world :=
  mkWorld (w_io w) (w_port w) (w_space w) (w_locks w) v (w_timestamp w) (w_assertions w)
    (w_env w).
Definition set_w_timestamp (v : Z) (w : world) : world :=
  mkWorld (w_io w) (w_port w) (w_space w) (w_locks w) (w_trace w) v (w_assertions w) (w_env w).
Definition set_w_assertions (v : Z) (w : world) : world :=
  mkWorld (w_io w) (w_port w) (w_space w) (w_locks w) (w_trace w) (w_timestamp w) v (w_env w).
Definition set_w_env (v : kenv) (w : world) : world :=
  mkWorld (w_io w) (w_port w) (w_space w) (w_locks w) (w_trace w) (w_timestamp w)
    (w_assertions w) v.
