(* ===== verification/Kernel.v ===== *)
(** * The monad of the IPC code

    A routine is a function from the world to a result and a world, or to a
    panic.  Routines run to completion: there is one thread.

    - A failed assertion is a panic: the configuration is the one with
      MACH_ASSERT.
    - A use after free is a panic, and so is taking a lock that is held or
      releasing one that is not.
    - A call into a subsystem that is not modelled is an event of [w_trace].
      Its result is given by [e_ext], any function of the calls made so far and
      of the arguments. *)

From S2P Require Import Prelude IpcTypes KernelState.

Inductive outcome (A : Type) :=
  | Ret (a : A) (w : world)
  | Panic (msg : string).
Arguments Ret {A} a w.
Arguments Panic {A} msg.

Definition M (A : Type) : Type := world -> outcome A.

#[export] Instance M_ret : MRet M := fun A a w => Ret a w.
#[export] Instance M_bind : MBind M := fun A B k m w =>
  match m w with Ret a w' => k a w' | Panic msg => Panic msg end.

(** ** Effects *)

Definition gets {A} (f : world -> A) : M A := fun w => Ret (f w) w.
Definition modify (f : world -> world) : M unit := fun w => Ret tt (f w).
Definition panic {A} (msg : string) : M A := fun _ => Panic msg.
Definition massert (b : bool) : M unit := if b then mret tt else panic "assert".
Definition when (b : bool) (m : M unit) : M unit := if b then m else mret tt.

Definition deref {A} (o : option A) (msg : string) : M A :=
  match o with Some a => mret a | None => panic msg end.

Definition env : M kenv := gets w_env.

(** A call into code that is not modelled. *)
Definition call (fn : string) (args : list Z) : M Z := fun w =>
  Ret (e_ext (w_env w) (w_trace w) fn args) (set_w_trace (Call fn args :: w_trace w) w).
Definition call_ (fn : string) (args : list Z) : M unit := call fn args;; mret tt.
Definition callb (fn : string) (args : list Z) : M bool :=
  r ← call fn args; mret (negb (r =? 0)).

Definition lock (l : klock) : M unit :=
  ls ← gets w_locks;
  if decide (l ∈ ls) then panic "lock" else modify (fun w => set_w_locks ({[l]} ∪ ls) w).
Definition unlock (l : klock) : M unit :=
  ls ← gets w_locks;
  if decide (l ∈ ls) then modify (fun w => set_w_locks (ls ∖ {[l]}) w) else panic "unlock".
(** [ip_lock_held], [imq_held] *)
Definition lock_held (l : klock) : M unit :=
  ls ← gets w_locks; massert (bool_decide (l ∈ ls)).

Definition io (o : Z) : M ipc_object := m ← gets w_io; deref (m !! o) "object".
Definition upd_io (o : Z) (f : ipc_object -> ipc_object) : M unit :=
  h ← io o; modify (fun w => set_w_io (<[o := f h]> (w_io w)) w).
Definition port (p : Z) : M ipc_port := m ← gets w_port; deref (m !! p) "port".
Definition upd_port (p : Z) (f : ipc_port -> ipc_port) : M unit :=
  x ← port p; modify (fun w => set_w_port (<[p := f x]> (w_port w)) w).
Definition space (s : Z) : M ipc_space := m ← gets w_space; deref (m !! s) "space".
Definition upd_space (s : Z) (f : ipc_space -> ipc_space) : M unit :=
  x ← space s; modify (fun w => set_w_space (<[s := f x]> (w_space w)) w).

Definition entry (s i : Z) : M ipc_entry :=
  sp ← space s; deref (aget (is_table sp) i) "entry".
Definition upd_entry (s i : Z) (f : ipc_entry -> ipc_entry) : M unit :=
  e ← entry s i;
  upd_space s (fun sp => set_is_table (aset (is_table sp) i (f e)) sp).

(** A routine on one space, written as a function of the structure. *)
Definition on_space {A} (s : Z) (f : ipc_space -> option (A * ipc_space)) : M A :=
  sp ← space s;
  '(a, sp') ← deref (f sp) "assert";
  upd_space s (fun _ => sp');;
  mret a.

(** ** Weakest precondition: the routine returns, in a state that satisfies [Q] *)

Definition wp {A} (m : M A) (Q : A -> world -> Prop) (w : world) : Prop :=
  match m w with Ret a w' => Q a w' | Panic _ => False end.

Section wp.
Context {A B : Type}.
Implicit Types (Q : A -> world -> Prop) (w : world).

Lemma wp_ret Q (a : A) w : Q a w -> wp (mret a) Q w.
Proof. done. Qed.

Lemma wp_bind Q (m : M B) (k : B -> M A) w :
  wp m (fun b w' => wp (k b) Q w') w -> wp (m ≫= k) Q w.
Proof. unfold wp, mbind, M_bind. by destruct (m w). Qed.

Lemma wp_unbind Q (m : M B) (k : B -> M A) w :
  wp (m ≫= k) Q w -> wp m (fun b w' => wp (k b) Q w') w.
Proof. unfold wp, mbind, M_bind. by destruct (m w). Qed.

Lemma wp_mono Q Q' (m : M A) w :
  wp m Q w -> (forall a w', Q a w' -> Q' a w') -> wp m Q' w.
Proof. unfold wp. destruct (m w); naive_solver. Qed.

Lemma wp_run Q (m : M A) w : wp m Q w -> exists a w', m w = Ret a w' /\ Q a w'.
Proof. unfold wp. destruct (m w); naive_solver. Qed.

Lemma run_bind (m : M B) (k : B -> M A) w b w' : m w = Ret b w' -> (m ≫= k) w = k b w'.
Proof. unfold mbind, M_bind. by intros ->. Qed.
End wp.

(** ** Rules for the effects *)

Section wp_rules.
Implicit Types (w : world).

Lemma wp_gets {A} (f : world -> A) Q w : Q (f w) w -> wp (gets f) Q w.
Proof. done. Qed.

Lemma wp_modify f (Q : unit -> world -> Prop) w : Q tt (f w) -> wp (modify f) Q w.
Proof. done. Qed.

Lemma wp_massert b (Q : unit -> world -> Prop) w : b = true -> Q tt w -> wp (massert b) Q w.
Proof. by intros ->. Qed.

Lemma wp_when b m (Q : unit -> world -> Prop) w :
  (b = true -> wp m Q w) -> (b = false -> Q tt w) -> wp (when b m) Q w.
Proof. destruct b; intros Ht Hf; [by apply Ht|by apply Hf]. Qed.

Lemma wp_deref {A} (o : option A) msg a Q w : o = Some a -> Q a w -> wp (deref o msg) Q w.
Proof. by intros ->. Qed.

Lemma wp_env (Q : kenv -> world -> Prop) w : Q (w_env w) w -> wp env Q w.
Proof. done. Qed.

Lemma wp_call fn args (Q : Z -> world -> Prop) w :
  Q (e_ext (w_env w) (w_trace w) fn args) (set_w_trace (Call fn args :: w_trace w) w) ->
  wp (call fn args) Q w.
Proof. done. Qed.

Lemma wp_call_ fn args (Q : unit -> world -> Prop) w :
  Q tt (set_w_trace (Call fn args :: w_trace w) w) -> wp (call_ fn args) Q w.
Proof. done. Qed.

Lemma wp_callb fn args (Q : bool -> world -> Prop) w :
  Q (negb (e_ext (w_env w) (w_trace w) fn args =? 0))
    (set_w_trace (Call fn args :: w_trace w) w) ->
  wp (callb fn args) Q w.
Proof. done. Qed.

Lemma wp_lock l (Q : unit -> world -> Prop) w :
  l ∉ w_locks w -> Q tt (set_w_locks ({[l]} ∪ w_locks w) w) -> wp (lock l) Q w.
Proof. intros Hl HQ. unfold lock. apply wp_bind. apply wp_gets. by rewrite decide_False by done. Qed.

Lemma run_lock l w :
  l ∉ w_locks w -> lock l w = Ret tt (set_w_locks ({[l]} ∪ w_locks w) w).
Proof. intros Hl. unfold lock. erewrite run_bind by done. by rewrite decide_False by done. Qed.

Lemma wp_unlock l (Q : unit -> world -> Prop) w :
  l ∈ w_locks w -> Q tt (set_w_locks (w_locks w ∖ {[l]}) w) -> wp (unlock l) Q w.
Proof. intros Hl HQ. unfold unlock. apply wp_bind. apply wp_gets. by rewrite decide_True by done. Qed.

Lemma wp_lock_held l (Q : unit -> world -> Prop) w :
  l ∈ w_locks w -> Q tt w -> wp (lock_held l) Q w.
Proof. intros Hl HQ. unfold lock_held. apply wp_bind. apply wp_gets. apply wp_massert; [|done].
  by apply bool_decide_true. Qed.

Lemma wp_io o h (Q : ipc_object -> world -> Prop) w :
  w_io w !! o = Some h -> Q h w -> wp (io o) Q w.
Proof. intros Hh HQ. unfold io. apply wp_bind. apply wp_gets. by apply wp_deref with h. Qed.

Lemma wp_upd_io o h f (Q : unit -> world -> Prop) w :
  w_io w !! o = Some h -> Q tt (set_w_io (<[o := f h]> (w_io w)) w) -> wp (upd_io o f) Q w.
Proof. intros Hh HQ. unfold upd_io. apply wp_bind. by apply (wp_io o h). Qed.

Lemma wp_port p x (Q : ipc_port -> world -> Prop) w :
  w_port w !! p = Some x -> Q x w -> wp (port p) Q w.
Proof. intros Hx HQ. unfold port. apply wp_bind. apply wp_gets. by apply wp_deref with x. Qed.

Lemma wp_upd_port p x f (Q : unit -> world -> Prop) w :
  w_port w !! p = Some x -> Q tt (set_w_port (<[p := f x]> (w_port w)) w) ->
  wp (upd_port p f) Q w.
Proof. intros Hx HQ. unfold upd_port. apply wp_bind. by apply (wp_port p x). Qed.

Lemma wp_space s sp (Q : ipc_space -> world -> Prop) w :
  w_space w !! s = Some sp -> Q sp w -> wp (space s) Q w.
Proof. intros Hx HQ. unfold space. apply wp_bind. apply wp_gets. by apply wp_deref with sp. Qed.

Lemma run_space s sp w : w_space w !! s = Some sp -> space s w = Ret sp w.
Proof. intros Hx. unfold space. erewrite run_bind by done. by rewrite Hx. Qed.

Lemma wp_upd_space s sp f (Q : unit -> world -> Prop) w :
  w_space w !! s = Some sp -> Q tt (set_w_space (<[s := f sp]> (w_space w)) w) ->
  wp (upd_space s f) Q w.
Proof. intros Hx HQ. unfold upd_space. apply wp_bind. by apply (wp_space s sp). Qed.

Lemma wp_entry s i sp e (Q : ipc_entry -> world -> Prop) w :
  w_space w !! s = Some sp -> aget (is_table sp) i = Some e -> Q e w -> wp (entry s i) Q w.
Proof.
  intros Hx He HQ. unfold entry. apply wp_bind. apply (wp_space s sp); [done|].
  by apply wp_deref with e.
Qed.

Lemma wp_upd_entry s i sp e f (Q : unit -> world -> Prop) w :
  w_space w !! s = Some sp -> aget (is_table sp) i = Some e ->
  Q tt (set_w_space (<[s := set_is_table (aset (is_table sp) i (f e)) sp]> (w_space w)) w) ->
  wp (upd_entry s i f) Q w.
Proof.
  intros Hx He HQ. unfold upd_entry. apply wp_bind. apply (wp_entry s i sp e); [done..|].
  by apply (wp_upd_space s sp).
Qed.

Lemma wp_on_space {A} s sp (f : ipc_space -> option (A * ipc_space)) a sp' Q w :
  w_space w !! s = Some sp -> f sp = Some (a, sp') ->
  Q a (set_w_space (<[s := sp']> (w_space w)) w) -> wp (on_space s f) Q w.
Proof.
  intros Hx Hf HQ. unfold on_space. apply wp_bind. apply (wp_space s sp); [done|].
  apply wp_bind. apply wp_deref with (a, sp'); [done|]. apply wp_bind.
  by apply (wp_upd_space s sp).
Qed.
End wp_rules.

Lemma relock (l : klock) (ls : gset klock) : l ∈ ls -> {[l]} ∪ ls ∖ {[l]} = ls.
Proof. intros. symmetry. by apply union_difference_singleton_L. Qed.

Lemma unlock_again (l : klock) (ls : gset klock) : l ∉ ls -> ({[l]} ∪ ls) ∖ {[l]} = ls.
Proof. set_solver. Qed.

(** ** Symbolic execution *)

(** Worlds are kept as records of their parts. *)
Ltac wnorm :=
  cbv beta iota zeta delta
    [w_io w_port w_space w_locks w_trace w_timestamp w_assertions w_env
     set_w_io set_w_port set_w_space set_w_locks set_w_trace set_w_timestamp
     set_w_assertions set_w_env];
  cbn [negb andb orb fst snd ie_object ie_bits ie_dist ie_index ie_next]; cbv iota.
Ltac wstart w :=
  destruct w as [wio wport wspace wlocks wtrace wtime wassert wenv];
  cbv beta iota delta [w_io w_port w_space w_locks w_trace w_timestamp w_assertions w_env
       set_w_io set_w_port set_w_space set_w_locks set_w_trace set_w_timestamp
       set_w_assertions set_w_env] in *.

Lemma wp_eta w {A} (m : M A) Q :
  wp m Q (mkWorld (w_io w) (w_port w) (w_space w) (w_locks w) (w_trace w) (w_timestamp w)
            (w_assertions w) (w_env w)) -> wp m Q w.
Proof. by destruct w. Qed.

(** Names the parts of the world [w] and keeps [w]. *)
Ltac wopen w :=
  lazymatch goal with |- wp _ _ w => apply (wp_eta w)
    | _ => cbv beta delta [set_w_io set_w_port set_w_space set_w_locks set_w_trace] end;
  set (wio := w_io w) in *; set (wport := w_port w) in *; set (wspace := w_space w) in *;
  set (wlocks := w_locks w) in *; set (wtrace := w_trace w) in *;
  set (wtime := w_timestamp w) in *; set (wassert := w_assertions w) in *;
  set (wenv := w_env w) in *.

(** A lookup in an updated store. *)
Ltac wlook :=
  wnorm; rewrite ?lookup_insert_eq, ?lookup_insert_ne by (congruence || lia);
  first [reflexivity | eassumption].

(** Membership in an updated set of locks. *)
Ltac wlk := wnorm; first [done | set_solver].

(** Steps of the components, added or refined by their files. *)
Ltac wp_extra := fail.
Ltac wp_entry_step := eapply wp_entry; [wlook|try eassumption|].
Ltac wp_upd_entry_step := eapply wp_upd_entry; [wlook|try eassumption|].

(** One step of a routine; the side goals that it cannot solve remain. *)
Ltac wp_step :=
  lazymatch goal with
  | |- wp (mbind _ _) _ _ => apply wp_bind
  | |- wp (mret _) _ _ => apply wp_ret
  | |- wp (gets _) _ _ => apply wp_gets
  | |- wp (modify _) _ _ => apply wp_modify
  | |- wp env _ _ => apply wp_env
  | |- wp (call _ _) _ _ => apply wp_call
  | |- wp (call_ _ _) _ _ => apply wp_call_
  | |- wp (callb _ _) _ _ => apply wp_callb
  | |- wp (deref _ _) _ _ => eapply wp_deref; [first [reflexivity | eassumption]|]
  | |- wp (space _) _ _ => eapply wp_space; [wlook|]
  | |- wp (upd_space _ _) _ _ => eapply wp_upd_space; [wlook|]
  | |- wp (entry _ _) _ _ => wp_entry_step
  | |- wp (upd_entry _ _ _) _ _ => wp_upd_entry_step
  | |- wp (port _) _ _ => eapply wp_port; [wlook|]
  | |- wp (upd_port _ _) _ _ => eapply wp_upd_port; [wlook|]
  | |- wp (io _) _ _ => eapply wp_io; [wlook|]
  | |- wp (upd_io _ _) _ _ => eapply wp_upd_io; [wlook|]
  | |- wp (lock _) _ _ => apply wp_lock; [try wlk|]
  | |- wp (unlock _) _ _ => apply wp_unlock; [try wlk|]
  | |- wp (lock_held _) _ _ => apply wp_lock_held; [try wlk|]
  | |- wp (massert _) _ _ => apply wp_massert; [try done|]
  | |- wp (when true _) _ _ => cbv beta delta [when]
  | |- wp (when false _) _ _ => cbv beta delta [when]
  | |- wp _ _ _ => wp_extra
  end; wnorm.
Ltac wp_steps := wnorm; repeat wp_step.
