(* ===== verification/IpcFreelist.v ===== *)
(** * Free lists and the randomness of a space (ipc/ipc_space.c, prng/prng_random.c)

    The free entries of a table are chained through [ie_next] from entry 0.
    [ipc_space_rand_freelist] builds the chain over a range of entries in an
    order taken from the boolean generator of the space. *)

From S2P Require Import Prelude IpcTypes KernelState.

(** An assertion of a routine written on the structure. *)
Definition oassert (b : bool) : option unit := if b then Some tt else None.

(** Runs the binds and the assertions that are decided. *)
Ltac osimpl := cbn [mbind option_bind oassert negb andb orb].

(** ** The boolean generator *)

(** One round, for a pool of [IS_ENTROPY_CNT] = 1 words. *)
Definition random_bool_gen_entropy (bg : bool_gen) : bool_gen * Z :=
  let s1 := bg_seed1 bg in
  let s1 := Z.lxor s1 (u32 (Z.shiftl s1 5)) in
  let s1 := Z.lxor s1 (Z.shiftr s1 7) in
  let s1 := Z.lxor s1 (u32 (Z.shiftl s1 22)) in
  let t := u32 (bg_seed2 bg + bg_seed3 bg + bg_state bg) in
  let s2 := bg_seed3 bg in
  let state := if 2 ^ 31 <=? t then 1 else 0 in
  let s3 := Z.land t 2147483647 in
  let s0 := u32 (bg_seed0 bg + 1411392427) in
  (mkBoolGen s0 s1 s2 s3 state, u32 (s0 + s1 + s3)).

Fixpoint random_bool_gen_bits_loop (n : nat) (bg : bool_gen) (pool rbits : Z)
    : Z * (bool_gen * Z) :=
  match n with
  | O => (rbits, (bg, pool))
  | S n =>
      let '(bg, pool) := if pool =? 0 then random_bool_gen_entropy bg else (bg, pool) in
      let bit := Z.land pool 1 in
      random_bool_gen_bits_loop n bg (Z.shiftr pool 1) (Z.lor bit (u32 (Z.shiftl rbits 1)))
  end.

Definition random_bool_gen_bits (bg : bool_gen) (pool : Z) (numbits : nat)
    : Z * (bool_gen * Z) :=
  random_bool_gen_bits_loop numbits bg pool 0.

(** Draws bits from the generator of a space. *)
Definition ipc_space_random (sp : ipc_space) (numbits : nat) : Z * ipc_space :=
  let '(bits, (bg, pool)) := random_bool_gen_bits (is_bool_gen sp) (is_entropy sp) numbits in
  (bits, set_is_entropy pool (set_is_bool_gen bg sp)).

Definition ipc_space_get_rollpoint (sp : ipc_space) : Z * ipc_space :=
  ipc_space_random sp (Z.to_nat IE_BITS_ROLL_BITS).

(** ** ipc_space_rand_freelist *)

Definition NUM_SEQ_ENTRIES : Z := 8.

(** A free entry with link [next]. *)
Definition free_entry (next : Z) : ipc_entry := mkEntry IO_NULL IE_BITS_GEN_MASK 0 0 next.

(** The [while] loop: the space, the table and the last entry of the chain. *)
Fixpoint rand_freelist_loop (fuel : nat) (at_start : bool) (sp : ipc_space)
    (table : list ipc_entry) (total curr bottom top : Z)
    : option (ipc_space * list ipc_entry * Z) :=
  if bottom <=? top then
    match fuel with
    | O => None
    | S fuel =>
        let seq := at_start && (total <? NUM_SEQ_ENTRIES) in
        let total := if at_start then u32 (total + 1) else total in
        let '(which, sp) := if seq then (0, sp) else ipc_space_random sp 1 in
        if negb (which =? 0) then
          rand_freelist_loop fuel at_start sp (aset table curr (free_entry top))
            total top bottom (top - 1)
        else
          rand_freelist_loop fuel at_start sp (aset table curr (free_entry bottom))
            total bottom (bottom + 1) top
    end
  else Some (sp, table, curr).

Definition ipc_space_rand_freelist (sp : ipc_space) (table : list ipc_entry)
    (bottom top : Z) : option (ipc_space * list ipc_entry) :=
  let at_start := bottom =? 0 in
  '(sp, table, curr) ←
    rand_freelist_loop (Z.to_nat (top - bottom)) at_start sp table 0
      bottom (bottom + 1) (top - 1);
  let table := aset table curr (free_entry 0) in
  if at_start then
    e ← aget table 0;
    Some (sp, aset table 0 (set_ie_bits 0 e))
  else Some (sp, table).

(** ** Chains of free entries *)

(** The link of an entry. *)
Definition fl_next (t : list ipc_entry) (i : Z) : option Z := ie_next <$> aget t i.

(** Following the links from entry [i] visits [l] and ends. *)
Fixpoint fl_chain (t : list ipc_entry) (i : Z) (l : list Z) : Prop :=
  match l with
  | [] => fl_next t i = Some 0
  | j :: l => fl_next t i = Some j /\ fl_chain t j l
  end.

Lemma fl_chain_ext t t' i l :
  (forall j, j ∈ i :: l -> fl_next t' j = fl_next t j) -> fl_chain t i l -> fl_chain t' i l.
Proof.
  revert i. induction l as [|j l IH]; intros i Hext; simpl.
  - by rewrite Hext by set_solver.
  - rewrite Hext by set_solver. intros [Hi Hl]. split; [done|]. apply IH; [|done].
    set_solver.
Qed.

Lemma fl_next_aset t k x j :
  0 <= k < alen t -> fl_next (aset t k x) j = if decide (k = j) then Some (ie_next x) else fl_next t j.
Proof.
  intros Hk. unfold fl_next. case_decide as E.
  - subst. by rewrite aget_aset_eq.
  - by rewrite aget_aset_ne.
Qed.

(** What drawing random bits leaves alone. *)
Definition same_but_random (sp sp' : ipc_space) : Prop :=
  exists bg pool, sp' = set_is_entropy pool (set_is_bool_gen bg sp).

Lemma same_but_random_refl sp : same_but_random sp sp.
Proof. exists (is_bool_gen sp), (is_entropy sp). by destruct sp. Qed.

Lemma same_but_random_trans sp sp' sp'' :
  same_but_random sp sp' -> same_but_random sp' sp'' -> same_but_random sp sp''.
Proof. intros (? & ? & ->) (bg & pool & ->). by exists bg, pool. Qed.

Lemma ipc_space_random_same sp n : same_but_random sp (ipc_space_random sp n).2.
Proof.
  unfold ipc_space_random. destruct (random_bool_gen_bits _ _ _) as [b [bg pool]].
  by exists bg, pool.
Qed.

#[export] Hint Resolve same_but_random_refl ipc_space_random_same : core.

(** [t'] is [t] with the entries of [curr :: l] free and chained in this order. *)
Record fl_built (t t' : list ipc_entry) (curr : Z) (l : list Z) : Prop := {
  fb_len : alen t' = alen t;
  fb_chain : fl_chain t' curr l;
  fb_free j : j ∈ curr :: l -> exists n, aget t' j = Some (free_entry n);
  fb_rest j : j ∉ curr :: l -> aget t' j = aget t j
}.

Lemma fl_built_last t curr :
  0 <= curr < alen t -> fl_built t (aset t curr (free_entry 0)) curr [].
Proof.
  intros Hc. split; simpl.
  - by rewrite alen_aset.
  - by rewrite fl_next_aset, decide_True.
  - intros j Hj%list_elem_of_singleton. subst. exists 0. by apply aget_aset_eq.
  - intros j Hj. apply aget_aset_ne. set_solver.
Qed.

Lemma fl_built_cons t t' curr next l :
  0 <= curr < alen t -> curr ∉ next :: l ->
  fl_built (aset t curr (free_entry next)) t' next l -> fl_built t t' curr (next :: l).
Proof.
  intros Hc Hnin [Hlen Hch Hfr Hre]. rewrite alen_aset in Hlen.
  assert (Hcurr : aget t' curr = Some (free_entry next)).
  { rewrite Hre by done. by apply aget_aset_eq. }
  split; [done|..].
  - simpl. unfold fl_next. by rewrite Hcurr.
  - intros j [->|Hj]%elem_of_cons; [by exists next|by apply Hfr].
  - intros j Hj. rewrite not_elem_of_cons in Hj. destruct Hj as [Hjc Hj].
    rewrite Hre by done. apply aget_aset_ne. congruence.
Qed.

(** The order of the chain: what the loop adds for the range [bottom, top]. *)
Definition fl_order (at_start : bool) (total bottom top : Z) (l : list Z) : Prop :=
  l ≡ₚ seqZ bottom (top + 1 - bottom) /\
  (at_start = true ->
   seqZ bottom (Z.min (NUM_SEQ_ENTRIES - total) (top + 1 - bottom)) `prefix_of` l).

Lemma fl_order_nil at_start total bottom top :
  top < bottom -> fl_order at_start total bottom top [].
Proof. intros Hlt. split; [|intros _]; by rewrite seqZ_nil by lia. Qed.

Lemma fl_order_bottom at_start total bottom top l :
  bottom <= top -> 0 <= total ->
  fl_order at_start (if at_start then total + 1 else total) (bottom + 1) top l ->
  fl_order at_start total bottom top (bottom :: l).
Proof.
  intros Hbt Ht [Hp Hs]. split.
  - rewrite Hp. rewrite (seqZ_cons bottom (top + 1 - bottom)) by lia.
    by replace (top + 1 - (bottom + 1)) with (Z.pred (top + 1 - bottom)) by lia.
  - intros ->. specialize (Hs eq_refl). destruct (decide (NUM_SEQ_ENTRIES - total <= 0)).
    + rewrite seqZ_nil by lia. apply prefix_nil.
    + rewrite seqZ_cons by lia. apply prefix_cons.
      by replace (Z.pred _) with
        (Z.min (NUM_SEQ_ENTRIES - (total + 1)) (top + 1 - (bottom + 1))) by lia.
Qed.

Lemma fl_order_top at_start total bottom top l :
  bottom <= top -> at_start && (total <? NUM_SEQ_ENTRIES) = false ->
  fl_order at_start (if at_start then total + 1 else total) bottom (top - 1) l ->
  fl_order at_start total bottom top (top :: l).
Proof.
  intros Hbt Hseq [Hp _]. split.
  - rewrite Hp. replace (top + 1 - bottom) with ((top - bottom) + 1) by lia.
    rewrite seqZ_app by lia. replace (top - 1 + 1 - bottom) with (top - bottom) by lia.
    replace (seqZ (bottom + (top - bottom)) 1) with [top];
      [by rewrite Permutation_app_comm|].
    replace (bottom + (top - bottom)) with top by lia. done.
  - intros ->. simpl in Hseq. apply Z.ltb_ge in Hseq. rewrite seqZ_nil by lia. apply prefix_nil.
Qed.

Lemma fl_order_elem at_start total bottom top l j :
  fl_order at_start total bottom top l -> j ∈ l <-> bottom <= j <= top.
Proof. intros [Hp _]. rewrite Hp, elem_of_seqZ. lia. Qed.

Lemma rand_freelist_loop_ok fuel at_start sp t total curr bottom top :
  0 <= curr < alen t -> 0 <= bottom <= top + 1 -> top < alen t ->
  ~ bottom <= curr <= top -> top + 1 - bottom <= Z.of_nat fuel ->
  0 <= total -> total + (top + 1 - bottom) < 2 ^ 32 ->
  exists sp' t' c l, rand_freelist_loop fuel at_start sp t total curr bottom top
      = Some (sp', t', c) /\ same_but_random sp sp' /\
    fl_order at_start total bottom top l /\ fl_built t (aset t' c (free_entry 0)) curr l.
Proof.
  revert sp t total curr bottom top.
  induction fuel as [|fuel IH]; intros sp t total curr bottom top Hc Hbt Hta Hcn Hf Ht0 Ht;
    simpl; destruct (Z.leb_spec bottom top) as [Hle|Hgt]; try lia.
  1, 3: exists sp, t, curr, []; do 3 (split; [done || by apply fl_order_nil|]);
    by apply fl_built_last.
  rewrite u32_id by lia.
  set (seq := at_start && (total <? NUM_SEQ_ENTRIES)).
  destruct (if seq then (0, sp) else ipc_space_random sp 1) as [which sp1] eqn:Hw.
  assert (Hs1 : same_but_random sp sp1).
  { destruct seq; simplify_eq; [done|]. pose proof (ipc_space_random_same sp 1).
    by rewrite Hw in *. }
  assert (Hw0 : which <> 0 -> seq = false) by (destruct seq; naive_solver).
  destruct (Z.eqb_spec which 0) as [E|E]; cbn [negb].
  - destruct (IH sp1 (aset t curr (free_entry bottom)) (if at_start then total + 1 else total)
      bottom (bottom + 1) top) as (sp' & t' & c & l & -> & Hs' & Ho & Hb);
      rewrite ?alen_aset; try (destruct at_start; lia).
    exists sp', t', c, (bottom :: l). split; [done|].
    split; [by eapply same_but_random_trans|]. split.
    + by apply fl_order_bottom.
    + apply fl_built_cons; [done| |done]. rewrite elem_of_cons, (fl_order_elem _ _ _ _ _ _ Ho). lia.
  - destruct (IH sp1 (aset t curr (free_entry top)) (if at_start then total + 1 else total)
      top bottom (top - 1)) as (sp' & t' & c & l & -> & Hs' & Ho & Hb);
      rewrite ?alen_aset; try (destruct at_start; lia).
    exists sp', t', c, (top :: l). split; [done|].
    split; [by eapply same_but_random_trans|]. split.
    + apply fl_order_top; auto.
    + apply fl_built_cons; [done| |done]. rewrite elem_of_cons, (fl_order_elem _ _ _ _ _ _ Ho). lia.
Qed.

Lemma rand_freelist_ok (sp : ipc_space) (t : list ipc_entry) (bottom top : Z) :
  0 <= bottom < top -> top <= alen t -> top < 2 ^ 32 ->
  exists sp' t' l, ipc_space_rand_freelist sp t bottom top = Some (sp', t') /\
    same_but_random sp sp' /\ alen t' = alen t /\
    l ≡ₚ seqZ (bottom + 1) (top - bottom - 1) /\ fl_chain t' bottom l /\
    (bottom = 0 -> seqZ 1 (Z.min NUM_SEQ_ENTRIES (top - 1)) `prefix_of` l) /\
    (forall j, bottom <= j < top -> j <> 0 -> exists n, aget t' j = Some (free_entry n)) /\
    (forall j, ~ bottom <= j < top -> aget t' j = aget t j) /\
    (bottom = 0 -> exists n, aget t' 0 = Some (mkEntry IO_NULL 0 0 0 n)).
Proof.
  intros Hbt Hta Ht. unfold ipc_space_rand_freelist.
  destruct (rand_freelist_loop_ok (Z.to_nat (top - bottom)) (bottom =? 0) sp t 0 bottom
    (bottom + 1) (top - 1)) as (sp' & t' & c & l & -> & Hs & Ho & [Hlen Hch Hfr Hre]);
    try lia.
  assert (Hel : forall j, j ∈ bottom :: l <-> bottom <= j < top).
  { intros j. rewrite elem_of_cons, (fl_order_elem _ _ _ _ _ _ Ho). lia. }
  destruct Ho as [Hp Hq]. replace (top - 1 + 1 - (bottom + 1)) with (top - bottom - 1) in * by lia.
  cbn [mbind option_bind]. set (t1 := aset t' c (free_entry 0)) in *.
  destruct (Z.eqb_spec bottom 0) as [E|E].
  - destruct (Hfr bottom) as [n Hn]; [set_solver|]. rewrite E in Hn at 1. rewrite Hn.
    exists sp', (aset t1 0 (set_ie_bits 0 (free_entry n))), l. subst bottom.
    assert (H0 : 0 <= 0 < alen t1) by lia.
    split; [done|]. split; [done|]. rewrite alen_aset. split; [done|]. split; [done|].
    split_and!.
    + eapply fl_chain_ext; [|exact Hch]. intros j _. rewrite fl_next_aset by done.
      case_decide; [|done]. subst. unfold fl_next. by rewrite Hn.
    + intros _. specialize (Hq eq_refl).
      by replace (Z.min NUM_SEQ_ENTRIES (top - 1)) with
        (Z.min (NUM_SEQ_ENTRIES - 0) (top - 0 - 1)) by lia.
    + intros j Hj Hj0. rewrite aget_aset_ne by done. apply Hfr, Hel. lia.
    + intros j Hj. rewrite aget_aset_ne by lia. apply Hre. by rewrite Hel.
    + intros _. exists n. by rewrite aget_aset_eq.
  - exists sp', t1, l. split; [done|]. split; [done|]. split; [done|]. split; [done|].
    split_and!; [done|done| | |done]; intros j Hj; [intros _; by apply Hfr, Hel|].
    apply Hre. by rewrite Hel.
Qed.

(** C25. [ipc_space_rand_freelist] always ends, and whatever bits the generator
    gives, it chains the entries of [bottom, top) into one free list that starts
    at [bottom] and visits each of the others once; all of them become free, the
    entries outside the range keep their value, and only the generator of the
    space advances.  In a new table the first eight entries come in increasing
    order, and the head of the list has generation 0. *)
Theorem rand_freelist_permutes (sp : ipc_space) (t : list ipc_entry) (bottom top : Z) :
  0 <= bottom < top -> top <= alen t -> top < 2 ^ 32 ->
  exists sp' t' l, ipc_space_rand_freelist sp t bottom top = Some (sp', t') /\
    same_but_random sp sp' /\ alen t' = alen t /\
    l ≡ₚ seqZ (bottom + 1) (top - bottom - 1) /\ fl_chain t' bottom l /\
    (bottom = 0 -> seqZ 1 (Z.min NUM_SEQ_ENTRIES (top - 1)) `prefix_of` l) /\
    (forall j, bottom <= j < top -> j <> 0 -> exists n, aget t' j = Some (free_entry n)) /\
    (forall j, ~ bottom <= j < top -> aget t' j = aget t j) /\
    (bottom = 0 -> exists n, aget t' 0 = Some (mkEntry IO_NULL 0 0 0 n)).
Proof. apply rand_freelist_ok. Qed.

Lemma rand_freelist_permutes_witness :
  let sp := mkSpace 2 16 0 15 [] 1 0 0 16 0 (mkBoolGen 1 2 3 4 0) 0 HOST_LOCAL_NODE in
  exists sp' t' l, ipc_space_rand_freelist sp (replicate 16 ie_zero) 0 16 = Some (sp', t') /\
    same_but_random sp sp' /\ alen t' = 16 /\
    l ≡ₚ seqZ 1 15 /\ fl_chain t' 0 l /\
    (0 = 0 -> seqZ 1 (Z.min NUM_SEQ_ENTRIES 15) `prefix_of` l) /\
    (forall j, 0 <= j < 16 -> j <> 0 -> exists n, aget t' j = Some (free_entry n)) /\
    (forall j, ~ 0 <= j < 16 -> aget t' j = aget (replicate 16 ie_zero) j) /\
    (0 = 0 -> exists n, aget t' 0 = Some (mkEntry IO_NULL 0 0 0 n)).
Proof.
  apply (rand_freelist_permutes
    (mkSpace 2 16 0 15 [] 1 0 0 16 0 (mkBoolGen 1 2 3 4 0) 0 HOST_LOCAL_NODE)
    (replicate 16 ie_zero) 0 16); vm_compute; intuition discriminate.
Defined.
