(* ===== verification/IpcEntry.v ===== *)
(** * Entries of a space (ipc/ipc_entry.c, the space side of ipc/ipc_hash.c)

    Lookup, allocation and deallocation of table entries, and the growth of the
    table.  The routines that neither lock nor block are functions of the space
    structure, which return [None] when an assertion of the source fails; the
    others are routines of the kernel monad. *)

From S2P Require Import Prelude IpcTypes IpcHash IpcTable KernelState Kernel IpcFreelist.

(** ** Lookup *)

Definition ipc_entry_lookup (sp : ipc_space) (name : Z) : option (option Z) :=
  oassert (is_active sp);;
  let index := MACH_PORT_INDEX name in
  if index <? is_table_size sp then
    e ← aget (is_table sp) index;
    if negb (IE_BITS_GEN (ie_bits e) =? MACH_PORT_GEN name)
       || (IE_BITS_TYPE (ie_bits e) =? MACH_PORT_TYPE_NONE)
    then Some None
    else Some (Some index)
  else Some None.

(** ** Allocation *)

Fixpoint ipc_entries_hold_loop (n : nat) (table : list ipc_entry) (size next_free : Z)
    : option Z :=
  match n with
  | O => Some KERN_SUCCESS
  | S n =>
      e ← aget table next_free;
      let next_free := ie_next e in
      if next_free =? 0 then Some KERN_NO_SPACE
      else
        oassert (next_free <? size);;
        f ← aget table next_free;
        oassert (ie_object f =? IO_NULL);;
        ipc_entries_hold_loop n table size next_free
  end.

Definition ipc_entries_hold (sp : ipc_space) (entries_needed : Z) : option Z :=
  if u32 (is_table_size sp * 7) / 8 <? u32 (is_table_hashed sp + entries_needed)
  then Some KERN_NO_SPACE
  else
    oassert (is_active sp);;
    ipc_entries_hold_loop (Z.to_nat entries_needed) (is_table sp) (is_table_size sp) 0.

(** Returns the name and the index of the entry. *)
Definition ipc_entry_claim (sp : ipc_space) : option ((Z * Z) * ipc_space) :=
  head ← aget (is_table sp) 0;
  let first_free := ie_next head in
  oassert (negb (first_free =? 0));;
  e ← aget (is_table sp) first_free;
  let table := aset (is_table sp) 0 (set_ie_next (ie_next e) head) in
  let sp := set_is_table_free (u32 (is_table_free sp - 1)) (set_is_table table sp) in
  oassert (ie_next e <? is_table_size sp);;
  let gen := ipc_entry_new_gen (ie_bits e) in
  let '(gen, sp) :=
    if ipc_entry_gen_rolled (ie_bits e) gen then
      let '(roll, sp) := ipc_space_get_rollpoint sp in
      (ipc_entry_new_rollpoint roll, sp)
    else (gen, sp) in
  let e' := set_ie_request IE_REQ_NONE (set_ie_bits gen e) in
  let sp := set_is_table (aset (is_table sp) first_free e') sp in
  let new_name := MACH_PORT_MAKE first_free gen in
  oassert (MACH_PORT_VALID new_name);;
  Some ((new_name, first_free), sp).

(** [inl kr] on failure *)
Definition ipc_entry_get (sp : ipc_space) : option ((Z + (Z * Z)) * ipc_space) :=
  kr ← ipc_entries_hold sp 1;
  if negb (kr =? KERN_SUCCESS) then Some (inl kr, sp)
  else
    '(r, sp) ← ipc_entry_claim sp;
    Some (inr r, sp).

(** ** Deallocation *)

Definition ipc_entry_modified (sp : ipc_space) (name i : Z) : option (unit * ipc_space) :=
  let index := MACH_PORT_INDEX name in
  oassert (index <? is_table_size sp);;
  oassert (i =? index);;
  oassert (is_low_mod sp <=? is_table_size sp);;
  oassert (is_high_mod sp <? is_table_size sp);;
  let sp := if index <? is_low_mod sp then set_is_low_mod index sp else sp in
  let sp := if is_high_mod sp <? index then set_is_high_mod index sp else sp in
  Some (tt, sp).

Definition ipc_entry_dealloc (sp : ipc_space) (name i : Z) : option (unit * ipc_space) :=
  oassert (is_active sp);;
  e ← aget (is_table sp) i;
  oassert (ie_object e =? IO_NULL);;
  oassert (ie_request e =? IE_REQ_NONE);;
  let index := MACH_PORT_INDEX name in
  oassert ((index <? is_table_size sp) && (i =? index));;
  oassert (IE_BITS_GEN (ie_bits e) =? MACH_PORT_GEN name);;
  head ← aget (is_table sp) 0;
  let bits := Z.land (ie_bits e) (Z.lor IE_BITS_GEN_MASK IE_BITS_ROLL_MASK) in
  let table := aset (is_table sp) i (set_ie_next (ie_next head) (set_ie_bits bits e)) in
  head ← aget table 0;
  let table := aset table 0 (set_ie_next index head) in
  ipc_entry_modified
    (set_is_table_free (u32 (is_table_free sp + 1)) (set_is_table table sp)) name i.

(** ** The hash of a space (ipc/ipc_hash.c) *)

Definition ipc_hash_lookup (sp : ipc_space) (obj : Z) : option (option (Z * Z)) :=
  ipc_hash_table_lookup (is_table sp) (is_table_size sp) obj.

Definition ipc_hash_insert (sp : ipc_space) (obj name i : Z) : option (unit * ipc_space) :=
  let index := MACH_PORT_INDEX name in
  let sp := set_is_table_hashed (u32 (is_table_hashed sp + 1)) sp in
  oassert (i =? index);;
  table ← ipc_hash_table_insert (is_table sp) (is_table_size sp) obj index;
  Some (tt, set_is_table table sp).

Definition ipc_hash_delete (sp : ipc_space) (obj name i : Z) : option (unit * ipc_space) :=
  let index := MACH_PORT_INDEX name in
  let sp := set_is_table_hashed (u32 (is_table_hashed sp - 1)) sp in
  oassert (i =? index);;
  table ← ipc_hash_table_delete (is_table sp) (is_table_size sp) obj index;
  Some (tt, set_is_table table sp).

(** ** Growing the table *)

Definition ITS_SIZE_NONE : Z := 0xffffffff.

Definition is_write_lock (s : Z) : M unit := lock (LSpace s).
Definition is_write_unlock (s : Z) : M unit := unlock (LSpace s).
(** Releases the lock, blocks, and takes the lock again. *)
Definition is_write_sleep (s : Z) : M unit :=
  is_write_unlock s;; call_ "lck_spin_sleep_grp" [s];; is_write_lock s.

Ltac wp_extra ::=
  lazymatch goal with
  | |- wp (is_write_lock _) _ _ => unfold is_write_lock
  | |- wp (is_write_unlock _) _ _ => unfold is_write_unlock
  end.

Definition is_start_growing (s : Z) : M unit :=
  sp ← space s; massert (negb (is_growing sp));;
  upd_space s (fun sp => set_is_bits (Z.lor (is_bits sp) IS_GROWING) sp).
Definition is_done_growing (s : Z) : M unit :=
  sp ← space s; massert (is_growing sp);;
  upd_space s (fun sp => set_is_bits (Z.land (is_bits sp) (Z.lnot IS_GROWING)) sp).

(** The next size of at least [target_size]: [while ((psize != size) &&
    (target_size > size)) { psize = size; its++; size = its->its_size; }] *)
Fixpoint grow_find_size (fuel : nat) (sizes : list Z) (target_size its psize size : Z)
    : option (Z * Z * Z) :=
  if negb (psize =? size) && (size <? target_size) then
    match fuel with
    | O => None
    | S fuel =>
        size' ← aget sizes (its + 1);
        grow_find_size fuel sizes target_size (its + 1) size size'
    end
  else Some (its, psize, size).

(** Is the entry a pure send right, hence hashed? *)
Definition entry_hashed (e : ipc_entry) : bool :=
  negb (ie_object e =? IO_NULL) && (IE_BITS_TYPE (ie_bits e) =? MACH_PORT_TYPE_SEND).

(** Copies the snapshot [osnap] of entry [i] of the old table. *)
Definition grow_copy_entry (size : Z) (table : list ipc_entry) (i : Z) (osnap : ipc_entry)
    : option (list ipc_entry) :=
  e ← aget table i;
  if negb (ie_object e =? ie_object osnap)
     || negb (IE_BITS_TYPE (ie_bits e) =? IE_BITS_TYPE (ie_bits osnap))
  then
    table ← (if entry_hashed e then ipc_hash_table_delete table size (ie_object e) i
             else Some table);
    e ← aget table i;
    let e := set_ie_request (ie_request osnap)
               (set_ie_bits (ie_bits osnap) (set_ie_object (ie_object osnap) e)) in
    let table := aset table i e in
    if entry_hashed e then ipc_hash_table_insert table size (ie_object e) i
    else Some table
  else
    Some (aset table i
      (set_ie_request (ie_request osnap) (set_ie_bits (ie_bits osnap) e))).

(** [for (i = low_mod; i <= hi_mod; i++)] over the next [n] entries *)
Fixpoint grow_copy (n : nat) (size : Z) (otable table : list ipc_entry) (i : Z)
    : option (list ipc_entry) :=
  match n with
  | O => Some table
  | S n =>
      osnap ← aget otable i;
      table ← grow_copy_entry size table i osnap;
      grow_copy n size otable table (i + 1)
  end.

(** The end of the free list, at most [n] links away. *)
Fixpoint grow_free_end (n : nat) (osize : Z) (table : list ipc_entry) (free_index : Z)
    : option Z :=
  match n with
  | O => Some free_index
  | S n =>
      e ← aget table free_index;
      if negb (ie_object e =? IO_NULL) then Some free_index
      else
        let i := ie_next e in
        if (i =? 0) || (osize <=? i) then Some free_index
        else grow_free_end n osize table i
  end.

(** One scan, without the lock: the copy, the rebased free list head and the
    search for the end of the free list. *)
Definition grow_scan (osize size : Z) (otable table : list ipc_entry) (low_mod hi_mod : Z)
    : option (list ipc_entry * Z) :=
  table ← grow_copy (Z.to_nat (hi_mod + 1 - low_mod)) size otable table low_mod;
  h ← aget table 0;
  oh ← aget otable 0;
  let table := aset table 0 (set_ie_next (ie_next oh) h) in
  free_index ← grow_free_end (Z.to_nat osize) osize table 0;
  Some (table, free_index).

(** [rescan:] to the return, with the space unlocked. *)
Fixpoint grow_rescan (fuel : nat) (s osize size oits its nits target_size : Z)
    (table : list ipc_entry) (low_mod hi_mod : Z) : M Z :=
  match fuel with
  | O => panic "fuel"
  | S fuel =>
      osp ← space s;
      '(table, free_index) ← deref (grow_scan osize size (is_table osp) table low_mod hi_mod)
                               "assert";
      is_write_lock s;;
      sp ← space s;
      if negb (is_active sp) then
        is_done_growing s;; is_write_unlock s;;
        call_ "thread_wakeup" [s];; call_ "it_entries_free" [its];;
        is_write_lock s;; mret KERN_SUCCESS
      else if is_low_mod sp <? osize then
        massert (0 <? is_high_mod sp);;
        upd_space s (fun sp => set_is_high_mod 0 (set_is_low_mod osize sp));;
        is_write_unlock s;;
        grow_rescan fuel s osize size oits its nits target_size table
          (is_low_mod sp) (is_high_mod sp)
      else
        f ← deref (aget table free_index) "assert";
        massert ((ie_next f =? 0) && (ie_object f =? IO_NULL));;
        let table := aset table free_index (set_ie_next osize f) in
        massert ((is_table_next sp =? its) || negb (target_size =? ITS_SIZE_NONE));;
        massert (is_table_size sp =? osize);;
        upd_space s (fun sp =>
          set_is_table_free (u32 (is_table_free sp + u32 (size - osize)))
            (set_is_table_next nits (set_is_table_size size (set_is_table table sp))));;
        is_done_growing s;; is_write_unlock s;;
        call_ "thread_wakeup" [s];; call_ "it_entries_free" [oits];;
        is_write_lock s;; mret KERN_SUCCESS
  end.

(** The space is locked and active; it stays locked on success only. *)
Definition ipc_entry_grow_table (s target_size : Z) : M Z :=
  sp ← space s;
  massert (is_active sp);;
  if is_growing sp then is_write_sleep s;; mret KERN_SUCCESS
  else
    ev ← env;
    let sizes := e_table_entries ev in
    let its := is_table_next sp in
    let oits := its - 1 in
    size ← deref (aget sizes its) "bounds";
    osize ← deref (aget sizes oits) "bounds";
    if negb (target_size =? ITS_SIZE_NONE) && (target_size <=? osize) then mret KERN_SUCCESS
    else
      '(its, psize, size) ←
        (if negb (target_size =? ITS_SIZE_NONE) then
           deref (grow_find_size (length sizes) sizes target_size its osize size) "bounds"
         else mret (its, osize, size));
      if negb (target_size =? ITS_SIZE_NONE) && (psize =? size) then
        is_write_unlock s;; mret KERN_NO_SPACE
      else if osize =? size then is_write_unlock s;; mret KERN_NO_SPACE
      else
        let nits := its + 1 in
        nsize ← deref (aget sizes nits) "bounds";
        massert ((osize <? size) && (size <=? nsize));;
        is_start_growing s;;
        upd_space s (fun sp => set_is_high_mod 0 (set_is_low_mod osize sp));;
        is_write_unlock s;;
        addr ← call "kalloc" [u64 (size * sizeof_ipc_entry)];
        if addr =? 0 then
          is_write_lock s;; is_done_growing s;; is_write_unlock s;;
          call_ "thread_wakeup" [s];; mret KERN_RESOURCE_SHORTAGE
        else
          sp ← space s;
          '(sp, table) ← deref (ipc_space_rand_freelist sp
                                  (replicate (Z.to_nat size) ie_zero) osize size) "bounds";
          upd_space s (fun _ => sp);;
          let table := replicate (Z.to_nat osize) ie_zero ++ drop (Z.to_nat osize) table in
          grow_rescan 2 s osize size oits its nits target_size table 0 (osize - 1).

(** ** Allocation that may grow the table

    The loops below are bounded by the number of table sizes: each iteration
    but the last grows the table. *)

Fixpoint ipc_entry_alloc_loop (fuel : nat) (s : Z) : M (Z + (Z * Z)) :=
  match fuel with
  | O => panic "fuel"
  | S fuel =>
      sp ← space s;
      if negb (is_active sp) then is_write_unlock s;; mret (inl KERN_INVALID_TASK)
      else
        r ← on_space s ipc_entry_get;
        match r with
        | inr x => mret (inr x)
        | inl _ =>
            kr ← ipc_entry_grow_table s ITS_SIZE_NONE;
            if negb (kr =? KERN_SUCCESS) then mret (inl kr)
            else ipc_entry_alloc_loop fuel s
        end
  end.

(** Returns the name and the index of the entry; the space is then locked. *)
Definition ipc_entry_alloc (s : Z) : M (Z + (Z * Z)) :=
  is_write_lock s;;
  ev ← env;
  ipc_entry_alloc_loop (S (length (e_table_entries ev))) s.

(** The predecessor of [index] in the free list. *)
Fixpoint free_list_pred (fuel : nat) (table : list ipc_entry) (index free_index : Z)
    : option Z :=
  match fuel with
  | O => None
  | S fuel =>
      e ← aget table free_index;
      if ie_next e =? index then Some free_index
      else free_list_pred fuel table index (ie_next e)
  end.

(** Case 4 of [ipc_entry_alloc_name]: rips a free entry out of the free list. *)
Definition ipc_entry_rip (sp : ipc_space) (index gen : Z) : option (unit * ipc_space) :=
  let table := is_table sp in
  free_index ← free_list_pred (length table) table index 0;
  f ← aget table free_index;
  e ← aget table index;
  let table := aset table free_index (set_ie_next (ie_next e) f) in
  let sp := set_is_table_free (u32 (is_table_free sp - 1)) (set_is_table table sp) in
  f ← aget table free_index;
  '(_, sp) ← ipc_entry_modified sp
               (MACH_PORT_MAKE free_index (IE_BITS_GEN (ie_bits f))) free_index;
  e ← aget (is_table sp) index;
  let e := set_ie_request IE_REQ_NONE (set_ie_bits gen e) in
  oassert (ie_object e =? IO_NULL);;
  Some (tt, set_is_table (aset (is_table sp) index e) sp).

Fixpoint ipc_entry_alloc_name_loop (fuel : nat) (s index gen : Z) : M (Z + Z) :=
  match fuel with
  | O => panic "fuel"
  | S fuel =>
      sp ← space s;
      if negb (is_active sp) then is_write_unlock s;; mret (inl KERN_INVALID_TASK)
      else if index <? is_table_size sp then
        e ← entry s index;
        if index =? 0 then
          massert (IE_BITS_TYPE (ie_bits e) =? 0);;
          massert (IE_BITS_GEN (ie_bits e) =? 0);;
          is_write_unlock s;; mret (inl KERN_FAILURE)
        else if negb (IE_BITS_TYPE (ie_bits e) =? 0) then
          if IE_BITS_GEN (ie_bits e) =? gen then mret (inr index)
          else is_write_unlock s;; mret (inl KERN_FAILURE)
        else
          on_space s (fun sp => ipc_entry_rip sp index gen);;
          mret (inr index)
      else
        kr ← ipc_entry_grow_table s (index + 1);
        massert (negb (kr =? KERN_NO_SPACE));;
        if negb (kr =? KERN_SUCCESS) then mret (inl kr)
        else ipc_entry_alloc_name_loop fuel s index gen
  end.

(** Returns the index of the entry; the space is then locked. *)
Definition ipc_entry_alloc_name (s name : Z) : M (Z + Z) :=
  let index := MACH_PORT_INDEX name in
  let gen := MACH_PORT_GEN name in
  ev ← env;
  if ipc_table_max_entries (e_table_entries ev) <? index then mret (inl KERN_NO_SPACE)
  else
    massert (MACH_PORT_VALID name);;
    is_write_lock s;;
    ipc_entry_alloc_name_loop (S (length (e_table_entries ev))) s index gen.

Definition ipc_entry_name_mask (name : Z) : Z :=
  let null_name := MACH_PORT_MAKE 0 (u32 (IE_BITS_GEN_MASK + IE_BITS_GEN_ONE)) in
  Z.lor name null_name.
