(* ===== verification/IpcSpaceInit.v ===== *)
(** * Spaces: creation, references and labels (ipc/ipc_space.c, ipc/ipc_space.h) *)

From S2P Require Import Prelude IpcTypes IpcTable KernelState Kernel IpcFreelist IpcEntry.

(** ** References *)

Definition is_reference (s : Z) : M unit :=
  sp ← space s;
  massert ((0 <? is_refs sp) && (is_refs sp <? IS_REFS_MAX));;
  upd_space s (fun sp => set_is_bits (u32 (is_bits sp + 1)) sp).

Definition is_release (s : Z) : M unit :=
  sp ← space s;
  massert (0 <? is_refs sp);;
  upd_space s (fun sp => set_is_bits (u32 (is_bits sp - 1)) sp);;
  when (is_refs sp =? 1)
    (sp ← space s;
     massert (negb (is_active sp));;
     modify (fun w => set_w_space (delete s (w_space w)) w)).

Definition is_mark_inactive (s : Z) : M unit :=
  sp ← space s;
  massert (is_active sp);;
  upd_space s (fun sp => set_is_bits (Z.lor (is_bits sp) IS_INACTIVE) sp).

(** ** Creation *)

Definition IPC_LABEL_SPECIAL : Z := 3.

(** [initial] is an index of [ipc_table_entries].  [read_frandom] seeds the
    generator, one external result per word. *)
Definition ipc_space_create (initial label : Z) : M (Z + Z) :=
  s ← call "zalloc" [2];
  if s =? 0 then mret (inl KERN_RESOURCE_SHORTAGE)
  else
    ev ← env;
    new_size ← deref (aget (e_table_entries ev) initial) "bounds";
    addr ← call "kalloc" [u64 (new_size * sizeof_ipc_entry)];
    if addr =? 0 then call_ "zfree" [2; s];; mret (inl KERN_RESOURCE_SHORTAGE)
    else
      s0 ← call "read_frandom" [0]; s1 ← call "read_frandom" [1];
      s2 ← call "read_frandom" [2]; s3 ← call "read_frandom" [3];
      let bg := mkBoolGen (u32 s0) (u32 s1) (u32 s2) (u32 s3) 0 in
      let sp := mkSpace 2 new_size 0 (new_size - 1) [] (initial + 1) TASK_NULL label
                  new_size 0 bg 0 HOST_LOCAL_NODE in
      '(sp, table) ← deref (ipc_space_rand_freelist sp
                              (replicate (Z.to_nat new_size) ie_zero) 0 new_size) "bounds";
      modify (fun w => set_w_space (<[s := set_is_table table sp]> (w_space w)) w);;
      mret (inr s).

Definition ipc_space_create_special : M (Z + Z) :=
  s ← call "zalloc" [2];
  if s =? 0 then mret (inl KERN_RESOURCE_SHORTAGE)
  else
    let sp := mkSpace (Z.lor IS_INACTIVE 1) 0 0 0 [] 0 TASK_NULL IPC_LABEL_SPECIAL 0 0
                (mkBoolGen 0 0 0 0 0) 0 HOST_LOCAL_NODE in
    modify (fun w => set_w_space (<[s := sp]> (w_space w)) w);;
    mret (inr s).

(** ** Labels *)

Definition ipc_space_label (s label : Z) : M Z :=
  is_write_lock s;;
  sp ← space s;
  if negb (is_active sp) then is_write_unlock s;; mret KERN_SUCCESS
  else if negb (Z.land (is_label sp) label =? is_label sp) then
    is_write_unlock s;; mret KERN_INVALID_VALUE
  else
    upd_space s (set_is_label label);;
    is_write_unlock s;;
    mret KERN_SUCCESS.

Definition ipc_space_add_label (s label : Z) : M Z :=
  is_write_lock s;;
  sp ← space s;
  if negb (is_active sp) then is_write_unlock s;; mret KERN_SUCCESS
  else
    upd_space s (fun sp => set_is_label (Z.lor (is_label sp) label) sp);;
    is_write_unlock s;;
    mret KERN_SUCCESS.
