(* ===== verification/IpcEntryInv.v ===== *)
(** * The invariant of a space and the entry operations (ipc/ipc_entry.c)

    A space is well-formed when its free entries form one chain from entry 0
    without repetition, counted by [is_table_free], and every generation is one
    that names can carry.  Claiming, getting and deallocating an entry and
    ripping one out of the free list preserve this; the names they give are
    fresh. *)

From S2P Require Import Prelude IpcTypes IpcBits KernelState IpcFreelist IpcEntry.

Definition entry_free (e : ipc_entry) : Prop := ie_object e = IO_NULL /\ gen_ok (ie_bits e).

(** The generation and the rollover point of a word. *)
Definition gen_roll (bits : Z) : Z :=
  Z.land bits (Z.lor IE_BITS_GEN_MASK IE_BITS_ROLL_MASK).

(** [l] is the free list. *)
Record space_wf (sp : ipc_space) (l : list Z) : Prop := {
  sw_len : alen (is_table sp) = is_table_size sp;
  sw_size : 1 < is_table_size sp < 2 ^ 24;
  sw_chain : fl_chain (is_table sp) 0 l;
  sw_nodup : NoDup (0 :: l);
  sw_count : is_table_free sp = alen l;
  sw_head : exists e, aget (is_table sp) 0 = Some e /\ ie_object e = IO_NULL /\ ie_bits e = 0;
  sw_free i e : i ∈ l -> aget (is_table sp) i = Some e -> entry_free e;
  sw_used i e : i ∉ 0 :: l -> aget (is_table sp) i = Some e -> gen_ok (gen_roll (ie_bits e));
  sw_mods : 0 <= is_low_mod sp <= is_table_size sp /\ 0 <= is_high_mod sp < is_table_size sp
}.

(** ** Chains *)

Lemma fl_chain_range t i l j : fl_chain t i l -> j ∈ i :: l -> 0 <= j < alen t.
Proof.
  assert (Hn : forall i x, fl_next t i = Some x -> 0 <= i < alen t).
  { intros i' x (e & He & _)%fmap_Some. by eapply aget_Some_range. }
  revert i. induction l as [|k l IH]; intros i; simpl.
  - intros Hi ->%list_elem_of_singleton. eauto.
  - intros [Hi Hl] [->|Hj]%elem_of_cons; eauto.
Qed.

Lemma fl_chain_length t i l : fl_chain t i l -> NoDup (i :: l) -> alen (i :: l) <= alen t.
Proof.
  intros Hch Hnd.
  assert (Hs : i :: l ⊆+ seqZ 0 (alen t)).
  { apply NoDup_submseteq; [done|]. intros j Hj. apply elem_of_seqZ.
    eapply fl_chain_range in Hj; [|done]. lia. }
  apply submseteq_length in Hs. rewrite length_seqZ in Hs.
  pose proof (alen_nonneg t). unfold alen in *. lia.
Qed.

Lemma fl_chain_next t i l : fl_chain t i l -> fl_next t i = Some (hd 0 l).
Proof. destruct l; simpl; naive_solver. Qed.

Lemma fl_chain_get t i l : fl_chain t i l -> exists e, aget t i = Some e /\ ie_next e = hd 0 l.
Proof. intros H%fl_chain_next. by apply fmap_Some in H as (e & -> & ->); exists e. Qed.

(** An update off the list. *)
Lemma fl_chain_aset t k x i l : k ∉ i :: l -> fl_chain t i l -> fl_chain (aset t k x) i l.
Proof.
  intros Hk. apply fl_chain_ext. intros j Hj. unfold fl_next.
  rewrite aget_aset_ne by set_solver. done.
Qed.

(** Taking the first entry off the list. *)
Lemma fl_chain_pop t h i l n :
  aget t 0 = Some h -> fl_chain t 0 (i :: l) -> NoDup (0 :: i :: l) -> n = hd 0 l ->
  fl_chain (aset t 0 (set_ie_next n h)) 0 l.
Proof.
  intros Hh [_ Hl] Hnd ->. apply aget_Some_range in Hh as Hr.
  destruct l as [|j l].
  - simpl. by rewrite fl_next_aset, decide_True by done.
  - destruct Hl as [Hi Hl]. split; [by rewrite fl_next_aset, decide_True by done|].
    apply fl_chain_aset; [|done].
    rewrite NoDup_cons, not_elem_of_cons in Hnd. tauto.
Qed.

(** Putting an entry back in front. *)
Lemma fl_chain_push t h e i l :
  aget t 0 = Some h -> aget t i = Some e -> fl_chain t 0 l -> i ∉ 0 :: l -> 0 ∉ l ->
  fl_chain (aset (aset t i (set_ie_next (ie_next h) e)) 0 (set_ie_next i h)) 0 (i :: l).
Proof.
  intros Hh He Hch Hi Hl0. apply aget_Some_range in Hh as Hr0, He as Hri.
  rewrite not_elem_of_cons in Hi. destruct Hi as [Hi0 Hil].
  split; [by rewrite fl_next_aset, decide_True by (rewrite ?alen_aset; done)|].
  apply fl_chain_aset; [set_solver|].
  apply fl_chain_get in Hch as Hh'. destruct Hh' as (h' & Hh' & En). simplify_eq.
  destruct l as [|j l]; simpl in *.
  - rewrite fl_next_aset, decide_True by done. simpl. by rewrite En.
  - destruct Hch as [_ Hch]. split.
    + rewrite fl_next_aset, decide_True by done. simpl. by rewrite En.
    + apply fl_chain_aset; [|done]. done.
Qed.

(** ** Facts about well-formed spaces *)

Section wf.
Context (sp : ipc_space) (l : list Z) (W : space_wf sp l).

Lemma sw_range i : i ∈ l -> 0 < i < is_table_size sp.
Proof.
  intros Hi. rewrite <- (sw_len _ _ W).
  assert (i <> 0). { intros ->. pose proof (sw_nodup _ _ W) as H. by inversion H. }
  pose proof (fl_chain_range _ _ _ i (sw_chain _ _ W) ltac:(set_solver)). lia.
Qed.

Lemma sw_free_bound : 0 <= is_table_free sp < 2 ^ 24.
Proof.
  rewrite (sw_count _ _ W). pose proof (fl_chain_length _ _ _ (sw_chain _ _ W) (sw_nodup _ _ W)).
  pose proof (sw_size _ _ W). rewrite (sw_len _ _ W) in *. unfold alen in *. simpl in *. lia.
Qed.

Lemma sw_get i : 0 <= i < is_table_size sp -> exists e, aget (is_table sp) i = Some e.
Proof. intros Hi. apply aget_lt_Some. by rewrite (sw_len _ _ W). Qed.

Lemma sw_head_next : exists e, aget (is_table sp) 0 = Some e /\ ie_next e = hd 0 l /\
  ie_object e = IO_NULL /\ ie_bits e = 0.
Proof.
  destruct (sw_head _ _ W) as (e & He & ? & ?).
  destruct (fl_chain_get _ _ _ (sw_chain _ _ W)) as (e' & He' & ?). simplify_eq. eauto.
Qed.
End wf.

Lemma space_wf_random sp sp' l : same_but_random sp sp' -> space_wf sp l -> space_wf sp' l.
Proof. intros (bg & pool & ->) []. by split. Qed.

(** ** Claiming the first free entry *)

(** The table after entry [i] is taken off the free list with word [gen]. *)
Definition claimed_table (t : list ipc_entry) (h e : ipc_entry) (i next gen : Z)
    : list ipc_entry :=
  aset (aset t 0 (set_ie_next next h)) i (set_ie_request IE_REQ_NONE (set_ie_bits gen e)).

Definition claimed_space (sp : ipc_space) (t : list ipc_entry) : ipc_space :=
  set_is_table_free (is_table_free sp - 1) (set_is_table t sp).

Lemma gen_roll_gen b : gen_ok b -> gen_roll b = b.
Proof.
  intros (c & k & r & Hc & Hk & Hr & _ & ->). unfold gen_roll.
  change (Z.lor _ _) with (Z.shiftl (Z.ones 10) 22). rewrite land_field by lia.
  unfold gen_word. zlia.
Qed.

Lemma claimed_wf sp i l h e gen :
  space_wf sp (i :: l) -> aget (is_table sp) 0 = Some h -> aget (is_table sp) i = Some e ->
  gen_ok gen ->
  space_wf (claimed_space sp (claimed_table (is_table sp) h e i (hd 0 l) gen)) l.
Proof.
  intros W Hh He Hg. pose proof (sw_nodup _ _ W) as Hnd.
  pose proof (sw_range _ _ W i ltac:(set_solver)) as Hi.
  assert (Hi0 : i ∉ 0 :: l).
  { rewrite NoDup_cons, NoDup_cons in Hnd. rewrite not_elem_of_cons. split; [lia|tauto]. }
  assert (Hget : forall j, j <> 0 -> j <> i ->
    aget (claimed_table (is_table sp) h e i (hd 0 l) gen) j = aget (is_table sp) j).
  { intros j ??. unfold claimed_table. by rewrite !aget_aset_ne by done. }
  destruct (sw_head _ _ W) as (h' & Hh' & Ho & Hb). simplify_eq.
  split; simpl.
  - unfold claimed_table. rewrite !alen_aset. apply W.
  - apply W.
  - apply fl_chain_aset; [done|]. by eapply fl_chain_pop; [|apply W|..].
  - rewrite !NoDup_cons, not_elem_of_cons in *. tauto.
  - rewrite (sw_count _ _ W). unfold alen. simpl. lia.
  - exists (set_ie_next (hd 0 l) h). unfold claimed_table. split; [|done].
    rewrite aget_aset_ne, aget_aset_eq; [done|by eapply aget_Some_range|lia].
  - intros j ej Hj Hej. pose proof (sw_range _ _ W j ltac:(set_solver)).
    rewrite Hget in Hej by (lia || (intros ->; set_solver)). eapply W; [|done]. set_solver.
  - intros j ej Hj Hej. destruct (decide (j = i)) as [->|Hji].
    + unfold claimed_table in Hej. rewrite aget_aset_eq in Hej; simplify_eq/=.
      * by rewrite gen_roll_gen.
      * rewrite alen_aset, (sw_len _ _ W). lia.
    + rewrite Hget in Hej by (done || (intros ->; set_solver)). eapply W; [|done]. set_solver.
  - apply W.
Qed.

Lemma make_valid i g :
  0 <= i < 2 ^ 24 -> 0 < g < 255 -> MACH_PORT_VALID (MACH_PORT_MAKE i (g * 2 ^ 24)) = true.
Proof.
  intros Hi Hg. rewrite make_name by lia. unfold MACH_PORT_VALID, MACH_PORT_NULL, MACH_PORT_DEAD.
  rewrite !(proj2 (Z.eqb_neq _ _)) by lia. done.
Qed.

(** A name that an entry can have. *)
Definition entry_name (i : Z) (bits : Z) : Z := MACH_PORT_MAKE i (IE_BITS_GEN bits).

Lemma gen_high gen i :
  gen_ok gen -> 0 <= i < 2 ^ 24 -> MACH_PORT_MAKE i gen = entry_name i gen.
Proof.
  intros (c & k & r & Hc & Hk & Hr & _ & ->) Hi. unfold entry_name.
  rewrite IE_BITS_GEN_word by done. unfold MACH_PORT_MAKE. f_equal.
  rewrite !Z.shiftr_div_pow2 by lia. unfold gen_word. zlia.
Qed.

Lemma claim_ok sp i l :
  space_wf sp (i :: l) ->
  exists h e gen sp', aget (is_table sp) 0 = Some h /\ aget (is_table sp) i = Some e /\
    ipc_entry_claim sp = Some ((entry_name i gen, i), sp') /\
    same_but_random (claimed_space sp (claimed_table (is_table sp) h e i (hd 0 l) gen)) sp' /\
    space_wf sp' l /\ ie_object e = IO_NULL /\
    gen_ok gen /\ IE_BITS_GEN gen <> IE_BITS_GEN (ie_bits e).
Proof.
  intros W. pose proof (sw_range _ _ W i ltac:(set_solver)) as Hi.
  pose proof (sw_size _ _ W) as Hsz. pose proof (sw_free_bound _ _ W) as Hfb.
  destruct (sw_head_next _ _ W) as (h & Hh & Hhn & Hho & Hhb).
  destruct (fl_chain_get _ _ _ (proj2 (sw_chain _ _ W))) as (e & He & Hen).
  destruct (sw_free _ _ W i e) as [Heo Heg]; [set_solver|done|].
  unfold ipc_entry_claim. rewrite Hh. osimpl. rewrite Hhn. cbn [hd].
  rewrite (proj2 (Z.eqb_neq i 0)) by lia. osimpl. rewrite He. osimpl.
  assert (Hnx : 0 <= ie_next e < is_table_size sp).
  { rewrite Hen. destruct l as [|j l]; [simpl; lia|].
    pose proof (sw_range _ _ W j ltac:(set_solver)). simpl. lia. }
  rewrite u32_id. 2:{ pose proof (sw_count _ _ W) as E. unfold alen in E. simpl in E. lia. }
  cbn [is_table_size set_is_table_free set_is_table].
  rewrite (proj2 (Z.ltb_lt _ _)) by lia. osimpl.
  set (sp1 := set_is_table_free _ _).
  destruct (ipc_space_get_rollpoint sp1) as [roll sp2] eqn:Hroll.
  assert (Hs2 : same_but_random sp1 sp2).
  { pose proof (ipc_space_random_same sp1 (Z.to_nat IE_BITS_ROLL_BITS)) as H.
    unfold ipc_space_get_rollpoint in Hroll. by rewrite Hroll in H. }
  destruct (next_gen_ok (ie_bits e) roll Heg) as (Hg' & Hne & g & Hg & Hgg).
  unfold next_gen in *. set (gen := if ipc_entry_gen_rolled _ _ then _ else _) in *.
  set (sp3 := if ipc_entry_gen_rolled (ie_bits e) (ipc_entry_new_gen (ie_bits e)) then sp2 else sp1).
  assert (Hs3 : same_but_random sp1 sp3) by (unfold sp3; by destruct (ipc_entry_gen_rolled _ _)).
  assert (E : (if ipc_entry_gen_rolled (ie_bits e) (ipc_entry_new_gen (ie_bits e))
      then (ipc_entry_new_rollpoint roll, sp2) else (ipc_entry_new_gen (ie_bits e), sp1))
      = (gen, sp3)) by (unfold gen, sp3; by destruct (ipc_entry_gen_rolled _ _)).
  assert (Hv : MACH_PORT_VALID (entry_name i gen) = true)
    by (unfold entry_name; rewrite Hgg; apply make_valid; lia).
  rewrite E. rewrite (gen_high gen i), Hv by (done || lia). osimpl.
  destruct Hs3 as (bg & pool & ->). simpl.
  eexists h, e, gen, _. split; [done|]. split; [done|]. split; [done|].
  assert (Hs : same_but_random (claimed_space sp
    (claimed_table (is_table sp) h e i (hd 0 l) gen))
    (set_is_table (aset (aset (is_table sp) 0 (set_ie_next (ie_next e) h)) i
       (set_ie_request IE_REQ_NONE (set_ie_bits gen e)))
       (set_is_entropy pool (set_is_bool_gen bg sp1)))).
  { exists bg, pool. unfold claimed_table. by rewrite Hen. }
  split; [exact Hs|]. split; [|done]. eapply space_wf_random; [exact Hs|]. by apply claimed_wf.
Qed.

(** ** Getting an entry *)

(** The load limit of the hash. *)
Definition hash_room (sp : ipc_space) (n : Z) : bool :=
  u32 (is_table_hashed sp + n) <=? u32 (is_table_size sp * 7) / 8.

Lemma hold_loop_ok n t size i l :
  fl_chain t i l -> 0 ∉ l ->
  (forall j e, j ∈ l -> aget t j = Some e -> j < size /\ ie_object e = IO_NULL) ->
  ipc_entries_hold_loop n t size i =
    Some (if decide (n <= length l)%nat then KERN_SUCCESS else KERN_NO_SPACE).
Proof.
  revert i l. induction n as [|n IH]; intros i l Hch H0 Hl; [done|].
  destruct (fl_chain_get _ _ _ Hch) as (e & He & Hen).
  cbn [ipc_entries_hold_loop]. rewrite He. osimpl. rewrite Hen.
  destruct l as [|j l]; cbn [hd].
  - by rewrite decide_False by (simpl; lia).
  - destruct Hch as [_ Hch]. rewrite (proj2 (Z.eqb_neq j 0)) by set_solver.
    destruct (fl_chain_get _ _ _ Hch) as (f & Hf & _).
    destruct (Hl j f) as [Hj Hfo]; [set_solver|done|].
    rewrite (proj2 (Z.ltb_lt _ _)) by done. osimpl. rewrite Hf. osimpl. rewrite Hfo. osimpl.
    rewrite (IH j l); [|done|set_solver|set_solver].
    do 2 case_decide; simpl in *; (done || lia).
Qed.

Lemma hold_ok sp l n :
  space_wf sp l -> is_active sp = true -> 0 <= n ->
  ipc_entries_hold sp n =
    Some (if hash_room sp n && (n <=? alen l) then KERN_SUCCESS else KERN_NO_SPACE).
Proof.
  intros W Ha Hn. unfold ipc_entries_hold, hash_room.
  destruct (Z.ltb_spec (u32 (is_table_size sp * 7) / 8) (u32 (is_table_hashed sp + n))).
  - by rewrite (proj2 (Z.leb_gt _ _)) by done.
  - rewrite (proj2 (Z.leb_le _ _)) by done. rewrite Ha. osimpl.
    rewrite (hold_loop_ok _ _ _ _ l); [|apply W|pose proof (sw_nodup _ _ W); by inv H0|].
    + unfold alen. case_decide; [rewrite (proj2 (Z.leb_le _ _))|rewrite (proj2 (Z.leb_gt _ _))];
        (done || lia).
    + intros j e Hj He. split; [by eapply sw_range in Hj; [apply Hj|]|].
      by destruct (sw_free _ _ W j e Hj He).
Qed.

Lemma get_full sp l :
  space_wf sp l -> is_active sp = true -> hash_room sp 1 && (1 <=? alen l) = false ->
  ipc_entry_get sp = Some (inl KERN_NO_SPACE, sp).
Proof. intros W Ha H. unfold ipc_entry_get. by rewrite (hold_ok sp l), H by done. Qed.

Lemma get_claim sp i l :
  space_wf sp (i :: l) -> is_active sp = true -> hash_room sp 1 = true ->
  ipc_entry_get sp = '(r, sp') ← ipc_entry_claim sp; Some (inr r, sp').
Proof.
  intros W Ha H. unfold ipc_entry_get. rewrite (hold_ok sp (i :: l)), H by done.
  rewrite (proj2 (Z.leb_le _ _)) by (unfold alen; simpl; lia). done.
Qed.

(** ** Modification marks *)

Definition modified_space (sp : ipc_space) (i : Z) : ipc_space :=
  set_is_high_mod (Z.max (is_high_mod sp) i) (set_is_low_mod (Z.min (is_low_mod sp) i) sp).

Lemma modified_ok sp name i :
  MACH_PORT_INDEX name = i -> i < is_table_size sp ->
  is_low_mod sp <= is_table_size sp -> is_high_mod sp < is_table_size sp ->
  ipc_entry_modified sp name i = Some (tt, modified_space sp i).
Proof.
  intros <- Hi Hlo Hhi. unfold ipc_entry_modified, modified_space.
  rewrite (proj2 (Z.ltb_lt (MACH_PORT_INDEX name) (is_table_size sp))) by done. osimpl.
  rewrite Z.eqb_refl, (proj2 (Z.leb_le _ _)),
    (proj2 (Z.ltb_lt (is_high_mod sp) (is_table_size sp))) by done.
  osimpl. do 2 f_equal. destruct sp. simpl.
  destruct (Z.ltb_spec (MACH_PORT_INDEX name) is_low_mod); simpl;
    destruct (Z.ltb_spec is_high_mod (MACH_PORT_INDEX name)); unfold set_is_high_mod, set_is_low_mod;
    simpl; f_equal; lia.
Qed.

Lemma modified_wf sp l i :
  space_wf sp l -> 0 <= i < is_table_size sp -> space_wf (modified_space sp i) l.
Proof. intros [] Hi. split; try done. simpl. lia. Qed.

Lemma entry_name_index i bits : 0 <= i < 2 ^ 24 -> MACH_PORT_INDEX (entry_name i bits) = i.
Proof. intros. by apply make_index. Qed.

Lemma entry_name_gen i bits :
  0 <= i < 2 ^ 24 -> MACH_PORT_GEN (entry_name i bits) = IE_BITS_GEN bits.
Proof. intros. by apply make_gen. Qed.

(** ** Deallocation *)

Definition dealloced_space (sp : ipc_space) (h e : ipc_entry) (i : Z) : ipc_space :=
  modified_space (set_is_table_free (is_table_free sp + 1) (set_is_table
    (aset (aset (is_table sp) i (set_ie_next (ie_next h) (set_ie_bits (gen_roll (ie_bits e)) e)))
      0 (set_ie_next i h)) sp)) i.

Lemma dealloced_wf sp l h e i :
  space_wf sp l -> i ∉ 0 :: l ->
  aget (is_table sp) 0 = Some h -> aget (is_table sp) i = Some e -> ie_object e = IO_NULL ->
  space_wf (dealloced_space sp h e i) (i :: l).
Proof.
  intros W Hi Hh He Ho. apply aget_Some_range in He as Hr, Hh as Hr0.
  pose proof (sw_nodup _ _ W) as Hnd. pose proof (sw_len _ _ W) as Hlen.
  unfold dealloced_space.
  set (e' := set_ie_bits (gen_roll (ie_bits e)) e).
  assert (Hch : fl_chain (aset (aset (is_table sp) i (set_ie_next (ie_next h) e')) 0
    (set_ie_next i h)) 0 (i :: l)).
  { apply NoDup_cons in Hnd as [H0 Hnd]. rewrite <- (aset_aset _ i e').
    apply fl_chain_push; rewrite ?aget_aset_ne by set_solver; try done.
    - by apply aget_aset_eq.
    - apply fl_chain_aset; [done|apply W]. }
  assert (Hget : forall j, j <> 0 -> j <> i ->
    aget (aset (aset (is_table sp) i (set_ie_next (ie_next h) e')) 0 (set_ie_next i h)) j
    = aget (is_table sp) j).
  { intros j ??. by rewrite !aget_aset_ne by done. }
  rewrite not_elem_of_cons in Hi. destruct Hi as [Hi0 Hil].
  apply modified_wf; [|simpl; lia]. split; simpl.
  - by rewrite !alen_aset.
  - apply W.
  - done.
  - rewrite !NoDup_cons in *. split; [|tauto]. rewrite not_elem_of_cons. naive_solver.
  - rewrite (sw_count _ _ W). unfold alen. simpl. lia.
  - destruct (sw_head _ _ W) as (h' & Hh' & ? & ?). simplify_eq.
    exists (set_ie_next i h). split; [|done]. rewrite aget_aset_eq; [done|]. by rewrite alen_aset.
  - intros j ej [->|Hj]%elem_of_cons Hej.
    + rewrite aget_aset_ne, aget_aset_eq in Hej by (done || lia). simplify_eq. split; [done|].
      eapply (sw_used _ _ W); [|done]. rewrite not_elem_of_cons. done.
    + pose proof (sw_range _ _ W j Hj). rewrite Hget in Hej by (lia || congruence).
      by eapply W.
  - intros j ej Hj Hej. rewrite !not_elem_of_cons in Hj. rewrite Hget in Hej by tauto.
    eapply W; [|done]. rewrite not_elem_of_cons. tauto.
  - apply W.
Qed.

Lemma dealloc_ok sp l i h e name :
  space_wf sp l -> is_active sp = true -> i ∉ 0 :: l ->
  aget (is_table sp) 0 = Some h -> aget (is_table sp) i = Some e ->
  ie_object e = IO_NULL -> ie_request e = IE_REQ_NONE -> name = entry_name i (ie_bits e) ->
  ipc_entry_dealloc sp name i = Some (tt, dealloced_space sp h e i).
Proof.
  intros W Ha Hi Hh He Ho Hr ->. apply aget_Some_range in He as Hri, Hh as Hr0.
  pose proof (sw_size _ _ W). pose proof (sw_mods _ _ W). pose proof (sw_free_bound _ _ W).
  rewrite (sw_len _ _ W) in *. unfold ipc_entry_dealloc. rewrite Ha, He. osimpl.
  rewrite Ho, Hr, entry_name_index, entry_name_gen by lia. osimpl.
  rewrite (proj2 (Z.ltb_lt _ _)), !Z.eqb_refl by lia. osimpl. rewrite Hh. osimpl.
  rewrite not_elem_of_cons in Hi. rewrite aget_aset_ne, Hh by (destruct Hi; congruence). osimpl.
  rewrite u32_id by lia. apply modified_ok; [by apply entry_name_index; lia|simpl; lia..].
Qed.

(** ** Lookup *)

Lemma entry_name_inj i j b c :
  0 <= i < 2 ^ 24 -> 0 <= j < 2 ^ 24 -> entry_name i b = entry_name j c ->
  i = j /\ IE_BITS_GEN b = IE_BITS_GEN c.
Proof.
  intros Hi Hj E. split.
  - rewrite <- (entry_name_index i b), E by done. by apply entry_name_index.
  - rewrite <- (entry_name_gen i b), E by done. by apply entry_name_gen.
Qed.

Lemma lookup_ok sp l name :
  space_wf sp l -> is_active sp = true -> 0 <= name < 2 ^ 32 ->
  exists r, ipc_entry_lookup sp name = Some r /\
    forall i, r = Some i <-> exists e, aget (is_table sp) i = Some e /\
      IE_BITS_TYPE (ie_bits e) <> MACH_PORT_TYPE_NONE /\ name = entry_name i (ie_bits e).
Proof.
  intros W Ha Hn. unfold ipc_entry_lookup. rewrite Ha. osimpl.
  pose proof (sw_size _ _ W) as Hsz.
  assert (Hir : 0 <= MACH_PORT_INDEX name < 2 ^ 24) by (rewrite MACH_PORT_INDEX_div; zlia).
  assert (Hbad : forall i e, aget (is_table sp) i = Some e -> name = entry_name i (ie_bits e) ->
    i = MACH_PORT_INDEX name /\ IE_BITS_GEN (ie_bits e) = MACH_PORT_GEN name).
  { intros i e He%aget_Some_range ->. rewrite (sw_len _ _ W) in He.
    rewrite entry_name_index, entry_name_gen by lia. done. }
  destruct (Z.ltb_spec (MACH_PORT_INDEX name) (is_table_size sp)) as [Hlt|Hge].
  - destruct (sw_get _ _ W (MACH_PORT_INDEX name)) as [e He]; [lia|]. rewrite He. osimpl.
    destruct (Z.eqb_spec (IE_BITS_GEN (ie_bits e)) (MACH_PORT_GEN name)) as [Eg|Ng];
      [destruct (Z.eqb_spec (IE_BITS_TYPE (ie_bits e)) MACH_PORT_TYPE_NONE) as [Et|Nt]|]; osimpl.
    + exists None. split; [done|]. intros i. split; [done|]. intros (e' & He' & Ht & E).
      destruct (Hbad _ _ He' E) as [-> _]. simplify_eq.
    + eexists. split; [done|]. intros i. split; [intros [= <-]|].
      * exists e. unfold entry_name. by rewrite Eg, make_index_gen.
      * intros (e' & He' & Ht & E). by destruct (Hbad _ _ He' E) as [-> _].
    + exists None. split; [done|]. intros i. split; [done|]. intros (e' & He' & Ht & E).
      destruct (Hbad _ _ He' E) as [-> Eg]. simplify_eq.
  - exists None. split; [done|]. intros i. split; [done|]. intros (e' & He' & Ht & E).
    destruct (Hbad _ _ He' E) as [-> Eg]. apply aget_Some_range in He'.
    rewrite (sw_len _ _ W) in He'. lia.
Qed.

(** ** Ripping an entry out of the free list *)

Lemma last_elem_of (k : Z) (l : list Z) : List.last (k :: l) 0 ∈ k :: l.
Proof.
  revert k. induction l as [|j l IH]; intros k; [set_solver|].
  change (List.last (k :: j :: l) 0) with (List.last (j :: l) 0). specialize (IH j). set_solver.
Qed.

Lemma free_list_pred_ok fuel t k l1 i l2 :
  fl_chain t k (l1 ++ i :: l2) -> NoDup (l1 ++ i :: l2) -> (length l1 < fuel)%nat ->
  free_list_pred fuel t i k = Some (List.last (k :: l1) 0).
Proof.
  revert t k l1. induction fuel as [|fuel IH]; intros t k l1 Hch Hnd Hf; [lia|].
  cbn [free_list_pred]. destruct (fl_chain_get _ _ _ Hch) as (e & -> & Hen). osimpl.
  rewrite Hen. destruct l1 as [|j l1]; simpl in *.
  - by rewrite Z.eqb_refl.
  - apply NoDup_cons in Hnd as [Hj Hnd]. rewrite (proj2 (Z.eqb_neq j i)) by set_solver.
    destruct Hch as [_ Hch]. rewrite (IH t j l1) by (done || lia). done.
Qed.

Lemma fl_chain_splice t k l1 i l2 f :
  fl_chain t k (l1 ++ i :: l2) -> NoDup (k :: l1 ++ i :: l2) ->
  aget t (List.last (k :: l1) 0) = Some f ->
  fl_chain (aset t (List.last (k :: l1) 0) (set_ie_next (hd 0 l2) f)) k (l1 ++ l2).
Proof.
  revert k. induction l1 as [|j l1 IH]; intros k Hch Hnd Hf.
  - simpl in *. apply aget_Some_range in Hf as Hr. destruct Hch as [_ Hch].
    destruct l2 as [|m l2]; simpl.
    + by rewrite fl_next_aset, decide_True by done.
    + split; [by rewrite fl_next_aset, decide_True by done|].
      apply fl_chain_aset; [|apply Hch]. rewrite NoDup_cons, not_elem_of_cons in Hnd. tauto.
  - destruct Hch as [Hk Hch]. apply NoDup_cons in Hnd as [Hkn Hnd].
    change (List.last (k :: j :: l1) 0) with (List.last (j :: l1) 0) in *.
    split; [|by apply IH]. rewrite fl_next_aset by (by eapply aget_Some_range).
    rewrite decide_False; [done|]. intros E. apply Hkn. rewrite <- E.
    pose proof (last_elem_of j l1). set_solver.
Qed.

(** The space after case 4 of [ipc_entry_alloc_name]: [p] precedes [i]. *)
Definition ripped_space (sp : ipc_space) (f e : ipc_entry) (p i gen : Z) : ipc_space :=
  let sp := modified_space (set_is_table_free (is_table_free sp - 1)
    (set_is_table (aset (is_table sp) p (set_ie_next (ie_next e) f)) sp)) p in
  set_is_table (aset (is_table sp) i (set_ie_request IE_REQ_NONE (set_ie_bits gen e))) sp.

Section rip.
Context (sp : ipc_space) (l1 l2 : list Z) (i gen : Z) (e f : ipc_entry).
Let p := List.last (0 :: l1) 0.
Context (W : space_wf sp (l1 ++ i :: l2)).
Context (He : aget (is_table sp) i = Some e) (Hf : aget (is_table sp) p = Some f).

Lemma rip_pred_ne : p <> i.
Proof.
  pose proof (sw_nodup _ _ W) as Hnd. pose proof (last_elem_of 0 l1) as Hl. fold p in Hl.
  rewrite app_comm_cons, NoDup_app in Hnd. destruct Hnd as (_ & Hd & _).
  intros E. apply (Hd p Hl). rewrite E. set_solver.
Qed.

Lemma rip_ok :
  ipc_entry_rip sp i gen = Some (tt, ripped_space sp f e p i gen).
Proof.
  pose proof (sw_nodup _ _ W) as Hnd. apply NoDup_cons in Hnd as Hnd'.
  pose proof (sw_free_bound _ _ W) as Hfb. pose proof (sw_size _ _ W) as Hsz.
  pose proof (sw_mods _ _ W) as Hmod. apply aget_Some_range in Hf as Hp, He as Hi.
  pose proof rip_pred_ne as Hpi.
  unfold ipc_entry_rip. rewrite (free_list_pred_ok _ _ 0 l1 i l2); [|apply W|tauto|].
  2:{ pose proof (fl_chain_length _ _ _ (sw_chain _ _ W) Hnd) as H. unfold alen in H.
      rewrite length_cons, length_app in H. lia. }
  fold p. osimpl. rewrite Hf, He. osimpl. rewrite aget_aset_eq by done. osimpl.
  change (MACH_PORT_MAKE p (IE_BITS_GEN (ie_bits (set_ie_next (ie_next e) f))))
    with (entry_name p (ie_bits f)).
  rewrite (sw_len _ _ W) in Hp, Hi.
  assert (Hcnt : is_table_free sp > 0).
  { rewrite (sw_count _ _ W). unfold alen. rewrite length_app. simpl. lia. }
  rewrite u32_id by lia. rewrite (modified_ok _ _ p);
    [|by apply entry_name_index; lia|simpl; lia..].
  osimpl. cbn [is_table modified_space set_is_high_mod set_is_low_mod set_is_table_free
    set_is_table]. rewrite aget_aset_ne, He by done. osimpl.
  destruct (sw_free _ _ W i e) as [Ho _]; [set_solver|done|].
  cbn [ie_object set_ie_next set_ie_bits]. rewrite Ho. osimpl. done.
Qed.

Lemma ripped_wf : gen_ok gen -> space_wf (ripped_space sp f e p i gen) (l1 ++ l2).
Proof.
  intros Hg. pose proof (sw_nodup _ _ W) as Hnd. pose proof rip_pred_ne as Hpi.
  rewrite app_comm_cons in Hnd. apply NoDup_app in Hnd as (Hn1 & Hd & Hn2).
  apply NoDup_cons in Hn2 as [Hi2 Hn2].
  apply aget_Some_range in Hf as Hp, He as Hi.
  assert (Hil : i ∉ 0 :: l1 ++ l2).
  { rewrite app_comm_cons, elem_of_app. intros [H|H]; [|done]. apply (Hd i H). set_solver. }
  assert (Hen : ie_next e = hd 0 l2).
  { assert (Hc : fl_chain (is_table sp) i l2).
    { pose proof (sw_chain _ _ W) as Hc. clear -Hc. revert Hc. generalize 0 as k.
      induction l1 as [|j l IH]; intros k [_ Hc]; [done|]. by eapply IH. }
    destruct (fl_chain_get _ _ _ Hc) as (e' & He' & ?). by simplify_eq. }
  assert (Hget : forall j, j <> p -> j <> i ->
    aget (is_table (ripped_space sp f e p i gen)) j = aget (is_table sp) j).
  { intros j ??. unfold ripped_space. simpl. by rewrite !aget_aset_ne by done. }
  assert (Hgp : aget (is_table (ripped_space sp f e p i gen)) p = Some (set_ie_next (ie_next e) f)).
  { unfold ripped_space. simpl. by rewrite aget_aset_ne, aget_aset_eq by done. }
  split.
  - simpl. rewrite !alen_aset. apply W.
  - apply W.
  - simpl. apply fl_chain_aset; [done|]. rewrite Hen. apply fl_chain_splice with i; [apply W|apply W|done].
  - rewrite app_comm_cons. apply NoDup_app. split; [done|]. split; [|done].
    intros x Hx Hx2. apply (Hd x Hx). set_solver.
  - simpl. rewrite (sw_count _ _ W). unfold alen. rewrite !length_app. simpl. lia.
  - destruct (sw_head _ _ W) as (h & Hh & ? & ?). destruct (decide (p = 0)) as [E|E].
    + exists (set_ie_next (ie_next e) f). rewrite <- Hgp, E. rewrite E, Hh in Hf. by simplify_eq.
    + exists h. rewrite <- Hh. split; [|done]. apply Hget; [done|]. set_solver.
  - intros j ej Hj Hej. assert (j <> i) by set_solver.
    destruct (decide (j = p)) as [->|Hjp].
    + rewrite Hgp in Hej. simplify_eq.
      destruct (sw_free _ _ W p f) as [? ?]; [set_solver|done|]. by split.
    + rewrite (Hget j) in Hej by done. eapply W; [|done]. set_solver.
  - intros j ej Hj Hej. destruct (decide (j = i)) as [->|Hji].
    + simpl in Hej. rewrite aget_aset_eq in Hej by (rewrite alen_aset; done). simplify_eq/=.
      by rewrite gen_roll_gen.
    + assert (j <> p). { intros ->. pose proof (last_elem_of 0 l1). set_solver. }
      rewrite (Hget j) in Hej by done. eapply W; [|done]. set_solver.
  - pose proof (sw_mods _ _ W). rewrite (sw_len _ _ W) in *. simpl. lia.
Qed.
End rip.

(** ** A small space

    Entry 1 holds a dead name, entries 2 and 3 are free. *)
Definition example_space : ipc_space :=
  mkSpace 2 4 0 2
    [mkEntry IO_NULL 0 0 0 2;
     mkEntry IO_NULL (Z.lor (Z.lor (gen_word 3 0 1) MACH_PORT_TYPE_DEAD_NAME) 1) 0 0 0;
     mkEntry IO_NULL IE_BITS_GEN_MASK 0 0 3;
     mkEntry IO_NULL (gen_word 3 5 0) 0 0 0]
    1 0 0 4 0 (mkBoolGen 1 2 3 4 0) 0 HOST_LOCAL_NODE.

(** The name of the dead name of [example_space]. *)
Definition example_name : Z := 0x103.

Lemma example_get i e :
  aget (is_table example_space) i = Some e -> i = 0 \/ i = 1 \/ i = 2 \/ i = 3.
Proof. intros H%aget_Some_range. change (alen _) with 4 in H. lia. Qed.

Lemma example_wf : space_wf example_space [2; 3].
Proof.
  split.
  - done.
  - simpl. lia.
  - by repeat split.
  - repeat constructor; set_solver.
  - done.
  - by eexists.
  - intros i e Hi. rewrite !elem_of_cons in Hi.
    destruct Hi as [->|[->|Hi]]; [..|by apply not_elem_of_nil in Hi]; intros [= <-]; split; try done.
    + apply gen_ok_fresh.
    + exists 3, 5, 0. repeat split; lia.
  - intros i e Hi He. assert (i = 1) as ->.
    { apply example_get in He. rewrite !not_elem_of_cons in Hi. lia. }
    injection He as <-. exists 3, 0, 1. repeat split; lia.
  - simpl. lia.
Qed.

(** ** The operations preserve the invariant *)

(** C23. In a well-formed active space [ipc_entry_get] returns.  It gives out the
    first entry of the free list when there is one and the hash is below its
    load limit, and changes nothing otherwise.  On success the space is
    well-formed with the rest of the list, the entry has no type, no request and
    the generation of the new name, no other entry but the list head changes,
    and the name differs from the one the entry had before. *)
Theorem entry_get_spec (sp : ipc_space) (l : list Z) :
  space_wf sp l -> is_active sp = true ->
  match l with
  | i :: l' =>
      if hash_room sp 1 then
        exists e gen sp', aget (is_table sp) i = Some e /\
          ipc_entry_get sp = Some (inr (entry_name i gen, i), sp') /\ space_wf sp' l' /\
          aget (is_table sp') i = Some (set_ie_request IE_REQ_NONE (set_ie_bits gen e)) /\
          IE_BITS_TYPE gen = MACH_PORT_TYPE_NONE /\
          (forall j, j <> 0 -> j <> i -> aget (is_table sp') j = aget (is_table sp) j) /\
          entry_name i gen <> entry_name i (ie_bits e)
      else ipc_entry_get sp = Some (inl KERN_NO_SPACE, sp)
  | [] => ipc_entry_get sp = Some (inl KERN_NO_SPACE, sp)
  end.
Proof.
  intros W Ha. destruct l as [|i l].
  - apply (get_full sp []); [done..|]. by rewrite andb_false_r.
  - destruct (hash_room sp 1) eqn:Hr; [|by apply (get_full sp (i :: l)); rewrite ?Hr].
    pose proof (sw_range _ _ W i ltac:(set_solver)) as Hi. pose proof (sw_size _ _ W).
    destruct (claim_ok sp i l W) as (h & e & gen & sp' & Hh & He & Hcl & (bg & pool & ->) & W'
      & Ho & Hg & Hne).
    exists e, gen. eexists. split; [done|]. rewrite (get_claim sp i l), Hcl by done.
    split; [done|]. split; [exact W'|]. simpl. split_and!.
    + unfold claimed_table. rewrite aget_aset_eq; [done|].
      rewrite alen_aset, (sw_len _ _ W). lia.
    + by apply gen_ok_type.
    + intros j ??. unfold claimed_table. by rewrite !aget_aset_ne by done.
    + intros E%entry_name_inj; [naive_solver|lia..].
Qed.

Lemma entry_get_spec_witness :
  exists e gen sp', aget (is_table example_space) 2 = Some e /\
    ipc_entry_get example_space = Some (inr (entry_name 2 gen, 2), sp') /\ space_wf sp' [3] /\
    aget (is_table sp') 2 = Some (set_ie_request IE_REQ_NONE (set_ie_bits gen e)) /\
    IE_BITS_TYPE gen = MACH_PORT_TYPE_NONE /\
    (forall j, j <> 0 -> j <> 2 -> aget (is_table sp') j = aget (is_table example_space) j) /\
    entry_name 2 gen <> entry_name 2 (ie_bits e).
Proof. exact (entry_get_spec example_space [2; 3] example_wf eq_refl). Defined.

(** C22. A name finds an entry exactly when the entry is in use and has this name:
    in a well-formed active space [ipc_entry_lookup] returns for every 32-bit
    name, whatever its index, and an entry found has a type and the name's index
    and generation. *)
Theorem entry_lookup_exact (sp : ipc_space) (l : list Z) (name : Z) :
  space_wf sp l -> is_active sp = true -> 0 <= name < 2 ^ 32 ->
  exists r, ipc_entry_lookup sp name = Some r /\
    forall i, r = Some i <-> exists e, aget (is_table sp) i = Some e /\
      IE_BITS_TYPE (ie_bits e) <> MACH_PORT_TYPE_NONE /\ name = entry_name i (ie_bits e).
Proof. apply lookup_ok. Qed.

Lemma entry_lookup_exact_witness :
  exists r, ipc_entry_lookup example_space example_name = Some r /\
    forall i, r = Some i <-> exists e, aget (is_table example_space) i = Some e /\
      IE_BITS_TYPE (ie_bits e) <> MACH_PORT_TYPE_NONE /\ example_name = entry_name i (ie_bits e).
Proof.
  apply (entry_lookup_exact example_space [2; 3] example_name example_wf); [reflexivity|].
  unfold example_name. lia.
Defined.

Lemma IE_BITS_GEN_gen_roll b : IE_BITS_GEN (gen_roll b) = IE_BITS_GEN b.
Proof. unfold gen_roll, IE_BITS_GEN. rewrite <- Z.land_assoc. reflexivity. Qed.

(** A name of another generation does not find entry [i]. *)
Lemma lookup_wrong_gen sp i e name :
  is_active sp = true -> MACH_PORT_INDEX name = i -> aget (is_table sp) i = Some e ->
  IE_BITS_GEN (ie_bits e) <> MACH_PORT_GEN name -> ipc_entry_lookup sp name = Some None.
Proof.
  intros Ha <- He Hg. unfold ipc_entry_lookup. rewrite Ha. osimpl.
  destruct (_ <? _); [|done]. rewrite He. osimpl.
  by rewrite (proj2 (Z.eqb_neq _ _)) by done.
Qed.

(** An entry with no type is not found. *)
Lemma lookup_untyped sp i e name :
  is_active sp = true -> MACH_PORT_INDEX name = i -> aget (is_table sp) i = Some e ->
  IE_BITS_TYPE (ie_bits e) = MACH_PORT_TYPE_NONE -> ipc_entry_lookup sp name = Some None.
Proof.
  intros Ha <- He Ht. unfold ipc_entry_lookup. rewrite Ha. osimpl.
  destruct (_ <? _); [|done]. rewrite He. osimpl. rewrite Ht, Z.eqb_refl, orb_true_r. done.
Qed.

Lemma dealloced_get sp h e i :
  i <> 0 -> 0 <= i < alen (is_table sp) ->
  aget (is_table (dealloced_space sp h e i)) i =
    Some (set_ie_next (ie_next h) (set_ie_bits (gen_roll (ie_bits e)) e)).
Proof. intros. simpl. by rewrite aget_aset_ne, aget_aset_eq by done. Qed.

(** C21. A deallocated name is stale.  Deallocating an entry in use makes its name
    unknown and puts the entry in front of the free list of a well-formed space;
    the next [ipc_entry_get] gives the same entry out again, but under another
    name, and whatever right is then installed there, the old name still finds
    nothing. *)
Theorem deallocated_name_is_stale (sp : ipc_space) (l : list Z) (i : Z) (e : ipc_entry)
    (name : Z) :
  space_wf sp l -> is_active sp = true -> hash_room sp 1 = true ->
  i ∉ 0 :: l -> aget (is_table sp) i = Some e ->
  ie_object e = IO_NULL -> ie_request e = IE_REQ_NONE -> name = entry_name i (ie_bits e) ->
  exists sp1 name' gen sp2,
    ipc_entry_dealloc sp name i = Some (tt, sp1) /\ space_wf sp1 (i :: l) /\
    ipc_entry_lookup sp1 name = Some None /\
    ipc_entry_get sp1 = Some (inr (name', i), sp2) /\ space_wf sp2 l /\
    name' = entry_name i gen /\ name' <> name /\
    forall e', IE_BITS_GEN (ie_bits e') = IE_BITS_GEN gen ->
      ipc_entry_lookup (set_is_table (aset (is_table sp2) i e') sp2) name = Some None.
Proof.
  intros W Ha Hr Hi He Ho Hq Hn. pose proof (sw_size _ _ W) as Hsz.
  apply aget_Some_range in He as Hri. assert (Hi0 : i <> 0) by set_solver.
  destruct (sw_head _ _ W) as (h & Hh & _).
  pose proof (dealloced_wf sp l h e i W Hi Hh He Ho) as W1.
  assert (Hidx : MACH_PORT_INDEX name = i)
    by (subst name; apply entry_name_index; rewrite <- (sw_len _ _ W) in *; lia).
  pose proof (dealloced_get sp h e i Hi0 Hri) as Hd.
  destruct (claim_ok _ i l W1) as (h1 & e1 & gen & sp2 & Hh1 & He1 & Hcl & (bg & pool & ->) & W2
    & _ & Hg & Hne). rewrite Hd in He1. simplify_eq.
  cbn [ie_bits set_ie_next set_ie_bits] in Hne. rewrite IE_BITS_GEN_gen_roll in Hne.
  assert (Hstale : entry_name i gen <> entry_name i (ie_bits e))
    by (intros E%entry_name_inj; [naive_solver|rewrite <- (sw_len _ _ W) in *; lia..]).
  eexists _, _, gen, _. split; [by eapply dealloc_ok|]. split; [done|]. split.
  { eapply lookup_untyped; [done|by rewrite Hidx|rewrite Hidx; exact Hd|].
    cbn [ie_bits set_ie_next set_ie_bits]. apply gen_ok_type. by eapply (sw_used _ _ W). }
  rewrite (get_claim _ i l), Hcl by done. split; [done|]. split; [exact W2|]. split; [done|].
  split; [done|]. intros e' He'. eapply (lookup_wrong_gen _ i e'); [done|done|..].
  - simpl. unfold claimed_table. apply aget_aset_eq. by rewrite !alen_aset.
  - rewrite He', entry_name_gen by (rewrite <- (sw_len _ _ W) in *; lia). done.
Qed.

Lemma deallocated_name_is_stale_witness :
  exists sp1 name' gen sp2,
    ipc_entry_dealloc example_space example_name 1 = Some (tt, sp1) /\ space_wf sp1 [1; 2; 3] /\
    ipc_entry_lookup sp1 example_name = Some None /\
    ipc_entry_get sp1 = Some (inr (name', 1), sp2) /\ space_wf sp2 [2; 3] /\
    name' = entry_name 1 gen /\ name' <> example_name /\
    forall e', IE_BITS_GEN (ie_bits e') = IE_BITS_GEN gen ->
      ipc_entry_lookup (set_is_table (aset (is_table sp2) 1 e') sp2) example_name = Some None.
Proof.
  eapply (deallocated_name_is_stale example_space [2; 3] 1 _ example_name example_wf);
    try reflexivity.
  apply (bool_decide_unpack _). reflexivity.
Defined.

(** C24. The free-entry case of [ipc_entry_alloc_name]: any entry of the free list
    can be ripped out of it, wherever it is; the search for its predecessor
    ends, the list loses this entry only, and the entry carries the generation
    asked for. *)
Theorem entry_rip_spec (sp : ipc_space) (l : list Z) (i gen : Z) :
  space_wf sp l -> i ∈ l -> gen_ok gen ->
  exists sp' l' e, ipc_entry_rip sp i gen = Some (tt, sp') /\ l ≡ₚ i :: l' /\ space_wf sp' l' /\
    aget (is_table sp) i = Some e /\
    aget (is_table sp') i = Some (set_ie_request IE_REQ_NONE (set_ie_bits gen e)) /\
    forall j, j ∉ 0 :: l -> aget (is_table sp') j = aget (is_table sp) j.
Proof.
  intros W (l1 & l2 & ->)%list_elem_of_split Hg.
  pose proof (sw_range _ _ W i ltac:(set_solver)) as Hi.
  destruct (sw_get _ _ W i) as [e He]; [lia|]. set (p := List.last (0 :: l1) 0).
  assert (Hpl : p ∈ 0 :: l1) by apply last_elem_of.
  destruct (sw_get _ _ W p) as [f Hf].
  { destruct (decide (p = 0)); [pose proof (sw_size _ _ W); lia|].
    pose proof (sw_range _ _ W p ltac:(set_solver)). lia. }
  exists (ripped_space sp f e p i gen), (l1 ++ l2), e. split; [by eapply rip_ok|].
  split; [by rewrite Permutation_middle|]. split; [by eapply ripped_wf|]. split; [done|]. simpl.
  split; [apply aget_aset_eq; by rewrite alen_aset, (sw_len _ _ W); lia|].
  intros j Hj. rewrite !aget_aset_ne; [done|..]; intros <-; set_solver.
Qed.

Lemma entry_rip_spec_witness :
  exists sp' l' e, ipc_entry_rip example_space 3 (gen_word 3 7 0) = Some (tt, sp') /\
    [2; 3] ≡ₚ 3 :: l' /\ space_wf sp' l' /\
    aget (is_table example_space) 3 = Some e /\
    aget (is_table sp') 3 = Some (set_ie_request IE_REQ_NONE (set_ie_bits (gen_word 3 7 0) e)) /\
    forall j, j ∉ [0; 2; 3] -> aget (is_table sp') j = aget (is_table example_space) j.
Proof.
  apply (entry_rip_spec example_space [2; 3] 3 (gen_word 3 7 0) example_wf).
  - apply (bool_decide_unpack _). reflexivity.
  - exists 3, 7, 0. repeat split; lia.
Defined.
