(* ===== verification/IpcGrow.v ===== *)
(** * Growing the table of a space (ipc/ipc_entry.c, ipc_entry_grow_table)

    The copy of a table into a larger one, without interference: every entry
    keeps its object, bits and link, the hash is rebuilt for the larger size, and
    the new entries are appended to the free list. *)

From S2P Require Import Prelude IpcTypes IpcBits IpcHash IpcTable KernelState Kernel IpcFreelist IpcEntry IpcEntryInv.

(** ** The copy *)

(** The state of the copy after [n] entries of [ot], into a table that started
    as [t0]. *)
Record copied (ot t0 : list ipc_entry) (n : Z) (t : list ipc_entry) : Prop := {
  cp_wf : ih_wf t;
  cp_len : alen t = alen t0;
  cp_old i e : 0 <= i < n -> aget ot i = Some e ->
    exists e', aget t i = Some e' /\ set_ie_hash 0 0 e' = set_ie_hash 0 0 e;
  cp_new i e : n <= i -> aget t0 i = Some e ->
    exists e', aget t i = Some e' /\ set_ie_hash 0 0 e' = set_ie_hash 0 0 e;
  cp_hashed i : ih_hashed t i <-> 0 <= i < n /\ exists e, aget ot i = Some e /\ entry_hashed e = true
}.

Section copy.
Context (ot t0 : list ipc_entry) (osize : Z).
Context (Hol : alen ot = osize) (Hlt : osize <= alen t0).
Context (Hzero : forall i, 0 <= i < osize -> aget t0 i = Some ie_zero).
Context (Hhead : forall e, aget ot 0 = Some e -> entry_hashed e = false).

(** An update of entry [n] to the snapshot, hashed or not. *)
Lemma copied_store n t e e' o :
  copied ot t0 n t -> 0 <= n < osize -> aget ot n = Some o -> aget t n = Some e ->
  ie_index e' = ie_index e -> ie_dist e' = ie_dist e ->
  set_ie_hash 0 0 e' = set_ie_hash 0 0 o -> entry_hashed o = false ->
  copied ot t0 (n + 1) (aset t n e').
Proof.
  intros [W Hl Hold Hnew Hh] Hn Ho He Hx Hd Hs Hno.
  assert (Hnh : ~ ih_hashed t n) by (rewrite Hh; lia).
  split.
  - eapply ih_upd_wf; try done.
  - by rewrite alen_aset.
  - intros i ei Hi Hei. destruct (decide (i = n)) as [->|].
    + exists e'. rewrite aget_aset_eq by (by eapply aget_Some_range).
      split; [done|]. rewrite Hs. congruence.
    + rewrite aget_aset_ne by done. apply Hold; [lia|done].
  - intros i ei Hi Hei. rewrite aget_aset_ne by lia. apply Hnew; [lia|done].
  - intros i. rewrite (ih_upd_hashed t n e e'), Hh by done. split.
    + intros [? ?]. split; [lia|done].
    + intros [Hi (ei & Hei & Hhe)]. split; [|by exists ei].
      destruct (decide (i = n)) as [->|]; [|lia]. congruence.
Qed.

(** The same for a snapshot that is hashed. *)
Lemma copied_insert n t e e' o :
  copied ot t0 n t -> 0 <= n < osize -> aget ot n = Some o -> aget t n = Some e ->
  ie_index e' = ie_index e -> ie_dist e' = ie_dist e ->
  set_ie_hash 0 0 e' = set_ie_hash 0 0 o -> entry_hashed o = true ->
  exists t', ipc_hash_table_insert (aset t n e') (alen t) (ie_object e') n = Some t' /\
    copied ot t0 (n + 1) t'.
Proof.
  intros [W Hl Hold Hnew Hh] Hn Ho He Hx Hd Hs Hho.
  assert (Hnh : ~ ih_hashed t n) by (rewrite Hh; lia).
  assert (Hn0 : 0 < n).
  { destruct (decide (n = 0)) as [->|]; [|lia]. rewrite (Hhead o Ho) in Hho. done. }
  assert (Hob : ie_object e' <> IO_NULL).
  { apply strip_eq in Hs as [-> _]. unfold entry_hashed in Hho.
    apply andb_true_iff in Hho as [Hho _]. by apply negb_true_iff, Z.eqb_neq in Hho. }
  apply aget_Some_range in He as Hr.
  destruct (ih_insert_ok (aset t n e') (ie_object e') n) as (t' & Hins & W' & Hst & Hh').
  - by eapply ih_upd_wf.
  - rewrite alen_aset. lia.
  - rewrite (ih_upd_object t n e e') by done. by rewrite decide_True.
  - done.
  - by rewrite (ih_upd_hashed t n e e').
  - rewrite alen_aset in Hins. exists t'. split; [done|]. split; [done|..].
    + rewrite (ih_strip_len _ _ Hst), alen_aset. done.
    + intros i ei Hi Hei. destruct (decide (i = n)) as [->|].
      * destruct (ih_strip_get _ t' n e' Hst) as (e1 & He1 & Hs1); [by apply aget_aset_eq|].
        exists e1. split; [done|]. rewrite Hs1, Hs. congruence.
      * destruct (Hold i ei) as (e2 & He2 & Hs2); [lia|done|].
        destruct (ih_strip_get _ t' i e2 Hst) as (e1 & He1 & Hs1); [by rewrite aget_aset_ne|].
        exists e1. split; [done|]. congruence.
    + intros i ei Hi Hei. destruct (Hnew i ei) as (e2 & He2 & Hs2); [lia|done|].
      destruct (ih_strip_get _ t' i e2 Hst) as (e1 & He1 & Hs1); [by rewrite aget_aset_ne by lia|].
      exists e1. split; [done|]. congruence.
    + intros i. rewrite Hh', (ih_upd_hashed t n e e'), Hh by done. split.
      * intros [->|[? ?]]; [|split; [lia|done]]. split; [lia|by exists o].
      * intros [Hi He2]. destruct (decide (i = n)) as [->|]; [by left|]. right. split; [lia|done].
Qed.

Lemma copied_entry n t o :
  copied ot t0 n t -> 0 <= n < osize -> aget ot n = Some o ->
  exists t', grow_copy_entry (alen t) t n o = Some t' /\ copied ot t0 (n + 1) t'.
Proof.
  intros C Hn Ho. destruct (cp_new _ _ _ _ C n ie_zero) as (e & He & Hse); [lia|by apply Hzero|].
  apply strip_eq in Hse as (Heo & Heb & Hen). simpl in Heo, Heb, Hen.
  apply aget_Some_range in He as Hr.
  unfold grow_copy_entry. rewrite He. osimpl.
  assert (Heh : entry_hashed e = false) by (unfold entry_hashed; by rewrite Heo).
  destruct (negb (ie_object e =? ie_object o)
    || negb (IE_BITS_TYPE (ie_bits e) =? IE_BITS_TYPE (ie_bits o))) eqn:Hc.
  - rewrite Heh. osimpl. rewrite He. osimpl.
    set (e' := set_ie_request _ _).
    assert (Hs : set_ie_hash 0 0 e' = set_ie_hash 0 0 o) by by apply strip_eq.
    assert (Hho : entry_hashed e' = entry_hashed o) by done. rewrite Hho.
    destruct (entry_hashed o) eqn:Hh.
    + by apply (copied_insert n t e e' o).
    + eexists. split; [done|]. by apply (copied_store n t e e' o).
  - apply orb_false_iff in Hc as [Hc _]. apply negb_false_iff, Z.eqb_eq in Hc.
    assert (Hho : entry_hashed o = false) by (unfold entry_hashed; by rewrite <- Hc, Heo).
    eexists. split; [done|]. apply (copied_store n t e _ o); try done.
    apply strip_eq. by rewrite <- Hc.
Qed.

Lemma grow_copy_ok k n t :
  copied ot t0 n t -> 0 <= n -> n + Z.of_nat k = osize ->
  exists t', grow_copy k (alen t) ot t n = Some t' /\ copied ot t0 osize t'.
Proof.
  revert n t. induction k as [|k IH]; intros n t C Hn Hk.
  - exists t. split; [done|]. by replace osize with n by lia.
  - cbn [grow_copy]. destruct (aget_lt_Some ot n) as [o Ho]; [lia|]. rewrite Ho. osimpl.
    destruct (copied_entry n t o C) as (t1 & Ht1 & C1); [lia|done|]. rewrite Ht1. osimpl.
    replace (alen t) with (alen t1) by by rewrite (cp_len _ _ _ _ C1), (cp_len _ _ _ _ C).
    apply IH; [done|lia..].
Qed.
End copy.

(** ** The end of the free list *)

Lemma grow_free_end_ok k osize t i l :
  fl_chain t i l -> 0 ∉ l -> (length l < k)%nat ->
  (forall j, j ∈ l -> j < osize) ->
  (forall j e, j ∈ i :: l -> aget t j = Some e -> ie_object e = IO_NULL) ->
  grow_free_end k osize t i = Some (List.last (i :: l) 0).
Proof.
  revert i l. induction k as [|k IH]; intros i l Hch H0 Hk Hr Ho; [lia|].
  cbn [grow_free_end]. destruct (fl_chain_get _ _ _ Hch) as (e & He & Hen).
  rewrite He. osimpl. rewrite (Ho i e) by (done || set_solver). osimpl. rewrite Hen.
  destruct l as [|j l]; cbn [hd]; [done|].
  rewrite (proj2 (Z.eqb_neq j 0)) by set_solver.
  rewrite (proj2 (Z.leb_gt osize j)) by (apply Hr; set_solver). osimpl.
  rewrite (IH j l); [done|apply Hch|set_solver|simpl in *; lia|set_solver|].
  intros j' e' Hj'. apply Ho. set_solver.
Qed.

Lemma fl_chain_last t i l :
  fl_chain t i l -> exists f, aget t (List.last (i :: l) 0) = Some f /\ ie_next f = 0.
Proof.
  revert i. induction l as [|j l IH]; intros i Hch.
  - by apply fl_chain_get in Hch.
  - destruct Hch as [_ Hch]. by apply IH in Hch.
Qed.

(** Linking a second chain to the end of a first one. *)
Lemma fl_chain_link t i l k l2 f :
  fl_chain t i l -> fl_chain t k l2 -> NoDup (i :: l ++ k :: l2) ->
  aget t (List.last (i :: l) 0) = Some f ->
  fl_chain (aset t (List.last (i :: l) 0) (set_ie_next k f)) i (l ++ k :: l2).
Proof.
  intros Hl Hk. revert i Hl. induction l as [|j l IH]; intros i Hl Hnd Hf.
  - simpl in *. apply aget_Some_range in Hf as Hr. split.
    + by rewrite fl_next_aset, decide_True by done.
    + apply fl_chain_aset; [|done]. by apply NoDup_cons in Hnd as [? _].
  - destruct Hl as [Hi Hl]. simpl in Hnd. apply NoDup_cons in Hnd as [Hin Hnd].
    change (List.last (i :: j :: l) 0) with (List.last (j :: l) 0) in *.
    split; [|by apply IH]. rewrite fl_next_aset by (by eapply aget_Some_range).
    rewrite decide_False; [done|]. intros E. apply Hin. rewrite <- E.
    pose proof (last_elem_of j l). set_solver.
Qed.

(** The links of two tables with the same stripped entries. *)
Lemma fl_chain_strip t t' i l :
  (forall j e, j ∈ i :: l -> aget t j = Some e ->
     exists e', aget t' j = Some e' /\ set_ie_hash 0 0 e' = set_ie_hash 0 0 e) ->
  fl_chain t i l -> fl_chain t' i l.
Proof.
  intros Hs Hch. assert (Hr : forall j, j ∈ i :: l -> 0 <= j < alen t)
    by (intros j; by apply fl_chain_range).
  eapply fl_chain_ext; [|done]. intros j Hj. unfold fl_next.
  destruct (aget_lt_Some t j (Hr j Hj)) as [e He]. destruct (Hs j e Hj He) as (e' & -> & E).
  rewrite He. simpl. f_equal. by apply strip_eq in E as (_ & _ & ->).
Qed.

(** ** The whole scan *)

(** What growing does to a table: [t'] has the entries of [t], with the hash
    rebuilt and the last free entry linked to [k], the first new entry. *)
Record grown (t t' : list ipc_entry) (l : list Z) (k : Z) : Prop := {
  gr_hash : ih_wf t';
  gr_old i e : aget t i = Some e -> exists e', aget t' i = Some e' /\
    ie_object e' = ie_object e /\ ie_bits e' = ie_bits e /\
    ie_next e' = if decide (i = List.last (0 :: l) 0) then k else ie_next e;
  gr_new i : alen t <= i < alen t' -> exists e, aget t' i = Some e /\
    ie_object e = IO_NULL /\ ie_bits e = IE_BITS_GEN_MASK;
  gr_hashed i : ih_hashed t' i <-> exists e, aget t i = Some e /\ entry_hashed e = true
}.

(** The new table before the scan. *)
Definition grow_table0 (osize size : Z) (table : list ipc_entry) : list ipc_entry :=
  replicate (Z.to_nat osize) ie_zero ++ drop (Z.to_nat osize) table.

Section scan.
Context (sp : ipc_space) (l : list Z) (tbl : list ipc_entry) (size : Z) (l2 : list Z).
Let osize := is_table_size sp.
Let t0 := grow_table0 osize size tbl.
Context (W : space_wf sp l).
Context (Hsize : osize < size < 2 ^ 24) (Htbl : alen tbl = size).
Context (Hl2 : l2 ≡ₚ seqZ (osize + 1) (size - osize - 1)) (Hch2 : fl_chain tbl osize l2).
Context (Hfree : forall j, osize <= j < size -> exists n, aget tbl j = Some (free_entry n)).

Lemma grow_table0_get j :
  aget t0 j = if decide (0 <= j < osize) then Some ie_zero else aget tbl j.
Proof.
  pose proof (sw_size _ _ W). unfold t0, grow_table0, aget.
  destruct (Z.ltb_spec j 0); [by rewrite decide_False by lia|].
  case_decide as H2.
  - rewrite lookup_app_l by (rewrite length_replicate; lia).
    apply lookup_replicate_2. lia.
  - rewrite lookup_app_r by (rewrite length_replicate; lia).
    rewrite length_replicate, lookup_drop. f_equal. unfold osize in *. lia.
Qed.

Lemma grow_table0_len : alen t0 = size.
Proof.
  pose proof (sw_size _ _ W). unfold t0, grow_table0, alen in *.
  rewrite length_app, length_replicate, length_drop. unfold osize in *. lia.
Qed.

Lemma grow_table0_unhashed j : ih_index t0 j = 0.
Proof.
  unfold ih_index. rewrite grow_table0_get. case_decide; [done|].
  destruct (aget tbl j) eqn:E; [|done]. apply aget_Some_range in E as Hr.
  pose proof (sw_size _ _ W). unfold osize in *.
  destruct (Hfree j) as [n Hn]; [lia|]. by simplify_eq.
Qed.

Lemma copied_start : copied (is_table sp) t0 0 t0.
Proof.
  pose proof (sw_size _ _ W). split.
  - apply ih_wf_unhashed; [rewrite grow_table0_len; unfold osize in *; lia|].
    apply grow_table0_unhashed.
  - done.
  - lia.
  - eauto.
  - intros i. split; [|lia]. intros (Hi & h & _ & Hh). rewrite grow_table0_unhashed in Hh. lia.
Qed.

Lemma l2_elem j : j ∈ osize :: l2 <-> osize <= j < size.
Proof. rewrite elem_of_cons, Hl2, elem_of_seqZ. lia. Qed.

Lemma l2_nodup : NoDup (osize :: l2).
Proof.
  rewrite NoDup_cons, Hl2, elem_of_seqZ. split; [lia|]. apply NoDup_seqZ.
Qed.

Lemma grow_lists_nodup : NoDup (0 :: l ++ osize :: l2).
Proof.
  rewrite app_comm_cons. apply NoDup_app. split; [apply W|]. split; [|apply l2_nodup].
  intros j Hj. rewrite l2_elem. pose proof (sw_size _ _ W).
  apply elem_of_cons in Hj as [->|Hj]; [unfold osize in *; lia|].
  pose proof (sw_range _ _ W j Hj). unfold osize in *. lia.
Qed.

Lemma grow_scan_ok :
  exists t f, grow_scan osize size (is_table sp) t0 0 (osize - 1) =
      Some (t, List.last (0 :: l) 0) /\
    aget t (List.last (0 :: l) 0) = Some f /\ ie_next f = 0 /\ ie_object f = IO_NULL /\
    copied (is_table sp) t0 osize t /\ fl_chain t 0 l /\ fl_chain t osize l2.
Proof.
  pose proof (sw_size _ _ W). pose proof (sw_len _ _ W) as Hlen.
  destruct (sw_head _ _ W) as (h & Hh & Hho & Hhb).
  assert (Hgc : exists t, grow_copy (Z.to_nat (osize - 1 + 1 - 0)) (alen t0) (is_table sp) t0 0
    = Some t /\ copied (is_table sp) t0 osize t).
  { apply grow_copy_ok; [done|..].
    - intros i Hi. by rewrite grow_table0_get, decide_True.
    - intros e He. unfold entry_hashed. by simplify_eq; rewrite Hho.
    - apply copied_start.
    - lia.
    - unfold osize in *. lia. }
  destruct Hgc as (t & Ht & C).
  rewrite grow_table0_len in Ht. unfold grow_scan. rewrite Ht. osimpl.
  destruct (cp_old _ _ _ _ C 0 h) as (h' & Hh' & Es); [unfold osize; lia|done|].
  apply strip_eq in Es as Es'. destruct Es' as (Eo & Eb & En).
  rewrite Hh', Hh. osimpl. rewrite <- En.
  assert (E : aset t 0 (set_ie_next (ie_next h') h') = t)
    by (rewrite <- (aset_id t 0 h') at 2 by done; by destruct h'). rewrite E.
  assert (Hold : forall j e, j ∈ 0 :: l -> aget (is_table sp) j = Some e ->
    exists e', aget t j = Some e' /\ set_ie_hash 0 0 e' = set_ie_hash 0 0 e).
  { intros j e _ He. apply (cp_old _ _ _ _ C); [|done].
    apply aget_Some_range in He. unfold osize. lia. }
  assert (Hch : fl_chain t 0 l) by (eapply fl_chain_strip; [exact Hold|apply W]).
  assert (Hob : forall j e, j ∈ 0 :: l -> aget t j = Some e -> ie_object e = IO_NULL).
  { intros j e Hj He. destruct (sw_get _ _ W j) as [e0 He0].
    { apply elem_of_cons in Hj as [->|Hj]; [lia|]. pose proof (sw_range _ _ W j Hj). lia. }
    destruct (Hold j e0 Hj He0) as (e1 & He1 & (Eq & _ & _)%strip_eq). simplify_eq. rewrite Eq.
    apply elem_of_cons in Hj as [->|Hj]; [congruence|]. by destruct (sw_free _ _ W j e0 Hj He0). }
  rewrite (grow_free_end_ok _ osize t 0 l); [|done|..].
  + destruct (fl_chain_last t 0 l Hch) as (f & Hf & Hfn). exists t, f. split; [done|].
    split; [done|]. split; [done|]. split; [eapply Hob; [apply last_elem_of|done]|].
    split; [done|]. split; [done|]. eapply fl_chain_strip; [|exact Hch2].
    intros j e Hj He. apply (cp_new _ _ _ _ C); [by apply l2_elem in Hj; lia|].
    rewrite grow_table0_get, decide_False; [done|]. apply l2_elem in Hj. lia.
  + pose proof (sw_nodup _ _ W) as Hnd. by apply NoDup_cons in Hnd as [? _].
  + pose proof (fl_chain_length _ _ _ (sw_chain _ _ W) (sw_nodup _ _ W)) as Hfl.
    unfold alen in *. simpl in Hfl. unfold osize. lia.
  + intros j Hj. pose proof (sw_range _ _ W j Hj). unfold osize. lia.
  + done.
Qed.

Section link.
Context (t : list ipc_entry) (f : ipc_entry).
Let last := List.last (0 :: l) 0.
Let t' := aset t last (set_ie_next osize f).
Context (Hf : aget t last = Some f) (Hfo : ie_object f = IO_NULL).
Context (C : copied (is_table sp) t0 osize t).

Lemma link_get j : aget t' j = if decide (j = last) then Some (set_ie_next osize f) else aget t j.
Proof.
  unfold t'. case_decide as E; [subst j; apply aget_aset_eq; by eapply aget_Some_range|].
  by apply aget_aset_ne.
Qed.

Lemma link_old i e : aget (is_table sp) i = Some e -> exists e', aget t' i = Some e' /\
  ie_object e' = ie_object e /\ ie_bits e' = ie_bits e /\
  ie_next e' = if decide (i = last) then osize else ie_next e.
Proof.
  intros He. apply aget_Some_range in He as Hr. rewrite (sw_len _ _ W) in Hr.
  destruct (cp_old _ _ _ _ C i e) as (e' & He' & (Eo & Eb & En)%strip_eq); [done..|].
  rewrite link_get. case_decide as E; [|by exists e'].
  subst i. rewrite Hf in He'. injection He' as <-. by exists (set_ie_next osize f).
Qed.

Lemma last_lt : last < osize.
Proof.
  pose proof (sw_size _ _ W). unfold osize.
  pose proof (last_elem_of 0 l) as Hl. fold last in Hl.
  apply elem_of_cons in Hl as [E|Hl]; [lia|].
  pose proof (sw_range _ _ W last Hl). lia.
Qed.

Lemma link_new i : osize <= i < size ->
  exists e, aget t' i = Some e /\ ie_object e = IO_NULL /\ ie_bits e = IE_BITS_GEN_MASK.
Proof.
  intros Hi. destruct (Hfree i Hi) as [n Hn]. pose proof last_lt.
  rewrite link_get, decide_False by lia.
  destruct (cp_new _ _ _ _ C i (free_entry n)) as (e & He & (? & ? & _)%strip_eq);
    [lia|by rewrite grow_table0_get, decide_False by lia|by exists e].
Qed.

Lemma grown_ok : grown (is_table sp) t' l osize.
Proof.
  pose proof (sw_size _ _ W). split.
  - eapply ih_upd_wf; [done..|apply C|done].
  - apply link_old.
  - intros i. unfold t'. rewrite alen_aset, (cp_len _ _ _ _ C), grow_table0_len, (sw_len _ _ W).
    apply link_new.
  - intros i. unfold t'. rewrite (ih_upd_hashed t last f), (cp_hashed _ _ _ _ C) by done.
    split; [naive_solver|]. intros (e & He & ?). split; [|by exists e].
    apply aget_Some_range in He. by rewrite (sw_len _ _ W) in He.
Qed.

Lemma grown_wf nits :
  fl_chain t 0 l -> fl_chain t osize l2 ->
  space_wf (set_is_table_free (is_table_free sp + (size - osize))
    (set_is_table_next nits (set_is_table_size size (set_is_table t' sp)))) (l ++ osize :: l2).
Proof.
  intros Hc1 Hc2. pose proof (sw_size _ _ W). pose proof (sw_mods _ _ W).
  pose proof (gr_old _ _ _ _ grown_ok) as Hold. pose proof (gr_new _ _ _ _ grown_ok) as Hnew.
  assert (Hlen : alen t' = size)
    by (unfold t'; by rewrite alen_aset, (cp_len _ _ _ _ C), grow_table0_len).
  rewrite Hlen, (sw_len _ _ W) in Hnew.
  assert (Hnew' : forall j e, osize <= j -> aget t' j = Some e -> entry_free e).
  { intros j e Hj He. apply aget_Some_range in He as Hr.
    destruct (Hnew j) as (e' & He' & ? & Hb); [unfold osize in *; lia|]. simplify_eq.
    split; [done|]. rewrite Hb. apply gen_ok_fresh. }
  assert (Hback : forall j e, 0 <= j < osize -> aget t' j = Some e -> exists e0,
    aget (is_table sp) j = Some e0 /\ ie_object e = ie_object e0 /\ ie_bits e = ie_bits e0).
  { intros j e Hj He. destruct (sw_get _ _ W j Hj) as [e0 He0].
    destruct (Hold j e0 He0) as (e1 & He1 & ? & ? & _). exists e0. by simplify_eq. }
  split; simpl; try done.
  - lia.
  - apply fl_chain_link; [done..|apply grow_lists_nodup|done].
  - apply grow_lists_nodup.
  - rewrite (sw_count _ _ W). unfold alen. rewrite length_app, length_cons, Hl2, length_seqZ.
    unfold osize in *. lia.
  - destruct (sw_head _ _ W) as (h & Hh & Eo & Eb).
    destruct (Hold 0 h Hh) as (h' & Hh' & ? & ? & _). exists h'. split; [done|]. by split; congruence.
  - intros i e Hi He. destruct (decide (i < osize)) as [Hlt|]; [|apply (Hnew' i); [lia|done]].
    assert (Hil : i ∈ l) by (apply elem_of_app in Hi as [?|Hi%l2_elem]; [done|lia]).
    pose proof (sw_range _ _ W i Hil). destruct (Hback i e) as (e0 & He0 & Eo & Eb); [lia|done|].
    destruct (sw_free _ _ W i e0 Hil He0). split; by rewrite ?Eo, ?Eb.
  - intros i e Hi He. apply aget_Some_range in He as Hr. rewrite Hlen in Hr.
    assert (Hio : i < osize).
    { destruct (decide (i < osize)); [done|]. exfalso. apply Hi. right. apply elem_of_app. right.
      apply l2_elem. lia. }
    destruct (Hback i e) as (e0 & He0 & Eo & Eb); [lia|done|]. rewrite Eb.
    apply (sw_used _ _ W i e0); [|done]. rewrite not_elem_of_cons in *.
    split; [tauto|]. intros Hil. apply Hi. apply elem_of_app. by left.
  - unfold osize in *. lia.
Qed.
End link.
End scan.
