(* ===== verification/IpcAlloc.v ===== *)
(** * Allocating entries in a table that may grow (ipc/ipc_entry.c)

    [ipc_entry_grow_table], [ipc_entry_alloc] and [ipc_entry_alloc_name] on a
    whole world: they return, they leave every other part of the world alone,
    and the space is well-formed in every outcome. *)

From S2P Require Import Prelude IpcTypes IpcBits IpcHash IpcTable KernelState Kernel IpcFreelist IpcSpaceInit IpcEntry IpcEntryInv IpcGrow.

(** ** What an operation on one space changes *)

Record only_space (s : Z) (sp : ipc_space) (ls : gset klock) (w w' : world) : Prop := {
  os_io : w_io w' = w_io w;
  os_port : w_port w' = w_port w;
  os_space : w_space w' = <[s := sp]> (w_space w);
  os_locks : w_locks w' = ls;
  os_env : w_env w' = w_env w;
  os_timestamp : w_timestamp w' = w_timestamp w;
  os_assertions : w_assertions w' = w_assertions w
}.

(** ** The growing bit *)

Lemma land_pow2 b n : 0 <= n -> Z.land b (2 ^ n) = if Z.testbit b n then 2 ^ n else 0.
Proof.
  intros Hn. apply Z.bits_inj'. intros k Hk. rewrite Z.land_spec, Z.pow2_bits_eqb by done.
  destruct (Z.eqb_spec n k) as [->|].
  - destruct (Z.testbit b k); [|by rewrite Z.bits_0]. by rewrite Z.pow2_bits_true.
  - rewrite andb_false_r. destruct (Z.testbit b n); [|by rewrite Z.bits_0].
    by rewrite Z.pow2_bits_false by lia.
Qed.

Lemma growing_clear b :
  Z.land b IS_GROWING <> IS_GROWING -> Z.land (Z.lor b IS_GROWING) (Z.lnot IS_GROWING) = b.
Proof.
  change IS_GROWING with (2 ^ 29). rewrite land_pow2 by lia. intros H.
  assert (Hb : Z.testbit b 29 = false) by by destruct (Z.testbit b 29).
  apply Z.bits_inj'. intros n Hn.
  rewrite Z.land_spec, Z.lor_spec, Z.lnot_spec, Z.pow2_bits_eqb by lia.
  destruct (Z.eqb_spec 29 n) as [<-|]; [by rewrite Hb|].
  by rewrite orb_false_r, andb_true_r.
Qed.

Definition set_growing (sp : ipc_space) : ipc_space :=
  set_is_bits (Z.lor (is_bits sp) IS_GROWING) sp.

Lemma is_active_growing sp : is_active (set_growing sp) = is_active sp.
Proof.
  unfold is_active, set_growing. simpl. rewrite Z.land_lor_distr_l.
  change (Z.land IS_GROWING IS_INACTIVE) with 0. by rewrite Z.lor_0_r.
Qed.

Lemma is_growing_growing sp : is_growing (set_growing sp) = true.
Proof.
  unfold is_growing, set_growing. simpl. rewrite Z.land_lor_distr_l, Z.land_diag.
  change IS_GROWING with (2 ^ 29). rewrite land_pow2 by lia. by destruct (Z.testbit _ _).
Qed.

(** ** ipc_entry_grow_table *)

(** The size that the table is to get: the next one, or the first that holds
    [target] entries. *)
Definition grow_choice (sizes : list Z) (sp : ipc_space) (target its size : Z) : Prop :=
  exists size0, aget sizes (is_table_next sp) = Some size0 /\
    ((target = ITS_SIZE_NONE /\ its = is_table_next sp /\ size = size0) \/
     (target <> ITS_SIZE_NONE /\ is_table_size sp < target /\ exists psize,
        grow_find_size (length sizes) sizes target (is_table_next sp) (is_table_size sp) size0
          = Some (its, psize, size) /\ psize <> size)).

(** The space after the growth: [sp1] is the space with fresh modification
    marks, its generator possibly advanced. *)
Definition grow_marks (sp : ipc_space) : ipc_space :=
  set_is_high_mod 0 (set_is_low_mod (is_table_size sp) sp).
Definition grown_space (sp : ipc_space) (t : list ipc_entry) (its size : Z) : ipc_space :=
  set_is_table_free (is_table_free sp + (size - is_table_size sp))
    (set_is_table_next (its + 1) (set_is_table_size size (set_is_table t sp))).

Lemma space_wf_bits sp l b : space_wf sp l -> space_wf (set_is_bits b sp) l.
Proof. intros []. by split. Qed.

Lemma space_wf_marks sp l : 1 < is_table_size sp -> space_wf sp l -> space_wf (grow_marks sp) l.
Proof. intros Hs []. split; try done. simpl. lia. Qed.

Lemma wp_start_growing s sp (Q : unit -> world -> Prop) w :
  w_space w !! s = Some sp -> is_growing sp = false ->
  Q tt (set_w_space (<[s := set_growing sp]> (w_space w)) w) -> wp (is_start_growing s) Q w.
Proof. intros Hsp Hg HQ. unfold is_start_growing. wp_steps; [by rewrite Hg|]. done. Qed.

Definition clear_growing (sp : ipc_space) : ipc_space :=
  set_is_bits (Z.land (is_bits sp) (Z.lnot IS_GROWING)) sp.

Lemma wp_done_growing s sp (Q : unit -> world -> Prop) w :
  w_space w !! s = Some sp -> is_growing sp = true ->
  Q tt (set_w_space (<[s := clear_growing sp]> (w_space w)) w) -> wp (is_done_growing s) Q w.
Proof. intros Hsp Hg HQ. unfold is_done_growing. wp_steps. done. Qed.

(** The rest of the routine, from the first scan: nobody modifies the space
    meanwhile, so that one scan is enough. *)
Section rescan.
Context (s target its oits size : Z) (w : world) (sp : ipc_space) (l : list Z).
Context (tbl : list ipc_entry) (l2 : list Z).
Let osize := is_table_size sp.
Context (Hsp : w_space w !! s = Some sp) (Hlk : LSpace s ∉ w_locks w).
Context (Ha : is_active sp = true) (Hg : is_growing sp = true) (W : space_wf sp l).
Context (Hlow : is_low_mod sp = osize).
Context (Hits : (is_table_next sp =? its) || negb (target =? ITS_SIZE_NONE) = true).
Context (Hsize : osize < size < 2 ^ 24) (Htbl : alen tbl = size).
Context (Hl2 : l2 ≡ₚ seqZ (osize + 1) (size - osize - 1)) (Hch2 : fl_chain tbl osize l2).
Context (Hfree : forall j, osize <= j < size -> exists n, aget tbl j = Some (free_entry n)).

Lemma wp_grow_rescan (Q : Z -> world -> Prop) :
  (forall w' t, grown (is_table sp) t l osize ->
     space_wf (grown_space sp t its size) (l ++ osize :: l2) ->
     only_space s (clear_growing (grown_space sp t its size)) ({[LSpace s]} ∪ w_locks w) w w' ->
     Q KERN_SUCCESS w') ->
  wp (grow_rescan 2 s osize size oits its (its + 1) target (grow_table0 osize size tbl)
        0 (osize - 1)) Q w.
Proof.
  intros HQ. pose proof (sw_size _ _ W). pose proof (sw_free_bound _ _ W).
  destruct (grow_scan_ok sp l tbl size l2) as (t & f & Hscan & Hf & Hfn & Hfo & C & Hc1 & Hc2);
    try done.
  wstart w. cbn [grow_rescan]. wp_steps. rewrite Ha. cbn [negb].
  rewrite Hlow, Z.ltb_irrefl. wp_steps; [by rewrite Hfn, Hfo|by apply Z.eqb_refl|].
  eapply wp_done_growing; [wlook|done|]. wp_steps.
  apply (HQ _ (aset t (List.last (0 :: l) 0) (set_ie_next osize f))).
  - by apply (grown_ok sp l tbl size).
  - apply (grown_wf sp l tbl size l2); done.
  - split; simpl; try done.
    + rewrite insert_insert_eq. unfold grown_space. unfold osize in *.
      by rewrite (u32_id (size - _)), u32_id by lia.
    + apply relock. set_solver.
Qed.
End rescan.

Section grow.
Context (s target its size nsize : Z) (w : world) (sp : ipc_space) (l : list Z).
Let sizes := e_table_entries (w_env w).
Context (Hsp : w_space w !! s = Some sp) (Hlk : LSpace s ∈ w_locks w).
Context (Ha : is_active sp = true) (Hng : is_growing sp = false) (W : space_wf sp l).
Context (Hcur : aget sizes (is_table_next sp - 1) = Some (is_table_size sp)).
Context (Hch : grow_choice sizes sp target its size).
Context (Hsz : is_table_size sp < size < 2 ^ 24).
Context (Hn : aget sizes (its + 1) = Some nsize) (Hns : size <= nsize).

Lemma wp_grow_table (Q : Z -> world -> Prop) :
  (forall w', only_space s (grow_marks sp) (w_locks w ∖ {[LSpace s]}) w w' ->
     Q KERN_RESOURCE_SHORTAGE w') ->
  (forall w' sp1 t l2, same_but_random (grow_marks sp) sp1 ->
     l2 ≡ₚ seqZ (is_table_size sp + 1) (size - is_table_size sp - 1) ->
     grown (is_table sp) t l (is_table_size sp) ->
     space_wf (grown_space sp1 t its size) (l ++ is_table_size sp :: l2) ->
     only_space s (grown_space sp1 t its size) (w_locks w) w w' ->
     Q KERN_SUCCESS w') ->
  wp (ipc_entry_grow_table s target) Q w.
Proof.
  intros Qfail Qok. unfold ipc_entry_grow_table.
  destruct Hch as (size0 & Hs0 & Hsel).
  assert (Hgo : negb (target =? ITS_SIZE_NONE) && (target <=? is_table_size sp) = false).
  { destruct Hsel as [(-> & _)|(Ht & Hlt & _)]; [done|]. apply andb_false_iff. right. lia. }
  wp_steps. rewrite Hng. wp_steps. rewrite Hgo. wp_steps.
  apply (wp_mono (fun '(i, ps, sz) w' => i = its /\ sz = size /\ w' = w /\
    negb (target =? ITS_SIZE_NONE) && (ps =? sz) = false)).
  { destruct Hsel as [(-> & -> & ->)|(Ht & Hlt & psize & Hf & Hps)]; [by wp_steps|].
    rewrite (proj2 (Z.eqb_neq _ _)) by done. wp_steps. do 3 (split; [done|]).
    by apply Z.eqb_neq. }
  intros [[i ps] sz] w' (-> & -> & -> & ->). rewrite (proj2 (Z.eqb_neq _ size)) by lia.
  wp_steps; [by lia|]. eapply wp_start_growing; [done..|].
  wstart w. wp_steps. destruct (_ =? 0).
  - wp_steps. eapply wp_done_growing; [wlook| |].
    { by apply (is_growing_growing sp). }
    wp_steps. apply Qfail. split; simpl; try done.
    + rewrite !insert_insert_eq. f_equal. unfold clear_growing. simpl.
      rewrite growing_clear; [by destruct sp|]. by apply Z.eqb_neq.
    + set_solver.
  - wp_steps. set (spg := set_is_high_mod 0 _).
    pose proof (sw_size _ _ W) as Hsz'.
    assert (Wg : space_wf spg l)
      by (apply (space_wf_marks (set_growing sp)); [simpl; lia|by apply space_wf_bits]).
    destruct (rand_freelist_ok spg (replicate (Z.to_nat size) ie_zero) (is_table_size sp) size)
      as (sp1 & tbl & l2 & Hr & (bg & pool & ->) & Hlen & Hl2 & Hc & _ & Hfr & _ & _);
      [lia|rewrite alen_replicate; lia|lia|]. rewrite alen_replicate in Hlen by lia.
    wp_steps. eapply (wp_grow_rescan s target its _ size _
      (set_is_entropy pool (set_is_bool_gen bg spg)) l tbl l2);
      [wlook|wlk|by rewrite <- Ha; apply (is_active_growing sp)|by apply (is_growing_growing sp)
      |by apply (space_wf_random spg); [eexists _, _|]|done|..]; try done.
    + destruct Hsel as [(_ & -> & _)|(Ht & _)]; [by rewrite Z.eqb_refl|].
      by rewrite (proj2 (Z.eqb_neq target _)), orb_true_r by done.
    + intros j Hj. apply Hfr; [done|]. pose proof (sw_size _ _ W). simpl in Hj. lia.
    + intros w' t Hgr Wt Hos.
      apply (Qok w' (set_is_entropy pool (set_is_bool_gen bg (grow_marks sp))) t l2);
        [by eexists _, _|done|done|by apply (space_wf_bits _ _ (is_bits sp)) in Wt|].
      destruct Hos. simpl in *. split; simpl; try done.
      * rewrite os_space0, !insert_insert_eq. f_equal. unfold clear_growing, grown_space. simpl.
        rewrite growing_clear; [done|]. by apply Z.eqb_neq.
      * rewrite os_locks0. by apply relock.
Qed.
End grow.

(** ** The space and the boot-time sizes *)

Record table_ok (sizes : list Z) (sp : ipc_space) : Prop := {
  to_sizes : table_entries_ok sizes = true;
  to_cur : aget sizes (is_table_next sp - 1) = Some (is_table_size sp);
  to_next : is_table_next sp < alen sizes
}.

(** The hash holds exactly the pure send rights. *)
Definition hash_exact (t : list ipc_entry) : Prop :=
  ih_wf t /\ forall i, ih_hashed t i <-> exists e, aget t i = Some e /\ entry_hashed e = true.

(** The entries off the free list [l] keep their object, bits and request. *)
Definition entries_kept (l : list Z) (t t' : list ipc_entry) : Prop :=
  forall j e, j ∉ 0 :: l -> aget t j = Some e ->
    exists e', aget t' j = Some e' /\ set_ie_hash 0 0 e' = set_ie_hash 0 0 e.

(** Every entry off the free list [l'] but those in [taken] was off the free
    list [l] before. *)
Definition free_kept (taken l : list Z) (t : list ipc_entry) (l' : list Z) (t' : list ipc_entry)
    : Prop :=
  forall j, j ∉ 0 :: l' -> 0 <= j < alen t' -> j ∈ taken \/ (j ∉ 0 :: l) /\ j < alen t.

(** Every entry off the free list has a type. *)
Definition entries_typed (sp : ipc_space) (l : list Z) : Prop :=
  forall i e, i ∉ 0 :: l -> aget (is_table sp) i = Some e ->
    IE_BITS_TYPE (ie_bits e) <> MACH_PORT_TYPE_NONE.

(** An active space between two operations. *)
Record space_ready (sizes : list Z) (sp : ipc_space) (l : list Z) : Prop := {
  sr_wf : space_wf sp l;
  sr_active : is_active sp = true;
  sr_growing : is_growing sp = false;
  sr_table : table_ok sizes sp;
  sr_hash : hash_exact (is_table sp)
}.

Lemma entries_kept_refl l t : entries_kept l t t.
Proof. intros j e _ He. by exists e. Qed.

Lemma free_kept_refl taken l t : free_kept taken l t l t.
Proof. intros j Hj Hr. right. split; [done|lia]. Qed.

Lemma free_kept_trans taken l t l1 t1 l2 t2 :
  free_kept [] l t l1 t1 -> free_kept taken l1 t1 l2 t2 -> free_kept taken l t l2 t2.
Proof.
  intros H H' j Hj Hr. destruct (H' j Hj Hr) as [|[Hj1 Hr1]]; [by left|].
  destruct (H j Hj1) as [?%not_elem_of_nil|]; [lia|done|]. by right.
Qed.

(** The next size: none, or a larger one with a successor. *)
Lemma table_next sizes sp :
  table_ok sizes sp -> exists size, aget sizes (is_table_next sp) = Some size /\
    (size = is_table_size sp \/
     is_table_size sp < size < 2 ^ 24 /\ is_table_next sp + 1 < alen sizes /\
     exists nsize, aget sizes (is_table_next sp + 1) = Some nsize /\ size <= nsize).
Proof.
  intros [Hok Hcur Hn]. apply aget_Some_range in Hcur as Hr.
  destruct (aget_lt_Some sizes (is_table_next sp)) as [size Hs]; [lia|]. exists size.
  split; [done|]. pose proof (table_entries_bound _ _ _ Hok Hs).
  destruct (table_entries_next sizes (is_table_next sp - 1) (is_table_size sp) size) as
    [[Hlt Hl]|[-> _]]; [done..|by replace (is_table_next sp - 1 + 1) with (is_table_next sp) by lia
    | |by left]. right. split; [lia|]. split; [lia|].
  destruct (aget_lt_Some sizes (is_table_next sp + 1)) as [nsize Hns]; [lia|]. exists nsize.
  split; [done|]. destruct (table_entries_next _ _ _ _ Hok Hs Hns); lia.
Qed.

Lemma grown_hash_exact t t' l k : grown t t' l k -> k = alen t -> hash_exact t'.
Proof.
  intros G ->. split; [apply G|]. intros i. rewrite (gr_hashed _ _ _ _ G). split.
  - intros (e & He & Hh). destruct (gr_old _ _ _ _ G i e He) as (e' & He' & Eo & Eb & _).
    exists e'. split; [done|]. unfold entry_hashed in *. by rewrite Eo, Eb.
  - intros (e' & He' & Hh). destruct (decide (0 <= i < alen t)) as [Hi|Hi].
    + destruct (aget_lt_Some t i Hi) as [e He]. exists e. split; [done|].
      destruct (gr_old _ _ _ _ G i e He) as (e1 & He1 & Eo & Eb & _). simplify_eq.
      unfold entry_hashed in *. by rewrite <- Eo, <- Eb.
    + apply aget_Some_range in He' as Hr. destruct (gr_new _ _ _ _ G i) as (e1 & He1 & Eo & _);
        [lia|]. simplify_eq. unfold entry_hashed in Hh. by rewrite Eo in Hh.
Qed.

Lemma grown_kept t t' l k : grown t t' l k -> entries_kept l t t'.
Proof.
  intros G j e Hj He. destruct (gr_old _ _ _ _ G j e He) as (e' & He' & Eo & Eb & En).
  exists e'. split; [done|]. apply strip_eq. rewrite decide_False in En; [done|].
  intros ->. pose proof (last_elem_of 0 l). done.
Qed.

Lemma marks_ready sizes sp l : space_ready sizes sp l -> space_ready sizes (grow_marks sp) l.
Proof.
  intros [W Ha Hng [] Hh]. split; try done. apply space_wf_marks; [|done]. pose proof (sw_size _ _ W).
  lia.
Qed.

Lemma grown_ready sizes sp l (R : space_ready sizes sp l) its size sp1 t l2 :
  aget sizes its = Some size -> its + 1 < alen sizes -> same_but_random (grow_marks sp) sp1 ->
  l2 ≡ₚ seqZ (is_table_size sp + 1) (size - is_table_size sp - 1) ->
  grown (is_table sp) t l (is_table_size sp) ->
  space_wf (grown_space sp1 t its size) (l ++ is_table_size sp :: l2) ->
  let sp' := grown_space sp1 t its size in
  space_ready sizes sp' (l ++ is_table_size sp :: l2) /\
  (forall j, j ∈ is_table_size sp :: l2 -> is_table_size sp <= j) /\
  entries_kept l (is_table sp) (is_table sp') /\
  free_kept [] l (is_table sp) (l ++ is_table_size sp :: l2) (is_table sp') /\
  is_table_next sp' = its + 1.
Proof.
  intros Hs Hl (bg & pool & ->) Hl2 Hgr Wg. destruct R as [W Ha Hng T Hh]. split_and!; try done.
  - split; try done.
    + destruct T. split; simpl; [done|by replace (its + 1 - 1) with its by lia|lia].
    + eapply grown_hash_exact; [done|]. by rewrite (sw_len _ _ W).
  - intros j. rewrite elem_of_cons, Hl2, elem_of_seqZ. lia.
  - by eapply grown_kept.
  - intros j Hj Hr. right. rewrite (sw_len _ _ Wg) in Hr. simpl in Hr. rewrite (sw_len _ _ W).
    rewrite not_elem_of_cons, not_elem_of_app, not_elem_of_cons, Hl2, elem_of_seqZ in Hj.
    rewrite not_elem_of_cons. split; [tauto|lia].
Qed.

(** ** Growing by one size *)

Section grow_one.
Context (s : Z) (w : world) (sp : ipc_space) (l : list Z).
Let sizes := e_table_entries (w_env w).
Context (Hsp : w_space w !! s = Some sp) (Hlk : LSpace s ∈ w_locks w).
Context (R : space_ready sizes sp l).

Lemma wp_grow_one (Q : Z -> world -> Prop) :
  (forall kr w' sp', kr = KERN_NO_SPACE \/ kr = KERN_RESOURCE_SHORTAGE ->
     space_ready sizes sp' l -> is_table sp' = is_table sp ->
     only_space s sp' (w_locks w ∖ {[LSpace s]}) w w' -> Q kr w') ->
  (forall w' sp' l2, space_ready sizes sp' (l ++ is_table_size sp :: l2) ->
     (forall j, j ∈ is_table_size sp :: l2 -> is_table_size sp <= j) ->
     entries_kept l (is_table sp) (is_table sp') ->
     free_kept [] l (is_table sp) (l ++ is_table_size sp :: l2) (is_table sp') ->
     is_table_next sp' = is_table_next sp + 1 ->
     only_space s sp' (w_locks w) w w' -> Q KERN_SUCCESS w') ->
  wp (ipc_entry_grow_table s ITS_SIZE_NONE) Q w.
Proof.
  intros Qfail Qok. destruct R as [W Ha Hng T Hh]. pose proof (sw_size _ _ W) as Hsz.
  destruct (table_next _ _ T) as (size & Hs & [->|(Hlt & Hnl & nsize & Hns & Hle)]).
  - destruct T as [Hok Hcur Hn]. unfold ipc_entry_grow_table. wp_steps. rewrite Hng. wp_steps.
    rewrite !Z.eqb_refl. wp_steps. rewrite !Z.eqb_refl. wp_steps. apply (Qfail _ _ sp); [by left|done|done|].
    destruct w. simpl in *. split; simpl; try done. by rewrite insert_id.
  - eapply (wp_grow_table s ITS_SIZE_NONE (is_table_next sp) size nsize w sp l); try done.
    + apply T.
    + exists size. split; [done|]. by left.
    + intros w' Hos. apply (Qfail _ _ (grow_marks sp)); [by right| |done|done].
      by apply marks_ready.
    + intros w' sp1 t l2 Hrnd Hl2 Hgr Wg Hos.
      destruct (grown_ready sizes sp l R (is_table_next sp) size sp1 t l2) as (R' & Hnew & Hk & Hf & Hn);
        try done. by eapply Qok.
Qed.
End grow_one.

(** ** Updates that keep the hash exact *)

Lemma hash_exact_aset t i e e' :
  hash_exact t -> aget t i = Some e ->
  ie_index e' = ie_index e -> ie_dist e' = ie_dist e -> entry_hashed e' = entry_hashed e ->
  (entry_hashed e = true -> ie_object e' = ie_object e) -> hash_exact (aset t i e').
Proof.
  intros [W H] He Hx Hd Hh Ho. apply aget_Some_range in He as Hr. split.
  - apply (ih_upd_wf t i e e'); [done..|]. intros (e1 & He1 & Hh1)%H. simplify_eq. auto.
  - intros j. rewrite (ih_upd_hashed t i e e'), H by done.
    destruct (decide (i = j)) as [<-|]; [|by rewrite aget_aset_ne].
    rewrite aget_aset_eq by done. naive_solver.
Qed.

Lemma entry_hashed_null e : ie_object e = IO_NULL -> entry_hashed e = false.
Proof. intros Ho. unfold entry_hashed. by rewrite Ho. Qed.

Section claimed.
Context (sp : ipc_space) (i : Z) (l : list Z) (h e : ipc_entry) (gen : Z).
Context (W : space_wf sp (i :: l)).
Context (Hh : aget (is_table sp) 0 = Some h) (He : aget (is_table sp) i = Some e).
Let t' := claimed_table (is_table sp) h e i (hd 0 l) gen.

Lemma claimed_get j :
  aget t' j = if decide (j = i) then Some (set_ie_request IE_REQ_NONE (set_ie_bits gen e))
    else if decide (j = 0) then Some (set_ie_next (hd 0 l) h) else aget (is_table sp) j.
Proof.
  apply aget_Some_range in Hh as Hr0, He as Hri. unfold t', claimed_table.
  case_decide as E; [subst; by rewrite aget_aset_eq by (by rewrite alen_aset)|].
  rewrite aget_aset_ne by done. case_decide as E0; [subst; by rewrite aget_aset_eq|].
  by rewrite aget_aset_ne.
Qed.

Lemma claimed_hash_exact : hash_exact (is_table sp) -> hash_exact t'.
Proof.
  intros H. pose proof (sw_range _ _ W i ltac:(set_solver)) as Hi.
  destruct (sw_head _ _ W) as (h' & Hh' & Hho & _). simplify_eq.
  destruct (sw_free _ _ W i e ltac:(set_solver) He) as [Ho _].
  apply (hash_exact_aset _ i e); [|by rewrite aget_aset_ne by lia|done|done| |].
  - by apply (hash_exact_aset _ 0 h).
  - by rewrite !entry_hashed_null.
  - by rewrite entry_hashed_null.
Qed.

Lemma claimed_kept : entries_kept (i :: l) (is_table sp) t'.
Proof.
  intros j x Hj Hx. exists x. rewrite claimed_get, !decide_False by set_solver. done.
Qed.
End claimed.

(** ** ipc_entry_alloc *)

Lemma only_space_id s sp w : w_space w !! s = Some sp -> only_space s sp (w_locks w) w w.
Proof. intros Hs. split; try done. by rewrite insert_id. Qed.

Lemma only_space_trans s sp1 sp2 ls1 ls2 w1 w2 w3 :
  only_space s sp1 ls1 w1 w2 -> only_space s sp2 ls2 w2 w3 -> only_space s sp2 ls2 w1 w3.
Proof.
  intros [] []. split; try congruence.
  by rewrite os_space1, os_space0, insert_insert_eq.
Qed.

Lemma only_space_lookup s sp ls w w' : only_space s sp ls w w' -> w_space w' !! s = Some sp.
Proof. intros []. rewrite os_space0. apply lookup_insert_eq. Qed.

(** A fresh entry: no object, no request, no type. *)
Definition entry_fresh (sp : ipc_space) (l : list Z) (name i : Z) : Prop :=
  (i ∉ 0 :: l) /\ exists e, aget (is_table sp) i = Some e /\ ie_object e = IO_NULL /\
    ie_request e = IE_REQ_NONE /\ gen_ok (ie_bits e) /\ name = entry_name i (ie_bits e).

(** What allocation in space [sp] with free list [l] gives. *)
Definition alloc_post (s : Z) (sp : ipc_space) (l : list Z) (w : world)
    (r : Z + (Z * Z)) (w' : world) : Prop :=
  let sizes := e_table_entries (w_env w) in
  exists sp' l', space_ready sizes sp' l' /\ entries_kept l (is_table sp) (is_table sp') /\
  (match r with
  | inl kr => (kr = KERN_NO_SPACE \/ kr = KERN_RESOURCE_SHORTAGE) /\
      free_kept [] l (is_table sp) l' (is_table sp') /\
      only_space s sp' (w_locks w ∖ {[LSpace s]}) w w'
  | inr (name, i) => (i ∈ l \/ is_table_size sp <= i) /\ entry_fresh sp' l' name i /\
      free_kept [i] l (is_table sp) l' (is_table sp') /\
      only_space s sp' (w_locks w) w w'
  end).

Lemma entries_kept_trans l l2 t t1 t2 :
  (forall j, j ∈ l2 -> alen t <= j) -> entries_kept l t t1 -> entries_kept (l ++ l2) t1 t2 ->
  entries_kept l t t2.
Proof.
  intros Hl2 Hk Hk' j e Hj He. destruct (Hk j e Hj He) as (e1 & He1 & E1).
  apply aget_Some_range in He as Hr.
  destruct (Hk' j e1) as (e2 & He2 & E2); [|done|exists e2; split; [done|congruence]].
  rewrite app_comm_cons, elem_of_app. intros [?|Hj2]; [done|]. apply Hl2 in Hj2. lia.
Qed.

(** Allocation after a growth. *)
Lemma alloc_post_grown s sp l w sp1 l2 w1 r w' :
  space_wf sp l -> (forall j, j ∈ l2 -> is_table_size sp <= j) ->
  is_table_size sp <= is_table_size sp1 ->
  entries_kept l (is_table sp) (is_table sp1) ->
  free_kept [] l (is_table sp) (l ++ l2) (is_table sp1) -> only_space s sp1 (w_locks w) w w1 ->
  alloc_post s sp1 (l ++ l2) w1 r w' -> alloc_post s sp l w r w'.
Proof.
  intros W Hl2 Hsz Hk Hfk Hos (sp' & l' & R & Hk' & H). pose proof Hos as [].
  rewrite os_env0 in R. exists sp', l'. split; [done|]. split.
  - eapply entries_kept_trans; [|done|done]. by rewrite (sw_len _ _ W).
  - destruct r as [kr|[name i]].
    + destruct H as (Hkr & Hf' & H). split; [done|]. split; [by eapply free_kept_trans|].
      rewrite <- os_locks0. by eapply only_space_trans.
    + destruct H as (Hi & Hf & Hf' & H). split; [|split; [done|split; [by eapply free_kept_trans|]]].
      * destruct Hi as [[?|?]%elem_of_app|]; [by left|right; auto|right; lia].
      * rewrite <- os_locks0. by eapply only_space_trans.
Qed.

Lemma set_w_space_id w : set_w_space (w_space w) w = w.
Proof. by destruct w. Qed.

Section alloc.
Context (s : Z).

(** The table has room: the first free entry is taken. *)
Lemma get_ready sizes sp i l :
  space_ready sizes sp (i :: l) -> hash_room sp 1 = true ->
  exists name sp', ipc_entry_get sp = Some (inr (name, i), sp') /\
    space_ready sizes sp' l /\ entry_fresh sp' l name i /\
    entries_kept (i :: l) (is_table sp) (is_table sp') /\
    free_kept [i] (i :: l) (is_table sp) l (is_table sp').
Proof.
  intros [W Ha Hng T Hx] Hr.
  destruct (claim_ok sp i l W) as (h & e & gen & sp' & Hh & He & Hcl & (bg & pool & ->) & W'
    & Ho & Hg & _).
  eexists _, _. rewrite (get_claim sp i l), Hcl by done. split; [done|]. split_and!.
  - split; [done|done|done|by destruct T|by apply claimed_hash_exact].
  - split.
    + pose proof (sw_nodup _ _ W) as Hnd. rewrite !NoDup_cons in Hnd. set_solver.
    + eexists. simpl. rewrite claimed_get, decide_True by done. split; [done|]. done.
  - by apply claimed_kept.
  - intros j Hj Hrange. simpl in Hrange. unfold claimed_table in Hrange. rewrite !alen_aset in Hrange.
    destruct (decide (j = i)) as [->|]; [left; set_solver|]. right. split; [set_solver|lia].
Qed.

Lemma wp_alloc_loop fuel w sp l :
  w_space w !! s = Some sp -> LSpace s ∈ w_locks w ->
  space_ready (e_table_entries (w_env w)) sp l ->
  alen (e_table_entries (w_env w)) - is_table_next sp < Z.of_nat fuel ->
  wp (ipc_entry_alloc_loop fuel s) (alloc_post s sp l w) w.
Proof.
  revert w sp l. induction fuel as [|fuel IH]; intros w sp l Hsp Hlk R Hf.
  { destruct R as [_ _ _ [_ _ ?] _]. lia. }
  cbn [ipc_entry_alloc_loop]. wp_step. eapply wp_space; [done|].
  rewrite (sr_active _ _ _ R). simpl. wp_step.
  destruct (hash_room sp 1 && (1 <=? alen l)) eqn:Hroom.
  - apply andb_true_iff in Hroom as [Hr Hl]. destruct l as [|i l]; [done|].
    destruct (get_ready _ sp i l R Hr) as (name & sp' & Hg & R' & Hfr & Hk & Hfk).
    eapply wp_on_space; [done..|]. apply wp_ret. exists sp', l. split; [done|].
    split; [done|]. split; [left; set_solver|]. split; [done|]. split; [done|]. by split.
  - eapply wp_on_space; [done|by apply (get_full sp l); [apply R|apply R|]|].
    rewrite insert_id, set_w_space_id by done. wp_step.
    apply (wp_grow_one s w sp l); [done..| |].
    + intros kr w' sp' Hkr R' Et Hos. replace (kr =? KERN_SUCCESS) with false
        by (by destruct Hkr as [-> | ->]). apply wp_ret. exists sp', l. split; [done|].
      rewrite Et. split; [apply entries_kept_refl|]. split; [done|]. split; [apply free_kept_refl|done].
    + intros w' sp' l2 R' Hl2 Hk Hfk Hn Hos. change (negb _) with false. cbv iota.
      pose proof Hos as []. eapply wp_mono.
      * apply (IH w' sp' (l ++ is_table_size sp :: l2));
          [by eapply only_space_lookup|by rewrite os_locks0|by rewrite os_env0|].
        rewrite os_env0, Hn. lia.
      * intros r w2. eapply alloc_post_grown; [apply R|done| |done|done|done].
        destruct R' as [W' _ _ _ _]. pose proof (sw_range _ _ W' (is_table_size sp)
          ltac:(set_solver)). lia.
Qed.
End alloc.

(** ** A new space *)

Section create.
Context (sizes : list Z) (initial size : Z).
Context (Hok : table_entries_ok sizes = true) (Hn : initial + 1 < alen sizes).
Context (Hs : aget sizes initial = Some size).

(** The space that [ipc_space_create] sets up around the table [t]. *)
Definition new_space (label : Z) (bg : bool_gen) (pool : Z) (t : list ipc_entry) : ipc_space :=
  mkSpace 2 size 0 (size - 1) t (initial + 1) TASK_NULL label size 0 bg pool HOST_LOCAL_NODE.

Lemma new_space_ready label bg pool t l :
  alen t = size -> l ≡ₚ seqZ 1 (size - 1) -> fl_chain t 0 l ->
  (forall j, 0 <= j < size -> j <> 0 -> exists n, aget t j = Some (free_entry n)) ->
  (exists n, aget t 0 = Some (mkEntry IO_NULL 0 0 0 n)) ->
  space_ready sizes (new_space label bg pool t) l.
Proof.
  intros Hlen Hl Hc Hfr [n0 H0]. pose proof (table_entries_bound _ _ _ Hok Hs) as Hb.
  assert (Hel : forall j, j ∈ l <-> 1 <= j < size) by (intros j; rewrite Hl, elem_of_seqZ; lia).
  assert (Hun : forall j e, aget t j = Some e -> ie_index e = 0 /\ ie_object e = IO_NULL).
  { intros j e He. apply aget_Some_range in He as Hr. rewrite Hlen in Hr.
    destruct (decide (j = 0)) as [->|Hj]; [by simplify_eq|].
    destruct (Hfr j Hr Hj) as [n Hj']. by simplify_eq. }
  assert (Hx : forall h, ih_index t h = 0).
  { intros h. unfold ih_index. destruct (aget t h) eqn:E; [|done]. by apply Hun in E as [-> _]. }
  split; [split|done|done|split|split]; simpl; try done; try lia.
  - rewrite NoDup_cons, Hl, elem_of_seqZ. split; [lia|]. apply NoDup_seqZ.
  - unfold alen. rewrite Hl, length_seqZ. lia.
  - eexists. split; [exact H0|done].
  - intros i e Hi He. apply Hel in Hi. destruct (Hfr i) as [n Hn']; [lia..|]. simplify_eq.
    split; [done|]. apply gen_ok_fresh.
  - intros i e Hi He. apply aget_Some_range in He as Hr. rewrite elem_of_cons, Hel in Hi. lia.
  - by replace (initial + 1 - 1) with initial by lia.
  - apply ih_wf_unhashed; [lia|done].
  - intros i. split.
    + intros (Hi & h & _ & Hh). rewrite Hx in Hh. congruence.
    + intros (e & He & Hh). apply Hun in He as [_ Ho]. by rewrite entry_hashed_null in Hh.
Qed.
End create.

(** What [ipc_space_create] gives. *)
Definition create_post (initial : Z) (w : world) (r : Z + Z) (w' : world) : Prop :=
  let sizes := e_table_entries (w_env w) in
  w_io w' = w_io w /\ w_port w' = w_port w /\ w_locks w' = w_locks w /\ w_env w' = w_env w /\
  (match r with
   | inl kr => kr = KERN_RESOURCE_SHORTAGE /\ w_space w' = w_space w
   | inr s => s <> 0 /\ s = e_ext (w_env w) (w_trace w) "zalloc" [2] /\ exists sp l, w_space w' = <[s := sp]> (w_space w) /\
       space_ready sizes sp l /\ aget sizes initial = Some (is_table_size sp) /\
       l ≡ₚ seqZ 1 (is_table_size sp - 1)
   end).

Lemma wp_space_create initial label w :
  table_entries_ok (e_table_entries (w_env w)) = true ->
  0 <= initial -> initial + 1 < alen (e_table_entries (w_env w)) ->
  wp (ipc_space_create initial label) (create_post initial w) w.
Proof.
  intros Hok H0 Hn. destruct (aget_lt_Some (e_table_entries (w_env w)) initial) as [size Hs];
    [lia|]. pose proof (table_entries_bound _ _ _ Hok Hs) as Hb.
  wstart w. unfold ipc_space_create. wp_steps. destruct (Z.eqb_spec (e_ext wenv wtrace "zalloc" [2]) 0).
  { wp_steps. by split_and!. }
  wp_steps. case_match. { wp_steps. by split_and!. }
  wp_steps. match goal with |- context [ipc_space_rand_freelist ?sp ?t _ _] =>
    destruct (rand_freelist_ok sp t 0 size) as (sp1 & tbl & l2 & Hr & (bg & pool & ->) & Hlen & Hl2
      & Hc & _ & Hfr & _ & Hz) end; [lia|rewrite alen_replicate; lia|lia|].
  rewrite alen_replicate in Hlen by lia. replace (size - 0 - 1) with (size - 1) in Hl2 by lia.
  wp_steps. split_and!; try done. eexists _, l2. split; [done|]. split; [|done].
  apply (new_space_ready wenv.(e_table_entries) initial size Hok Hn Hs label bg pool tbl l2); auto.
Qed.

Lemma wp_entry_alloc (s : Z) (w : world) (sp : ipc_space) (l : list Z) :
  w_space w !! s = Some sp -> LSpace s ∉ w_locks w ->
  space_ready (e_table_entries (w_env w)) sp l ->
  wp (ipc_entry_alloc s)
    (alloc_post s sp l (set_w_locks ({[LSpace s]} ∪ w_locks w) w)) w.
Proof.
  intros Hsp Hlk R. unfold ipc_entry_alloc. do 2 wp_step.
  apply wp_lock; [done|]. do 2 wp_step. cbv beta. apply wp_alloc_loop; [done|set_solver|done|].
  destruct R as [_ _ _ [_ Hc _] _]. apply aget_Some_range in Hc. simpl. unfold alen in *. lia.
Qed.

(** The table sizes of the configuration with 64 steps and 4K pages. *)
Definition example_tables : list Z * list Z :=
  Eval vm_compute in default ([], []) (ipc_table_init 64 {| IPC_TABLE_ENTRIES_SIZE := 64; config_page := 4096 |}).

(** A machine of that configuration on which every allocation succeeds, and the
    calls of the virtual memory that return no address; the
    space [example_s] is created in it. *)
Definition example_env : kenv :=
  mkEnv (fun _ fn _ => if bool_decide (fn = "vm_map_unwire" \/ fn = "vm_map_copyin") then 0 else 0x9000)
    example_tables.1 example_tables.2 1 2 1 0 0 0.
Definition example_boot : world := mkWorld ∅ ∅ ∅ ∅ [] 0 0 example_env.
Definition example_s : Z := 0x9000.

Lemma example_created :
  exists w sp l, ipc_space_create 0 0 example_boot = Ret (inr example_s) w /\
    w_space w !! example_s = Some sp /\ w_locks w = ∅ /\ w_env w = example_env /\
    space_ready (e_table_entries example_env) sp l /\ entries_typed sp l.
Proof.
  destruct (wp_run _ _ _ (wp_space_create 0 0 example_boot eq_refl ltac:(lia) eq_refl))
    as (r & w & Hrun & _ & _ & Hl & He & H).
  assert (Hr : r = inr example_s).
  { apply (f_equal (fun o => match o with Ret r _ => r | _ => inl 0 end)) in Hrun.
    rewrite <- Hrun. vm_compute. reflexivity. }
  subst r. destruct H as (_ & _ & sp & l & Hs & R & _ & Hp). exists w, sp, l.
  split; [exact Hrun|]. clear Hrun. rewrite Hs. split; [apply lookup_insert_eq|].
  split; [exact Hl|]. split; [exact He|]. split; [exact R|].
  intros i e Hi Hx. apply aget_Some_range in Hx. destruct R as [W _ _ _ _].
  rewrite (sw_len _ _ W) in Hx. rewrite elem_of_cons, Hp, elem_of_seqZ in Hi. lia.
Qed.

(** ** The contract of space creation and allocation *)

(** C20. [ipc_space_create] returns; when it gives a space, the space is active, its
    table has the chosen size, every entry but the first is free and on the
    free list, the hash is empty, and nothing else of the world has changed.
    So creation establishes the invariant that the operations on entries keep. *)
Theorem space_create_ready (initial label : Z) (w : world) :
  table_entries_ok (e_table_entries (w_env w)) = true ->
  0 <= initial -> initial + 1 < alen (e_table_entries (w_env w)) ->
  wp (ipc_space_create initial label) (create_post initial w) w.
Proof. apply wp_space_create. Qed.

Lemma space_create_ready_witness : wp (ipc_space_create 0 0) (create_post 0 example_boot) example_boot.
Proof.
  apply (space_create_ready 0 0 example_boot); [reflexivity|lia|reflexivity].
Defined.

(** C18. [ipc_entry_alloc] on an unlocked active space returns, however often it has
    to grow the table.  Either it fails for want of space or memory and leaves the
    space unlocked, or it leaves the space locked and gives a name whose entry was
    not in use before and is now off the free list, with no object, no request
    and no type.  In both cases the space is well-formed, its hash is exact, every
    entry in use keeps its object, bits and request, no other entry leaves the
    free list, and nothing else of the world has changed. *)
Theorem entry_alloc_ok (s : Z) (w : world) (sp : ipc_space) (l : list Z) :
  w_space w !! s = Some sp -> LSpace s ∉ w_locks w ->
  space_ready (e_table_entries (w_env w)) sp l ->
  wp (ipc_entry_alloc s)
    (alloc_post s sp l (set_w_locks ({[LSpace s]} ∪ w_locks w) w)) w.
Proof. apply wp_entry_alloc. Qed.

Lemma entry_alloc_ok_witness :
  exists w sp l, ipc_space_create 0 0 example_boot = Ret (inr example_s) w /\
    wp (ipc_entry_alloc example_s)
      (alloc_post example_s sp l (set_w_locks ({[LSpace example_s]} ∪ w_locks w) w)) w.
Proof.
  destruct example_created as (w & sp & l & Hrun & Hsp & Hl & He & R & _).
  exists w, sp, l. split; [exact Hrun|]. apply (entry_alloc_ok example_s w sp l);
    [exact Hsp|rewrite Hl; apply not_elem_of_empty|rewrite He; exact R].
Defined.
