(* ===== verification/IpcAllocName.v ===== *)
(** * Allocating an entry with a given name (ipc/ipc_entry.c)

    [ipc_entry_alloc_name]: the search for a table size, the four cases of the
    entry at the name's index, and the one index at which the routine panics. *)

From S2P Require Import Prelude IpcTypes IpcBits IpcHash IpcTable KernelState Kernel IpcFreelist IpcSpaceInit IpcEntry IpcEntryInv IpcGrow IpcAlloc.

(** ** The search for a size *)

Section find_size.
Context (sizes : list Z) (target : Z) (Hok : table_entries_ok sizes = true).

(** The search ends at the first size that is large enough, or at the last one. *)
Lemma grow_find_size_ok fuel its psize size :
  aget sizes (its - 1) = Some psize -> aget sizes its = Some size -> psize < target ->
  alen sizes - its <= Z.of_nat fuel ->
  exists its' psize' size', grow_find_size fuel sizes target its psize size
      = Some (its', psize', size') /\
    its <= its' /\ psize <= psize' < target /\ aget sizes its' = Some size' /\
    ((psize' < size' /\ target <= size' /\ its' + 1 < alen sizes) \/
     (psize' = size' /\ size' = ipc_table_max_entries sizes)).
Proof.
  revert its psize size. induction fuel as [|fuel IH]; intros its psize size Hp Hs Hlt Hf;
    apply aget_Some_range in Hs as Hr, Hp as Hrp; [lia|]. cbn [grow_find_size].
  destruct (table_entries_next sizes (its - 1) psize size) as [[Hps Hl]|[-> Hl]]; [done..| | |].
  { by replace (its - 1 + 1) with its by lia. }
  - rewrite (proj2 (Z.eqb_neq psize size)) by lia. cbn [negb andb].
    destruct (Z.ltb_spec size target).
    + destruct (aget_lt_Some sizes (its + 1)) as [size' Hs']; [lia|]. rewrite Hs'. osimpl.
      destruct (IH (its + 1) size size') as (its' & ps & sz & -> & ? & ? & ? & ?);
        [by replace (its + 1 - 1) with its by lia|done|done|lia|].
      exists its', ps, sz. split; [done|]. split; [lia|]. split; [lia|]. done.
    + exists its, psize, size. split; [done|]. split; [lia|]. split; [lia|]. split; [done|].
      left. lia.
  - rewrite Z.eqb_refl. exists its, size, size. split; [done|]. split; [lia|]. split; [lia|].
    split; [done|]. right. split; [done|]. unfold ipc_table_max_entries.
    replace (alen sizes - 1) with its by lia. by rewrite Hs.
Qed.
End find_size.

(** ** The four cases *)

Lemma rip_ready sizes sp l i gen :
  space_ready sizes sp l -> i ∈ l -> gen_ok gen ->
  exists sp' l' e, ipc_entry_rip sp i gen = Some (tt, sp') /\ l ≡ₚ i :: l' /\
    space_ready sizes sp' l' /\ entries_kept l (is_table sp) (is_table sp') /\
    free_kept [i] l (is_table sp) l' (is_table sp') /\
    aget (is_table sp') i = Some e /\ ie_object e = IO_NULL /\ ie_request e = IE_REQ_NONE /\
    ie_bits e = gen.
Proof.
  intros [W Ha Hng T Hx] (l1 & l2 & ->)%list_elem_of_split Hg.
  pose proof (sw_range _ _ W i ltac:(set_solver)) as Hi.
  destruct (sw_get _ _ W i) as [e He]; [lia|]. set (p := List.last (0 :: l1) 0).
  assert (Hpl : p ∈ 0 :: l1) by apply last_elem_of.
  destruct (sw_get _ _ W p) as [f Hf].
  { destruct (decide (p = 0)); [pose proof (sw_size _ _ W); lia|].
    pose proof (sw_range _ _ W p ltac:(set_solver)). lia. }
  destruct (sw_free _ _ W i e ltac:(set_solver) He) as [Ho _].
  assert (Hpi : p <> i) by by eapply rip_pred_ne.
  eexists (ripped_space sp f e p i gen), (l1 ++ l2), _. split; [by eapply rip_ok|].
  split; [by rewrite Permutation_middle|]. split; [split; [by eapply ripped_wf|done|done|by destruct T|]|].
  - simpl. apply (hash_exact_aset _ i e); [|by rewrite aget_aset_ne by done|done|done| |].
    + by apply (hash_exact_aset _ p f).
    + by rewrite !entry_hashed_null.
    + by rewrite entry_hashed_null.
  - simpl. rewrite aget_aset_eq by (rewrite alen_aset, (sw_len _ _ W); lia).
    split; [|split; [|done]].
    + intros j x Hj Hjx. exists x. split; [|done].
      rewrite !aget_aset_ne; [done|..]; intros <-; set_solver.
    + intros j Hj Hr. rewrite !alen_aset in Hr. destruct (decide (j = i)); [left; set_solver|].
      right. split; [set_solver|lia].
Qed.

(** What [ipc_entry_alloc_name] gives for a name with index [i] and generation
    [gen]. *)
Definition alloc_name_post (s : Z) (sp : ipc_space) (l : list Z) (i gen : Z) (w : world)
    (r : Z + Z) (w' : world) : Prop :=
  exists sp' l', space_ready (e_table_entries (w_env w)) sp' l' /\
    entries_kept l (is_table sp) (is_table sp') /\
  (match r with
   | inl kr => only_space s sp' (w_locks w ∖ {[LSpace s]}) w w' /\
       free_kept [] l (is_table sp) l' (is_table sp') /\
       (kr = KERN_RESOURCE_SHORTAGE /\ is_table_size sp <= i \/ kr = KERN_FAILURE /\
         (i = 0 \/ exists e, aget (is_table sp) i = Some e /\
            IE_BITS_TYPE (ie_bits e) <> MACH_PORT_TYPE_NONE /\ IE_BITS_GEN (ie_bits e) <> gen))
   | inr j => only_space s sp' (w_locks w) w w' /\
       free_kept [i] l (is_table sp) l' (is_table sp') /\ j = i /\ (i ∉ 0 :: l') /\
       exists e, aget (is_table sp') i = Some e /\ IE_BITS_GEN (ie_bits e) = gen /\
         ((i ∉ l) /\ i < is_table_size sp \/
          (i ∈ l \/ is_table_size sp <= i) /\ ie_object e = IO_NULL /\
          ie_request e = IE_REQ_NONE /\ ie_bits e = gen)
   end).

(** The index is inside the table. *)
Lemma wp_alloc_name_hit fuel s w sp l i gen :
  w_space w !! s = Some sp -> LSpace s ∈ w_locks w ->
  space_ready (e_table_entries (w_env w)) sp l -> entries_typed sp l ->
  0 <= i < is_table_size sp -> gen_ok gen -> IE_BITS_GEN gen = gen ->
  wp (ipc_entry_alloc_name_loop (S fuel) s i gen) (alloc_name_post s sp l i gen w) w.
Proof.
  intros Hsp Hlk R Ty Hi Hg Hgg. pose proof R as [W Ha _ _ _].
  destruct (sw_get _ _ W i Hi) as [e He]. cbn [ipc_entry_alloc_name_loop].
  assert (Hfail : forall w', only_space s sp (w_locks w ∖ {[LSpace s]}) w w' ->
    (i = 0 \/ exists e, aget (is_table sp) i = Some e /\
            IE_BITS_TYPE (ie_bits e) <> MACH_PORT_TYPE_NONE /\ IE_BITS_GEN (ie_bits e) <> gen) ->
    alloc_name_post s sp l i gen w (inl KERN_FAILURE) w').
  { intros w' Hos Hc. exists sp, l. split; [done|]. split; [apply entries_kept_refl|].
    split; [done|]. split; [apply free_kept_refl|]. auto. }
  wstart w. wp_steps. rewrite Ha. wp_steps. rewrite (proj2 (Z.ltb_lt _ _)) by lia. wp_steps.
  destruct (Z.eqb_spec i 0) as [->|Hi0].
  { destruct (sw_head _ _ W) as (h & Hh & _ & Hb). simplify_eq. rewrite Hb. wp_steps.
    apply Hfail; [|by left]. split; try done. simpl. by rewrite insert_id. }
  destruct (Z.eqb_spec (IE_BITS_TYPE (ie_bits e)) 0) as [Ht|Ht]; wp_steps.
  - assert (Hil : i ∈ l) by (apply dec_stable; intros ?; apply (Ty i e); set_solver).
    destruct (rip_ready _ sp l i gen R Hil Hg) as (sp' & l' & e' & Hr & Hp & R' & Hk & Hfk & He' & ? & ? & ?).
    eapply wp_on_space; [wlook|exact Hr|]. apply wp_ret. exists sp', l'. split; [done|].
    split; [done|]. split; [by split|]. split; [done|]. split; [done|]. split.
    + pose proof (sw_nodup _ _ W) as Hnd. rewrite Hp, !NoDup_cons in Hnd. set_solver.
    + exists e'. split; [done|]. split; [congruence|]. right. auto.
  - destruct (Z.eqb_spec (IE_BITS_GEN (ie_bits e)) gen) as [Hge|Hge]; wp_steps.
    + assert (Hil : i ∉ l).
      { intros Hil. destruct (sw_free _ _ W i e Hil He) as [_ Hf]. apply Ht. by apply gen_ok_type. }
      exists sp, l. split; [done|]. split; [apply entries_kept_refl|].
      split; [by apply only_space_id|]. split; [apply free_kept_refl|]. split; [done|].
      split; [set_solver|].
      exists e. split; [done|]. split; [done|]. left. split; [done|lia].
    + apply Hfail; [|by right; exists e]. split; try done. simpl. by rewrite insert_id.
Qed.

(** ** The loop *)

Lemma kept_typed sp sp' l l2 :
  entries_typed sp l -> entries_kept l (is_table sp) (is_table sp') ->
  (forall j, j ∉ 0 :: l ++ l2 -> j < alen (is_table sp') -> j < alen (is_table sp)) ->
  entries_typed sp' (l ++ l2).
Proof.
  intros Ty Hk Hl j e' Hj He'. apply aget_Some_range in He' as Hr.
  destruct (aget_lt_Some (is_table sp) j) as [e He]; [specialize (Hl j Hj); lia|].
  assert (Hj' : j ∉ 0 :: l) by set_solver.
  destruct (Hk j e Hj' He) as (e1 & He1 & (_ & Eb & _)%strip_eq). simplify_eq.
  rewrite Eb. by apply (Ty j).
Qed.

Section loop.
Context (s : Z) (w : world) (sp : ipc_space) (l : list Z) (i gen : Z).
Let sizes := e_table_entries (w_env w).
Context (Hsp : w_space w !! s = Some sp) (Hlk : LSpace s ∈ w_locks w).
Context (R : space_ready sizes sp l) (Ty : entries_typed sp l).
Context (Hi : is_table_size sp <= i) (Hg : gen_ok gen) (Hgg : IE_BITS_GEN gen = gen).

(** The outcome after a growth that brings in the index. *)
Lemma alloc_name_post_grown sp1 l2 w1 r w' :
  (forall j, j ∈ l2 -> is_table_size sp <= j) -> i ∈ l2 -> space_wf sp1 (l ++ l2) ->
  entries_kept l (is_table sp) (is_table sp1) ->
  free_kept [] l (is_table sp) (l ++ l2) (is_table sp1) -> only_space s sp1 (w_locks w) w w1 ->
  alloc_name_post s sp1 (l ++ l2) i gen w1 r w' -> alloc_name_post s sp l i gen w r w'.
Proof.
  intros Hl2 Hil W1 Hk Hfk Hos (sp' & l' & R' & Hk' & H). pose proof R as [W _ _ _ _].
  pose proof (sw_size _ _ W). rewrite (os_env _ _ _ _ _ Hos) in R'.
  rewrite (os_locks _ _ _ _ _ Hos) in H. exists sp', l'. split; [done|]. split.
  { eapply entries_kept_trans; [|done|done]. by rewrite (sw_len _ _ W). }
  destruct r as [kr|j]; destruct H as (Hos' & Hfk' & H); (split; [by eapply only_space_trans|]);
    (split; [by eapply free_kept_trans|]).
  - destruct H as [[-> _]|(_ & [->|(e & He & Ht & _)])]; [by left|lia|].
    exfalso. apply Ht, gen_ok_type. apply (sw_free _ _ W1 i e); [set_solver|done].
  - destruct H as (-> & Hl' & e & He & Hge & H).
    split; [done|]. split; [done|]. exists e. split; [done|]. split; [done|].
    destruct H as [[Hnl _]|[_ H]]; [set_solver|]. auto.
Qed.

(** The index is outside the table and below the largest size. *)
Lemma wp_alloc_name_grow fuel :
  i < ipc_table_max_entries sizes ->
  wp (ipc_entry_alloc_name_loop (S (S fuel)) s i gen) (alloc_name_post s sp l i gen w) w.
Proof.
  intros Hmax. pose proof R as [W Ha Hng [Hok Hcur Hn] _]. pose proof (sw_size _ _ W) as Hsz.
  apply aget_Some_range in Hcur as Hrc.
  destruct (aget_lt_Some sizes (is_table_next sp)) as [size0 Hs0]; [lia|].
  destruct (grow_find_size_ok sizes (i + 1) Hok (length sizes) _ _ _ Hcur Hs0)
    as (its & psize & size & Hfind & Hle & Hps & Hs & Hcase); [lia|unfold alen in *; lia|].
  destruct Hcase as [(Hlt & Htgt & Hl)|[-> ->]]; [|lia].
  destruct (aget_lt_Some sizes (its + 1)) as [nsize Hns]; [lia|].
  pose proof (table_entries_bound _ _ _ Hok Hs) as Hb.
  cbn [ipc_entry_alloc_name_loop]. wp_step. eapply wp_space; [done|]. rewrite Ha. cbn [negb].
  rewrite (proj2 (Z.ltb_ge _ _)) by lia. wp_step.
  eapply (wp_grow_table s (i + 1) its size nsize w sp l); try done.
  - exists size0. split; [done|]. right. split; [unfold ITS_SIZE_NONE; lia|]. split; [lia|].
    exists psize. split; [done|lia].
  - lia.
  - destruct (table_entries_next _ _ _ _ Hok Hs Hns); lia.
  - intros w' Hos. apply wp_bind, wp_massert; [done|]. apply wp_ret. exists (grow_marks sp), l.
    split; [by apply marks_ready|]. split; [apply entries_kept_refl|]. split; [done|].
    split; [apply free_kept_refl|by left].
  - intros w' sp1 t l2 Hrnd Hl2 Hgr Wg Hos.
    destruct (grown_ready sizes sp l R its size sp1 t l2) as (R' & Hnew & Hk & Hfk & _); try done.
    apply wp_bind, wp_massert; [done|]. change (negb (KERN_SUCCESS =? KERN_SUCCESS)) with false. cbv beta iota.
    pose proof (os_locks _ _ _ _ _ Hos) as Hls. pose proof (os_env _ _ _ _ _ Hos) as Hen.
    eapply wp_mono.
    + apply (wp_alloc_name_hit _ _ w' (grown_space sp1 t its size) (l ++ is_table_size sp :: l2));
        [by eapply only_space_lookup|by rewrite Hls|by rewrite Hen| |simpl; lia|done..].
      eapply kept_typed; [done|done|]. intros j Hj. simpl.
      rewrite (sw_len _ _ Wg : alen t = size), (sw_len _ _ W).
      intros Hjs. apply Znot_ge_lt. intros Hge. apply Hj.
      rewrite !elem_of_cons, elem_of_app, elem_of_cons, Hl2, elem_of_seqZ. lia.
    + intros r w2. eapply alloc_name_post_grown; [done| |apply R'|done..].
      rewrite elem_of_cons, Hl2, elem_of_seqZ. lia.
Qed.

(** The index is the largest size: no table size holds it, and the assertion
    after the attempt to grow fails. *)
Lemma alloc_name_loop_max fuel :
  i = ipc_table_max_entries sizes ->
  ipc_entry_alloc_name_loop (S fuel) s i gen w = Panic "assert".
Proof.
  intros Hmax. pose proof R as [W Ha Hng [Hok Hcur Hn] _]. apply aget_Some_range in Hcur as Hrc.
  destruct (aget_lt_Some sizes (is_table_next sp)) as [size0 Hs0]; [lia|].
  destruct (grow_find_size_ok sizes (i + 1) Hok (length sizes) _ _ _ Hcur Hs0)
    as (its & psize & size & Hfind & Hle & Hps & Hs & Hcase); [lia|unfold alen in *; lia|].
  pose proof (table_entries_max _ _ _ Hok Hs). destruct Hcase as [|[-> Hsm]]; [lia|].
  pose proof (table_entries_bound _ _ _ Hok Hs).
  assert (Hgrow : wp (ipc_entry_grow_table s (i + 1)) (fun kr _ => kr = KERN_NO_SPACE) w).
  { unfold ipc_entry_grow_table. wp_steps. rewrite Hng. wp_steps.
    rewrite (proj2 (Z.eqb_neq (i + 1) _)) by (unfold ITS_SIZE_NONE; lia).
    rewrite (proj2 (Z.leb_gt (i + 1) _)) by lia. wp_steps. rewrite Z.eqb_refl. wp_steps. done. }
  apply wp_run in Hgrow as (kr & w1 & Hgr & ->). cbn [ipc_entry_alloc_name_loop].
  erewrite run_bind by (by apply run_space). rewrite Ha. cbn [negb].
  rewrite (proj2 (Z.ltb_ge _ _)) by lia. by erewrite run_bind by exact Hgr.
Qed.
End loop.

(** ** The contract *)

Section contract.
Context (s name : Z) (w : world) (sp : ipc_space) (l : list Z).
Let sizes := e_table_entries (w_env w).

Lemma alloc_name_start (Q : Z + Z -> world -> Prop) :
  MACH_PORT_INDEX name <= ipc_table_max_entries sizes -> MACH_PORT_VALID name = true ->
  LSpace s ∉ w_locks w ->
  wp (ipc_entry_alloc_name_loop (S (length sizes)) s (MACH_PORT_INDEX name) (MACH_PORT_GEN name))
    Q (set_w_locks ({[LSpace s]} ∪ w_locks w) w) ->
  wp (ipc_entry_alloc_name s name) Q w.
Proof.
  intros Hi Hv Hlk H. unfold ipc_entry_alloc_name. apply wp_bind, wp_env. fold sizes.
  rewrite (proj2 (Z.ltb_ge _ _)) by lia. apply wp_bind, wp_massert; [done|]. apply wp_bind.
  by apply wp_lock.
Qed.

Lemma wp_entry_alloc_name :
  w_space w !! s = Some sp -> LSpace s ∉ w_locks w ->
  space_ready sizes sp l -> entries_typed sp l ->
  0 <= name -> MACH_PORT_VALID name = true -> MACH_PORT_INDEX name <> ipc_table_max_entries sizes ->
  wp (ipc_entry_alloc_name s name) (fun r w' =>
    if ipc_table_max_entries sizes <? MACH_PORT_INDEX name then r = inl KERN_NO_SPACE /\ w' = w
    else alloc_name_post s sp l (MACH_PORT_INDEX name) (MACH_PORT_GEN name)
           (set_w_locks ({[LSpace s]} ∪ w_locks w) w) r w') w.
Proof.
  intros Hsp Hlk R Ty H0 Hv Hmax.
  destruct (Z.ltb_spec (ipc_table_max_entries sizes) (MACH_PORT_INDEX name)) as [Hlt|Hge].
  - unfold ipc_entry_alloc_name. apply wp_bind, wp_env. fold sizes.
    by rewrite (proj2 (Z.ltb_lt _ _)) by lia.
  - apply alloc_name_start; [done..|].
    assert (Hi : 0 <= MACH_PORT_INDEX name) by (rewrite MACH_PORT_INDEX_div; zlia).
    assert (Hl : (1 <= length sizes)%nat).
    { destruct R as [_ _ _ [_ Hc _] _]. apply aget_Some_range in Hc. unfold alen in *. lia. }
    destruct (decide (MACH_PORT_INDEX name < is_table_size sp)).
    + apply wp_alloc_name_hit; [done|set_solver|done|done|lia|apply gen_ok_name|apply IE_BITS_GEN_name].
    + destruct (length sizes) as [|k]; [lia|]. apply wp_alloc_name_grow;
        [done|set_solver|done|done|lia|apply gen_ok_name|apply IE_BITS_GEN_name|simpl; fold sizes; lia].
Qed.

(** C19. [ipc_entry_alloc_name] on an unlocked active space returns for every valid
    name but the ones whose index is the largest table size.  Beyond that size
    the answer is KERN_NO_SPACE, which the routine's comment does not list.
    Otherwise it fails, with the space unlocked, only with KERN_RESOURCE_SHORTAGE
    when the table must grow to hold the index, or with KERN_FAILURE for index 0
    or because the entry is in use under another generation; or it leaves the space locked and gives the entry at the
    name's index, with the name's generation, which was either in use under this
    name, or is taken off the free list and empty.  In every case the space is
    well-formed and its hash exact, the entries in use keep their contents, no
    other entry leaves the free list, and nothing else of the world has changed. *)
Theorem entry_alloc_name_ok :
  w_space w !! s = Some sp -> LSpace s ∉ w_locks w ->
  space_ready sizes sp l -> entries_typed sp l ->
  0 <= name -> MACH_PORT_VALID name = true -> MACH_PORT_INDEX name <> ipc_table_max_entries sizes ->
  wp (ipc_entry_alloc_name s name) (fun r w' =>
    if ipc_table_max_entries sizes <? MACH_PORT_INDEX name then r = inl KERN_NO_SPACE /\ w' = w
    else alloc_name_post s sp l (MACH_PORT_INDEX name) (MACH_PORT_GEN name)
           (set_w_locks ({[LSpace s]} ∪ w_locks w) w) r w') w.
Proof. apply wp_entry_alloc_name. Qed.

(** C26. At that one index the routine panics: for every valid name whose index is
    the largest table size, whatever the state of the space, the range check
    passes, no table size is large enough, and the assertion that growing does
    not fail with KERN_NO_SPACE is false. *)
Theorem entry_alloc_name_max_panics :
  w_space w !! s = Some sp -> LSpace s ∉ w_locks w -> space_ready sizes sp l ->
  MACH_PORT_VALID name = true -> MACH_PORT_INDEX name = ipc_table_max_entries sizes ->
  ipc_entry_alloc_name s name w = Panic "assert".
Proof.
  intros Hsp Hlk R Hv Hmax. unfold ipc_entry_alloc_name. erewrite run_bind by done.
  fold sizes. rewrite (proj2 (Z.ltb_ge _ _)) by lia. rewrite Hv. erewrite run_bind by done.
  erewrite run_bind by (by apply run_lock). eapply (alloc_name_loop_max s _ sp l); [done|set_solver|done| |done].
  destruct R as [W _ _ [Hok Hc _] _]. rewrite Hmax. by eapply table_entries_max.
Qed.
End contract.

(** Name 0x3c07 has index 60, beyond the first two table sizes. *)
Lemma entry_alloc_name_ok_witness :
  exists w sp l, ipc_space_create 0 0 example_boot = Ret (inr example_s) w /\
    wp (ipc_entry_alloc_name example_s 0x3c07) (fun r w' =>
      if ipc_table_max_entries (e_table_entries (w_env w)) <? MACH_PORT_INDEX 0x3c07
      then r = inl KERN_NO_SPACE /\ w' = w
      else alloc_name_post example_s sp l (MACH_PORT_INDEX 0x3c07) (MACH_PORT_GEN 0x3c07)
             (set_w_locks ({[LSpace example_s]} ∪ w_locks w) w) r w') w.
Proof.
  destruct example_created as (w & sp & l & Hrun & Hsp & Hl & He & R & Ty).
  exists w, sp, l. split; [exact Hrun|]. clear Hrun.
  apply (entry_alloc_name_ok example_s 0x3c07 w sp l);
    [exact Hsp|rewrite Hl; apply not_elem_of_empty|rewrite He; exact R|exact Ty|lia|reflexivity|].
  rewrite He. vm_compute. discriminate.
Defined.

(** Index 37205 is the largest table size of the configuration. *)
Lemma entry_alloc_name_max_panics_witness :
  exists w, ipc_space_create 0 0 example_boot = Ret (inr example_s) w /\
    ipc_entry_alloc_name example_s 0x915507 w = Panic "assert".
Proof.
  destruct example_created as (w & sp & l & Hrun & Hsp & Hl & He & R & Ty).
  exists w. split; [exact Hrun|]. clear Hrun.
  apply (entry_alloc_name_max_panics example_s 0x915507 w sp l);
    [exact Hsp|rewrite Hl; apply not_elem_of_empty|rewrite He; exact R|reflexivity|].
  rewrite He. reflexivity.
Defined.
