(* ===== verification/IpcPort.v ===== *)
(** * Objects and ports (ipc/ipc_object.h, ipc/ipc_port.c, ipc/ipc_notify.c, ipc/ipc_pset.c)

    References and locks of objects, notification requests, naked rights, and
    the life of a port from initialisation to destruction.

    Turnstiles, message queues, watchports, task importance and kernel objects
    are external calls, made in the order of the source. *)

From S2P Require Import Prelude IpcTypes IpcTable KernelState Kernel IpcFreelist IpcEntry.

Abbreviation IP_NULL := IO_NULL.
Abbreviation IP_DEAD := IO_DEAD.
Abbreviation IP_VALID := IO_VALID.
Abbreviation IIT_NULL := 0.

(** ** Notifications (ipc/ipc_notify.c)

    Each consumes a send-once right by sending a message to it. *)

Definition ipc_notify_port_deleted (p name : Z) : M unit :=
  call_ "mach_notify_port_deleted" [p; name].
Definition ipc_notify_send_possible (p name : Z) : M unit :=
  call_ "mach_notify_send_possible" [p; name].
Definition ipc_notify_port_destroyed (p right : Z) : M unit :=
  call_ "mach_notify_port_destroyed" [p; right].
Definition ipc_notify_no_senders (p mscount : Z) : M unit :=
  call_ "mach_notify_no_senders" [p; mscount].
Definition ipc_notify_send_once (p : Z) : M unit :=
  call_ "mach_notify_send_once" [p].
Definition ipc_notify_dead_name (p name : Z) : M unit :=
  call_ "mach_notify_dead_name" [p; name].

(** ** Locks and references of objects (ipc/ipc_object.h, ipc/ipc_object.c) *)

(** [zone_id_require] panics unless the element belongs to the zone. *)
Definition ipc_object_validate (o : Z) : M unit :=
  h ← io o;
  if negb (io_otype h =? IOT_PORT_SET) then port o;; mret tt else mret tt.
Definition io_lock (o : Z) : M unit := ipc_object_validate o;; lock (LObject o).
Definition io_unlock (o : Z) : M unit := unlock (LObject o).
Abbreviation ip_lock := io_lock.
Abbreviation ip_unlock := io_unlock.
Definition imq_lock (p : Z) : M unit := lock (LMqueue p).
Definition imq_unlock (p : Z) : M unit := unlock (LMqueue p).
Definition ipc_port_multiple_lock : M unit := lock LPortMultiple.
Definition ipc_port_multiple_unlock : M unit := unlock LPortMultiple.

Definition ip_active (p : Z) : M bool := h ← io p; mret (io_active h).
Definition require_ip_active (p : Z) : M unit :=
  a ← ip_active p; if (a : bool) then mret tt else panic "Using inactive port".

Definition io_reference (o : Z) : M unit :=
  h ← io o;
  if (io_references h =? 0) || (IO_MAX_REFERENCES <=? io_references h)
  then panic "reference count is invalid"
  else upd_io o (fun h => set_io_references (io_references h + 1) h).
Abbreviation ip_reference := io_reference.

(** ** Turnstile of a port *)

Definition IP_BIT_PREALLOC : Z := 0x00008000.
Definition IP_PREALLOC (h : ipc_object) : bool :=
  negb (Z.land (io_bits h) IP_BIT_PREALLOC =? 0).

Definition port_send_turnstile (p : Z) : M Z :=
  h ← io p; x ← port p;
  if IP_PREALLOC h then call "ikm_turnstile" [ip_premsg x] else mret (ip_send_turnstile x).

(** The port and its message queue are locked, and unlocked. *)
Definition ipc_port_send_turnstile_recompute_push_locked (p : Z) : M unit :=
  ts ← port_send_turnstile p;
  when (negb (ts =? 0))
    (call_ "turnstile_reference" [ts];; call_ "ipc_port_send_update_inheritor" [p; ts]);;
  imq_unlock p;; ip_unlock p;;
  when (negb (ts =? 0))
    (call_ "turnstile_update_inheritor_complete" [ts];;
     call_ "turnstile_deallocate_safe" [ts]).

Definition ipc_port_send_turnstile_complete (p : Z) : M unit :=
  imq_lock p;;
  ts ← port_send_turnstile p;
  left_ ← call "ts_port_ref_decrement" [ts];
  old ← (if left_ =? 0 then
           t ← call "turnstile_complete" [p]; massert (negb (t =? 0));; mret t
         else mret 0);
  imq_unlock p;;
  call_ "turnstile_cleanup" [];;
  when (negb (old =? 0)) (call_ "turnstile_deallocate_safe" [old]).

(** ** Freeing *)

Definition ipc_port_finalize (p : Z) : M unit :=
  x ← port p;
  ts ← port_send_turnstile p;
  massert (ts =? 0);;
  proxy ← callb "imq_is_turnstile_proxy" [p];
  when proxy (massert (waitq_ts x =? 0));;
  a ← ip_active p;
  if (a : bool) then panic "Trying to free an active port"
  else
    match ip_requests x with
    | Some t =>
        call_ "it_requests_free" [ipt_addr t];;
        upd_port p (set_ip_requests None)
    | None => mret tt
    end;;
    call_ "ipc_mqueue_deinit" [p].

Definition io_free (otype o : Z) : M unit :=
  when (otype =? IOT_PORT) (ipc_port_finalize o);;
  modify (fun w => set_w_port (delete o (w_port w)) (set_w_io (delete o (w_io w)) w)).

Definition io_release (o : Z) : M unit :=
  h ← io o;
  if (io_references h =? 0) || (IO_MAX_REFERENCES <=? io_references h)
  then panic "reference count is invalid"
  else
    upd_io o (fun h => set_io_references (io_references h - 1) h);;
    when (io_references h =? 1) (io_free (io_otype h) o).
Abbreviation ip_release := io_release.

(** ** ipc_pset_destroy (ipc/ipc_pset.c) *)

Definition ipc_pset_destroy (s pset : Z) : M unit :=
  a ← ip_active pset; massert a;;
  upd_io pset (fun h => set_io_bits (Z.land (io_bits h) (Z.lnot IO_BITS_ACTIVE)) h);;
  call_ "ipc_mqueue_remove_all" [pset];;
  imq_lock pset;;
  call_ "ipc_mqueue_changed" [s; pset];;
  imq_unlock pset;;
  call_ "ipc_mqueue_deinit" [pset];;
  io_unlock pset;;
  io_release pset.

(** ** Notification requests *)

Definition ipc_port_timestamp : M Z :=
  t ← gets w_timestamp;
  modify (fun w => set_w_timestamp (u32 (t + 1)) w);;
  mret t.

Definition upd_slot (i : Z) (f : ipc_port_request -> ipc_port_request) (t : ipr_table)
    : option ipr_table :=
  r ← aget (ipt_slots t) i;
  Some (mkRequests (ipt_addr t) (aset (ipt_slots t) i (f r))).
Definition set_ipr_notify (v : Z) (r : ipc_port_request) : ipc_port_request :=
  mkRequest v (ipr_name r).
Definition set_ipr_name (v : Z) (r : ipc_port_request) : ipc_port_request :=
  mkRequest (ipr_notify r) v.

(** Returns the index and whether the request needs a boost; [None] for
    [KERN_NO_SPACE]. *)
Definition ipc_port_request_alloc (p name soright : Z) (send_possible immediate : bool)
    : M (option (Z * bool)) :=
  require_ip_active p;;
  massert (negb (name =? MACH_PORT_NULL));;
  massert (negb (soright =? IP_NULL));;
  x ← port p;
  match ip_requests x with
  | None => mret None
  | Some table =>
      head ← deref (aget (ipt_slots table) 0) "bounds";
      let index := ipr_next head in
      if index =? 0 then mret None
      else
        ipr ← deref (aget (ipt_slots table) index) "bounds";
        massert (ipr_name ipr =? MACH_PORT_NULL);;
        important ←
          (if send_possible && immediate && negb (ip_sprequests x) then
             upd_port p (set_ip_sprequests true);;
             if ip_impdonation x && negb (ip_spimportant x) then
               ev ← env; callb "task_is_importance_donor" [e_current_task ev]
             else mret false
           else mret false);
        let mask :=
          if send_possible then
            Z.lor IPR_SOR_SPREQ_MASK (if immediate then IPR_SOR_SPARM_MASK else 0)
          else 0 in
        let slots := aset (ipt_slots table) 0 (set_ipr_notify (ipr_next ipr) head) in
        let slots := aset slots index (mkRequest (IPR_SOR_MAKE soright mask) name) in
        upd_port p (set_ip_requests (Some (mkRequests (ipt_addr table) slots)));;
        mret (Some (index, important))
  end.

(** The new slots [i], ..., [i + n - 1], chained in front of [free]. *)
Fixpoint request_grow_free (n : nat) (i free : Z) : list ipc_port_request * Z :=
  match n with
  | O => ([], free)
  | S n =>
      let '(l, free') := request_grow_free n (i + 1) i in
      (mkRequest free MACH_PORT_NULL :: l, free')
  end.

(** [while ((its->its_size) && (its->its_size < target_size)) its++] *)
Fixpoint request_find_size (fuel : nat) (sizes : list Z) (target_size its : Z) : option Z :=
  match fuel with
  | O => None
  | S fuel =>
      size ← aget sizes its;
      if negb (size =? 0) && (size <? target_size)
      then request_find_size fuel sizes target_size (its + 1)
      else Some its
  end.

Definition request_new_table (addr its osize nsize : Z) (otable : option ipr_table)
    : ipr_table :=
  let '(old, free) :=
    match otable with
    | Some t => (take (Z.to_nat (osize - 1)) (drop 1 (ipt_slots t)),
                 match aget (ipt_slots t) 0 with Some h => ipr_next h | None => 0 end)
    | None => ([], 0)
    end in
  let '(new, free) := request_grow_free (Z.to_nat (nsize - osize)) osize free in
  mkRequests addr (mkRequest free its :: old ++ new).

Definition request_size (t : ipr_table) : M Z :=
  h ← deref (aget (ipt_slots t) 0) "bounds"; mret (ipr_size h).
Definition its_requests (its : Z) : M Z :=
  ev ← env; deref (aget (e_table_requests ev) its) "bounds".

(** The allocation and the copy, once the size [its] is chosen. *)
Definition request_grow_to (p its : Z) (otable : option ipr_table) : M Z :=
  ip_reference p;; ip_unlock p;;
  nsize ← its_requests its;
  ntable ← (if nsize =? 0 then mret 0
            else call "kalloc" [u64 (nsize * sizeof_ipc_port_request)]);
  if ntable =? 0 then ip_release p;; mret KERN_RESOURCE_SHORTAGE
  else
    ip_lock p;;
    a ← ip_active p;
    x ← port p;
    same ←
      match otable, ip_requests x with
      | None, None => mret true
      | Some t, Some t' =>
          oits ← request_size t';
          mret ((ipt_addr t =? ipt_addr t') && (oits + 1 =? its))
      | _, _ => mret false
      end;
    if a && same then
      osize ← match ip_requests x with
              | Some t => oits ← request_size t; its_requests oits
              | None => mret 1
              end;
      massert (osize <? nsize);;
      upd_port p (set_ip_requests
        (Some (request_new_table ntable its osize nsize (ip_requests x))));;
      ip_unlock p;; ip_release p;;
      match otable with
      | Some t => call_ "it_requests_free" [ipt_addr t]
      | None => mret tt
      end;;
      mret KERN_SUCCESS
    else
      ip_unlock p;; ip_release p;;
      call_ "it_requests_free" [ntable];;
      mret KERN_SUCCESS.

(** The port is locked and active, and unlocked. *)
Definition ipc_port_request_grow (p target_size : Z) : M Z :=
  require_ip_active p;;
  x ← port p;
  let otable := ip_requests x in
  ev ← env;
  its ← match otable with
        | None => mret 0
        | Some t => oits ← request_size t; mret (oits + 1)
        end;
  if negb (target_size =? ITS_SIZE_NONE) then
    fits ← match otable with
           | None => mret false
           | Some t => oits ← request_size t; osize ← its_requests oits;
                       mret (target_size <=? osize)
           end;
    if (fits : bool) then ip_unlock p;; mret KERN_SUCCESS
    else
      its ← deref (request_find_size (length (e_table_requests ev)) (e_table_requests ev)
                     target_size its) "bounds";
      size ← its_requests its;
      if size =? 0 then ip_unlock p;; mret KERN_NO_SPACE
      else request_grow_to p its otable
  else request_grow_to p its otable.

Definition ipc_port_request_type (p name index : Z) : M Z :=
  x ← port p;
  table ← deref (ip_requests x) "assert";
  massert (negb (index =? IE_REQ_NONE));;
  ipr ← deref (aget (ipt_slots table) index) "bounds";
  massert (ipr_name ipr =? name);;
  let sor := ipr_soright ipr in
  mret
    (if IP_VALID (IPR_SOR_PORT sor) then
       Z.lor MACH_PORT_TYPE_DNREQUEST
         (if IPR_SOR_SPREQ sor then
            Z.lor MACH_PORT_TYPE_SPREQUEST
              (if negb (IPR_SOR_SPARMED sor) then MACH_PORT_TYPE_SPREQUEST_DELAYED else 0)
          else 0)
     else 0).

Definition ipc_port_request_cancel (p name index : Z) : M Z :=
  require_ip_active p;;
  x ← port p;
  table ← deref (ip_requests x) "assert";
  massert (negb (index =? IE_REQ_NONE));;
  ipr ← deref (aget (ipt_slots table) index) "bounds";
  massert (ipr_name ipr =? name);;
  let request := IPR_SOR_PORT (ipr_soright ipr) in
  head ← deref (aget (ipt_slots table) 0) "bounds";
  let slots := aset (ipt_slots table) index (mkRequest (ipr_next head) MACH_PORT_NULL) in
  let slots := aset slots 0 (set_ipr_notify index head) in
  upd_port p (set_ip_requests (Some (mkRequests (ipt_addr table) slots)));;
  mret request.

(** Arms a delayed send-possible request; [true] if it needs a boost. *)
Definition MACH_SEND_OVERRIDE : Z := 0x00000020.
Definition MACH_SEND_NOIMPORTANCE : Z := 0x00040000.
Definition MACH_SEND_IMPORTANCE : Z := 0x00080000.

Definition ipc_port_request_sparm (p name index option_ priority : Z) : M bool :=
  if index =? IE_REQ_NONE then mret false
  else
    require_ip_active p;;
    x ← port p;
    table ← deref (ip_requests x) "assert";
    ipr ← deref (aget (ipt_slots table) index) "bounds";
    massert (ipr_name ipr =? name);;
    if IPR_SOR_SPREQ (ipr_soright ipr) then
      let ipr' := set_ipr_notify (IPR_SOR_MAKE (ipr_soright ipr) IPR_SOR_SPARM_MASK) ipr in
      upd_port p (fun x => set_ip_sprequests true
        (set_ip_requests (Some (mkRequests (ipt_addr table) (aset (ipt_slots table) index ipr'))) x));;
      when (negb (Z.land option_ MACH_SEND_OVERRIDE =? 0))
        (qos ← call "mach_msg_priority_qos" [priority];
         when (negb (qos =? 0)) (call_ "ipc_mqueue_override_send" [p; qos]));;
      if (Z.land option_ MACH_SEND_NOIMPORTANCE =? 0) && ip_impdonation x
         && negb (ip_spimportant x)
      then
        if negb (Z.land option_ MACH_SEND_IMPORTANCE =? 0) then mret true
        else ev ← env; callb "task_is_importance_donor" [e_current_task ev]
      else mret false
    else mret false.

(** The port is locked and active, and unlocked; returns the previous right. *)
Definition ipc_port_pdrequest (p notify : Z) : M Z :=
  require_ip_active p;;
  x ← port p;
  upd_port p (set_ip_pdrequest notify);;
  ip_unlock p;;
  mret (ip_pdrequest x).

Definition ipc_port_nsrequest (p sync notify : Z) : M Z :=
  require_ip_active p;;
  x ← port p;
  if (ip_srights x =? 0) && (sync <=? ip_mscount x) && negb (notify =? IP_NULL) then
    upd_port p (set_ip_nsrequest IP_NULL);;
    ip_unlock p;;
    ipc_notify_no_senders notify (ip_mscount x);;
    mret (ip_nsrequest x)
  else
    upd_port p (set_ip_nsrequest notify);;
    ip_unlock p;;
    mret (ip_nsrequest x).

(** ** Chains of ports in transit, and importance *)

(** Locks the ports from [p] to the end of its chain.  Returns the base, and
    whether a reference was taken on it. *)
Fixpoint destination_chain_lock (fuel : nat) (p : Z) : M (Z * bool) :=
  match fuel with
  | O => panic "fuel"
  | S fuel =>
      ip_lock p;;
      a ← ip_active p;
      x ← port p;
      if negb a then ip_reference p;; mret (p, true)
      else if negb (ip_receiver_name x =? MACH_PORT_NULL) || (ip_destination x =? IP_NULL)
      then mret (p, false)
      else destination_chain_lock fuel (ip_destination x)
  end.

(** A chain that revisits a port would take its lock twice, so a bound of one
    more than the number of ports is never reached. *)
Definition ipc_port_destination_chain_lock (p : Z) : M (Z * bool) :=
  n ← gets (fun w => size (w_port w));
  destination_chain_lock (S n) p.

(** [ip_impcount] is a 17-bit field. *)
Definition u17 (x : Z) : Z := x mod 2 ^ 17.

(** The diagnostics printed on an over-release are left out. *)
Definition ipc_port_impcount_delta (p delta : Z) : M Z :=
  a ← ip_active p;
  if negb a then mret 0
  else
    x ← port p;
    if 0 <=? delta then
      upd_port p (set_ip_impcount (u17 (ip_impcount x + delta)));; mret delta
    else if - delta <=? ip_impcount x then
      upd_port p (set_ip_impcount (u17 (ip_impcount x + delta)));; mret delta
    else
      upd_port p (set_ip_impcount 0);; mret (- ip_impcount x).

Definition IPID_OPTION_NORMAL : Z := 0.
Definition IPID_OPTION_SENDPOSSIBLE : Z := 1.

(** Unlocks the chain down to [base], adjusting the count of each port. *)
Fixpoint importance_walk (fuel : nat) (p base delta : Z) : M Z :=
  match fuel with
  | O => panic "fuel"
  | S fuel =>
      delta ← ipc_port_impcount_delta p delta;
      if p =? base then mret delta
      else
        x ← port p;
        massert (negb (ip_tempowner x));;
        ip_unlock p;;
        importance_walk fuel (ip_destination x) base delta
  end.

(** Returns whether the lock was dropped, the delta applied and the task. *)
Definition ipc_port_importance_delta_internal (p options delta : Z) : M (bool * Z * Z) :=
  if delta =? 0 then mret (false, 0, IIT_NULL)
  else
    massert ((options =? IPID_OPTION_NORMAL) || (options =? IPID_OPTION_SENDPOSSIBLE));;
    a ← ip_active p;
    x ← port p;
    let dropped :=
      a && negb (ip_destination x =? IP_NULL) && (ip_receiver_name x =? MACH_PORT_NULL) in
    '(base, took_base_ref) ←
      (if dropped then
         ip_unlock p;; ipc_port_multiple_lock;;
         r ← ipc_port_destination_chain_lock p;
         ipc_port_multiple_unlock;; mret r
       else mret (p, false));
    delta ←
      (if negb (Z.land options IPID_OPTION_SENDPOSSIBLE =? 0) then
         massert (delta =? 1);;
         x ← port p;
         if ip_sprequests x && negb (ip_spimportant x) then
           upd_port p (set_ip_spimportant true);; mret delta
         else mret 0
       else mret delta);
    n ← gets (fun w => size (w_port w));
    delta ← importance_walk (S n) p base delta;
    a ← ip_active base;
    b ← port base;
    imp_task ←
      (if negb a then mret IIT_NULL
       else if ip_tempowner b then mret (ip_imp_task b)
       else if negb (ip_receiver_name b =? MACH_PORT_NULL) then
         sp ← space (ip_receiver b);
         if is_task sp =? TASK_NULL then mret IIT_NULL
         else
           t ← call "task_imp_base" [is_task sp];
           r ← callb "ipc_importance_task_is_any_receiver_type" [t];
           mret (if (r : bool) then t else IIT_NULL)
       else mret IIT_NULL);
    when (negb (imp_task =? IIT_NULL)) (call_ "ipc_importance_task_reference" [imp_task]);;
    when dropped (ip_unlock base;; when took_base_ref (ip_release base));;
    mret (dropped, delta, imp_task).

(** Returns whether the lock was dropped. *)
Definition ipc_port_importance_delta (p options delta : Z) : M bool :=
  '(dropped, delta, imp_task) ← ipc_port_importance_delta_internal p options delta;
  if (imp_task =? IIT_NULL) || (delta =? 0) then mret dropped
  else
    when (negb dropped) (ip_unlock p);;
    r ← callb "ipc_importance_task_is_any_receiver_type" [imp_task];
    massert r;;
    (if 0 <? delta
     then call_ "ipc_importance_task_hold_internal_assertion" [imp_task; delta]
     else call_ "ipc_importance_task_drop_internal_assertion" [imp_task; - delta]);;
    call_ "ipc_importance_task_release" [imp_task];;
    mret true.

(** ** Naked rights *)

Definition ipc_port_make_send_locked (p : Z) : M unit :=
  require_ip_active p;;
  upd_port p (fun x => set_ip_srights (u32 (ip_srights x + 1))
                         (set_ip_mscount (u32 (ip_mscount x + 1)) x));;
  ip_reference p.

Definition ipc_port_make_send (p : Z) : M Z :=
  if negb (IP_VALID p) then mret p
  else
    ip_lock p;;
    a ← ip_active p;
    if (a : bool) then ipc_port_make_send_locked p;; ip_unlock p;; mret p
    else ip_unlock p;; mret IP_DEAD.

Definition ipc_port_copy_send_locked (p : Z) : M unit :=
  x ← port p;
  massert (0 <? ip_srights x);;
  upd_port p (fun x => set_ip_srights (u32 (ip_srights x + 1)) x);;
  ip_reference p.

Definition ipc_port_copy_send (p : Z) : M Z :=
  if negb (IP_VALID p) then mret p
  else
    ip_lock p;;
    a ← ip_active p;
    sright ← (if (a : bool) then ipc_port_copy_send_locked p;; mret p else mret IP_DEAD);
    ip_unlock p;;
    mret sright.

Definition ipc_port_release_send (p : Z) : M unit :=
  if negb (IP_VALID p) then mret tt
  else
    ip_lock p;;
    x ← port p;
    massert (0 <? ip_srights x);;
    upd_port p (fun x => set_ip_srights (ip_srights x - 1) x);;
    a ← ip_active p;
    if negb a then ip_unlock p;; ip_release p
    else
      x ← port p;
      if (ip_srights x =? 0) && negb (ip_nsrequest x =? IP_NULL) then
        upd_port p (set_ip_nsrequest IP_NULL);;
        ip_unlock p;; ip_release p;;
        ipc_notify_no_senders (ip_nsrequest x) (ip_mscount x)
      else ip_unlock p;; ip_release p.

Definition ipc_port_make_sonce_locked (p : Z) : M unit :=
  require_ip_active p;;
  upd_port p (fun x => set_ip_sorights (u32 (ip_sorights x + 1)) x);;
  ip_reference p.

Definition ipc_port_make_sonce (p : Z) : M Z :=
  if negb (IP_VALID p) then mret p
  else
    ip_lock p;;
    a ← ip_active p;
    if (a : bool) then ipc_port_make_sonce_locked p;; ip_unlock p;; mret p
    else ip_unlock p;; mret IP_DEAD.

(** ** Special reply ports and synchronous links *)

Definition PORT_SYNC_LINK_ANY : Z := 0.
Definition PORT_SYNC_LINK_PORT : Z := 1.
Definition PORT_SYNC_LINK_WORKLOOP_KNOTE : Z := 2.
Definition PORT_SYNC_LINK_WORKLOOP_STASH : Z := 3.
Definition PORT_SYNC_LINK_NO_LINKAGE : Z := 4.
Definition PORT_SYNC_LINK_RCV_THREAD : Z := 5.

Definition IPC_PORT_ADJUST_SR_ALLOW_SYNC_LINKAGE : Z := 0x1.
Definition IPC_PORT_ADJUST_SR_LINK_WORKLOOP : Z := 0x2.
Definition IPC_PORT_ADJUST_UNLINK_THREAD : Z := 0x4.
Definition IPC_PORT_ADJUST_SR_RECEIVED_MSG : Z := 0x8.
Definition IPC_PORT_ADJUST_SR_ENABLE_EVENT : Z := 0x10.
Definition IPC_PORT_ADJUST_RESET_BOOSTRAP_CHECKIN : Z := 0x20.

Definition MACH_MSG_TYPE_PORT_RECEIVE : Z := 16.
Definition MACH_MSG_TYPE_PORT_SEND : Z := 17.
Definition MACH_MSG_TYPE_PORT_SEND_ONCE : Z := 18.

Definition ITH_KNOTE_PSEUDO : Z := 0xdeadbeef.
Definition ITH_KNOTE_VALID (kn msgt_name : Z) : bool :=
  negb (kn =? 0) && negb (kn =? ITH_KNOTE_PSEUDO) &&
  ((msgt_name =? MACH_MSG_TYPE_PORT_RECEIVE) || (msgt_name =? MACH_MSG_TYPE_PORT_SEND_ONCE)).

Definition flag (flags f : Z) : bool := negb (Z.land flags f =? 0).

(** The port and its message queue are locked. *)
Definition ipc_port_update_watchport_elem (p we : Z) : M Z :=
  x ← port p;
  massert (negb (ip_specialreply x));;
  upd_port p (set_waitq_tspriv we);;
  mret (waitq_tspriv x).

Definition ipc_port_clear_watchport_elem_internal (p : Z) : M Z :=
  lock_held (LObject p);; lock_held (LMqueue p);;
  x ← port p;
  if ip_specialreply x then mret 0 else ipc_port_update_watchport_elem p 0.

Definition ipc_special_reply_stash_pid_locked (p pid : Z) : M unit :=
  x ← port p;
  massert (ip_specialreply x);;
  upd_port p (set_waitq_tspriv pid).

Definition ipc_special_reply_port_msg_sent_reset (x : ipc_port) : ipc_port :=
  if ip_specialreply x then set_ip_srp_msg_sent false x else x.
Definition ipc_special_reply_port_lost_link (x : ipc_port) : ipc_port :=
  if ip_specialreply x && negb (ip_srp_msg_sent x) then set_ip_srp_lost_link true x else x.

Definition ipc_port_adjust_sync_link_state_locked (p state inheritor : Z) : M unit :=
  x ← port p;
  when (ip_sync_link_state x =? PORT_SYNC_LINK_RCV_THREAD)
    (call_ "thread_deallocate_safe" [imq_inheritor x]);;
  upd_port p (set_imq_inheritor 0);;
  if (state =? PORT_SYNC_LINK_WORKLOOP_KNOTE) || (state =? PORT_SYNC_LINK_WORKLOOP_STASH) then
    upd_port p (fun x => set_ip_sync_link_state state (set_imq_inheritor inheritor x))
  else if state =? PORT_SYNC_LINK_RCV_THREAD then
    call_ "thread_reference" [inheritor];;
    upd_port p (fun x => set_ip_sync_link_state state (set_imq_inheritor inheritor x))
  else upd_port p (set_ip_sync_link_state PORT_SYNC_LINK_ANY).

(** [filt_machport_stash_port] returns the inheritor and the state through a
    pointer: two external results. *)
Definition filt_machport_stash_port (kn p state : Z) : M (Z * Z) :=
  inheritor ← call "filt_machport_stash_port" [kn; p];
  state ← call "filt_machport_stash_port_state" [kn; p; state];
  mret (inheritor, state).

(** The port and its message queue are locked, and unlocked. *)
Definition ipc_port_adjust_port_locked (p kn : Z) (sync_bootstrap_checkin : bool) : M unit :=
  lock_held (LObject p);; lock_held (LMqueue p);;
  x ← port p;
  massert (negb (ip_specialreply x));;
  ev ← env;
  '(inheritor, state) ←
    (if negb (kn =? 0) then
       '(inheritor, state) ← filt_machport_stash_port kn p PORT_SYNC_LINK_ANY;
       mret (if state =? PORT_SYNC_LINK_WORKLOOP_KNOTE then kn else inheritor, state)
     else if sync_bootstrap_checkin then
       mret (e_current_thread ev, PORT_SYNC_LINK_RCV_THREAD)
     else mret (0, PORT_SYNC_LINK_ANY));
  ipc_port_adjust_sync_link_state_locked p state inheritor;;
  upd_port p (set_ip_sync_bootstrap_checkin false);;
  ipc_port_send_turnstile_recompute_push_locked p.

(** The port is locked, and unlocked. *)
Definition ipc_port_clear_sync_rcv_thread_boost_locked (p : Z) : M unit :=
  lock_held (LObject p);;
  x ← port p;
  if negb (ip_sync_link_state x =? PORT_SYNC_LINK_RCV_THREAD) then ip_unlock p
  else
    imq_lock p;;
    ipc_port_adjust_sync_link_state_locked p PORT_SYNC_LINK_ANY 0;;
    ipc_port_send_turnstile_recompute_push_locked p.

(** The tail of the routine below: the link state changes from that of [x]. *)
Definition special_reply_relink (p kn flags : Z) (get_turnstile : bool)
    (x : ipc_port) (inheritor state : Z) : M unit :=
  let ostate := ip_sync_link_state x in
  let dest_port := if ostate =? PORT_SYNC_LINK_PORT then ip_sync_inheritor_port x else IP_NULL in
  when ((ostate =? PORT_SYNC_LINK_PORT) || (ostate =? PORT_SYNC_LINK_WORKLOOP_KNOTE)
        || (ostate =? PORT_SYNC_LINK_WORKLOOP_STASH))
    (upd_port p (set_ip_sync_inheritor_port 0));;
  ev ← env;
  (if (ostate =? PORT_SYNC_LINK_PORT) && (state =? PORT_SYNC_LINK_NO_LINKAGE) then
     pid ← call "pid_from_task" [e_current_task ev];
     ipc_special_reply_stash_pid_locked p pid
   else if (ostate =? PORT_SYNC_LINK_NO_LINKAGE) && (state =? PORT_SYNC_LINK_ANY) then
     ipc_special_reply_stash_pid_locked p 0
   else mret tt);;
  upd_port p (set_ip_sync_link_state state);;
  (if state =? PORT_SYNC_LINK_WORKLOOP_KNOTE then upd_port p (set_ip_sync_inheritor_port kn)
   else if state =? PORT_SYNC_LINK_WORKLOOP_STASH then
     upd_port p (set_ip_sync_inheritor_port inheritor)
   else when ((state =? PORT_SYNC_LINK_NO_LINKAGE) && flag flags IPC_PORT_ADJUST_SR_ENABLE_EVENT)
          (upd_port p ipc_special_reply_port_lost_link));;
  ts ←
    (if get_turnstile then call_ "turnstile_complete" [p];; mret 0
     else
       when (negb (waitq_ts x =? 0))
         (call_ "turnstile_reference" [waitq_ts x];;
          call_ "ipc_port_recv_update_inheritor" [p; waitq_ts x]);;
       mret (waitq_ts x));
  imq_unlock p;; ip_unlock p;;
  (if get_turnstile then call_ "turnstile_cleanup" []
   else when (negb (ts =? 0))
     (call_ "turnstile_update_inheritor_complete" [ts];;
      call_ "turnstile_deallocate_safe" [ts]));;
  when (negb (dest_port =? IP_NULL))
    (ipc_port_send_turnstile_complete dest_port;; ip_release dest_port).

(** The port is locked, and unlocked. *)
Definition ipc_port_adjust_special_reply_port_locked (p kn flags : Z) (get_turnstile : bool)
    : M unit :=
  let not_special :=
    when get_turnstile (call_ "turnstile_complete" [p]);;
    imq_unlock p;; ip_unlock p;;
    when get_turnstile (call_ "turnstile_cleanup" []) in
  lock_held (LObject p);;
  imq_lock p;;
  x ← port p;
  if negb (ip_specialreply x) then massert get_turnstile;; not_special
  else
    when (flag flags IPC_PORT_ADJUST_SR_RECEIVED_MSG)
      (upd_port p ipc_special_reply_port_msg_sent_reset);;
    when (flag flags IPC_PORT_ADJUST_UNLINK_THREAD) (upd_port p (set_imq_inheritor 0));;
    when (flag flags IPC_PORT_ADJUST_RESET_BOOSTRAP_CHECKIN)
      (upd_port p (set_ip_sync_bootstrap_checkin false));;
    if ip_sync_link_state x =? PORT_SYNC_LINK_ANY then not_special
    else
      '(inheritor, state) ←
        (if flag flags IPC_PORT_ADJUST_SR_LINK_WORKLOOP then
           if ITH_KNOTE_VALID kn MACH_MSG_TYPE_PORT_SEND_ONCE
           then filt_machport_stash_port kn p PORT_SYNC_LINK_NO_LINKAGE
           else mret (0, PORT_SYNC_LINK_NO_LINKAGE)
         else if flag flags IPC_PORT_ADJUST_SR_ALLOW_SYNC_LINKAGE
         then mret (0, PORT_SYNC_LINK_ANY)
         else mret (0, PORT_SYNC_LINK_NO_LINKAGE));
      if negb get_turnstile && (state =? PORT_SYNC_LINK_NO_LINKAGE)
         && (ip_sync_link_state x =? PORT_SYNC_LINK_NO_LINKAGE)
      then imq_unlock p;; ip_unlock p
      else
        x ← port p;
        special_reply_relink p kn flags get_turnstile x inheritor state.

Definition ipc_port_adjust_special_reply_port (p flags : Z) : M unit :=
  x ← port p;
  when (ip_specialreply x)
    (ip_lock p;; ipc_port_adjust_special_reply_port_locked p 0 flags false).

(** ** Message queue of a port (ipc/ipc_mqueue.c)

    Only the fields that the port code reads are modelled. *)

Definition MACH_PORT_QLIMIT_DEFAULT : Z := 5.

Definition ipc_mqueue_init (x : ipc_port) : ipc_port :=
  set_imq_inheritor 0 (set_ip_reply_context 0 (set_imq_qlimit MACH_PORT_QLIMIT_DEFAULT
    (set_imq_msgcount 0 (set_imq_seqno 0 x)))).

(** The message queue is locked.  Returns whether messages await reaping. *)
Definition ipc_mqueue_destroy_locked (p : Z) : M bool :=
  ts ← port_send_turnstile p;
  when (negb (ts =? 0)) (call_ "waitq_wakeup64_all" [ts]);;
  reap ← callb "ipc_kmsg_delayed_destroy_all" [p];
  upd_port p (set_imq_msgcount 0);;
  call_ "waitq_invalidate_locked" [p];;
  call_ "waitq_clear_prepost_locked" [p];;
  x ← port p;
  massert (negb (ip_in_pset x));;
  mret reap.

(** [ipc_mqueue_remove_from_all] takes the queue out of every set. *)
Definition ipc_pset_remove_from_all (p : Z) : M unit :=
  x ← port p;
  when (ip_in_pset x)
    (call_ "ipc_mqueue_remove_from_all" [p];; upd_port p (set_ip_in_pset false)).

(** ** Life of a port *)

Definition IPC_PORT_INIT_MAKE_SEND_RIGHT : Z := 0x1.
Definition IPC_PORT_INIT_MESSAGE_QUEUE : Z := 0x2.
Definition IPC_PORT_INIT_SPECIAL_REPLY : Z := 0x4.
Definition IPC_PORT_INIT_FILTER_MESSAGE : Z := 0x8.
Definition IPC_PORT_INIT_TG_BLOCK_TRACKING : Z := 0x10.
Definition IP_BIT_FILTER_MSG : Z := 0x00001000.

(** The fields of a fresh port; [ip_kobject] and the wait queue are left alone. *)
Definition ipc_port_init_fields (s flags name : Z) (x : ipc_port) : ipc_port :=
  let n := if flag flags IPC_PORT_INIT_MAKE_SEND_RIGHT then 1 else 0 in
  ipc_mqueue_init
    (mkPort name (ip_in_pset x) 0 (imq_seqno x) (imq_msgcount x) (imq_qlimit x)
       (imq_inheritor x) (waitq_tspriv x) (waitq_ts x)
       s (ip_kobject x) IP_NULL IP_NULL None 0 0 false false false false false false
       (flag flags IPC_PORT_INIT_SPECIAL_REPLY) PORT_SYNC_LINK_ANY false false false false
       (flag flags IPC_PORT_INIT_TG_BLOCK_TRACKING) 0 n n 0 false false).

Definition ipc_port_init (p s flags name : Z) : M unit :=
  upd_port p (ipc_port_init_fields s flags name);;
  when (flag flags IPC_PORT_INIT_FILTER_MESSAGE)
    (upd_io p (fun h => set_io_bits (Z.lor (io_bits h) IP_BIT_FILTER_MSG) h)).

(** The port is locked and active.  Returns whether messages await reaping. *)
Definition ipc_port_clear_receiver (p : Z) (should_destroy : bool) : M bool :=
  x ← port p;
  when (ip_in_pset x)
    (ipc_pset_remove_from_all p;; x ← port p; massert (negb (ip_in_pset x)));;
  imq_lock p;;
  call_ "ipc_mqueue_changed"
    [if negb (ip_receiver_name x =? 0) then ip_receiver x else 0; p];;
  upd_port p (fun x =>
    set_ip_immovable_receive false (set_ip_strict_guard false (set_ip_guarded false
      (set_ip_context 0 (set_imq_seqno 0 (set_ip_mscount 0 x))))));;
  reap ←
    (if should_destroy then
       upd_io p (fun h => set_io_bits (Z.land (io_bits h) (Z.lnot IO_BITS_ACTIVE)) h);;
       t ← ipc_port_timestamp;
       upd_port p (set_ip_timestamp t);;
       ipc_mqueue_destroy_locked p
     else
       upd_port p (fun x => set_ip_destination IP_NULL (set_ip_receiver_name MACH_PORT_NULL x));;
       mret false);
  imq_unlock p;;
  mret reap.

(** Sends the armed send-possible notifications of slots [index + 1], ... *)
Fixpoint spnotify_loop (fuel : nat) (p index size : Z) : M unit :=
  a ← ip_active p;
  if negb a then ip_unlock p
  else
    x ← port p;
    table ← deref (ip_requests x) "assert";
    size ← (if size =? 0 then its ← request_size table; its_requests its else mret size);
    let index := index + 1 in
    if index <? size then
      match fuel with
      | O => panic "fuel"
      | S fuel =>
          ipr ← deref (aget (ipt_slots table) index) "bounds";
          let name := ipr_name ipr in
          let soright := IPR_SOR_PORT (ipr_soright ipr) in
          if MACH_PORT_VALID name && IPR_SOR_SPARMED (ipr_soright ipr) && IP_VALID soright then
            upd_port p (set_ip_requests (Some (mkRequests (ipt_addr table)
              (aset (ipt_slots table) index (set_ipr_notify IP_NULL ipr)))));;
            ip_unlock p;;
            ipc_notify_send_possible soright name;;
            ip_lock p;;
            spnotify_loop fuel p index size
          else spnotify_loop fuel p index size
      end
    else ip_unlock p.

(** Nothing is locked; the fuel is the size of the table of requests. *)
Definition ipc_port_spnotify (p : Z) : M unit :=
  x ← port p;
  if negb (ip_sprequests x) then mret tt
  else
    ip_lock p;;
    when (ip_spimportant x)
      (upd_port p (set_ip_spimportant false);;
       d ← ipc_port_importance_delta p IPID_OPTION_NORMAL (-1);
       when d (ip_lock p));;
    x ← port p;
    if negb (ip_sprequests x) then ip_unlock p
    else
      upd_port p (set_ip_sprequests false);;
      spnotify_loop (match ip_requests x with Some t => length (ipt_slots t) | None => O end)
        p 0 0.

(** Sends the dead-name notifications of the slots in the list. *)
Fixpoint dnnotify_loop (slots : list ipc_port_request) : M unit :=
  match slots with
  | [] => mret tt
  | ipr :: slots =>
      let soright := IPR_SOR_PORT (ipr_soright ipr) in
      when (MACH_PORT_VALID (ipr_name ipr) && IP_VALID soright)
        (ipc_notify_dead_name soright (ipr_name ipr));;
      dnnotify_loop slots
  end.

(** The port is inactive. *)
Definition ipc_port_dnnotify (p : Z) : M unit :=
  x ← port p;
  a ← ip_active p;
  massert (negb a);;
  match ip_requests x with
  | None => mret tt
  | Some table =>
      its ← request_size table;
      size ← its_requests its;
      if alen (ipt_slots table) <? size then panic "bounds"
      else dnnotify_loop (take (Z.to_nat (size - 1)) (drop 1 (ipt_slots table)))
  end.

(** *** ipc_port_destroy *)

(** How many assertions to drop, and the task to drop them from. *)
Definition port_destroy_assertions (p : Z) (top : bool) : M (Z * Z) :=
  x ← port p;
  if ip_tempowner x then
    massert top;;
    if negb (ip_imp_task x =? IIT_NULL) then
      upd_port p (set_ip_imp_task IIT_NULL);;
      mret (ip_imp_task x, ip_impcount x)
    else mret (IIT_NULL, 0)
  else
    when (negb (ip_pdrequest x =? IP_NULL)) (upd_port p (set_ip_tempowner true));;
    mret (IIT_NULL, ip_impcount x).

(** [drop_assertions:] *)
Definition port_drop_assertions (release_imp_task assertcnt : Z) (top : bool) : M unit :=
  if negb (release_imp_task =? IIT_NULL) then
    when (0 <? assertcnt)
      (massert top;;
       modify (set_w_assertions 0);;
       r ← callb "ipc_importance_task_is_any_receiver_type" [release_imp_task];
       massert r;;
       call_ "ipc_importance_task_drop_internal_assertion" [release_imp_task; assertcnt]);;
    call_ "ipc_importance_task_release" [release_imp_task]
  else
    when ((0 <? assertcnt) && top)
      (modify (set_w_assertions 0);;
       ev ← env;
       t ← call "task_imp_base" [e_current_task ev];
       r ← callb "ipc_importance_task_is_any_receiver_type" [t];
       when r (call_ "ipc_importance_task_drop_internal_assertion" [t; assertcnt])).

(** The port has a backup: it goes into limbo and on to the backup. *)
Definition port_destroy_backup (p pdrequest : Z) (special_reply : bool) : M unit :=
  ipc_port_clear_receiver p false;;
  x ← port p;
  massert (negb (ip_in_pset x));;
  massert (ip_mscount x =? 0);;
  upd_port p (set_ip_pdrequest IP_NULL);;
  imq_lock p;;
  we ← ipc_port_clear_watchport_elem_internal p;
  ipc_port_send_turnstile_recompute_push_locked p;;
  when special_reply
    (ipc_port_adjust_special_reply_port p IPC_PORT_ADJUST_SR_ALLOW_SYNC_LINKAGE);;
  when (negb (we =? 0)) (call_ "task_watchport_elem_deallocate" [we]);;
  ipc_notify_port_destroyed pdrequest p.

(** ipc/ipc_kmsg.c *)
Definition ipc_kmsg_clear_prealloc (kmsg p : Z) : M unit :=
  imq_lock p;;
  x ← port p;
  massert (ip_premsg x =? kmsg);;
  upd_io p (fun h => set_io_bits (Z.land (io_bits h) (Z.lnot IP_BIT_PREALLOC)) h);;
  ts ← call "ikm_turnstile" [kmsg];
  upd_port p (set_ip_premsg ts);;
  imq_unlock p.

(** The preallocated message goes; the port and its queue are unlocked. *)
Definition port_destroy_prealloc (p : Z) : M unit :=
  h ← io p; x ← port p;
  if IP_PREALLOC h then
    let kmsg := ip_premsg x in
    massert (negb (kmsg =? 0));;
    inuse_port ← call "ikm_prealloc_inuse_port" [kmsg];
    ipc_kmsg_clear_prealloc kmsg p;;
    imq_lock p;;
    ipc_port_send_turnstile_recompute_push_locked p;;
    if negb (inuse_port =? IP_NULL) then massert (inuse_port =? p)
    else call_ "ipc_kmsg_free" [kmsg]
  else
    imq_lock p;;
    ipc_port_send_turnstile_recompute_push_locked p.

(** The port dies. *)
Definition port_destroy_dead (p : Z) (special_reply : bool) : M unit :=
  reap_msgs ← ipc_port_clear_receiver p true;
  x ← port p;
  massert (negb (ip_in_pset x));;
  massert (ip_mscount x =? 0);;
  imq_lock p;;
  we ← ipc_port_clear_watchport_elem_internal p;
  imq_unlock p;;
  x ← port p;
  let nsrequest := ip_nsrequest x in
  port_destroy_prealloc p;;
  when (negb (we =? 0)) (call_ "task_watchport_elem_deallocate" [we]);;
  when special_reply
    (ipc_port_adjust_special_reply_port p IPC_PORT_ADJUST_SR_ALLOW_SYNC_LINKAGE);;
  when (negb (nsrequest =? IP_NULL)) (ipc_notify_send_once nsrequest);;
  when reap_msgs (call_ "ipc_kmsg_reap_delayed" []);;
  call_ "ipc_mqueue_deinit" [p];;
  ipc_port_dnnotify p;;
  call_ "ipc_kobject_destroy" [p];;
  ip_release p.

(** The port is locked and active; it is unlocked and its reference consumed. *)
Definition ipc_port_destroy (p : Z) : M unit :=
  x ← port p;
  let special_reply := ip_specialreply x in
  assertions ← gets w_assertions;
  let top := assertions =? 0 in
  require_ip_active p;;
  upd_port p (set_ip_reply_context 0);;
  let pdrequest := ip_pdrequest x in
  if special_reply && (negb (pdrequest =? IP_NULL) || ip_tempowner x)
  then panic "ipc_port_destroy: invalid state"
  else
    '(release_imp_task, assertcnt) ← port_destroy_assertions p top;
    when top (modify (set_w_assertions assertcnt));;
    (if negb (pdrequest =? IP_NULL) then port_destroy_backup p pdrequest special_reply
     else port_destroy_dead p special_reply);;
    port_drop_assertions release_imp_task assertcnt top.

(** ** Releasing naked rights *)

Definition ipc_port_release_sonce (p : Z) : M unit :=
  if negb (IP_VALID p) then mret tt
  else
    ipc_port_adjust_special_reply_port p IPC_PORT_ADJUST_RESET_BOOSTRAP_CHECKIN;;
    ip_lock p;;
    x ← port p;
    massert (0 <? ip_sorights x);;
    upd_port p (fun x => set_ip_sorights (ip_sorights x - 1) x);;
    ip_unlock p;;
    ip_release p.

Definition ipc_port_release_receive (p : Z) : M unit :=
  if negb (IP_VALID p) then mret tt
  else
    ip_lock p;;
    require_ip_active p;;
    x ← port p;
    massert (ip_receiver_name x =? MACH_PORT_NULL);;
    let dest := ip_destination x in
    ipc_port_destroy p;;
    when (negb (dest =? IP_NULL))
      (ipc_port_send_turnstile_complete dest;; ip_release dest).

(** ** Ports of special spaces *)

(** Allocates an object from the zone of its type, as [bzero] leaves it. *)
Definition io_alloc (otype : Z) : M Z :=
  o ← call "zalloc" [otype];
  when (negb (o =? IO_NULL))
    (modify (fun w => set_w_io (<[o := mkObject 0 0]> (w_io w)) w);;
     when (otype =? IOT_PORT) (modify (fun w => set_w_port (<[o := ip_zero]> (w_port w)) w)));;
  mret o.

Definition ipc_port_alloc_special (s flags : Z) : M Z :=
  p ← io_alloc IOT_PORT;
  if p =? IP_NULL then mret IP_NULL
  else
    upd_io p (fun _ => mkObject (io_makebits true IOT_PORT 0) 1);;
    ipc_port_init p s flags 1;;
    mret p.

Definition ipc_port_dealloc_special (p s : Z) : M unit :=
  ip_lock p;;
  require_ip_active p;;
  x ← port p;
  massert (ip_receiver x =? s);;
  imq_lock p;;
  upd_port p (fun x => set_ip_receiver 0 (set_ip_receiver_name MACH_PORT_NULL x));;
  imq_unlock p;;
  upd_port p (fun x => set_imq_seqno 0 (set_ip_mscount 0 x));;
  ipc_port_destroy p.
