(* ===== verification/IpcRight.v ===== *)
(** * Capabilities of a space (ipc/ipc_right.c)

    The routines that look up, request notifications on, release, move and copy
    the rights of a space.  An entry pointer is the index [i] of the entry.  A
    routine of the source with a long switch is split into one definition per
    case. *)

From S2P Require Import Prelude IpcTypes IpcHash IpcTable KernelState Kernel IpcFreelist IpcEntry IpcPort.

(** ** Names of the message interface (mach/message.h, kern/exc_guard.h) *)

Definition MACH_MSG_TYPE_MOVE_RECEIVE : Z := 16.
Definition MACH_MSG_TYPE_MOVE_SEND : Z := 17.
Definition MACH_MSG_TYPE_MOVE_SEND_ONCE : Z := 18.
Definition MACH_MSG_TYPE_COPY_SEND : Z := 19.
Definition MACH_MSG_TYPE_MAKE_SEND : Z := 20.
Definition MACH_MSG_TYPE_MAKE_SEND_ONCE : Z := 21.
Definition MACH_MSG_TYPE_PORT_ANY_SEND (x : Z) : bool :=
  (MACH_MSG_TYPE_MOVE_SEND <=? x) && (x <=? MACH_MSG_TYPE_MAKE_SEND_ONCE).
Definition MACH_MSG_GUARD_FLAGS_IMMOVABLE_RECEIVE : Z := 1.
Definition MACH_MSG_GUARD_FLAGS_UNGUARDED_ON_SEND : Z := 2.

Definition kGUARD_EXC_DESTROY : Z := 0x1.
Definition kGUARD_EXC_MOD_REFS : Z := 0x2.
Definition kGUARD_EXC_INCORRECT_GUARD : Z := 0x10.
Definition kGUARD_EXC_IMMOVABLE : Z := 0x20.
Definition kGUARD_EXC_INVALID_RIGHT : Z := 0x100.
Definition kGUARD_EXC_INVALID_NAME : Z := 0x200.
Definition kGUARD_EXC_INVALID_VALUE : Z := 0x400.

Definition IPC_RIGHT_COPYIN_FLAGS_NONE : Z := 0.
Definition IPC_RIGHT_COPYIN_FLAGS_DEADOK : Z := 1.
Definition IPC_RIGHT_COPYIN_FLAGS_ALLOW_IMMOVABLE_SEND : Z := 2.
Definition IPC_RIGHT_COPYIN_FLAGS_ALLOW_DEAD_SEND_ONCE : Z := 4.

Definition mach_port_guard_exception (name inguard portguard reason : Z) : M unit :=
  call_ "mach_port_guard_exception" [name; inguard; portguard; reason].

(** [bits & type] *)
Definition has (bits type : Z) : bool := negb (Z.land bits type =? 0).

(** ** Entry operations lifted to the kernel *)

Definition entry_lookup (s name : Z) : M (option Z) :=
  sp ← space s; deref (ipc_entry_lookup sp name) "assert".
Definition entry_modified (s name i : Z) : M unit :=
  on_space s (fun sp => ipc_entry_modified sp name i).
Definition entry_dealloc (s name i : Z) : M unit :=
  on_space s (fun sp => ipc_entry_dealloc sp name i).
Definition hash_insert (s obj name i : Z) : M unit :=
  on_space s (fun sp => ipc_hash_insert sp obj name i).
Definition hash_delete (s obj name i : Z) : M unit :=
  on_space s (fun sp => ipc_hash_delete sp obj name i).
Definition assert_active (s : Z) : M unit := sp ← space s; massert (is_active sp).

(** [entry->ie_object = IO_NULL; ipc_entry_dealloc(space, name, entry)] *)
Definition entry_clear_dealloc (s name i : Z) : M unit :=
  upd_entry s i (set_ie_object IO_NULL);; entry_dealloc s name i.

(** [if (--port->ip_srights == 0) { nsrequest = port->ip_nsrequest;
    if (nsrequest != IP_NULL) { port->ip_nsrequest = IP_NULL;
    mscount = port->ip_mscount; } }], which recurs through the file.  Returns
    [nsrequest] and [mscount]. *)
Definition drop_send_right (p : Z) : M (Z * Z) :=
  x ← port p;
  let n := u32 (ip_srights x - 1) in
  upd_port p (set_ip_srights n);;
  if n =? 0 then
    let nsrequest := ip_nsrequest x in
    if negb (nsrequest =? IP_NULL) then
      upd_port p (set_ip_nsrequest IP_NULL);; mret (nsrequest, ip_mscount x)
    else mret (nsrequest, 0)
  else mret (IP_NULL, 0).

Definition notify_no_senders (ns : Z * Z) : M unit :=
  when (negb (fst ns =? IP_NULL)) (ipc_notify_no_senders (fst ns) (snd ns)).
Definition notify_port_deleted (request name : Z) : M unit :=
  when (negb (request =? IP_NULL)) (ipc_notify_port_deleted request name).

(** ** Lookup *)

(** The space is then locked and active. *)
Definition ipc_right_lookup_write (s name : Z) : M (Z + Z) :=
  massert (negb (s =? 0));;
  is_write_lock s;;
  sp ← space s;
  if negb (is_active sp) then is_write_unlock s;; mret (inl KERN_INVALID_TASK)
  else
    r ← entry_lookup s name;
    match r with
    | None => is_write_unlock s;; mret (inl KERN_INVALID_NAME)
    | Some i => mret (inr i)
    end.

Definition ipc_right_lookup_two_write (s name1 name2 : Z) : M (Z + (Z * Z)) :=
  massert (negb (s =? 0));;
  is_write_lock s;;
  sp ← space s;
  if negb (is_active sp) then is_write_unlock s;; mret (inl KERN_INVALID_TASK)
  else
    r1 ← entry_lookup s name1;
    match r1 with
    | None =>
        is_write_unlock s;;
        mach_port_guard_exception name1 0 0 kGUARD_EXC_INVALID_NAME;;
        mret (inl KERN_INVALID_NAME)
    | Some i1 =>
        r2 ← entry_lookup s name2;
        match r2 with
        | None =>
            is_write_unlock s;;
            mach_port_guard_exception name2 0 0 kGUARD_EXC_INVALID_NAME;;
            mret (inl KERN_INVALID_NAME)
        | Some i2 => mret (inr (i1, i2))
        end
    end.

(** Returns the name and the entry of the send or receive right for an object;
    the object is then locked. *)
Definition ipc_right_reverse (s object : Z) : M (option (Z * Z)) :=
  assert_active s;;
  h ← io object;
  massert (io_otype h =? IOT_PORT);;
  ip_lock object;;
  a ← ip_active object;
  if negb a then ip_unlock object;; mret None
  else
    x ← port object;
    if ip_receiver x =? s then
      let name := ip_receiver_name x in
      massert (negb (name =? MACH_PORT_NULL));;
      r ← entry_lookup s name;
      i ← deref r "assert";
      e ← entry s i;
      massert (has (ie_bits e) MACH_PORT_TYPE_RECEIVE);;
      massert (object =? ie_object e);;
      mret (Some (name, i))
    else
      sp ← space s;
      r ← deref (ipc_hash_lookup sp object) "assert";
      match r with
      | Some (name, i) =>
          e ← entry s i;
          massert (IE_BITS_TYPE (ie_bits e) =? MACH_PORT_TYPE_SEND);;
          massert (object =? ie_object e);;
          mret (Some (name, i))
      | None => ip_unlock object;; mret None
      end.

Definition ipc_right_inuse (s i : Z) : M bool :=
  e ← entry s i;
  if negb (IE_BITS_TYPE (ie_bits e) =? MACH_PORT_TYPE_NONE)
  then is_write_unlock s;; mret true
  else mret false.

(** ** ipc_right_check *)

(** [true] when the port has died: the entry is then a dead name.  Otherwise
    the port is locked. *)
Definition ipc_right_check (s p name i flags : Z) : M bool :=
  assert_active s;;
  e ← entry s i;
  massert (p =? ie_object e);;
  ip_lock p;;
  a ← ip_active p;
  if a || (flag flags IPC_RIGHT_COPYIN_FLAGS_ALLOW_DEAD_SEND_ONCE
           && (ie_request e =? IE_REQ_NONE) && has (ie_bits e) MACH_PORT_TYPE_SEND_ONCE)
  then mret false
  else
    let bits := ie_bits e in
    massert (negb (has bits MACH_PORT_TYPE_RECEIVE));;
    massert (0 <? IE_BITS_UREFS bits);;
    x ← port p;
    (if has bits MACH_PORT_TYPE_SEND then
       massert (IE_BITS_TYPE bits =? MACH_PORT_TYPE_SEND);;
       massert (0 <? ip_srights x);;
       upd_port p (set_ip_srights (ip_srights x - 1))
     else
       massert (IE_BITS_TYPE bits =? MACH_PORT_TYPE_SEND_ONCE);;
       massert (IE_BITS_UREFS bits =? 1);;
       massert (0 <? ip_sorights x);;
       upd_port p (set_ip_sorights (ip_sorights x - 1)));;
    ip_unlock p;;
    when (has bits MACH_PORT_TYPE_SEND) (hash_delete s p name i);;
    let bits := Z.lor (Z.land bits (Z.lnot IE_BITS_TYPE_MASK)) MACH_PORT_TYPE_DEAD_NAME in
    bits ←
      (if negb (ie_request e =? IE_REQ_NONE) then
         t ← ipc_port_request_type p name (ie_request e);
         upd_entry s i (set_ie_request IE_REQ_NONE);;
         mret (if negb (t =? 0) && (IE_BITS_UREFS bits <? MACH_PORT_UREFS_MAX)
               then bits + 1 else bits)
       else mret bits);
    upd_entry s i (fun e => set_ie_object IO_NULL (set_ie_bits bits e));;
    entry_modified s name i;;
    mret true.

(** ** Notification requests *)

Definition ipc_right_request_cancel (s p name i : Z) : M Z :=
  require_ip_active p;;
  e ← entry s i;
  massert (p =? ie_object e);;
  if ie_request e =? IE_REQ_NONE then mret IP_NULL
  else
    previous ← ipc_port_request_cancel p name (ie_request e);
    upd_entry s i (set_ie_request IE_REQ_NONE);;
    entry_modified s name i;;
    mret previous.

(** [ipc_right_request_cancel_macro] *)
Definition request_cancel (s p name i : Z) : M Z :=
  e ← entry s i;
  if ie_request e =? IE_REQ_NONE then mret IP_NULL
  else ipc_right_request_cancel s p name i.

(** What an iteration of [ipc_right_request_alloc] decides. *)
Inductive request_step := RequestDone (kr previous : Z) | RequestRetry.

(** The port is locked and active. *)
Definition request_alloc_live (s p name i : Z) (immediate send_possible : bool) (notify : Z)
    : M request_step :=
  e ← entry s i;
  let prev_request := ie_request e in
  let cancel_previous :=
    (if negb (prev_request =? IE_REQ_NONE) then ipc_port_request_cancel p name prev_request
     else mret IP_NULL) in
  if notify =? IP_NULL then
    previous ← cancel_previous;
    ip_unlock p;;
    upd_entry s i (set_ie_request IE_REQ_NONE);;
    entry_modified s name i;;
    is_write_unlock s;;
    mret (RequestDone KERN_SUCCESS previous)
  else
    x ← port p;
    ev ← env;
    if send_possible && immediate &&
       (has (ie_bits e) MACH_PORT_TYPE_SEND_ONCE || (ip_receiver x =? e_space_kernel ev)
        || negb (ip_full x))
    then
      previous ← cancel_previous;
      ip_unlock p;;
      upd_entry s i (set_ie_request IE_REQ_NONE);;
      entry_modified s name i;;
      is_write_unlock s;;
      ipc_notify_send_possible notify name;;
      mret (RequestDone KERN_SUCCESS previous)
    else
      previous ← cancel_previous;
      r ← ipc_port_request_alloc p name notify send_possible immediate;
      match r with
      | None =>
          massert (previous =? IP_NULL);;
          is_write_unlock s;;
          kr ← ipc_port_request_grow p ITS_SIZE_NONE;
          mret (if negb (kr =? KERN_SUCCESS) then RequestDone kr IP_NULL else RequestRetry)
      | Some (new_request, needboost) =>
          massert (negb (new_request =? IE_REQ_NONE));;
          upd_entry s i (set_ie_request new_request);;
          entry_modified s name i;;
          is_write_unlock s;;
          (if (needboost : bool) then
             dropped ← ipc_port_importance_delta p IPID_OPTION_SENDPOSSIBLE 1;
             when (negb dropped) (ip_unlock p)
           else ip_unlock p);;
          mret (RequestDone KERN_SUCCESS previous)
      end.

(** Not a live port: [p] is the port that the check found dead, or null. *)
Definition request_alloc_dead (s p name i : Z) (immediate send_possible : bool) (notify : Z)
    : M request_step :=
  e ← entry s i;
  if (send_possible || immediate) && negb (notify =? IP_NULL)
     && has (ie_bits e) MACH_PORT_TYPE_DEAD_NAME
  then
    massert (0 <? IE_BITS_UREFS (ie_bits e));;
    when (IE_BITS_UREFS (ie_bits e) <? MACH_PORT_UREFS_MAX)
      (upd_entry s i (set_ie_bits (ie_bits e + 1)));;
    entry_modified s name i;;
    is_write_unlock s;;
    when (negb (p =? IP_NULL)) (ip_release p);;
    ipc_notify_dead_name notify name;;
    mret (RequestDone KERN_SUCCESS IP_NULL)
  else
    let kr := if has (ie_bits e) MACH_PORT_TYPE_PORT_OR_DEAD
              then KERN_INVALID_ARGUMENT else KERN_INVALID_RIGHT in
    is_write_unlock s;;
    when (negb (p =? IP_NULL)) (ip_release p);;
    mret (RequestDone kr IP_NULL).

Definition request_alloc_once (s name : Z) (immediate send_possible : bool) (notify : Z)
    : M request_step :=
  r ← ipc_right_lookup_write s name;
  match r with
  | inl kr => mret (RequestDone kr IP_NULL)
  | inr i =>
      e ← entry s i;
      if (notify =? IP_NULL) && (ie_request e =? IE_REQ_NONE) then
        is_write_unlock s;; mret (RequestDone KERN_SUCCESS IP_NULL)
      else if has (ie_bits e) MACH_PORT_TYPE_PORT_RIGHTS then
        let p := ie_object e in
        massert (negb (p =? IP_NULL));;
        dead ← ipc_right_check s p name i IPC_RIGHT_COPYIN_FLAGS_NONE;
        if (dead : bool) then request_alloc_dead s p name i immediate send_possible notify
        else request_alloc_live s p name i immediate send_possible notify
      else request_alloc_dead s IP_NULL name i immediate send_possible notify
  end.

(** The loop retries after growing the table of requests of the port: its bound
    is the number of sizes of that table. *)
Fixpoint request_alloc_loop (fuel : nat) (s name : Z) (immediate send_possible : bool)
    (notify : Z) : M (Z * Z) :=
  match fuel with
  | O => panic "fuel"
  | S fuel =>
      r ← request_alloc_once s name immediate send_possible notify;
      match r with
      | RequestDone kr previous => mret (kr, previous)
      | RequestRetry => request_alloc_loop fuel s name immediate send_possible notify
      end
  end.

(** Returns the code and the previous send-once right. *)
Definition ipc_right_request_alloc (s name : Z) (immediate send_possible : bool) (notify : Z)
    : M (Z * Z) :=
  ev ← env;
  request_alloc_loop (S (length (e_table_requests ev))) s name immediate send_possible notify.

(** ** ipc_right_terminate *)

(** A port right of a dead space; the port is locked and active. *)
Definition terminate_port (s p name i type : Z) : M unit :=
  request ← request_cancel s p name i;
  ns ← (if has type MACH_PORT_TYPE_SEND then
          x ← port p; massert (0 <? ip_srights x);; drop_send_right p
        else mret (IP_NULL, 0));
  x ← port p;
  (if has type MACH_PORT_TYPE_RECEIVE then
     massert (ip_receiver_name x =? name);;
     massert (ip_receiver x =? s);;
     ipc_port_destroy p
   else if has type MACH_PORT_TYPE_SEND_ONCE then
     massert (0 <? ip_sorights x);;
     upd_port p (set_ip_reply_context 0);;
     ip_unlock p;;
     ipc_notify_send_once p
   else
     massert (negb (ip_receiver x =? s));;
     ip_unlock p;; ip_release p);;
  notify_no_senders ns;;
  notify_port_deleted request name.

Definition is_port_type (type : Z) : bool :=
  (type =? MACH_PORT_TYPE_SEND) || (type =? MACH_PORT_TYPE_RECEIVE)
  || (type =? MACH_PORT_TYPE_SEND_RECEIVE) || (type =? MACH_PORT_TYPE_SEND_ONCE).

(** The space is dead and unlocked. *)
Definition ipc_right_terminate (s name i : Z) : M unit :=
  e ← entry s i;
  let type := IE_BITS_TYPE (ie_bits e) in
  sp ← space s;
  massert (negb (is_active sp));;
  if type =? MACH_PORT_TYPE_DEAD_NAME then
    massert (ie_request e =? IE_REQ_NONE);;
    massert (ie_object e =? IO_NULL)
  else if type =? MACH_PORT_TYPE_PORT_SET then
    let pset := ie_object e in
    massert (ie_request e =? IE_REQ_NONE);;
    massert (negb (pset =? IO_NULL));;
    io_lock pset;;
    a ← ip_active pset; massert a;;
    ipc_pset_destroy s pset
  else if is_port_type type then
    let p := ie_object e in
    massert (negb (p =? IP_NULL));;
    ip_lock p;;
    a ← ip_active p;
    if negb a then ip_unlock p;; ip_release p
    else terminate_port s p name i type
  else panic "ipc_right_terminate: strange type".

(** ** ipc_right_destroy *)

(** A right for a live port, past the guard check; space and port are locked. *)
Definition destroy_live_port (s p name i type : Z) : M unit :=
  request ← request_cancel s p name i;
  entry_clear_dealloc s name i;;
  is_write_unlock s;;
  ns ← (if has type MACH_PORT_TYPE_SEND then
          x ← port p; massert (0 <? ip_srights x);; drop_send_right p
        else mret (IP_NULL, 0));
  x ← port p;
  (if has type MACH_PORT_TYPE_RECEIVE then
     require_ip_active p;;
     massert (ip_receiver x =? s);;
     ipc_port_destroy p
   else if has type MACH_PORT_TYPE_SEND_ONCE then
     massert (0 <? ip_sorights x);;
     upd_port p (set_ip_reply_context 0);;
     ip_unlock p;;
     ipc_notify_send_once p
   else
     massert (negb (ip_receiver x =? s));;
     ip_unlock p;; ip_release p);;
  notify_no_senders ns;;
  notify_port_deleted request name.

Definition destroy_port_right (s name i type : Z) (check_guard : bool) (guard : Z) : M Z :=
  e ← entry s i;
  let p := ie_object e in
  massert (negb (p =? IP_NULL));;
  when (type =? MACH_PORT_TYPE_SEND) (hash_delete s p name i);;
  ip_lock p;;
  a ← ip_active p;
  if negb a then
    massert (negb (has type MACH_PORT_TYPE_RECEIVE));;
    ip_unlock p;;
    upd_entry s i (set_ie_request IE_REQ_NONE);;
    entry_clear_dealloc s name i;;
    is_write_unlock s;;
    ip_release p;;
    mret KERN_SUCCESS
  else
    x ← port p;
    if has type MACH_PORT_TYPE_RECEIVE && check_guard && ip_guarded x
       && negb (guard =? ip_context x)
    then
      ip_unlock p;;
      is_write_unlock s;;
      mach_port_guard_exception name 0 (ip_context x) kGUARD_EXC_DESTROY;;
      mret KERN_INVALID_RIGHT
    else
      destroy_live_port s p name i type;;
      mret KERN_SUCCESS.

(** The space is locked and active, and unlocked. *)
Definition ipc_right_destroy (s name i : Z) (check_guard : bool) (guard : Z) : M Z :=
  e ← entry s i;
  let bits := ie_bits e in
  upd_entry s i (set_ie_bits (Z.land bits (Z.lnot IE_BITS_TYPE_MASK)));;
  let type := IE_BITS_TYPE bits in
  assert_active s;;
  if type =? MACH_PORT_TYPE_DEAD_NAME then
    massert (ie_request e =? IE_REQ_NONE);;
    massert (ie_object e =? IO_NULL);;
    entry_dealloc s name i;;
    is_write_unlock s;;
    mret KERN_SUCCESS
  else if type =? MACH_PORT_TYPE_PORT_SET then
    let pset := ie_object e in
    massert (ie_request e =? IE_REQ_NONE);;
    massert (negb (pset =? IO_NULL));;
    entry_clear_dealloc s name i;;
    io_lock pset;;
    is_write_unlock s;;
    a ← ip_active pset; massert a;;
    ipc_pset_destroy s pset;;
    mret KERN_SUCCESS
  else if is_port_type type then destroy_port_right s name i type check_guard guard
  else panic "ipc_right_destroy: strange type".

(** ** ipc_right_dealloc *)

(** [dead_name:]; [p] is a port that the check found dead, or null. *)
Definition dealloc_dead_name (s name i bits p : Z) : M Z :=
  massert (0 <? IE_BITS_UREFS bits);;
  e ← entry s i;
  massert (ie_request e =? IE_REQ_NONE);;
  massert (ie_object e =? IO_NULL);;
  (if IE_BITS_UREFS bits =? 1 then entry_dealloc s name i
   else
     when (IE_BITS_UREFS bits <? MACH_PORT_UREFS_MAX)
       (upd_entry s i (set_ie_bits (bits - 1)));;
     entry_modified s name i);;
  is_write_unlock s;;
  when (negb (p =? IP_NULL)) (ip_release p);;
  mret KERN_SUCCESS.

(** The check found the port dead. *)
Definition dealloc_died (s name i p : Z) : M Z :=
  e ← entry s i;
  massert (IE_BITS_TYPE (ie_bits e) =? MACH_PORT_TYPE_DEAD_NAME);;
  dealloc_dead_name s name i (ie_bits e) p.

Definition dealloc_pset (s name i bits : Z) : M Z :=
  massert (IE_BITS_UREFS bits =? 0);;
  e ← entry s i;
  massert (ie_request e =? IE_REQ_NONE);;
  let pset := ie_object e in
  massert (negb (pset =? IO_NULL));;
  entry_clear_dealloc s name i;;
  io_lock pset;;
  a ← ip_active pset; massert a;;
  is_write_unlock s;;
  ipc_pset_destroy s pset;;
  mret KERN_SUCCESS.

(** The last steps for a send-once right; the port is locked and active. *)
Definition release_send_once (s name i p : Z) : M Z :=
  upd_port p (set_ip_reply_context 0);;
  request ← request_cancel s p name i;
  ip_unlock p;;
  entry_clear_dealloc s name i;;
  is_write_unlock s;;
  ipc_notify_send_once p;;
  notify_port_deleted request name;;
  mret KERN_SUCCESS.

Definition dealloc_send_once (s name i bits : Z) : M Z :=
  massert (IE_BITS_UREFS bits =? 1);;
  e ← entry s i;
  let p := ie_object e in
  massert (negb (p =? IP_NULL));;
  dead ← ipc_right_check s p name i IPC_RIGHT_COPYIN_FLAGS_NONE;
  if (dead : bool) then dealloc_died s name i p
  else
    x ← port p;
    massert (0 <? ip_sorights x);;
    release_send_once s name i p.

Definition dealloc_send (s name i bits : Z) : M Z :=
  massert (0 <? IE_BITS_UREFS bits);;
  e ← entry s i;
  let p := ie_object e in
  massert (negb (p =? IP_NULL));;
  dead ← ipc_right_check s p name i IPC_RIGHT_COPYIN_FLAGS_NONE;
  if (dead : bool) then dealloc_died s name i p
  else
    x ← port p;
    massert (0 <? ip_srights x);;
    if IE_BITS_UREFS bits =? 1 then
      ns ← drop_send_right p;
      request ← request_cancel s p name i;
      hash_delete s p name i;;
      ip_unlock p;;
      entry_clear_dealloc s name i;;
      is_write_unlock s;;
      ip_release p;;
      notify_no_senders ns;;
      notify_port_deleted request name;;
      mret KERN_SUCCESS
    else
      ip_unlock p;;
      when (IE_BITS_UREFS bits <? MACH_PORT_UREFS_MAX)
        (upd_entry s i (set_ie_bits (bits - 1)));;
      entry_modified s name i;;
      is_write_unlock s;;
      mret KERN_SUCCESS.

Definition dealloc_send_receive (s name i bits : Z) : M Z :=
  massert (0 <? IE_BITS_UREFS bits);;
  e ← entry s i;
  let p := ie_object e in
  massert (negb (p =? IP_NULL));;
  ip_lock p;;
  require_ip_active p;;
  x ← port p;
  massert (ip_receiver_name x =? name);;
  massert (ip_receiver x =? s);;
  massert (0 <? ip_srights x);;
  ns ←
    (if IE_BITS_UREFS bits =? 1 then
       ns ← drop_send_right p;
       upd_entry s i (set_ie_bits
         (Z.land bits (Z.lnot (Z.lor IE_BITS_UREFS_MASK MACH_PORT_TYPE_SEND))));;
       mret ns
     else
       when (IE_BITS_UREFS bits <? MACH_PORT_UREFS_MAX)
         (upd_entry s i (set_ie_bits (bits - 1)));;
       mret (IP_NULL, 0));
  ip_unlock p;;
  entry_modified s name i;;
  is_write_unlock s;;
  notify_no_senders ns;;
  mret KERN_SUCCESS.

(** The space is locked and active, and unlocked. *)
Definition ipc_right_dealloc (s name i : Z) : M Z :=
  e ← entry s i;
  let bits := ie_bits e in
  let type := IE_BITS_TYPE bits in
  assert_active s;;
  if type =? MACH_PORT_TYPE_PORT_SET then dealloc_pset s name i bits
  else if type =? MACH_PORT_TYPE_DEAD_NAME then dealloc_dead_name s name i bits IP_NULL
  else if type =? MACH_PORT_TYPE_SEND_ONCE then dealloc_send_once s name i bits
  else if type =? MACH_PORT_TYPE_SEND then dealloc_send s name i bits
  else if type =? MACH_PORT_TYPE_SEND_RECEIVE then dealloc_send_receive s name i bits
  else
    is_write_unlock s;;
    mach_port_guard_exception name 0 0 kGUARD_EXC_INVALID_RIGHT;;
    mret KERN_INVALID_RIGHT.

(** ** ipc_right_delta *)

Definition delta_invalid_right (s p : Z) : M Z :=
  is_write_unlock s;;
  when (negb (p =? IP_NULL)) (ip_release p);;
  mret KERN_INVALID_RIGHT.
Definition delta_invalid_value (s name : Z) : M Z :=
  is_write_unlock s;;
  mach_port_guard_exception name 0 0 kGUARD_EXC_INVALID_VALUE;;
  mret KERN_INVALID_VALUE.
Definition delta_success (s : Z) : M Z := is_write_unlock s;; mret KERN_SUCCESS.

Definition delta_pset (s name i bits delta : Z) : M Z :=
  if negb (has bits MACH_PORT_TYPE_PORT_SET) then
    mach_port_guard_exception name 0 0 kGUARD_EXC_INVALID_RIGHT;;
    delta_invalid_right s IP_NULL
  else
    massert (IE_BITS_TYPE bits =? MACH_PORT_TYPE_PORT_SET);;
    massert (IE_BITS_UREFS bits =? 0);;
    e ← entry s i;
    massert (ie_request e =? IE_REQ_NONE);;
    if delta =? 0 then delta_success s
    else if negb (delta =? -1) then delta_invalid_value s name
    else
      let pset := ie_object e in
      massert (negb (pset =? IO_NULL));;
      entry_clear_dealloc s name i;;
      io_lock pset;;
      a ← ip_active pset; massert a;;
      is_write_unlock s;;
      ipc_pset_destroy s pset;;
      mret KERN_SUCCESS.

(** A receive right goes and leaves send rights behind, in [bits]: they stay if
    the port survives (it has a backup), and turn into a dead name otherwise. *)
Definition receive_gone_send_left (s name i p bits : Z) : M unit :=
  x ← port p;
  if negb (ip_pdrequest x =? IP_NULL) then
    entry_modified s name i;;
    upd_entry s i (fun e => set_ie_bits
      (Z.lor (Z.land (ie_bits e) (Z.lnot MACH_PORT_TYPE_RECEIVE)) MACH_PORT_TYPE_EX_RECEIVE) e);;
    hash_insert s p name i;;
    ip_reference p
  else
    let bits := Z.lor (Z.land bits (Z.lnot IE_BITS_TYPE_MASK))
                  (Z.lor MACH_PORT_TYPE_DEAD_NAME MACH_PORT_TYPE_EX_RECEIVE) in
    e ← entry s i;
    bits ←
      (if negb (ie_request e =? 0) then
         upd_entry s i (set_ie_request IE_REQ_NONE);;
         mret (if IE_BITS_UREFS bits <? MACH_PORT_UREFS_MAX then bits + 1 else bits)
       else mret bits);
    upd_entry s i (fun e => set_ie_object IO_NULL (set_ie_bits bits e));;
    entry_modified s name i.

(** A receive right goes and the entry with it.  Returns the request. *)
Definition receive_gone (s name i p bits : Z) : M Z :=
  massert (IE_BITS_TYPE bits =? MACH_PORT_TYPE_RECEIVE);;
  massert (IE_BITS_UREFS bits =? 0);;
  request ← request_cancel s p name i;
  entry_clear_dealloc s name i;;
  mret request.

Definition delta_receive (s name i bits delta : Z) : M Z :=
  if negb (has bits MACH_PORT_TYPE_RECEIVE) then
    when (negb (has bits MACH_PORT_TYPE_EX_RECEIVE))
      (mach_port_guard_exception name 0 0 kGUARD_EXC_INVALID_RIGHT);;
    delta_invalid_right s IP_NULL
  else if delta =? 0 then delta_success s
  else if negb (delta =? -1) then delta_invalid_value s name
  else
    e ← entry s i;
    let p := ie_object e in
    massert (negb (p =? IP_NULL));;
    ip_lock p;;
    require_ip_active p;;
    x ← port p;
    massert (ip_receiver_name x =? name);;
    massert (ip_receiver x =? s);;
    if ip_guarded x then
      ip_unlock p;;
      is_write_unlock s;;
      mach_port_guard_exception name 0 (ip_context x) kGUARD_EXC_MOD_REFS;;
      mret KERN_INVALID_RIGHT
    else
      request ←
        (if has bits MACH_PORT_TYPE_SEND then
           massert (IE_BITS_TYPE bits =? MACH_PORT_TYPE_SEND_RECEIVE);;
           massert (0 <? IE_BITS_UREFS bits);;
           massert (0 <? ip_srights x);;
           receive_gone_send_left s name i p bits;;
           mret IP_NULL
         else receive_gone s name i p bits);
      is_write_unlock s;;
      ipc_port_destroy p;;
      notify_port_deleted request name;;
      mret KERN_SUCCESS.

Definition delta_send_once (s name i bits delta : Z) : M Z :=
  if negb (has bits MACH_PORT_TYPE_SEND_ONCE) then delta_invalid_right s IP_NULL
  else
    massert (IE_BITS_TYPE bits =? MACH_PORT_TYPE_SEND_ONCE);;
    massert (IE_BITS_UREFS bits =? 1);;
    e ← entry s i;
    let p := ie_object e in
    massert (negb (p =? IP_NULL));;
    dead ← ipc_right_check s p name i IPC_RIGHT_COPYIN_FLAGS_NONE;
    if (dead : bool) then
      e ← entry s i;
      massert (negb (has (ie_bits e) MACH_PORT_TYPE_SEND_ONCE));;
      mach_port_guard_exception name 0 0 kGUARD_EXC_INVALID_RIGHT;;
      delta_invalid_right s p
    else
      x ← port p;
      massert (0 <? ip_sorights x);;
      if (0 <? delta) || (delta <? -1) then ip_unlock p;; delta_invalid_value s name
      else if delta =? 0 then ip_unlock p;; delta_success s
      else release_send_once s name i p.

(** The effective change of a count of user references: [None] for an invalid
    delta.  A count at its maximum is pegged. *)
Definition urefs_delta (urefs delta : Z) : option Z :=
  if urefs =? MACH_PORT_UREFS_MAX then
    Some (if negb (delta =? - MACH_PORT_UREFS_MAX) then 0 else delta)
  else if MACH_PORT_UREFS_UNDERFLOW urefs delta then None
  else if MACH_PORT_UREFS_OVERFLOW urefs delta then Some (MACH_PORT_UREFS_MAX - urefs)
  else Some delta.

Definition delta_in_range (delta : Z) : bool :=
  (delta <=? MACH_PORT_UREFS_MAX) && (- MACH_PORT_UREFS_MAX <=? delta).

(** The entry is a dead name; [relport] is the port the check found dead. *)
Definition delta_dead (s name i bits delta relport : Z) : M Z :=
  massert (IE_BITS_TYPE bits =? MACH_PORT_TYPE_DEAD_NAME);;
  massert (0 <? IE_BITS_UREFS bits);;
  e ← entry s i;
  massert (ie_object e =? IO_NULL);;
  massert (ie_request e =? IE_REQ_NONE);;
  if negb (delta_in_range delta) then delta_invalid_value s name
  else
    let urefs := IE_BITS_UREFS bits in
    match urefs_delta urefs delta with
    | None => delta_invalid_value s name
    | Some delta =>
        (if urefs + delta =? 0 then entry_dealloc s name i
         else when (negb (delta =? 0))
           (upd_entry s i (set_ie_bits (u32 (bits + delta)));; entry_modified s name i));;
        is_write_unlock s;;
        when (negb (relport =? IP_NULL)) (ip_release relport);;
        mret KERN_SUCCESS
    end.

Definition delta_dead_name (s name i bits delta : Z) : M Z :=
  if has bits MACH_PORT_TYPE_SEND_RIGHTS then
    e ← entry s i;
    let p := ie_object e in
    massert (negb (p =? IP_NULL));;
    dead ← ipc_right_check s p name i IPC_RIGHT_COPYIN_FLAGS_NONE;
    if negb dead then
      ip_unlock p;;
      mach_port_guard_exception name 0 0 kGUARD_EXC_INVALID_RIGHT;;
      delta_invalid_right s IP_NULL
    else
      e ← entry s i;
      delta_dead s name i (ie_bits e) delta p
  else if negb (has bits MACH_PORT_TYPE_DEAD_NAME) then
    mach_port_guard_exception name 0 0 kGUARD_EXC_INVALID_RIGHT;;
    delta_invalid_right s IP_NULL
  else delta_dead s name i bits delta IP_NULL.

(** The count of a send right changes by [delta]; the port is locked and
    active, and is unlocked.  Returns the requests to notify and the port to
    release. *)
Definition delta_send_apply (s name i p bits delta : Z) : M ((Z * Z) * Z * Z) :=
  if IE_BITS_UREFS bits + delta =? 0 then
    ns ← drop_send_right p;
    if has bits MACH_PORT_TYPE_RECEIVE then
      x ← port p;
      massert (ip_receiver_name x =? name);;
      massert (ip_receiver x =? s);;
      ip_unlock p;;
      massert (IE_BITS_TYPE bits =? MACH_PORT_TYPE_SEND_RECEIVE);;
      upd_entry s i (set_ie_bits
        (Z.land bits (Z.lnot (Z.lor IE_BITS_UREFS_MASK MACH_PORT_TYPE_SEND))));;
      entry_modified s name i;;
      mret (ns, IP_NULL, IP_NULL)
    else
      massert (IE_BITS_TYPE bits =? MACH_PORT_TYPE_SEND);;
      request ← request_cancel s p name i;
      hash_delete s p name i;;
      ip_unlock p;;
      entry_clear_dealloc s name i;;
      mret (ns, request, p)
  else if negb (delta =? 0) then
    ip_unlock p;;
    upd_entry s i (set_ie_bits (u32 (bits + delta)));;
    entry_modified s name i;;
    mret ((IP_NULL, 0), IP_NULL, IP_NULL)
  else
    ip_unlock p;;
    mret ((IP_NULL, 0), IP_NULL, IP_NULL).

Definition delta_send (s name i bits delta : Z) : M Z :=
  if negb (has bits MACH_PORT_TYPE_SEND) then
    when (negb (has bits MACH_PORT_TYPE_DEAD_NAME)
          && (negb (has bits MACH_PORT_TYPE_RECEIVE) || negb (delta =? 1)))
      (mach_port_guard_exception name 0 0 kGUARD_EXC_INVALID_RIGHT);;
    delta_invalid_right s IP_NULL
  else
    e ← entry s i;
    let p := ie_object e in
    massert (negb (p =? IP_NULL));;
    dead ← ipc_right_check s p name i IPC_RIGHT_COPYIN_FLAGS_NONE;
    if (dead : bool) then
      e ← entry s i;
      massert (negb (has (ie_bits e) MACH_PORT_TYPE_SEND));;
      delta_invalid_right s p
    else
      x ← port p;
      massert (0 <? ip_srights x);;
      if negb (delta_in_range delta) then ip_unlock p;; delta_invalid_value s name
      else
        match urefs_delta (IE_BITS_UREFS bits) delta with
        | None => ip_unlock p;; delta_invalid_value s name
        | Some delta =>
            '(ns, request, rel) ← delta_send_apply s name i p bits delta;
            is_write_unlock s;;
            when (negb (rel =? IP_NULL)) (ip_release rel);;
            notify_no_senders ns;;
            notify_port_deleted request name;;
            mret KERN_SUCCESS
        end.

(** The space is locked and active, and unlocked. *)
Definition ipc_right_delta (s name i right delta : Z) : M Z :=
  e ← entry s i;
  let bits := ie_bits e in
  assert_active s;;
  massert (right <? MACH_PORT_RIGHT_NUMBER);;
  if right =? MACH_PORT_RIGHT_PORT_SET then delta_pset s name i bits delta
  else if right =? MACH_PORT_RIGHT_RECEIVE then delta_receive s name i bits delta
  else if right =? MACH_PORT_RIGHT_SEND_ONCE then delta_send_once s name i bits delta
  else if right =? MACH_PORT_RIGHT_DEAD_NAME then delta_dead_name s name i bits delta
  else if right =? MACH_PORT_RIGHT_SEND then delta_send s name i bits delta
  else if right =? MACH_PORT_RIGHT_LABELH then delta_invalid_right s IP_NULL
  else panic "ipc_right_delta: strange right".

(** ** ipc_right_destruct *)

(** Reduces the send rights by [- srdelta]; [None] for an invalid value.  The
    port is locked. *)
Definition destruct_send (s i p bits srdelta : Z) : M (option (Z * Z)) :=
  x ← port p;
  massert (0 <? ip_srights x);;
  let urefs := IE_BITS_UREFS bits in
  if MACH_PORT_UREFS_UNDERFLOW urefs srdelta then mret None
  else
    let srdelta :=
      if (urefs =? MACH_PORT_UREFS_MAX) && negb (srdelta =? - MACH_PORT_UREFS_MAX)
      then 0 else srdelta in
    if urefs + srdelta =? 0 then
      ns ← drop_send_right p;
      massert (IE_BITS_TYPE bits =? MACH_PORT_TYPE_SEND_RECEIVE);;
      upd_entry s i (set_ie_bits
        (Z.land bits (Z.lnot (Z.lor IE_BITS_UREFS_MASK MACH_PORT_TYPE_SEND))));;
      mret (Some ns)
    else
      upd_entry s i (set_ie_bits (u32 (bits + srdelta)));;
      mret (Some (IP_NULL, 0)).

(** The receive right goes; space and port are locked. *)
Definition destruct_receive (s name i p : Z) (ns : Z * Z) : M Z :=
  e ← entry s i;
  let bits := ie_bits e in
  request ←
    (if has bits MACH_PORT_TYPE_SEND then
       massert (0 <? IE_BITS_UREFS bits);;
       massert (IE_BITS_UREFS bits <=? MACH_PORT_UREFS_MAX);;
       receive_gone_send_left s name i p bits;;
       mret IP_NULL
     else receive_gone s name i p bits);
  is_write_unlock s;;
  notify_no_senders ns;;
  ipc_port_destroy p;;
  notify_port_deleted request name;;
  mret KERN_SUCCESS.

(** The space is locked and active, and unlocked. *)
Definition ipc_right_destruct (s name i srdelta guard : Z) : M Z :=
  e ← entry s i;
  let bits := ie_bits e in
  assert_active s;;
  if negb (has bits MACH_PORT_TYPE_RECEIVE) then
    is_write_unlock s;;
    when (negb (has bits MACH_PORT_TYPE_EX_RECEIVE))
      (mach_port_guard_exception name 0 0 kGUARD_EXC_INVALID_RIGHT);;
    mret KERN_INVALID_RIGHT
  else if negb (srdelta =? 0) && negb (has bits MACH_PORT_TYPE_SEND) then
    is_write_unlock s;;
    mach_port_guard_exception name 0 0 kGUARD_EXC_INVALID_RIGHT;;
    mret KERN_INVALID_RIGHT
  else if 0 <? srdelta then delta_invalid_value s name
  else
    let p := ie_object e in
    massert (negb (p =? IP_NULL));;
    ip_lock p;;
    require_ip_active p;;
    x ← port p;
    massert (ip_receiver_name x =? name);;
    massert (ip_receiver x =? s);;
    if ip_guarded x && negb (guard =? ip_context x) then
      ip_unlock p;;
      is_write_unlock s;;
      mach_port_guard_exception name 0 (ip_context x) kGUARD_EXC_DESTROY;;
      mret KERN_INVALID_ARGUMENT
    else
      r ← (if negb (srdelta =? 0) then destruct_send s i p bits srdelta
           else mret (Some (IP_NULL, 0)));
      match r with
      | None => ip_unlock p;; delta_invalid_value s name
      | Some ns => destruct_receive s name i p ns
      end.

(** ** ipc_right_info *)

(** Returns the type and the user references; the space is unlocked. *)
Definition ipc_right_info (s name i : Z) : M (Z * Z) :=
  e ← entry s i;
  let bits := ie_bits e in
  let request := ie_request e in
  let p := ie_object e in
  if has bits MACH_PORT_TYPE_RECEIVE then
    massert (IP_VALID p);;
    type ←
      (if negb (request =? IE_REQ_NONE) then
         ip_lock p;; require_ip_active p;;
         t ← ipc_port_request_type p name request;
         ip_unlock p;; mret t
       else mret 0);
    is_write_unlock s;;
    mret (Z.lor type (IE_BITS_TYPE bits), IE_BITS_UREFS bits)
  else if has bits MACH_PORT_TYPE_SEND_RIGHTS then
    dead ← ipc_right_check s p name i IPC_RIGHT_COPYIN_FLAGS_NONE;
    if negb dead then
      type ← (if negb (request =? IE_REQ_NONE) then ipc_port_request_type p name request
              else mret 0);
      ip_unlock p;;
      is_write_unlock s;;
      mret (Z.lor type (IE_BITS_TYPE bits), IE_BITS_UREFS bits)
    else
      e ← entry s i;
      let bits := ie_bits e in
      massert (IE_BITS_TYPE bits =? MACH_PORT_TYPE_DEAD_NAME);;
      is_write_unlock s;;
      ip_release p;;
      mret (IE_BITS_TYPE bits, IE_BITS_UREFS bits)
  else
    is_write_unlock s;;
    mret (IE_BITS_TYPE bits, IE_BITS_UREFS bits).

(** ** ipc_right_copyin *)

Definition ipc_right_copyin_check_reply (s reply_name i reply_type : Z) : M bool :=
  e ← entry s i;
  let bits := ie_bits e in
  assert_active s;;
  if (reply_type =? MACH_MSG_TYPE_MAKE_SEND) || (reply_type =? MACH_MSG_TYPE_MAKE_SEND_ONCE) then
    mret (has bits MACH_PORT_TYPE_RECEIVE)
  else if reply_type =? MACH_MSG_TYPE_MOVE_RECEIVE then mret false
  else if (reply_type =? MACH_MSG_TYPE_COPY_SEND) || (reply_type =? MACH_MSG_TYPE_MOVE_SEND)
          || (reply_type =? MACH_MSG_TYPE_MOVE_SEND_ONCE) then
    if has bits MACH_PORT_TYPE_DEAD_NAME then mret true
    else if negb (has bits MACH_PORT_TYPE_SEND_RIGHTS) then mret false
    else
      let reply_port := ie_object e in
      massert (negb (reply_port =? IP_NULL));;
      a ← ip_active reply_port;
      if negb a then mret true
      else
        x ← port reply_port;
        if ip_immovable_send x then
          mach_port_guard_exception reply_name 0 0 kGUARD_EXC_IMMOVABLE;;
          mret false
        else if reply_type =? MACH_MSG_TYPE_MOVE_SEND_ONCE
        then mret (has bits MACH_PORT_TYPE_SEND_ONCE)
        else mret (has bits MACH_PORT_TYPE_SEND)
  else panic "ipc_right_copyin_check: strange rights".

Definition ipc_right_copyin_check_guard_locked (name p context flags : Z) : M Z :=
  x ← port p;
  if has flags MACH_MSG_GUARD_FLAGS_UNGUARDED_ON_SEND && negb (ip_guarded x) && (context =? 0)
  then mret KERN_SUCCESS
  else if ip_guarded x && (ip_context x =? context) then mret KERN_SUCCESS
  else
    mach_port_guard_exception name context (ip_context x) kGUARD_EXC_INCORRECT_GUARD;;
    mret KERN_INVALID_ARGUMENT.

(** What a copyin returns through its pointers.  [ci_guard_flags] is [None] for
    a null pointer. *)
Record copyin_result := mkCopyin {
  ci_kr : Z;
  ci_object : Z;
  ci_soright : Z;
  ci_release : Z;
  ci_assertcnt : Z;
  ci_guard_flags : option Z
}.
Definition copyin_ok (object soright release : Z) (gf : option Z) : copyin_result :=
  mkCopyin KERN_SUCCESS object soright release 0 gf.
Definition copyin_err (kr release : Z) (gf : option Z) : copyin_result :=
  mkCopyin kr IO_NULL IP_NULL release 0 gf.

Definition copyin_make_send (s name i bits : Z) (gf : option Z) : M copyin_result :=
  if negb (has bits MACH_PORT_TYPE_RECEIVE) then mret (copyin_err KERN_INVALID_RIGHT IP_NULL gf)
  else
    e ← entry s i;
    let p := ie_object e in
    massert (negb (p =? IP_NULL));;
    ip_lock p;;
    x ← port p;
    massert (ip_receiver_name x =? name);;
    massert (ip_receiver x =? s);;
    ipc_port_make_send_locked p;;
    ip_unlock p;;
    mret (copyin_ok p IP_NULL IP_NULL gf).

Definition copyin_make_send_once (s name i bits : Z) (gf : option Z) : M copyin_result :=
  if negb (has bits MACH_PORT_TYPE_RECEIVE) then mret (copyin_err KERN_INVALID_RIGHT IP_NULL gf)
  else
    e ← entry s i;
    let p := ie_object e in
    massert (negb (p =? IP_NULL));;
    ip_lock p;;
    require_ip_active p;;
    x ← port p;
    massert (ip_receiver_name x =? name);;
    massert (ip_receiver x =? s);;
    ipc_port_make_sonce_locked p;;
    ip_unlock p;;
    mret (copyin_ok p IP_NULL IP_NULL gf).

(** The receive right leaves the entry; the port is locked and active, past the
    checks, and is unlocked. *)
Definition copyin_take_receive (s name i p bits : Z) (gf : option Z) : M copyin_result :=
  x ← port p;
  request ←
    (if has bits MACH_PORT_TYPE_SEND then
       massert (IE_BITS_TYPE bits =? MACH_PORT_TYPE_SEND_RECEIVE);;
       massert (0 <? IE_BITS_UREFS bits);;
       massert (0 <? ip_srights x);;
       hash_insert s p name i;;
       ip_reference p;;
       mret IP_NULL
     else
       massert (IE_BITS_TYPE bits =? MACH_PORT_TYPE_RECEIVE);;
       massert (IE_BITS_UREFS bits =? 0);;
       request ← request_cancel s p name i;
       upd_entry s i (set_ie_object IO_NULL);;
       mret request);
  upd_entry s i (set_ie_bits
    (Z.lor (Z.land bits (Z.lnot MACH_PORT_TYPE_RECEIVE)) MACH_PORT_TYPE_EX_RECEIVE));;
  entry_modified s name i;;
  ipc_port_clear_receiver p false;;
  x ← port p;
  assertcnt ←
    (if negb (ip_tempowner x) then
       massert (ip_imp_task x =? IIT_NULL);;
       upd_port p (set_ip_tempowner true);;
       mret (ip_impcount x)
     else mret 0);
  ip_unlock p;;
  mret (mkCopyin KERN_SUCCESS p request IP_NULL assertcnt
          ((fun f => Z.lor f MACH_MSG_GUARD_FLAGS_UNGUARDED_ON_SEND) <$> gf)).

Definition copyin_move_receive (s name i bits context : Z) (gf : option Z) : M copyin_result :=
  if negb (has bits MACH_PORT_TYPE_RECEIVE) then mret (copyin_err KERN_INVALID_RIGHT IP_NULL gf)
  else
    e ← entry s i;
    let p := ie_object e in
    h ← io p;
    if io_is_kobject h || io_is_kolabeled h then
      mach_port_guard_exception name 0 0 kGUARD_EXC_IMMOVABLE;;
      mret (copyin_err KERN_INVALID_CAPABILITY IP_NULL gf)
    else
      massert (negb (p =? IP_NULL));;
      ip_lock p;;
      require_ip_active p;;
      x ← port p;
      massert (ip_receiver_name x =? name);;
      massert (ip_receiver x =? s);;
      if ip_immovable_receive x || ip_specialreply x then
        ev ← env;
        massert (negb (ip_receiver x =? e_space_kernel ev));;
        ip_unlock p;;
        massert (negb (e_current_task ev =? e_kernel_task ev));;
        mach_port_guard_exception name 0 0 kGUARD_EXC_IMMOVABLE;;
        mret (copyin_err KERN_INVALID_CAPABILITY IP_NULL gf)
      else
        kr ← match gf with
             | Some flags => ipc_right_copyin_check_guard_locked name p context flags
             | None => mret KERN_SUCCESS
             end;
        if negb (kr =? KERN_SUCCESS) then ip_unlock p;; mret (copyin_err kr IP_NULL gf)
        else copyin_take_receive s name i p bits gf.

(** [copy_dead:] and [move_dead:]; [bits] are those of the dead name. *)
Definition copyin_assert_dead (s i bits : Z) : M unit :=
  massert (IE_BITS_TYPE bits =? MACH_PORT_TYPE_DEAD_NAME);;
  massert (0 <? IE_BITS_UREFS bits);;
  e ← entry s i;
  massert (ie_request e =? IE_REQ_NONE);;
  massert (ie_object e =? 0).

Definition copyin_copy_dead (s i bits : Z) (deadok : bool) (release : Z) (gf : option Z)
    : M copyin_result :=
  copyin_assert_dead s i bits;;
  mret (if negb deadok then copyin_err KERN_INVALID_RIGHT release gf
        else copyin_ok IO_DEAD IP_NULL release gf).

Definition copyin_move_dead (s name i bits : Z) (deadok : bool) (release : Z) (gf : option Z)
    : M copyin_result :=
  copyin_assert_dead s i bits;;
  if negb deadok then mret (copyin_err KERN_INVALID_RIGHT release gf)
  else
    let bits := if IE_BITS_UREFS bits =? 1
                then Z.land bits (Z.lnot MACH_PORT_TYPE_DEAD_NAME) else bits in
    when (IE_BITS_UREFS bits <? MACH_PORT_UREFS_MAX) (upd_entry s i (set_ie_bits (bits - 1)));;
    entry_modified s name i;;
    mret (copyin_ok IO_DEAD IP_NULL release gf).

Definition copyin_copy_send (s name i bits flags : Z) (gf : option Z) : M copyin_result :=
  let deadok := flag flags IPC_RIGHT_COPYIN_FLAGS_DEADOK in
  let allow_imm_send := flag flags IPC_RIGHT_COPYIN_FLAGS_ALLOW_IMMOVABLE_SEND in
  if has bits MACH_PORT_TYPE_DEAD_NAME then copyin_copy_dead s i bits deadok IP_NULL gf
  else if negb (has bits MACH_PORT_TYPE_SEND_RIGHTS)
  then mret (copyin_err KERN_INVALID_RIGHT IP_NULL gf)
  else
    massert (0 <? IE_BITS_UREFS bits);;
    e ← entry s i;
    let p := ie_object e in
    massert (negb (p =? IP_NULL));;
    dead ← ipc_right_check s p name i IPC_RIGHT_COPYIN_FLAGS_NONE;
    if (dead : bool) then
      e ← entry s i;
      copyin_copy_dead s i (ie_bits e) deadok p gf
    else
      x ← port p;
      if negb (has bits MACH_PORT_TYPE_SEND) then
        massert (IE_BITS_TYPE bits =? MACH_PORT_TYPE_SEND_ONCE);;
        massert (0 <? ip_sorights x);;
        ip_unlock p;;
        mret (copyin_err KERN_INVALID_RIGHT IP_NULL gf)
      else if negb allow_imm_send && ip_immovable_send x then
        ip_unlock p;;
        mach_port_guard_exception name 0 0 kGUARD_EXC_IMMOVABLE;;
        mret (copyin_err KERN_INVALID_CAPABILITY IP_NULL gf)
      else
        ipc_port_copy_send_locked p;;
        ip_unlock p;;
        mret (copyin_ok p IP_NULL IP_NULL gf).

(** The last user reference leaves the entry with its send right.  Returns the
    request; the port is locked. *)
Definition copyin_last_send (s name i p bits : Z) : M Z :=
  request ←
    (if has bits MACH_PORT_TYPE_RECEIVE then
       x ← port p;
       massert (ip_receiver_name x =? name);;
       massert (ip_receiver x =? s);;
       massert (IE_BITS_TYPE bits =? MACH_PORT_TYPE_SEND_RECEIVE);;
       ip_reference p;;
       mret IP_NULL
     else
       massert (IE_BITS_TYPE bits =? MACH_PORT_TYPE_SEND);;
       request ← request_cancel s p name i;
       hash_delete s p name i;;
       upd_entry s i (set_ie_object IO_NULL);;
       mret request);
  upd_entry s i (set_ie_bits
    (Z.land bits (Z.lnot (Z.lor IE_BITS_UREFS_MASK MACH_PORT_TYPE_SEND))));;
  mret request.

(** The port is locked and active, and unlocked. *)
Definition copyin_take_send (s name i p bits : Z) (gf : option Z) : M copyin_result :=
  request ←
    (if IE_BITS_UREFS bits =? 1 then
       x ← port p;
       massert (0 <? ip_srights x);;
       copyin_last_send s name i p bits
     else
       ipc_port_copy_send_locked p;;
       when (IE_BITS_UREFS bits <? MACH_PORT_UREFS_MAX)
         (upd_entry s i (set_ie_bits (bits - 1)));;
       mret IP_NULL);
  entry_modified s name i;;
  ip_unlock p;;
  mret (copyin_ok p request IP_NULL gf).

Definition copyin_move_send (s name i bits flags : Z) (gf : option Z) : M copyin_result :=
  let deadok := flag flags IPC_RIGHT_COPYIN_FLAGS_DEADOK in
  let allow_imm_send := flag flags IPC_RIGHT_COPYIN_FLAGS_ALLOW_IMMOVABLE_SEND in
  if has bits MACH_PORT_TYPE_DEAD_NAME then copyin_move_dead s name i bits deadok IP_NULL gf
  else if negb (has bits MACH_PORT_TYPE_SEND_RIGHTS)
  then mret (copyin_err KERN_INVALID_RIGHT IP_NULL gf)
  else
    massert (0 <? IE_BITS_UREFS bits);;
    e ← entry s i;
    let p := ie_object e in
    massert (negb (p =? IP_NULL));;
    dead ← ipc_right_check s p name i IPC_RIGHT_COPYIN_FLAGS_NONE;
    if (dead : bool) then
      e ← entry s i;
      copyin_move_dead s name i (ie_bits e) deadok p gf
    else
      x ← port p;
      if negb (has bits MACH_PORT_TYPE_SEND) then
        massert (IE_BITS_TYPE bits =? MACH_PORT_TYPE_SEND_ONCE);;
        massert (0 <? ip_sorights x);;
        ip_unlock p;;
        mret (copyin_err KERN_INVALID_RIGHT IP_NULL gf)
      else if negb allow_imm_send && ip_immovable_send x then
        ip_unlock p;;
        mach_port_guard_exception name 0 0 kGUARD_EXC_IMMOVABLE;;
        mret (copyin_err KERN_INVALID_CAPABILITY IP_NULL gf)
      else copyin_take_send s name i p bits gf.

(** The send-once right leaves the entry; the port is locked, and unlocked. *)
Definition copyin_take_send_once (s name i p bits : Z) (gf : option Z) : M copyin_result :=
  massert (IE_BITS_TYPE bits =? MACH_PORT_TYPE_SEND_ONCE);;
  massert (IE_BITS_UREFS bits =? 1);;
  x ← port p;
  massert (0 <? ip_sorights x);;
  request ← request_cancel s p name i;
  ip_unlock p;;
  upd_entry s i (fun e => set_ie_bits
    (Z.land bits (Z.lnot (Z.lor IE_BITS_UREFS_MASK MACH_PORT_TYPE_SEND_ONCE)))
    (set_ie_object IO_NULL e));;
  entry_modified s name i;;
  mret (copyin_ok p request IP_NULL gf).

Definition copyin_move_send_once (s name i bits flags : Z) (gf : option Z) : M copyin_result :=
  let deadok := flag flags IPC_RIGHT_COPYIN_FLAGS_DEADOK in
  let allow_imm_send := flag flags IPC_RIGHT_COPYIN_FLAGS_ALLOW_IMMOVABLE_SEND in
  if has bits MACH_PORT_TYPE_DEAD_NAME then copyin_move_dead s name i bits deadok IP_NULL gf
  else if negb (has bits MACH_PORT_TYPE_SEND_RIGHTS)
  then mret (copyin_err KERN_INVALID_RIGHT IP_NULL gf)
  else
    massert (0 <? IE_BITS_UREFS bits);;
    e ← entry s i;
    let p := ie_object e in
    massert (negb (p =? IP_NULL));;
    dead ← ipc_right_check s p name i flags;
    if (dead : bool) then
      e ← entry s i;
      copyin_move_dead s name i (ie_bits e) deadok p gf
    else
      x ← port p;
      if negb (has bits MACH_PORT_TYPE_SEND_ONCE) then
        massert (has bits MACH_PORT_TYPE_SEND);;
        massert (0 <? ip_srights x);;
        ip_unlock p;;
        mret (copyin_err KERN_INVALID_RIGHT IP_NULL gf)
      else if negb allow_imm_send && ip_immovable_send x then
        ip_unlock p;;
        mach_port_guard_exception name 0 0 kGUARD_EXC_IMMOVABLE;;
        mret (copyin_err KERN_INVALID_CAPABILITY IP_NULL gf)
      else copyin_take_send_once s name i p bits gf.

(** The space is locked and active. *)
Definition ipc_right_copyin (s name i msgt_name flags context : Z) (gf : option Z)
    : M copyin_result :=
  e ← entry s i;
  let bits := ie_bits e in
  assert_active s;;
  if msgt_name =? MACH_MSG_TYPE_MAKE_SEND then copyin_make_send s name i bits gf
  else if msgt_name =? MACH_MSG_TYPE_MAKE_SEND_ONCE then copyin_make_send_once s name i bits gf
  else if msgt_name =? MACH_MSG_TYPE_MOVE_RECEIVE then
    copyin_move_receive s name i bits context gf
  else if msgt_name =? MACH_MSG_TYPE_COPY_SEND then copyin_copy_send s name i bits flags gf
  else if msgt_name =? MACH_MSG_TYPE_MOVE_SEND then copyin_move_send s name i bits flags gf
  else if msgt_name =? MACH_MSG_TYPE_MOVE_SEND_ONCE then
    copyin_move_send_once s name i bits flags gf
  else mret (copyin_err KERN_INVALID_RIGHT IP_NULL gf).

(** ** ipc_right_copyin_two *)

Definition ipc_right_copyin_two_move_sends (s name i : Z) : M copyin_result :=
  assert_active s;;
  e ← entry s i;
  let bits := ie_bits e in
  let urefs := IE_BITS_UREFS bits in
  if negb (has bits MACH_PORT_TYPE_SEND) || (urefs <? 2)
  then mret (copyin_err KERN_INVALID_RIGHT IP_NULL None)
  else
    let p := ie_object e in
    massert (negb (p =? IP_NULL));;
    dead ← ipc_right_check s p name i IPC_RIGHT_COPYIN_FLAGS_NONE;
    if (dead : bool) then mret (copyin_err KERN_INVALID_RIGHT p None)
    else
      request ←
        (if 2 <? urefs then
           ipc_port_copy_send_locked p;;
           ipc_port_copy_send_locked p;;
           when (urefs <? MACH_PORT_UREFS_MAX) (upd_entry s i (set_ie_bits (bits - 2)));;
           mret IP_NULL
         else
           ipc_port_copy_send_locked p;;
           copyin_last_send s name i p bits);
      entry_modified s name i;;
      ip_unlock p;;
      mret (copyin_ok p request IP_NULL None).

(** One of the dispositions needs the receive right. *)
Definition copyin_two_make (s name i msgt_one msgt_two : Z) : M copyin_result :=
  r ← ipc_right_copyin s name i msgt_one IPC_RIGHT_COPYIN_FLAGS_ALLOW_IMMOVABLE_SEND 0 None;
  massert (ci_assertcnt r =? 0);;
  if negb (ci_kr r =? KERN_SUCCESS) then mret r
  else
    massert (IO_VALID (ci_object r));;
    massert (ci_soright r =? IP_NULL);;
    massert (ci_release r =? IP_NULL);;
    r2 ← ipc_right_copyin s name i msgt_two IPC_RIGHT_COPYIN_FLAGS_NONE 0 None;
    massert (ci_assertcnt r2 =? 0);;
    massert (ci_kr r2 =? KERN_SUCCESS);;
    massert (ci_soright r2 =? IP_NULL);;
    massert (ci_release r2 =? IP_NULL);;
    massert (ci_object r2 =? ci_object r);;
    e ← entry s i;
    massert (has (ie_bits e) MACH_PORT_TYPE_RECEIVE);;
    mret (mkCopyin KERN_SUCCESS (ci_object r) (ci_soright r2) (ci_release r2) 0 None).

Definition ipc_right_copyin_two (s name i msgt_one msgt_two : Z) : M copyin_result :=
  massert (MACH_MSG_TYPE_PORT_ANY_SEND msgt_one);;
  massert (MACH_MSG_TYPE_PORT_ANY_SEND msgt_two);;
  if (msgt_one =? MACH_MSG_TYPE_MOVE_SEND_ONCE) || (msgt_two =? MACH_MSG_TYPE_MOVE_SEND_ONCE)
  then mret (copyin_err KERN_INVALID_RIGHT IP_NULL None)
  else if (msgt_one =? MACH_MSG_TYPE_MAKE_SEND) || (msgt_one =? MACH_MSG_TYPE_MAKE_SEND_ONCE)
       || (msgt_two =? MACH_MSG_TYPE_MAKE_SEND) || (msgt_two =? MACH_MSG_TYPE_MAKE_SEND_ONCE)
  then copyin_two_make s name i msgt_one msgt_two
  else if (msgt_one =? MACH_MSG_TYPE_MOVE_SEND) && (msgt_two =? MACH_MSG_TYPE_MOVE_SEND)
  then ipc_right_copyin_two_move_sends s name i
  else
    let msgt_name :=
      if (msgt_one =? MACH_MSG_TYPE_MOVE_SEND) || (msgt_two =? MACH_MSG_TYPE_MOVE_SEND)
      then MACH_MSG_TYPE_MOVE_SEND else MACH_MSG_TYPE_COPY_SEND in
    r ← ipc_right_copyin s name i msgt_name IPC_RIGHT_COPYIN_FLAGS_ALLOW_IMMOVABLE_SEND 0 None;
    massert (ci_assertcnt r =? 0);;
    if negb (ci_kr r =? KERN_SUCCESS) then mret r
    else
      ipc_port_copy_send (ci_object r);;
      mret r.

(** ** ipc_right_copyout *)

(** The object is locked and active, and unlocked. *)
Definition copyout_send_once (s name i p bits : Z) : M unit :=
  massert (IE_BITS_TYPE bits =? MACH_PORT_TYPE_NONE);;
  massert (IE_BITS_UREFS bits =? 0);;
  x ← port p;
  massert (0 <? ip_sorights x);;
  ev ← env;
  (if ip_specialreply x then
     ipc_port_adjust_special_reply_port_locked p (e_ith_knote ev)
       IPC_PORT_ADJUST_SR_LINK_WORKLOOP false
   else ip_unlock p);;
  upd_entry s i (set_ie_bits (Z.lor bits (Z.lor MACH_PORT_TYPE_SEND_ONCE 1)));;
  entry_modified s name i.

Definition copyout_send (s name i p bits : Z) : M unit :=
  x ← port p;
  massert (0 <? ip_srights x);;
  let finish :=
    upd_entry s i (set_ie_bits (Z.lor bits MACH_PORT_TYPE_SEND + 1));;
    entry_modified s name i in
  if has bits MACH_PORT_TYPE_SEND then
    let urefs := IE_BITS_UREFS bits in
    massert (1 <? ip_srights x);;
    massert (0 <? urefs);;
    massert (urefs <=? MACH_PORT_UREFS_MAX);;
    upd_port p (set_ip_srights (ip_srights x - 1));;
    ip_unlock p;;
    ip_release p;;
    if urefs =? MACH_PORT_UREFS_MAX then mret tt else finish
  else if has bits MACH_PORT_TYPE_RECEIVE then
    massert (IE_BITS_TYPE bits =? MACH_PORT_TYPE_RECEIVE);;
    massert (IE_BITS_UREFS bits =? 0);;
    ip_unlock p;;
    ip_release p;;
    finish
  else
    massert (IE_BITS_TYPE bits =? MACH_PORT_TYPE_NONE);;
    massert (IE_BITS_UREFS bits =? 0);;
    ip_unlock p;;
    hash_insert s p name i;;
    finish.

(** The guard of a receive right sent as immovable.  Returns the context and the
    guard flags given to the receiver. *)
Definition copyout_guard (p kn : Z) (gf : option Z) : M (option Z * option Z) :=
  ev ← env;
  match gf with
  | Some f =>
      if has f MACH_MSG_GUARD_FLAGS_IMMOVABLE_RECEIVE then
        x ← port p;
        massert (negb (ip_immovable_receive x));;
        upd_port p (fun x => set_ip_context (e_ith_msg_addr ev)
          (set_ip_immovable_receive
             (if negb (kn =? ITH_KNOTE_PSEUDO) then true else ip_immovable_receive x)
             (set_ip_strict_guard false (set_ip_guarded true x))));;
        mret (Some (e_ith_msg_addr ev),
              Some (Z.land f (Z.lnot MACH_MSG_GUARD_FLAGS_UNGUARDED_ON_SEND)))
      else mret (None, gf)
  | None => mret (None, None)
  end.

Definition copyout_receive (s name i p bits : Z) (gf : option Z) : M (option Z * option Z) :=
  x ← port p;
  let assertcnt := ip_impcount x in
  massert (ip_mscount x =? 0);;
  massert (ip_receiver_name x =? MACH_PORT_NULL);;
  h ← io p;
  if io_is_kobject h || io_is_kolabeled h
  then panic "ipc_right_copyout: Copyout kobject/kolabel as receive right"
  else
    imq_lock p;;
    let dest := ip_destination x in
    upd_port p (fun x => set_ip_receiver s (set_ip_receiver_name name x));;
    ev ← env;
    let kn := e_ith_knote ev in
    out ← copyout_guard p kn gf;
    massert (negb (has bits MACH_PORT_TYPE_RECEIVE));;
    (if has bits MACH_PORT_TYPE_SEND then
       massert (IE_BITS_TYPE bits =? MACH_PORT_TYPE_SEND);;
       massert (0 <? IE_BITS_UREFS bits);;
       massert (0 <? ip_srights x)
     else
       massert (IE_BITS_TYPE bits =? MACH_PORT_TYPE_NONE);;
       massert (IE_BITS_UREFS bits =? 0));;
    let sync_bootstrap_checkin :=
      negb (kn =? ITH_KNOTE_PSEUDO) && ip_sync_bootstrap_checkin x in
    let kn := if ITH_KNOTE_VALID kn MACH_MSG_TYPE_PORT_RECEIVE then kn else 0 in
    ipc_port_adjust_port_locked p kn sync_bootstrap_checkin;;
    when (has bits MACH_PORT_TYPE_SEND) (ip_release p;; hash_delete s p name i);;
    upd_entry s i (set_ie_bits (Z.lor bits MACH_PORT_TYPE_RECEIVE));;
    entry_modified s name i;;
    when (negb (dest =? IP_NULL))
      (ip_lock dest;;
       ipc_port_impcount_delta dest (- assertcnt);;
       ip_unlock dest;;
       ipc_port_send_turnstile_complete dest;;
       ip_release dest);;
    mret out.

(** The space is locked and active; the object is locked and active, and is
    unlocked.  Returns the context and guard flags written through pointers. *)
Definition ipc_right_copyout (s name i msgt_name : Z) (gf : option Z) (object : Z)
    : M (Z * (option Z * option Z)) :=
  e ← entry s i;
  let bits := ie_bits e in
  massert (IO_VALID object);;
  h ← io object;
  massert (io_otype h =? IOT_PORT);;
  massert (io_active h);;
  massert (ie_object e =? object);;
  if msgt_name =? MACH_MSG_TYPE_PORT_SEND_ONCE then
    copyout_send_once s name i object bits;; mret (KERN_SUCCESS, (None, gf))
  else if msgt_name =? MACH_MSG_TYPE_PORT_SEND then
    copyout_send s name i object bits;; mret (KERN_SUCCESS, (None, gf))
  else if msgt_name =? MACH_MSG_TYPE_PORT_RECEIVE then
    out ← copyout_receive s name i object bits gf; mret (KERN_SUCCESS, out)
  else panic "ipc_right_copyout: strange rights".
