(* ===== verification/IpcHeld.v ===== *)
(** * The entry that a right operation works on

    Between the lookup of a name and the unlocking of its space, an operation
    of ipc_right.c changes one entry, its hash links and its place in the free
    list.  [held] describes the space in between: everything but that entry is
    as it was.  There is one rule of symbolic execution for each thing that the
    operations do to the entry. *)

From S2P Require Import Prelude IpcTypes IpcBits IpcHash IpcTable KernelState Kernel IpcFreelist IpcEntry IpcEntryInv IpcGrow IpcAlloc IpcPort IpcRight.

(** The tables whose probe distances cannot saturate.  Only there is the deletion
    of an entry from the hash known to keep the hash exact (see
    [IpcHashSaturation]); nothing else depends on the size of the table. *)
Definition small_table (sp : ipc_space) : Prop := is_table_size sp <= IPC_ENTRY_DIST_MAX + 1.

(** Space [sp] comes from [sp0], with free list [l], by changes to entry [i] and
    to hash links only.  The entry holds object [o], bits [b] and request [r];
    [h] tells whether it is hashed. *)
Record held (sizes : list Z) (sp0 : ipc_space) (l : list Z) (i : Z) (h : bool) (o b r : Z)
    (sp : ipc_space) : Prop := {
  hd_wf : space_wf sp l;
  hd_active : is_active sp = true;
  hd_growing : is_growing sp = false;
  hd_table : table_ok sizes sp;
  hd_size : is_table_size sp = is_table_size sp0;
  hd_free : i ∉ 0 :: l;
  hd_entry : exists d x, aget (is_table sp) i = Some (mkEntry o b d x r);
  hd_ih : ih_wf (is_table sp);
  hd_hashed : ih_hashed (is_table sp) i <-> h = true;
  hd_others j : j <> i ->
    ih_hashed (is_table sp) j <-> exists e, aget (is_table sp) j = Some e /\ entry_hashed e = true;
  hd_frame j : j <> i ->
    set_ie_hash 0 0 <$> aget (is_table sp) j = set_ie_hash 0 0 <$> aget (is_table sp0) j;
  hd_same : is_bits sp = is_bits sp0 /\ is_task sp = is_task sp0 /\ is_label sp = is_label sp0
}.

(** The space after the entry has been given back. *)
Record freed (sizes : list Z) (sp0 : ipc_space) (l : list Z) (i : Z) (sp : ipc_space) : Prop := {
  fr_ready : space_ready sizes sp (i :: l);
  fr_size : is_table_size sp = is_table_size sp0;
  fr_frame j : j ∉ 0 :: i :: l ->
    set_ie_hash 0 0 <$> aget (is_table sp) j = set_ie_hash 0 0 <$> aget (is_table sp0) j;
  fr_same : is_bits sp = is_bits sp0 /\ is_task sp = is_task sp0 /\ is_label sp = is_label sp0
}.

Lemma entry_hashed_strip e e' :
  set_ie_hash 0 0 e = set_ie_hash 0 0 e' -> entry_hashed e = entry_hashed e'.
Proof. intros (Eo & Eb & _)%strip_eq. unfold entry_hashed. by rewrite Eo, Eb. Qed.

Section held.
Context (sizes : list Z) (sp0 : ipc_space) (l : list Z) (i : Z).

(** Taking hold of an entry in use. *)
Lemma held_intro e sp :
  space_ready sizes sp l -> i ∉ 0 :: l -> aget (is_table sp) i = Some e ->
  held sizes sp l i (entry_hashed e) (ie_object e) (ie_bits e) (ie_request e) sp.
Proof.
  intros [W Ha Hg T [Hw Hx]] Hi He. split; try done.
  - destruct e. by eexists _, _.
  - rewrite Hx, He. naive_solver.
Qed.

(** Letting go of it. *)
Lemma held_ready h o b r sp :
  held sizes sp0 l i h o b r sp ->
  h = negb (o =? IO_NULL) && (IE_BITS_TYPE b =? MACH_PORT_TYPE_SEND) -> space_ready sizes sp l.
Proof.
  intros [] Hh. split; try done. split; [done|]. intros j. destruct (decide (j = i)) as [->|]; [|auto].
  rewrite hd_hashed0. destruct hd_entry0 as (d & x & ->). unfold entry_hashed. split; [|naive_solver].
  intros ->. eexists. split; [done|]. exact (eq_sym Hh).
Qed.

Section rules.
Context (h : bool) (o b r : Z) (sp : ipc_space) (H : held sizes sp0 l i h o b r sp).

Lemma held_range : 0 < i < is_table_size sp.
Proof.
  destruct H. destruct hd_entry0 as (d & x & He). apply aget_Some_range in He as Hr.
  rewrite (sw_len _ _ hd_wf0) in Hr. rewrite not_elem_of_cons in hd_free0. lia.
Qed.

Lemma held_object : ih_object (is_table sp) i = o.
Proof. destruct H. destruct hd_entry0 as (d & x & He). unfold ih_object. by rewrite He. Qed.

(** A new table with the same free list. *)
Lemma held_update h' o' b' r' t' hc :
  alen t' = alen (is_table sp) ->
  (exists d x, aget t' i = Some (mkEntry o' b' d x r')) -> gen_roll b' = gen_roll b ->
  ih_wf t' -> (ih_hashed t' i <-> h' = true) ->
  (forall j, j <> i -> ih_hashed t' j <-> ih_hashed (is_table sp) j) ->
  (forall j, j <> i -> set_ie_hash 0 0 <$> aget t' j = set_ie_hash 0 0 <$> aget (is_table sp) j) ->
  held sizes sp0 l i h' o' b' r' (set_is_table_hashed hc (set_is_table t' sp)).
Proof.
  intros Hlen He' Hgr Hw Hh Ho Hf.
  assert (Hj : forall j e, j <> i -> aget t' j = Some e -> exists e1, aget (is_table sp) j = Some e1 /\
    set_ie_hash 0 0 e = set_ie_hash 0 0 e1).
  { intros j e Hj He. specialize (Hf j Hj). rewrite He in Hf. simpl in Hf. symmetry in Hf.
    apply fmap_Some in Hf as (e1 & ? & ?). by exists e1. }
  assert (Hj' : forall j e, j <> i -> aget (is_table sp) j = Some e -> exists e1, aget t' j = Some e1 /\
    set_ie_hash 0 0 e = set_ie_hash 0 0 e1).
  { intros j e Hj1 He. specialize (Hf j Hj1). rewrite He in Hf. simpl in Hf.
    apply fmap_Some in Hf as (e1 & ? & ?). by exists e1. }
  destruct H as [[] ? ? T ? Hfree (d0 & x0 & He0) ? ? ? ? ?]. split; simpl; try done.
  - split; simpl; try done.
    + congruence.
    + eapply fl_chain_ext; [|done]. intros j Hjl. unfold fl_next.
      specialize (Hf j ltac:(intros ->; done)).
      destruct (aget t' j), (aget (is_table sp) j); simpl in Hf; try done.
      simpl. f_equal. apply (inj Some) in Hf. by apply strip_eq in Hf as (_ & _ & ->).
    + destruct sw_head as (e & He & Eo & Eb).
      destruct (Hj' 0 e ltac:(set_solver) He) as (e1 & He1 & (Eo1 & Eb1 & _)%strip_eq).
      exists e1. split; [done|]. split; congruence.
    + intros j e Hjl He. destruct (Hj j e ltac:(set_solver) He) as (e1 & He1 & (Eo1 & Eb1 & _)%strip_eq).
      unfold entry_free. rewrite Eo1, Eb1. by apply (sw_free j).
    + intros j e Hjl He. destruct (decide (j = i)) as [->|Hji].
      * destruct He' as (d & x & He'). rewrite He in He'. injection He' as ->. simpl.
        rewrite Hgr. by apply (sw_used i _ Hjl He0).
      * destruct (Hj j e Hji He) as (e1 & He1 & (_ & -> & _)%strip_eq). by apply (sw_used j).
  - by destruct T.
  - intros j Hji. rewrite Ho, hd_others0 by done. split; intros (e & He & Hhe).
    + destruct (Hj' j e Hji He) as (e1 & He1 & E). exists e1. split; [done|].
      by rewrite <- (entry_hashed_strip _ _ E).
    + destruct (Hj j e Hji He) as (e1 & He1 & E). exists e1. split; [done|].
      by rewrite <- (entry_hashed_strip _ _ E).
  - intros j Hji. rewrite Hf by done. auto.
Qed.

Lemma held_aset o' b' d x r' :
  aget (is_table sp) i = Some (mkEntry o b d x r) ->
  (h = true -> o' = o) -> gen_roll b' = gen_roll b ->
  held sizes sp0 l i h o' b' r' (set_is_table (aset (is_table sp) i (mkEntry o' b' d x r')) sp).
Proof.
  intros He Ho Hgr. apply aget_Some_range in He as Hr.
  set (t' := aset (is_table sp) i (mkEntry o' b' d x r')).
  apply (held_update h o' b' r' t' (is_table_hashed sp)).
  - apply alen_aset.
  - eexists _, _. by apply aget_aset_eq.
  - done.
  - apply (ih_upd_wf _ _ _ _ He); [done..|apply H|]. intros Hh. apply Ho. by apply H.
  - unfold t'. rewrite (ih_upd_hashed _ _ _ _ He) by done. apply H.
  - intros j Hj. by apply (ih_upd_hashed _ _ _ _ He).
  - intros j Hj. unfold t'. by rewrite aget_aset_ne by done.
Qed.

Lemma held_modified : held sizes sp0 l i h o b r (modified_space sp i).
Proof.
  pose proof held_range. destruct H as [W]. split; try done.
  - apply modified_wf; [done|lia].
  - by destruct hd_table0.
Qed.

Lemma held_name name : name = entry_name i b -> MACH_PORT_INDEX name = i.
Proof.
  intros ->. pose proof held_range. pose proof (sw_size _ _ (hd_wf _ _ _ _ _ _ _ _ _ H)).
  apply entry_name_index. lia.
Qed.

Lemma held_rehash h' t' hc :
  ih_strip t' = ih_strip (is_table sp) -> ih_wf t' -> (ih_hashed t' i <-> h' = true) ->
  (forall j, j <> i -> ih_hashed t' j <-> ih_hashed (is_table sp) j) ->
  held sizes sp0 l i h' o b r (set_is_table_hashed hc (set_is_table t' sp)).
Proof.
  intros Hst Hw Hh Ho.
  assert (Hf : forall j, set_ie_hash 0 0 <$> aget t' j = set_ie_hash 0 0 <$> aget (is_table sp) j)
    by (intros j; rewrite <- !aget_ih_strip; congruence).
  apply (held_update h' o b r t'); try done.
  - by apply ih_strip_len.
  - destruct (hd_entry _ _ _ _ _ _ _ _ _ H) as (d & x & He). specialize (Hf i). rewrite He in Hf.
    apply fmap_Some in Hf as ([] & -> & [= -> -> ->]). by eexists _, _.
Qed.

Lemma held_hash_delete name :
  small_table sp0 -> h = true -> MACH_PORT_INDEX name = i ->
  exists sp', ipc_hash_delete sp o name i = Some (tt, sp') /\ held sizes sp0 l i false o b r sp'.
Proof.
  intros Hsm Hh Hn. pose proof (hd_wf _ _ _ _ _ _ _ _ _ H) as W.
  unfold small_table in Hsm. rewrite <- (hd_size _ _ _ _ _ _ _ _ _ H), <- (sw_len _ _ W) in Hsm.
  destruct (ih_delete_ok (is_table sp) o i) as (t' & Hdel & Hw & _ & Hst & Hh');
    [apply H|by apply ih_small_unpegged|by apply H|apply held_object|].
  unfold ipc_hash_delete. rewrite Hn, Z.eqb_refl. osimpl. simpl. rewrite <- (sw_len _ _ W), Hdel.
  osimpl. eexists. split; [done|]. apply (held_rehash false t'); [done|done|..].
  - rewrite Hh'. naive_solver.
  - intros j Hj. rewrite Hh'. naive_solver.
Qed.

Lemma held_hash_insert name :
  h = false -> o <> IO_NULL -> MACH_PORT_INDEX name = i ->
  exists sp', ipc_hash_insert sp o name i = Some (tt, sp') /\ held sizes sp0 l i true o b r sp'.
Proof.
  intros Hh Ho Hn. pose proof (hd_wf _ _ _ _ _ _ _ _ _ H) as W. pose proof held_range as Hr.
  destruct (ih_insert_ok (is_table sp) o i) as (t' & Hins & Hw & Hst & Hh');
    [apply H|by rewrite (sw_len _ _ W)|apply held_object|done
    |rewrite (hd_hashed _ _ _ _ _ _ _ _ _ H); by rewrite Hh|].
  unfold ipc_hash_insert. rewrite Hn, Z.eqb_refl. osimpl. simpl. rewrite <- (sw_len _ _ W), Hins.
  osimpl. eexists. split; [done|]. apply (held_rehash true t'); [done|done|..].
  - rewrite Hh'. naive_solver.
  - intros j Hj. rewrite Hh'. naive_solver.
Qed.

(** Giving back an entry that has been cleared. *)
Lemma held_dealloc name :
  h = false -> o = IO_NULL -> r = IE_REQ_NONE -> name = entry_name i b ->
  exists sp', ipc_entry_dealloc sp name i = Some (tt, sp') /\ freed sizes sp0 l i sp'.
Proof.
  intros Hh Ho Hr Hn. pose proof H as [W Ha Hg T Hsm Hfree (d & x & He) Hw Hhd Hoth Hf Hsame].
  destruct (sw_head _ _ W) as (hd & Hhead & Hho & _).
  exists (dealloced_space sp hd (mkEntry o b d x r) i). split; [by apply (dealloc_ok sp l)|].
  assert (Hi0 : i <> 0) by set_solver.
  split; simpl; try done.
  - split; simpl; try done.
    + by apply dealloced_wf.
    + by destruct T.
    + set (e' := set_ie_next (ie_next hd) (set_ie_bits (gen_roll b) (mkEntry o b d x r))).
      apply (hash_exact_aset _ 0 hd); [|by rewrite aget_aset_ne by done|done..].
      split.
      * apply (ih_upd_wf _ _ _ _ He); [done..|]. intros Hc%Hhd. congruence.
      * intros j. rewrite (ih_upd_hashed _ _ _ _ He) by done. destruct (decide (j = i)) as [->|Hj].
        -- apply aget_Some_range in He as Hri. rewrite Hhd, Hh, aget_aset_eq by done.
           split; [done|]. intros (e1 & [= <-] & Hhe). unfold e' in Hhe. simpl in Hhe.
           by rewrite entry_hashed_null in Hhe.
        -- rewrite Hoth, aget_aset_ne by done. done.
  - intros j Hj. rewrite !aget_aset_ne by set_solver. apply Hf. set_solver.
Qed.
End rules.
End held.

(** ** Rules of symbolic execution *)

Section wp_held.
Context {sizes : list Z} {sp0 : ipc_space} {l : list Z} {i : Z} {h : bool} {o b r : Z}.
Context {sp : ipc_space} {s : Z} {w : world}.
Context (Hs : w_space w !! s = Some sp) (H : held sizes sp0 l i h o b r sp).

Lemma wp_held_entry (Q : ipc_entry -> world -> Prop) :
  (forall d x, Q (mkEntry o b d x r) w) -> wp (entry s i) Q w.
Proof.
  intros HQ. destruct (hd_entry _ _ _ _ _ _ _ _ _ H) as (d & x & He).
  by eapply wp_entry.
Qed.

Lemma wp_held_upd (f : ipc_entry -> ipc_entry) o' b' r' (Q : unit -> world -> Prop) :
  (forall d x, f (mkEntry o b d x r) = mkEntry o' b' d x r') ->
  (h = true -> o' = o) -> gen_roll b' = gen_roll b ->
  (forall sp', held sizes sp0 l i h o' b' r' sp' ->
     Q tt (set_w_space (<[s := sp']> (w_space w)) w)) -> wp (upd_entry s i f) Q w.
Proof.
  intros Hf Ho Hgr HQ. destruct (hd_entry _ _ _ _ _ _ _ _ _ H) as (d & x & He).
  eapply wp_upd_entry; [done..|]. apply HQ. rewrite Hf. by apply (held_aset _ _ _ _ h o b r).
Qed.

Lemma wp_held_modified name (Q : unit -> world -> Prop) :
  name = entry_name i b ->
  (forall sp', held sizes sp0 l i h o b r sp' ->
     Q tt (set_w_space (<[s := sp']> (w_space w)) w)) -> wp (entry_modified s name i) Q w.
Proof.
  intros Hn HQ. pose proof (hd_wf _ _ _ _ _ _ _ _ _ H) as W. pose proof (sw_mods _ _ W).
  pose proof (held_range _ _ _ _ _ _ _ _ _ H). eapply wp_on_space; [done| |].
  - apply modified_ok; [by eapply held_name|lia..].
  - apply HQ. by apply held_modified.
Qed.

Lemma wp_held_hash_delete name (Q : unit -> world -> Prop) :
  small_table sp0 -> h = true -> name = entry_name i b ->
  (forall sp', held sizes sp0 l i false o b r sp' ->
     Q tt (set_w_space (<[s := sp']> (w_space w)) w)) -> wp (hash_delete s o name i) Q w.
Proof.
  intros Hsm Hh Hn HQ. destruct (held_hash_delete _ _ _ _ _ _ _ _ _ H name Hsm Hh) as (sp' & Hd & H');
    [by eapply held_name|]. eapply wp_on_space; [done..|auto].
Qed.

Lemma wp_held_hash_insert name (Q : unit -> world -> Prop) :
  h = false -> o <> IO_NULL -> name = entry_name i b ->
  (forall sp', held sizes sp0 l i true o b r sp' ->
     Q tt (set_w_space (<[s := sp']> (w_space w)) w)) -> wp (hash_insert s o name i) Q w.
Proof.
  intros Hh Ho Hn HQ. destruct (held_hash_insert _ _ _ _ _ _ _ _ _ H name Hh Ho) as (sp' & Hd & H');
    [by eapply held_name|]. eapply wp_on_space; [done..|auto].
Qed.

Lemma wp_held_dealloc name (Q : unit -> world -> Prop) :
  h = false -> o = IO_NULL -> r = IE_REQ_NONE -> name = entry_name i b ->
  (forall sp', freed sizes sp0 l i sp' ->
     Q tt (set_w_space (<[s := sp']> (w_space w)) w)) -> wp (entry_dealloc s name i) Q w.
Proof.
  intros Hh Ho Hr Hn HQ. destruct (held_dealloc _ _ _ _ _ _ _ _ _ H name Hh Ho Hr Hn)
    as (sp' & Hd & H'). eapply wp_on_space; [done..|auto].
Qed.

Lemma wp_held_active (Q : unit -> world -> Prop) : Q tt w -> wp (assert_active s) Q w.
Proof.
  intros HQ. unfold assert_active. apply wp_bind. eapply wp_space; [done|].
  apply wp_massert; [apply H|done].
Qed.
End wp_held.

(** *** Tactics *)

(** The name of the held entry; a change of its user references or of its type
    keeps it. *)
Ltac hname := first [eassumption | reflexivity | idtac].

(** The rest of a step that gives a new held space. *)
Ltac hnext :=
  let sp' := fresh "sp'" in let H' := fresh "Hd" in
  intros sp' H'; wnorm; rewrite ?insert_insert_eq.

(** The entry the source's field assignments give. *)
Ltac hset :=
  intros; cbv [set_ie_object set_ie_bits set_ie_hash set_ie_next];
  cbn [ie_object ie_bits ie_dist ie_index ie_next]; reflexivity.

Ltac wp_entry_step ::=
  first
    [ eapply wp_held_entry; [wlook|eassumption|];
      let d := fresh "d" in let y := fresh "y" in intros d y
    | eapply wp_entry; [wlook|try eassumption|] ].
Ltac wp_upd_entry_step ::=
  first
    [ eapply wp_held_upd; [wlook|eassumption|hset|try done|try done|hnext]
    | eapply wp_upd_entry; [wlook|try eassumption|] ].
Ltac wp_held :=
  lazymatch goal with
  | |- wp (entry_modified _ _ _) _ _ => eapply wp_held_modified; [wlook|eassumption|hname|hnext]
  | |- wp (hash_delete _ _ _ _) _ _ => eapply wp_held_hash_delete; [wlook|eassumption|try eassumption|try done|hname|hnext]
  | |- wp (hash_insert _ _ _ _) _ _ =>
      eapply wp_held_hash_insert; [wlook|eassumption|try done|try done|hname|hnext]
  | |- wp (entry_dealloc _ _ _) _ _ =>
      eapply wp_held_dealloc; [wlook|eassumption|try done|try done|try done|hname|hnext]
  | |- wp (entry_clear_dealloc _ _ _) _ _ => unfold entry_clear_dealloc
  | |- wp (assert_active _) _ _ => eapply wp_held_active; [wlook|eassumption|]
  end.
