(* ===== verification/IpcRights.v ===== *)
(** * The rights of all spaces, and what the counts of ports mean

    The abstract state is a finite map from (space, entry) to the right that
    the entry denotes, together with the naked rights: those that are in
    messages, in the kernel or in notification requests.  The invariant ties
    the counts of every port to it: the send and send-once counts are the
    numbers of such rights, a live port has one receive right, and the
    references of an object are those of the entries and of the naked rights. *)

From S2P Require Import Prelude IpcTypes IpcBits IpcHash IpcTable KernelState Kernel IpcFreelist IpcEntry IpcEntryInv IpcGrow IpcAlloc IpcPort IpcRight IpcHeld.

(** ** Rights *)

Record right := mkRight { r_object : Z; r_bits : Z; r_request : Z }.
#[export] Instance right_eq_dec : EqDecision right.
Proof. solve_decision. Defined.
Abbreviation rights := (gmap (Z * Z) right).

(** The right that entry [i] of space [s] denotes. *)
Definition right_at (spaces : gmap Z ipc_space) (s i : Z) : option right :=
  sp ← spaces !! s;
  e ← aget (is_table sp) i;
  if IE_BITS_TYPE (ie_bits e) =? MACH_PORT_TYPE_NONE then None
  else Some (mkRight (ie_object e) (ie_bits e) (ie_request e)).

Definition is_ref (o : Z) (a : right) : bool := r_object a =? o.
Definition is_send (p : Z) (a : right) : bool := is_ref p a && has (r_bits a) MACH_PORT_TYPE_SEND.
Definition is_sonce (p : Z) (a : right) : bool :=
  is_ref p a && has (r_bits a) MACH_PORT_TYPE_SEND_ONCE.
Definition is_recv (p : Z) (a : right) : bool :=
  is_ref p a && has (r_bits a) MACH_PORT_TYPE_RECEIVE.

(** The tests of a right for [p], and of one for another object. *)
Lemma rights_at p a :
  r_object a = p ->
  is_ref p a = true /\ is_send p a = has (r_bits a) MACH_PORT_TYPE_SEND /\
  is_sonce p a = has (r_bits a) MACH_PORT_TYPE_SEND_ONCE /\
  is_recv p a = has (r_bits a) MACH_PORT_TYPE_RECEIVE.
Proof.
  intros E. unfold is_send, is_sonce, is_recv, is_ref. by rewrite (proj2 (Z.eqb_eq _ _) E).
Qed.

Lemma rights_off p a :
  r_object a <> p ->
  is_ref p a = false /\ is_send p a = false /\ is_sonce p a = false /\ is_recv p a = false.
Proof.
  intros E. unfold is_send, is_sonce, is_recv, is_ref. by rewrite (proj2 (Z.eqb_neq _ _) E).
Qed.

(** ** Counting *)

Definition count (P : right -> bool) (R : rights) : Z :=
  Z.of_nat (size (filter (fun ka => P ka.2 = true) R)).

(** Entry [k] now denotes [a], or nothing. *)
Definition put (k : Z * Z) (a : option right) (R : rights) : rights :=
  partial_alter (fun _ => a) k R.

Lemma put_eq k a R : put k a R !! k = a.
Proof. apply lookup_partial_alter_eq. Qed.

Lemma put_ne k k' a R : k <> k' -> put k a R !! k' = R !! k'.
Proof. intros. by apply lookup_partial_alter_ne. Qed.

Definition counts (P : right -> bool) (a : option right) : Z :=
  match a with Some a => Z.b2z (P a) | None => 0 end.

Section count.
Context (P : right -> bool) (R : rights).

Lemma count_nonneg : 0 <= count P R.
Proof. unfold count. lia. Qed.

Lemma count_put_new k a : R !! k = None -> count P (put k a R) = count P R + counts P a.
Proof.
  intros Hk. unfold count, put. destruct a as [a|]; simpl.
  - change (partial_alter _ k R) with (<[k := a]> R). destruct (P a) eqn:E.
    + rewrite map_filter_insert_True by done. rewrite map_size_insert_None; [simpl; lia|].
      apply map_lookup_filter_None. by left.
    + rewrite map_filter_insert_False by (simpl; congruence). rewrite delete_id by done. simpl. lia.
  - change (partial_alter _ k R) with (delete k R). rewrite delete_id by done. lia.
Qed.
End count.

Lemma count_put P R k a : count P (put k a R) = count P R - counts P (R !! k) + counts P a.
Proof.
  assert (Hd : forall a', put k a' (delete k R) = put k a' R).
  { intros a'. apply map_eq. intros k'. destruct (decide (k = k')) as [<-|].
    - by rewrite !put_eq.
    - by rewrite !put_ne, lookup_delete_ne by done. }
  rewrite <- (Hd a), count_put_new by apply lookup_delete_eq.
  assert (E : put k (R !! k) (delete k R) = R).
  { apply map_eq. intros k'. destruct (decide (k = k')) as [<-|]; [by rewrite put_eq|].
    by rewrite put_ne, lookup_delete_ne by done. }
  rewrite <- E at 2. rewrite count_put_new by apply lookup_delete_eq. lia.
Qed.

Lemma counts_range P a : 0 <= counts P a <= 1.
Proof. destruct a as [a|]; simpl; [destruct (P a); simpl|]; lia. Qed.

Lemma count_get P R k : counts P (R !! k) <= count P R.
Proof.
  pose proof (count_put P R k None) as H. pose proof (count_nonneg P (put k None R)).
  simpl in H. lia.
Qed.

Lemma count_two P R k k' a a' :
  k <> k' -> R !! k = Some a -> R !! k' = Some a' -> P a = true -> P a' = true -> 2 <= count P R.
Proof.
  intros Hk Ha Ha' Pa Pa'. pose proof (count_put P R k None) as H. rewrite Ha in H. simpl in H.
  rewrite Pa in H. simpl in H. pose proof (count_get P (put k None R) k') as H'.
  rewrite put_ne, Ha' in H' by done. simpl in H'. rewrite Pa' in H'. simpl in H'. lia.
Qed.

Lemma count_mono P P' R : (forall a, P a = true -> P' a = true) -> count P R <= count P' R.
Proof.
  intros H. unfold count. apply Nat2Z.inj_le, map_subseteq_size, map_subseteq_spec.
  intros k a. rewrite !map_lookup_filter_Some. naive_solver.
Qed.

Lemma count_ex P R : 0 < count P R -> exists k a, R !! k = Some a /\ P a = true.
Proof.
  unfold count. intros H. destruct (map_choose (filter (fun ka => P ka.2 = true) R)) as (k & a & Hk).
  - intros E. rewrite E, map_size_empty in H. lia.
  - apply map_lookup_filter_Some in Hk as [? ?]. eauto.
Qed.

(** ** Well-formed rights *)

Definition bits_ok (b : Z) : Prop :=
  let t := IE_BITS_TYPE b in
  let u := IE_BITS_UREFS b in
  (t = MACH_PORT_TYPE_SEND /\ 0 < u) \/ (t = MACH_PORT_TYPE_RECEIVE /\ u = 0) \/
  (t = MACH_PORT_TYPE_SEND_RECEIVE /\ 0 < u) \/ (t = MACH_PORT_TYPE_SEND_ONCE /\ u = 1) \/
  (t = MACH_PORT_TYPE_PORT_SET /\ u = 0) \/ (t = MACH_PORT_TYPE_DEAD_NAME /\ 0 < u).

(** A right that names a port for its space: there is one per port. *)
Definition names_port (b : Z) : bool :=
  has b MACH_PORT_TYPE_SEND || has b MACH_PORT_TYPE_RECEIVE.

Record right_ok (io : gmap Z ipc_object) (ports : gmap Z ipc_port) (k : Z * Z) (a : right)
    : Prop := {
  ro_bits : bits_ok (r_bits a);
  ro_dead : IE_BITS_TYPE (r_bits a) = MACH_PORT_TYPE_DEAD_NAME ->
    r_object a = IO_NULL /\ r_request a = IE_REQ_NONE;
  ro_pset : IE_BITS_TYPE (r_bits a) = MACH_PORT_TYPE_PORT_SET ->
    r_request a = IE_REQ_NONE /\ exists h, io !! r_object a = Some h /\
      io_otype h = IOT_PORT_SET /\ io_active h = true;
  ro_port : is_port_type (IE_BITS_TYPE (r_bits a)) = true ->
    exists x, ports !! r_object a = Some x /\
      (has (r_bits a) MACH_PORT_TYPE_RECEIVE = true ->
       ip_receiver x = k.1 /\ ip_receiver_name x = entry_name k.2 (r_bits a))
}.

(** ** Spaces *)

Definition active_in (spaces : gmap Z ipc_space) (s : Z) : bool :=
  match spaces !! s with Some sp => is_active sp | None => false end.

(** The entries in [X] may be off the free list without a type. *)
Record space_inv (sizes : list Z) (X : gset (Z * Z)) (spaces : gmap Z ipc_space) (R : rights)
    : Prop := {
  si_rights s i : R !! (s, i) = right_at spaces s i;
  si_space s sp : spaces !! s = Some sp -> is_active sp = true ->
    exists l, space_ready sizes sp l /\
      forall i e, i ∉ 0 :: l -> aget (is_table sp) i = Some e ->
        IE_BITS_TYPE (ie_bits e) = MACH_PORT_TYPE_NONE ->
        (s, i) ∈ X /\ IE_BITS_UREFS (ie_bits e) = 0 /\ ie_request e = IE_REQ_NONE;
  si_unique s i j a a' : R !! (s, i) = Some a -> R !! (s, j) = Some a' ->
    r_object a = r_object a' -> names_port (r_bits a) = true -> names_port (r_bits a') = true ->
    i = j;
  si_null : active_in spaces IS_NULL = false
}.

(** ** Notification requests *)

Definition rq_next (slots : list ipc_port_request) (i : Z) : option Z := ipr_next <$> aget slots i.

Fixpoint rq_chain (slots : list ipc_port_request) (i : Z) (l : list Z) : Prop :=
  match l with
  | [] => rq_next slots i = Some 0
  | j :: l => rq_next slots i = Some j /\ rq_chain slots j l
  end.

Record req_wf (sizes : list Z) (t : ipr_table) (l : list Z) : Prop := {
  rw_size : exists q, aget (ipt_slots t) 0 = Some q /\
    aget sizes (ipr_size q) = Some (alen (ipt_slots t));
  rw_chain : rq_chain (ipt_slots t) 0 l;
  rw_nodup : NoDup (0 :: l);
  rw_free j : j ∈ l -> exists q, aget (ipt_slots t) j = Some q /\ ipr_name q = MACH_PORT_NULL
}.

(** The request of every entry for port [p] is a slot of its own, with the name
    of the entry. *)
Definition req_ok (sizes : list Z) (R : rights) (p : Z) (t : option ipr_table) : Prop :=
  match t with
  | None => forall k a, R !! k = Some a -> r_object a = p -> r_request a = IE_REQ_NONE
  | Some t => exists l, req_wf sizes t l /\
      (forall s i a, R !! (s, i) = Some a -> r_object a = p -> r_request a <> IE_REQ_NONE ->
         exists q, aget (ipt_slots t) (r_request a) = Some q /\
           ipr_name q = entry_name i (r_bits a)) /\
      (forall k k' a a', R !! k = Some a -> R !! k' = Some a' -> r_object a = p ->
         r_object a' = p -> r_request a <> IE_REQ_NONE -> r_request a = r_request a' -> k = k')
  end.

(** ** Ports and objects *)

(** Naked rights and references that entries do not hold; those of the naked
    rights are among the latter. *)
Record naked := mkNaked {
  n_send : Z -> Z;
  n_sonce : Z -> Z;
  n_recv : Z -> Z;
  n_ref : Z -> Z
}.

Record port_ok (sizes : list Z) (active : Z -> bool) (n : naked) (R : rights) (p : Z)
    (x : ipc_port) (h : ipc_object) : Prop := {
  po_type : io_otype h = IOT_PORT;
  po_live : io_active h = true ->
    ip_srights x = count (is_send p) R + n_send n p /\
    ip_sorights x = count (is_sonce p) R + n_sonce n p /\
    count (is_recv p) R + n_recv n p = 1 /\
    (n_recv n p = 1 -> active (ip_receiver x) = false);
  po_dead : io_active h = false ->
    count (is_send p) R + n_send n p <= ip_srights x /\
    count (is_sonce p) R + n_sonce n p <= ip_sorights x /\
    count (is_recv p) R + n_recv n p = 0 /\
    IP_PREALLOC h = false /\ ip_send_turnstile x = 0 /\ waitq_ts x = 0;
  po_reqs : req_ok sizes R p (ip_requests x)
}.

Record obj_inv (sizes : list Z) (active : Z -> bool) (n : naked) (R : rights)
    (io : gmap Z ipc_object) (ports : gmap Z ipc_port) : Prop := {
  oi_naked o : 0 <= n_send n o /\ 0 <= n_sonce n o /\ 0 <= n_recv n o /\
    n_send n o + n_sonce n o + n_recv n o <= n_ref n o;
  oi_object o h : io !! o = Some h -> o <> IO_NULL /\ o <> IO_DEAD /\
    io_references h = count (is_ref o) R + n_ref n o /\
    0 < io_references h < IO_MAX_REFERENCES;
  oi_kind o h : io !! o = Some h -> io_otype h = IOT_PORT -> is_Some (ports !! o);
  oi_none o : io !! o = None -> n_ref n o = 0;
  oi_port p x : ports !! p = Some x -> exists h, io !! p = Some h /\ port_ok sizes active n R p x h;
  oi_right k a : R !! k = Some a -> right_ok io ports k a;
  oi_pset o h : io !! o = Some h -> io_otype h = IOT_PORT_SET -> count (is_ref o) R <= 1
}.

Definition inv_with (X : gset (Z * Z)) (n : naked) (R : rights) (w : world) : Prop :=
  space_inv (e_table_entries (w_env w)) X (w_space w) R /\
  obj_inv (e_table_requests (w_env w)) (active_in (w_space w)) n R (w_io w) (w_port w).

Definition inv (X : gset (Z * Z)) (n : naked) (w : world) : Prop := exists R, inv_with X n R w.

(** ** Changing one right and the object it denotes *)

(** The naked rights for objects other than [p] are the same. *)
Definition naked_off (p : Z) (n n' : naked) : Prop :=
  forall q, q <> p -> n_send n' q = n_send n q /\ n_sonce n' q = n_sonce n q /\
    n_recv n' q = n_recv n q /\ n_ref n' q = n_ref n q.

Definition naked_ok (n : naked) (o : Z) : Prop :=
  0 <= n_send n o /\ 0 <= n_sonce n o /\ 0 <= n_recv n o /\
  n_send n o + n_sonce n o + n_recv n o <= n_ref n o.

(** A right for [p], or for nothing. *)
Definition about (p : Z) (a : option right) : Prop :=
  forall a0, a = Some a0 -> r_object a0 = p \/ r_object a0 = IO_NULL.

(** Only rights for [p], and rights for nothing, differ. *)
Definition moves (p : Z) (R R' : rights) : Prop :=
  (forall q P, q <> p -> q <> IO_NULL -> (forall a, P a = true -> is_ref q a = true) ->
     count P R' = count P R) /\
  (forall j a, R' !! j = Some a -> r_object a <> p -> r_object a <> IO_NULL -> R !! j = Some a).

Lemma moves_refl p R : moves p R R.
Proof. by split. Qed.

Lemma about_counts p q a P :
  q <> p -> q <> IO_NULL -> (forall a, P a = true -> is_ref q a = true) -> about p a ->
  counts P a = 0.
Proof.
  intros Hq Hq0 HP Ha. destruct a as [a|]; [|done]. simpl. destruct (P a) eqn:E; [|done].
  apply HP, Z.eqb_eq in E. destruct (Ha a eq_refl); congruence.
Qed.

Lemma moves_put p R k a' : about p (R !! k) -> about p a' -> moves p R (put k a' R).
Proof.
  intros Hold Hnew. split.
  - intros q P Hq Hq0 HP. rewrite count_put, !(about_counts p q) by done. lia.
  - intros j a. destruct (decide (k = j)) as [<-|]; [|by rewrite put_ne].
    rewrite put_eq. intros Ha ??. destruct (Hnew a Ha); congruence.
Qed.

Section step.
Context {sizes : list Z} {active : Z -> bool} {n : naked} {R : rights}.
Context {io : gmap Z ipc_object} {ports : gmap Z ipc_port}.
Context (I : obj_inv sizes active n R io ports).
Context (p : Z) (R' : rights) (n' : naked).
Context (HR : moves p R R') (Hoff : naked_off p n n') (Hn : naked_ok n' p).

Lemma step_req_ok q t : q <> p -> q <> IO_NULL -> req_ok sizes R q t -> req_ok sizes R' q t.
Proof.
  destruct HR as [_ Hmv]. intros Hq Hq0.
  assert (Hr : forall j a, R' !! j = Some a -> r_object a = q -> R !! j = Some a)
    by (intros j a Ha <-; by apply Hmv).
  destruct t as [t|]; simpl.
  - intros (l & Hw & Hs & Hi). exists l. split; [done|]. split; intros; eauto.
  - intros H j a Ha Hao. eauto.
Qed.

Lemma step_port_ok q x h :
  q <> p -> q <> IO_NULL -> port_ok sizes active n R q x h -> port_ok sizes active n' R' q x h.
Proof.
  intros Hq Hq0 [Ht Hl Hd Hr]. destruct (Hoff q Hq) as (E1 & E2 & E3 & _).
  destruct HR as [Hc _].
  assert (Hs : count (is_send q) R' = count (is_send q) R)
    by (apply (Hc q); [done..|]; intros a; unfold is_send; rewrite andb_true_iff; tauto).
  assert (Hso : count (is_sonce q) R' = count (is_sonce q) R)
    by (apply (Hc q); [done..|]; intros a; unfold is_sonce; rewrite andb_true_iff; tauto).
  assert (Hrv : count (is_recv q) R' = count (is_recv q) R)
    by (apply (Hc q); [done..|]; intros a; unfold is_recv; rewrite andb_true_iff; tauto).
  split; [done|..|by apply step_req_ok]; by rewrite Hs, Hso, Hrv, E1, E2, E3.
Qed.

Lemma step_naked o : naked_ok n' o.
Proof.
  destruct (decide (o = p)) as [->|Ho]; [done|].
  unfold naked_ok. destruct (Hoff o Ho) as (-> & -> & -> & ->). apply I.
Qed.

Lemma step_object o h :
  o <> p -> io !! o = Some h -> o <> IO_NULL /\ o <> IO_DEAD /\
  io_references h = count (is_ref o) R' + n_ref n' o /\ 0 < io_references h < IO_MAX_REFERENCES.
Proof.
  intros Ho Hh. destruct (oi_object _ _ _ _ _ _ I o h Hh) as (Ho0 & Ho1 & Hr & Hm).
  destruct (Hoff o Ho) as (_ & _ & _ & ->). destruct HR as [Hc _].
  rewrite (Hc o (is_ref o)) by done. done.
Qed.

Lemma step_pset o h :
  o <> p -> io !! o = Some h -> io_otype h = IOT_PORT_SET -> count (is_ref o) R' <= 1.
Proof.
  intros Ho Hh Ht. destruct (oi_object _ _ _ _ _ _ I o h Hh) as (Ho0 & _). destruct HR as [Hc _].
  rewrite (Hc o (is_ref o)) by done. by apply (oi_pset _ _ _ _ _ _ I o h).
Qed.

Lemma step_none o : o <> p -> io !! o = None -> n_ref n' o = 0.
Proof. intros Ho H. destruct (Hoff o Ho) as (_ & _ & _ & ->). by apply I. Qed.

(** [h'] is the header of the object, [x'] the port if it is one. *)
Lemma step_put h' (x' : option ipc_port) io' ports' :
  p <> IO_NULL -> p <> IO_DEAD -> io' = <[p := h']> io -> ports' = partial_alter (fun _ => x') p ports ->
  io_references h' = count (is_ref p) R' + n_ref n' p ->
  0 < io_references h' < IO_MAX_REFERENCES -> (io_otype h' = IOT_PORT -> is_Some x') ->
  (io_otype h' = IOT_PORT_SET -> count (is_ref p) R' <= 1) ->
  (forall x, x' = Some x -> port_ok sizes active n' R' p x h') ->
  (forall j a, R' !! j = Some a -> R !! j <> Some a \/ r_object a = p -> right_ok io' ports' j a) ->
  obj_inv sizes active n' R' io' ports'.
Proof.
  intros Hp0 Hp1 -> -> Href Hrange Hkind Hpset Hport Hright. split.
  - apply step_naked.
  - intros o ho. destruct (decide (p = o)) as [<-|Ho].
    + rewrite lookup_insert_eq. intros [= <-]. done.
    + rewrite lookup_insert_ne by done. by apply step_object.
  - intros o ho. destruct (decide (p = o)) as [<-|Ho].
    + rewrite lookup_insert_eq, lookup_partial_alter_eq. intros [= <-]. done.
    + rewrite lookup_insert_ne, lookup_partial_alter_ne by done. apply I.
  - intros o. destruct (decide (p = o)) as [<-|Ho]; [by rewrite lookup_insert_eq|].
    rewrite lookup_insert_ne by done. by apply step_none.
  - intros q x. destruct (decide (p = q)) as [<-|Hq].
    + rewrite lookup_partial_alter_eq, lookup_insert_eq. intros Hx. exists h'. auto.
    + rewrite lookup_partial_alter_ne, lookup_insert_ne by done. intros Hx.
      destruct (oi_port _ _ _ _ _ _ I q x Hx) as (hq & Hhq & Hok). exists hq. split; [done|].
      destruct (oi_object _ _ _ _ _ _ I q hq Hhq) as (? & _). by apply step_port_ok.
  - intros j a Ha. destruct (decide (R !! j = Some a)) as [Hja|]; [|auto].
    destruct (decide (r_object a = p)); [auto|].
    destruct (oi_right _ _ _ _ _ _ I j a Hja) as [Hb Hd Hps Hpt]. split; [done|done|..].
    + intros Ht. destruct (Hps Ht) as (? & ho & Hho & ?). split; [done|]. exists ho.
      by rewrite lookup_insert_ne.
    + intros Ht. destruct (Hpt Ht) as (x & Hx & ?). exists x. by rewrite lookup_partial_alter_ne.
  - intros o ho. destruct (decide (p = o)) as [<-|Ho].
    + rewrite lookup_insert_eq. intros [= <-]. done.
    + rewrite lookup_insert_ne by done. by apply step_pset.
Qed.

(** The object stays. *)
Lemma step_keep h h' (x' : option ipc_port) io' ports' :
  io !! p = Some h -> io' = <[p := h']> io -> ports' = partial_alter (fun _ => x') p ports ->
  io_references h' = count (is_ref p) R' + n_ref n' p ->
  0 < io_references h' < IO_MAX_REFERENCES -> (io_otype h' = IOT_PORT -> is_Some x') ->
  (io_otype h' = IOT_PORT_SET -> count (is_ref p) R' <= 1) ->
  (forall x, x' = Some x -> port_ok sizes active n' R' p x h') ->
  (forall j a, R' !! j = Some a -> R !! j <> Some a \/ r_object a = p -> right_ok io' ports' j a) ->
  obj_inv sizes active n' R' io' ports'.
Proof.
  intros Hh. destruct (oi_object _ _ _ _ _ _ I p h Hh) as (Hp0 & Hp1 & _). by apply step_put.
Qed.

(** Nothing refers to an object that does not exist. *)
Lemma none_count : io !! p = None -> p <> IO_NULL -> count (is_ref p) R = 0 /\ n_ref n p = 0.
Proof.
  intros Hp Hp0. split; [|by apply I]. apply dec_stable. intros Hc.
  pose proof (count_nonneg (is_ref p) R). destruct (count_ex (is_ref p) R) as (k & a & Ha & Hr); [lia|].
  apply Z.eqb_eq in Hr. destruct (oi_right _ _ _ _ _ _ I k a Ha) as [Hb Hd Hps Hpt].
  assert (Hno : forall x, ports !! r_object a = Some x -> False).
  { intros x Hx. destruct (oi_port _ _ _ _ _ _ I _ x Hx) as (h & Hh & _). congruence. }
  destruct Hb as [[E _]|[[E _]|[[E _]|[[E _]|[[E _]|[E _]]]]]];
    try (destruct Hpt as (x & Hx & _); [by rewrite E|by eapply Hno]).
  - destruct (Hps E) as (_ & h & Hh & _). congruence.
  - destruct (Hd E). congruence.
Qed.
End step.

(** The last reference has gone, and the object with it. *)
Lemma step_free {sizes active n R io ports} (I : obj_inv sizes active n R io ports) p n' :
  naked_off p n n' -> naked_ok n' p -> count (is_ref p) R = 0 -> n_ref n' p = 0 ->
  obj_inv sizes active n' R (delete p io) (delete p ports).
Proof.
  intros Hoff Hn Hc Hz. pose proof (moves_refl p R) as HR.
  assert (Hgone : forall j a, R !! j = Some a -> r_object a <> p).
  { intros j a Ha Hao. pose proof (count_get (is_ref p) R j) as H. rewrite Ha in H. simpl in H.
    unfold is_ref in H at 1. rewrite (proj2 (Z.eqb_eq _ _) Hao) in H. simpl in H. lia. }
  split.
  - by apply (step_naked I p).
  - intros o ho Hho. apply lookup_delete_Some in Hho as [Ho Hho]. by apply (step_object I p).
  - intros o ho Hho. apply lookup_delete_Some in Hho as [Ho Hho]. rewrite lookup_delete_ne by done.
    by apply (oi_kind _ _ _ _ _ _ I).
  - intros o. destruct (decide (p = o)) as [<-|Ho]; [done|].
    rewrite lookup_delete_ne by done. by apply (step_none I p).
  - intros q x Hx. apply lookup_delete_Some in Hx as [Hq Hx]. rewrite lookup_delete_ne by done.
    destruct (oi_port _ _ _ _ _ _ I q x Hx) as (hq & Hhq & Hok). exists hq. split; [done|].
    destruct (oi_object _ _ _ _ _ _ I q hq Hhq) as (? & _). by apply (@step_port_ok sizes active n R p R n').
  - intros j a Ha. pose proof (Hgone j a Ha) as Hne.
    destruct (oi_right _ _ _ _ _ _ I j a Ha) as [Hb Hd Hps Hpt]. split; [done|done|..].
    + intros Ht. destruct (Hps Ht) as (? & ho & Hho & ?). split; [done|]. exists ho.
      by rewrite lookup_delete_ne.
    + intros Ht. destruct (Hpt Ht) as (x & Hx & ?). exists x. by rewrite lookup_delete_ne.
  - intros o ho Hho. apply lookup_delete_Some in Hho as [_ Hho]. by apply (oi_pset _ _ _ _ _ _ I).
Qed.

(** The case of a port. *)
Section port_step.
Context {sizes : list Z} {active : Z -> bool} {n : naked} {R : rights}.
Context {io : gmap Z ipc_object} {ports : gmap Z ipc_port}.
Context (I : obj_inv sizes active n R io ports).
Context (p : Z) (x x' : ipc_port) (h h' : ipc_object) (R' : rights) (n' : naked).
Context (Hx : ports !! p = Some x) (Hh : io !! p = Some h).
Context (HR : moves p R R') (Hoff : naked_off p n n') (Hn : naked_ok n' p).

Lemma port_step :
  io_references h' = count (is_ref p) R' + n_ref n' p ->
  0 < io_references h' < IO_MAX_REFERENCES -> port_ok sizes active n' R' p x' h' ->
  (forall j a, R' !! j = Some a -> R !! j <> Some a ->
     right_ok (<[p := h']> io) (<[p := x']> ports) j a) ->
  (ip_receiver x' = ip_receiver x /\ ip_receiver_name x' = ip_receiver_name x) \/
  (forall j a, R' !! j = Some a -> R !! j = Some a -> is_recv p a = false) ->
  obj_inv sizes active n' R' (<[p := h']> io) (<[p := x']> ports).
Proof.
  intros Href Hrange Hok Hright Hrecv.
  apply (step_keep I p R' n' HR Hoff Hn h h' (Some x')); try done.
  - intros E. pose proof (po_type _ _ _ _ _ _ _ Hok) as E'. by rewrite E in E'.
  - by intros x0 [= <-].
  - intros j a Ha Hor. destruct (decide (R !! j = Some a)) as [Hja|]; [|auto].
    destruct Hor as [?|Hp]; [done|]. destruct (oi_right _ _ _ _ _ _ I j a Hja) as [Hb Hd Hps Hpt].
    change (partial_alter (fun _ => Some x') p ports) with (<[p := x']> ports). split; [done|done|..].
    + intros Ht. destruct (Hps Ht) as (_ & ho & Hho & Hty & _). exfalso.
      destruct (oi_port _ _ _ _ _ _ I p x Hx) as (h1 & Hh1 & Hpo).
      rewrite Hp, Hh1 in Hho. injection Hho as <-. pose proof (po_type _ _ _ _ _ _ _ Hpo) as E.
      by rewrite Hty in E.
    + intros Ht. destruct (Hpt Ht) as (x1 & Hx1 & Hrc). exists x'. rewrite Hp, lookup_insert_eq.
      split; [done|]. intros Hhr. destruct Hrecv as [[-> ->]|Hno].
      * rewrite Hp in Hx1. simplify_eq. auto.
      * specialize (Hno j a Ha Hja). unfold is_recv, is_ref in Hno.
        rewrite Hp, Z.eqb_refl, Hhr in Hno. done.
Qed.
End port_step.

(** ** Bookkeeping of naked rights *)

Definition bump (p d : Z) (f : Z -> Z) (q : Z) : Z := if q =? p then f q + d else f q.

(** [ds] send rights, [dso] send-once rights, [dr] receive rights and [d]
    references of port [p] more. *)
Definition give (p ds dso dr d : Z) (n : naked) : naked :=
  mkNaked (bump p ds (n_send n)) (bump p dso (n_sonce n)) (bump p dr (n_recv n)) (bump p d (n_ref n)).

Lemma bump_eq p d f : bump p d f p = f p + d.
Proof. unfold bump. by rewrite Z.eqb_refl. Qed.

Lemma give_off p ds dso dr d n : naked_off p n (give p ds dso dr d n).
Proof. intros q Hq. simpl. unfold bump. by rewrite (proj2 (Z.eqb_neq q p)) by done. Qed.

Lemma give_ok p ds dso dr d n :
  naked_ok n p -> 0 <= n_send n p + ds -> 0 <= n_sonce n p + dso -> 0 <= n_recv n p + dr ->
  n_send n p + n_sonce n p + n_recv n p + ds + dso + dr <= n_ref n p + d ->
  naked_ok (give p ds dso dr d n) p.
Proof. intros H ????. unfold naked_ok. simpl. rewrite !bump_eq. lia. Qed.

(** ** Changing one entry of a space *)

Definition right_of (o b r : Z) : option right :=
  if IE_BITS_TYPE b =? MACH_PORT_TYPE_NONE then None else Some (mkRight o b r).

Lemma right_at_strip spaces s sp i e :
  spaces !! s = Some sp -> set_ie_hash 0 0 <$> aget (is_table sp) i = Some (set_ie_hash 0 0 e) ->
  right_at spaces s i = right_of (ie_object e) (ie_bits e) (ie_request e).
Proof.
  intros Hs He. apply fmap_Some in He as (e' & He & (Eo & Eb & En)%strip_eq).
  unfold right_at. rewrite Hs. simpl. rewrite He. simpl. by rewrite <- Eo, <- Eb, <- En.
Qed.

Lemma right_at_ext spaces spaces' s sp sp' i :
  spaces !! s = Some sp -> spaces' !! s = Some sp' ->
  set_ie_hash 0 0 <$> aget (is_table sp') i = set_ie_hash 0 0 <$> aget (is_table sp) i ->
  right_at spaces' s i = right_at spaces s i.
Proof.
  intros Hs Hs' He. destruct (aget (is_table sp) i) as [e|] eqn:E.
  - rewrite (right_at_strip spaces s sp i e), (right_at_strip spaces' s sp' i e); try done.
    by rewrite E.
  - unfold right_at. rewrite Hs, Hs'. simpl. rewrite E. by destruct (aget (is_table sp') i).
Qed.

Lemma active_in_insert spaces s sp sp' :
  spaces !! s = Some sp -> is_bits sp' = is_bits sp ->
  forall q, active_in (<[s := sp']> spaces) q = active_in spaces q.
Proof.
  intros Hs Hb q. unfold active_in. destruct (decide (s = q)) as [<-|]; [|by rewrite lookup_insert_ne].
  rewrite lookup_insert_eq, Hs. unfold is_active. by rewrite Hb.
Qed.

Section spaces.
Context {sizes : list Z} {X : gset (Z * Z)} {spaces : gmap Z ipc_space} {R : rights}.
Context (S : space_inv sizes X spaces R).
Context (s : Z) (sp : ipc_space) (Hs : spaces !! s = Some sp) (Ha : is_active sp = true).

(** The right of an entry is the entry's content, which can be held. *)
Lemma space_hold i a :
  R !! (s, i) = Some a ->
  exists l, held sizes sp l i (negb (r_object a =? IO_NULL)
      && (IE_BITS_TYPE (r_bits a) =? MACH_PORT_TYPE_SEND))
    (r_object a) (r_bits a) (r_request a) sp /\
    (forall j e, j ∉ 0 :: l -> aget (is_table sp) j = Some e ->
        IE_BITS_TYPE (ie_bits e) = MACH_PORT_TYPE_NONE ->
        (s, j) ∈ X /\ IE_BITS_UREFS (ie_bits e) = 0 /\ ie_request e = IE_REQ_NONE).
Proof.
  rewrite (si_rights _ _ _ _ S). unfold right_at. rewrite Hs. simpl.
  destruct (aget (is_table sp) i) as [e|] eqn:He; [|done]. simpl.
  destruct (Z.eqb_spec (IE_BITS_TYPE (ie_bits e)) MACH_PORT_TYPE_NONE) as [|Ht]; [done|].
  intros [= <-]. destruct (si_space _ _ _ _ S s sp Hs Ha) as (l & Hr & Hty).
  exists l. split; [|done]. apply (held_intro sizes l i e sp); try done.
  rewrite not_elem_of_cons. destruct Hr as [W _ _ _ _]. split.
  - intros ->. destruct (sw_head _ _ W) as (h & Hh & _ & Hb). simplify_eq. by rewrite Hb in Ht.
  - intros Hi. destruct (sw_free _ _ W i e Hi He) as [_ Hg]. by apply gen_ok_type in Hg.
Qed.

Context (i : Z) (a' : option right) (sp' : ipc_space) (X' : gset (Z * Z)).
Context (HX : forall k, k <> (s, i) -> k ∈ X -> k ∈ X').
Let R' := put (s, i) a' R.
Let spaces' := <[s := sp']> spaces.

(** The new right is the only one of its space for its port. *)
Definition alone : Prop :=
  forall a j a1, a' = Some a -> names_port (r_bits a) = true -> R !! (s, j) = Some a1 ->
    names_port (r_bits a1) = true -> r_object a1 = r_object a -> j = i.

Lemma space_step l' :
  alone ->
  right_at spaces' s i = a' ->
  (forall j, j <> i -> right_at spaces' s j = right_at spaces s j) ->
  space_ready sizes sp' l' -> is_bits sp' = is_bits sp ->
  (forall j e, j ∉ 0 :: l' -> aget (is_table sp') j = Some e ->
     IE_BITS_TYPE (ie_bits e) = MACH_PORT_TYPE_NONE ->
     (s, j) ∈ X' /\ IE_BITS_UREFS (ie_bits e) = 0 /\ ie_request e = IE_REQ_NONE) ->
  space_inv sizes X' spaces' R'.
Proof.
  intros Hal Hi Hj Hr Hbits Hty.
  assert (HR : forall s1 j, R' !! (s1, j) = right_at spaces' s1 j).
  { intros s1 j. unfold R'. destruct (decide ((s, i) = (s1, j))) as [[= <- <-]|Hk].
    - by rewrite put_eq.
    - rewrite put_ne, (si_rights _ _ _ _ S) by done. destruct (decide (s1 = s)) as [->|].
      + rewrite Hj; [done|]. congruence.
      + unfold right_at, spaces'. by rewrite lookup_insert_ne. }
  split; [done|..].
  - intros s1 sp1. unfold spaces'. destruct (decide (s = s1)) as [<-|Hs1].
    + rewrite lookup_insert_eq. intros [= <-] _. eauto.
    + rewrite lookup_insert_ne by done. intros H1 H2.
      destruct (si_space _ _ _ _ S s1 sp1 H1 H2) as (l1 & ? & Hty1).
      exists l1. split; [done|]. intros j e Hjl He Ht.
      destruct (Hty1 j e Hjl He Ht). split; [|done]. apply HX; [congruence|done].
  - intros s1 j j' a b Ha1 Hb1 Ho Hna Hnb. unfold R' in *.
    destruct (decide (s = s1)) as [<-|Hs1].
    + destruct (decide (i = j)) as [<-|Hij], (decide (i = j')) as [<-|Hij']; [done|..].
      * rewrite put_eq in Ha1. rewrite put_ne in Hb1 by congruence. symmetry. eapply Hal; eauto.
      * rewrite put_eq in Hb1. rewrite put_ne in Ha1 by congruence. eapply Hal; eauto.
      * rewrite put_ne in Ha1, Hb1 by congruence. by eapply (si_unique _ _ _ _ S).
    + rewrite put_ne in Ha1, Hb1 by congruence. by eapply (si_unique _ _ _ _ S).
  - unfold spaces'. rewrite (active_in_insert _ _ sp) by done. apply S.
Qed.

Context (l : list Z).
Context (Hty : forall j e, j ∉ 0 :: l -> aget (is_table sp) j = Some e ->
        IE_BITS_TYPE (ie_bits e) = MACH_PORT_TYPE_NONE ->
        (s, j) ∈ X /\ IE_BITS_UREFS (ie_bits e) = 0 /\ ie_request e = IE_REQ_NONE).

(** The entry is let go of, with a new content. *)
Lemma space_step_held h o b r :
  held sizes sp l i h o b r sp' -> a' = right_of o b r ->
  h = negb (o =? IO_NULL) && (IE_BITS_TYPE b =? MACH_PORT_TYPE_SEND) ->
  (IE_BITS_TYPE b = MACH_PORT_TYPE_NONE ->
     (s, i) ∈ X' /\ IE_BITS_UREFS b = 0 /\ r = IE_REQ_NONE) ->
  alone -> space_inv sizes X' spaces' R'.
Proof.
  intros H Ha' Hh Hlimbo Hal. pose proof (held_ready _ _ _ _ _ _ _ _ _ H Hh) as Hr.
  destruct (hd_entry _ _ _ _ _ _ _ _ _ H) as (d & x & He).
  apply (space_step l); try done.
  - rewrite Ha', (right_at_strip spaces' s sp' i (mkEntry o b d x r)); [done|apply lookup_insert_eq|].
    by rewrite He.
  - intros j Hj. apply (right_at_ext _ _ _ sp sp'); [done|apply lookup_insert_eq|].
    by apply (hd_frame _ _ _ _ _ _ _ _ _ H).
  - apply (hd_same _ _ _ _ _ _ _ _ _ H).
  - intros j e Hjl Hje Ht. destruct (decide (j = i)) as [->|Hj].
    + rewrite He in Hje. injection Hje as <-. by apply Hlimbo.
    + pose proof (hd_frame _ _ _ _ _ _ _ _ _ H j Hj) as Hf. rewrite Hje in Hf.
      symmetry in Hf. apply fmap_Some in Hf as (e1 & He1 & (Eo & Eb & En)%strip_eq).
      rewrite Eb, En in *. destruct (Hty j e1 Hjl He1 Ht) as (? & ? & ?).
      split; [|done]. apply HX; [congruence|done].
Qed.

(** The entry has been given back. *)
Lemma space_step_freed :
  space_wf sp l -> freed sizes sp l i sp' -> a' = None -> space_inv sizes X' spaces' R'.
Proof.
  intros W0 [Hr Hsm Hf Hsame] Ha'. pose proof (sr_wf _ _ _ Hr) as W.
  assert (Hnone : forall sp1 l1 j, space_wf sp1 l1 -> j ∈ 0 :: l1 ->
    right_at (<[s := sp1]> spaces) s j = None).
  { intros sp1 l1 j W1 Hj. unfold right_at. rewrite lookup_insert_eq. simpl.
    destruct (aget (is_table sp1) j) as [e|] eqn:He; [|done]. simpl.
    apply elem_of_cons in Hj as [->|Hj].
    - destruct (sw_head _ _ W1) as (h1 & Hh1 & _ & Hb). simplify_eq. by rewrite Hb.
    - by rewrite gen_ok_type by apply (sw_free _ _ W1 j e Hj He). }
  apply (space_step (i :: l)); try done.
  - intros a j a1 E. congruence.
  - rewrite Ha'. apply (Hnone _ (i :: l)); [done|set_solver].
  - intros j Hj. destruct (decide (j ∈ 0 :: i :: l)) as [Hjl|Hjl].
    + unfold spaces'. rewrite (Hnone _ (i :: l)), <- (insert_id spaces s sp) by done.
      symmetry. apply (Hnone _ l); [done|set_solver].
    + apply (right_at_ext _ _ _ sp sp'); [done|apply lookup_insert_eq|]. by apply Hf.
  - apply Hsame.
  - intros j e Hjl Hje Ht.
    pose proof (Hf j Hjl) as Hfj. rewrite Hje in Hfj.
    symmetry in Hfj. apply fmap_Some in Hfj as (e1 & He1 & (Eo & Eb & En)%strip_eq).
    rewrite Eb, En in *. destruct (Hty j e1 ltac:(set_solver) He1 Ht) as (? & ? & ?).
    split; [|done]. apply HX; [set_solver|done].
Qed.
End spaces.

(** ** Naked rights up to pointwise equality *)

#[export] Instance naked_equiv : Equiv naked := fun n n' =>
  forall q, n_send n q = n_send n' q /\ n_sonce n q = n_sonce n' q /\
    n_recv n q = n_recv n' q /\ n_ref n q = n_ref n' q.
#[export] Instance naked_equivalence : Equivalence (≡@{naked}).
Proof.
  split.
  - by intros n q.
  - intros n n' H q. destruct (H q) as (? & ? & ? & ?). done.
  - intros n1 n2 n3 H H' q. destruct (H q) as (-> & -> & -> & ->). apply H'.
Qed.

Lemma give_give p a b c d a' b' c' d' n :
  give p a b c d (give p a' b' c' d' n) ≡ give p (a' + a) (b' + b) (c' + c) (d' + d) n.
Proof. intros q. simpl. unfold bump. destruct (q =? p); lia. Qed.

Lemma give_zero p n : give p 0 0 0 0 n ≡ n.
Proof. intros q. simpl. unfold bump. destruct (q =? p); lia. Qed.

#[export] Instance obj_inv_proper sizes active :
  Proper ((≡) ==> (=) ==> (=) ==> (=) ==> iff) (obj_inv sizes active).
Proof.
  assert (H : forall n n' R io ports, n ≡ n' -> obj_inv sizes active n R io ports ->
    obj_inv sizes active n' R io ports).
  { intros n n' R io ports E []. split; try done.
    - intros o. destruct (E o) as (<- & <- & <- & <-). done.
    - intros o h Ho. destruct (E o) as (_ & _ & _ & <-). auto.
    - intros o Ho. destruct (E o) as (_ & _ & _ & <-). auto.
    - intros p x Hx. destruct (oi_port0 p x Hx) as (h & Hh & []). exists h. split; [done|].
      destruct (E p) as (E1 & E2 & E3 & _). split; rewrite <- ?E1, <- ?E2, <- ?E3; done. }
  intros n n' E R R' -> io io' -> ports ports' ->. split; apply H; [done|by symmetry].
Qed.

#[export] Instance inv_with_proper X : Proper ((≡) ==> (=) ==> (=) ==> iff) (inv_with X).
Proof. intros n n' E R R' -> w w' ->. unfold inv_with. by rewrite E. Qed.

(** ** Worlds *)

Lemma obj_inv_active sizes active active' n R io ports :
  (forall q, active' q = active q) -> obj_inv sizes active n R io ports ->
  obj_inv sizes active' n R io ports.
Proof.
  intros Ha []. split; try done. intros p x Hx. destruct (oi_port0 p x Hx) as (h & Hh & []).
  exists h. split; [done|]. split; try done. rewrite Ha. done.
Qed.

(** The locks do not matter. *)
Lemma inv_set_locks X n R ls w : inv_with X n R (set_w_locks ls w) <-> inv_with X n R w.
Proof. done. Qed.

(** The end of an operation on entry [i] of space [s]. *)
Lemma inv_finish X' n' R' w w' s sp sp' :
  w_space w !! s = Some sp -> w_env w' = w_env w -> w_space w' = <[s := sp']> (w_space w) ->
  is_bits sp' = is_bits sp ->
  space_inv (e_table_entries (w_env w)) X' (<[s := sp']> (w_space w)) R' ->
  obj_inv (e_table_requests (w_env w)) (active_in (w_space w)) n' R' (w_io w') (w_port w') ->
  inv_with X' n' R' w'.
Proof.
  intros Hs He Hsp Hb HS HO. unfold inv_with. rewrite He, Hsp. split; [done|].
  eapply obj_inv_active; [|done]. by apply (active_in_insert _ _ sp).
Qed.
