(* ===== verification/IpcNaked.v ===== *)
(** * Naked rights (ipc/ipc_port.c, ipc/ipc_object.c)

    Making, copying and releasing rights that no entry holds, and releasing
    references, keep the invariant of [IpcRights]. *)

From S2P Require Import Prelude IpcTypes IpcBits IpcHash IpcTable KernelState Kernel IpcFreelist IpcEntry IpcEntryInv IpcGrow IpcAlloc IpcPort IpcRight IpcHeld IpcRights.

(** What an operation on object [o] alone leaves as it is. *)
Record quiet (o : Z) (w w' : world) : Prop := {
  qt_space : w_space w' = w_space w;
  qt_locks : w_locks w' = w_locks w;
  qt_env : w_env w' = w_env w;
  qt_assertions : w_assertions w' = w_assertions w;
  qt_io q : q <> o -> w_io w' !! q = w_io w !! q;
  qt_port q : q <> o -> w_port w' !! q = w_port w !! q
}.

Lemma port_ok_ext sizes active n n' R p x h h' :
  io_bits h' = io_bits h -> n_send n' p = n_send n p -> n_sonce n' p = n_sonce n p ->
  n_recv n' p = n_recv n p -> port_ok sizes active n R p x h -> port_ok sizes active n' R p x h'.
Proof.
  intros Hb Hs Hso Hr []. unfold io_otype, io_active, IP_PREALLOC in *.
  split; unfold io_otype, io_active, IP_PREALLOC in *; rewrite ?Hb, ?Hs, ?Hso, ?Hr; done.
Qed.

Lemma partial_alter_id {A} (m : gmap Z A) k : partial_alter (fun _ => m !! k) k m = m.
Proof. apply partial_alter_self. Qed.

(** ** Freeing a dead port *)

Lemma wp_port_finalize p x h (Q : unit -> world -> Prop) w :
  w_port w !! p = Some x -> w_io w !! p = Some h -> io_active h = false -> IP_PREALLOC h = false ->
  ip_send_turnstile x = 0 -> waitq_ts x = 0 ->
  (forall ports' tr, delete p ports' = delete p (w_port w) ->
     Q tt (set_w_trace tr (set_w_port ports' w))) ->
  wp (ipc_port_finalize p) Q w.
Proof.
  intros Hx Hh Ha Hp Hts Hwt HQ. wstart w. unfold ipc_port_finalize, port_send_turnstile, ip_active.
  wp_steps. rewrite Hp, Hts. wp_steps. apply wp_when; intros _; wp_steps; rewrite ?Hwt; try done.
  all: rewrite Ha; wp_steps; destruct (ip_requests x); wp_steps; apply HQ; [|done].
  all: by rewrite ?delete_insert_eq.
Qed.

(** ** References *)

Section refs.
Context {X : gset (Z * Z)} {n : naked} {R : rights} {w : world} (I : inv_with X n R w).
Context (o : Z) (h : ipc_object) (Hh : w_io w !! o = Some h).

Lemma ref_range : 0 < io_references h < IO_MAX_REFERENCES.
Proof. destruct I as [_ O]. by destruct (oi_object _ _ _ _ _ _ O o h Hh) as (_ & _ & _ & ?). Qed.

Lemma ref_count : io_references h = count (is_ref o) R + n_ref n o.
Proof. destruct I as [_ O]. by destruct (oi_object _ _ _ _ _ _ O o h Hh) as (_ & _ & ? & _). Qed.

(** The reference count changes by [d], and so does the number of references
    that entries do not hold. *)
Lemma inv_ref d h' w' :
  h' = set_io_references (io_references h + d) h -> 0 < io_references h + d < IO_MAX_REFERENCES ->
  n_send n o + n_sonce n o + n_recv n o <= n_ref n o + d ->
  w_space w' = w_space w -> w_env w' = w_env w -> w_port w' = w_port w ->
  w_io w' = <[o := h']> (w_io w) -> inv_with X (give o 0 0 0 d n) R w'.
Proof.
  intros -> Hrange Hn Hsp He Hp Hio. destruct I as [S O]. unfold inv_with. rewrite Hsp, He, Hp, Hio.
  split; [done|]. destruct (oi_naked _ _ _ _ _ _ O o) as (N1 & N2 & N3 & N4).
  apply (step_keep O o R (give o 0 0 0 d n) (moves_refl o R) (give_off _ _ _ _ _ _)) with
    (h := h) (h' := set_io_references (io_references h + d) h) (x' := w_port w !! o); try done.
  - apply give_ok; try lia. done.
  - symmetry. apply partial_alter_id.
  - simpl. rewrite bump_eq, ref_count. lia.
  - intros Ht. by apply (oi_kind _ _ _ _ _ _ O o h).
  - intros Ht. by apply (oi_pset _ _ _ _ _ _ O o h).
  - intros x Hx. destruct (oi_port _ _ _ _ _ _ O o x Hx) as (h1 & Hh1 & Hok). simplify_eq.
    apply (port_ok_ext _ _ n _ _ _ _ h); try done; simpl; rewrite bump_eq; lia.
  - intros j a Ha [|]; [done|]. destruct (oi_right _ _ _ _ _ _ O j a Ha) as [Hb Hd Hps Hpt].
    split; [done|done| |done]. intros Ht. destruct (Hps Ht) as (? & ho & Hho & Hty & Hac).
    split; [done|]. destruct (decide (r_object a = o)) as [->|].
    + rewrite lookup_insert_eq. eexists. split; [done|]. simplify_eq. done.
    + rewrite lookup_insert_ne by done. eauto.
Qed.

Lemma wp_io_reference (Q : unit -> world -> Prop) :
  io_references h + 1 < IO_MAX_REFERENCES ->
  Q tt (set_w_io (<[o := set_io_references (io_references h + 1) h]> (w_io w)) w) ->
  wp (io_reference o) Q w.
Proof.
  intros Hm HQ. pose proof ref_range. unfold io_reference. apply wp_bind. eapply wp_io; [done|].
  rewrite (proj2 (Z.eqb_neq _ _)), (proj2 (Z.leb_gt _ _)) by lia. simpl. by eapply wp_upd_io.
Qed.

(** The last reference of a port is that of a dead port: a live one has its
    receive right. *)
Lemma last_ref_dead :
  io_references h = 1 -> n_send n o + n_sonce n o + n_recv n o < n_ref n o ->
  count (is_ref o) R = 0 /\ n_ref n o = 1 /\
  (io_otype h = IOT_PORT -> exists x, w_port w !! o = Some x /\ io_active h = false /\
     IP_PREALLOC h = false /\ ip_send_turnstile x = 0 /\ waitq_ts x = 0).
Proof.
  intros H1 Hn. pose proof ref_count as Hc. pose proof (count_nonneg (is_ref o) R) as Hc0.
  destruct I as [_ O]. destruct (oi_naked _ _ _ _ _ _ O o) as (N1 & N2 & N3 & N4).
  split; [lia|]. split; [lia|]. intros Ht. destruct (oi_kind _ _ _ _ _ _ O o h Hh Ht) as [x Hx].
  destruct (oi_port _ _ _ _ _ _ O o x Hx) as (h1 & Hh1 & [_ Hl Hd _]).
  rewrite Hh in Hh1. injection Hh1 as <-.
  exists x. split; [done|]. destruct (io_active h) eqn:Ea; [|naive_solver].
  destruct (Hl eq_refl) as (_ & _ & Hrv & _). exfalso.
  assert (count (is_recv o) R <= count (is_ref o) R); [|lia].
  apply count_mono. intros a. unfold is_recv. rewrite andb_true_iff. tauto.
Qed.

Lemma wp_io_release (Q : unit -> world -> Prop) :
  n_send n o + n_sonce n o + n_recv n o < n_ref n o ->
  (forall w', inv_with X (give o 0 0 0 (-1) n) R w' -> quiet o w w' -> Q tt w') ->
  wp (io_release o) Q w.
Proof.
  intros Hn HQ. pose proof ref_range as Hr. unfold io_release. apply wp_bind. eapply wp_io; [done|].
  rewrite (proj2 (Z.eqb_neq _ _)), (proj2 (Z.leb_gt _ _)) by lia. cbn [orb].
  apply wp_bind. eapply wp_upd_io; [done|]. apply wp_when; intros Hlast.
  - apply Z.eqb_eq in Hlast. destruct (last_ref_dead Hlast Hn) as (Hc & Hn1 & Hdead).
    assert (Hfree : forall tr, inv_with X (give o 0 0 0 (-1) n) R
      (mkWorld (delete o (w_io w)) (delete o (w_port w)) (w_space w) (w_locks w) tr
         (w_timestamp w) (w_assertions w) (w_env w))).
    { intros tr. destruct I as [S O]. split; [done|]. simpl.
      destruct (oi_naked _ _ _ _ _ _ O o) as (N1 & N2 & N3 & N4).
      apply (step_free O o); [apply give_off|apply give_ok; try lia; done|done|simpl; rewrite bump_eq; lia]. }
    assert (Hq : forall tr, quiet o w (mkWorld (delete o (w_io w)) (delete o (w_port w)) (w_space w)
      (w_locks w) tr (w_timestamp w) (w_assertions w) (w_env w))).
    { intros tr. split; try done; intros q Hq; simpl; by rewrite lookup_delete_ne by done. }
    unfold io_free. apply wp_bind. apply wp_when; intros Ht.
    + apply Z.eqb_eq in Ht. destruct (Hdead Ht) as (x & Hx & Ha & Hp & Hts & Hwt).
      eapply wp_port_finalize with (h := set_io_references (io_references h - 1) h); try done.
      * apply lookup_insert_eq.
      * intros ports' tr Hdel. wp_step. simpl in Hdel |- *. rewrite Hdel, delete_insert_eq.
        apply HQ; [apply Hfree|apply Hq].
    + wp_step. rewrite delete_insert_eq. apply HQ; [apply Hfree|apply Hq].
  - apply Z.eqb_neq in Hlast. apply HQ.
    + apply (inv_ref (-1) (set_io_references (io_references h - 1) h)); try done; [f_equal; lia|lia..].
    + split; try done. intros q Hq. simpl. by rewrite lookup_insert_ne.
Qed.
End refs.

(** ** Counts of a port *)

(** The fields that the invariant reads, but for the counts. *)
Definition port_same (x x' : ipc_port) : Prop :=
  ip_receiver x' = ip_receiver x /\ ip_receiver_name x' = ip_receiver_name x /\
  ip_requests x' = ip_requests x /\ ip_send_turnstile x' = ip_send_turnstile x /\
  waitq_ts x' = waitq_ts x.

Section naked.
Context {X : gset (Z * Z)} {n : naked} {R : rights} {w : world} (I : inv_with X n R w).
Context (p : Z) (x : ipc_port) (h : ipc_object).
Context (Hx : w_port w !! p = Some x) (Hh : w_io w !! p = Some h).

Lemma port_inv : port_ok (e_table_requests (w_env w)) (active_in (w_space w)) n R p x h.
Proof.
  destruct I as [_ O]. destruct (oi_port _ _ _ _ _ _ O p x Hx) as (h1 & Hh1 & Hok).
  rewrite Hh in Hh1. by injection Hh1 as <-.
Qed.

Lemma port_addr : p <> IO_NULL /\ p <> IO_DEAD /\ IP_VALID p = true.
Proof.
  destruct I as [_ O]. destruct (oi_object _ _ _ _ _ _ O p h Hh) as (H0 & H1 & _).
  split; [done|]. split; [done|]. unfold IO_VALID. by rewrite !(proj2 (Z.eqb_neq _ _)).
Qed.

Lemma naked_inv : naked_ok n p.
Proof. destruct I as [_ O]. apply O. Qed.

Lemma count_send_ref : count (is_send p) R <= count (is_ref p) R.
Proof. apply count_mono. intros a. unfold is_send. rewrite andb_true_iff. tauto. Qed.

Lemma count_sonce_ref : count (is_sonce p) R <= count (is_ref p) R.
Proof. apply count_mono. intros a. unfold is_sonce. rewrite andb_true_iff. tauto. Qed.

(** The counts of a live port are bounded by its references. *)
Lemma live_counts :
  io_active h = true ->
  0 <= ip_srights x <= io_references h /\ 0 <= ip_sorights x <= io_references h.
Proof.
  intros Ha. destruct (po_live _ _ _ _ _ _ _ port_inv Ha) as (Hs & Hso & _).
  pose proof (ref_count I p h Hh). pose proof naked_inv as (? & ? & ? & ?).
  pose proof count_send_ref. pose proof count_sonce_ref.
  pose proof (count_nonneg (is_send p) R). pose proof (count_nonneg (is_sonce p) R). lia.
Qed.

(** [ds] naked send rights, [dso] naked send-once rights and [d] references
    more. *)
Lemma inv_naked ds dso d x' h' w' :
  port_same x x' -> ip_srights x' = ip_srights x + ds -> ip_sorights x' = ip_sorights x + dso ->
  io_bits h' = io_bits h -> io_references h' = io_references h + d ->
  0 < io_references h + d < IO_MAX_REFERENCES ->
  0 <= n_send n p + ds -> 0 <= n_sonce n p + dso ->
  n_send n p + n_sonce n p + n_recv n p + ds + dso <= n_ref n p + d ->
  w_space w' = w_space w -> w_env w' = w_env w ->
  w_io w' = <[p := h']> (w_io w) -> w_port w' = <[p := x']> (w_port w) ->
  inv_with X (give p ds dso 0 d n) R w'.
Proof.
  intros (Erc & Ern & Erq & Epr & Ewt) Es Eso Eb Er Hrange N1 N2 N3 Hsp He Hio Hpo.
  pose proof port_inv as [Hty Hl Hd Hrq]. pose proof naked_inv as HN.
  pose proof (ref_count I p h Hh) as Hrc. destruct I as [S O].
  unfold inv_with. rewrite Hsp, He, Hio, Hpo. split; [done|].
  apply (port_step O p x x' h h' R _ Hx Hh (moves_refl p R) (give_off _ _ _ _ _ _)); try done.
  - destruct HN as (? & ? & ? & ?). apply give_ok; try lia; done.
  - simpl. rewrite bump_eq. lia.
  - lia.
  - unfold io_otype, io_active, IP_PREALLOC in *.
    split; unfold io_otype, io_active, IP_PREALLOC in *; simpl;
      rewrite ?Eb, ?Es, ?Eso, ?Erc, ?Erq, ?Epr, ?Ewt, ?bump_eq; [done| | |done].
    + intros Ha. destruct (Hl Ha) as (-> & -> & ? & Hact). split_and!; [lia|lia|lia|].
      rewrite Z.add_0_r. done.
    + intros Ha. destruct (Hd Ha) as (? & ? & ? & ?). split_and!; try done; lia.
  - by left.
Qed.
End naked.

(** ** Making, copying and releasing *)

Definition add_ref (d : Z) (h : ipc_object) : ipc_object :=
  set_io_references (io_references h + d) h.
Definition add_send (x : ipc_port) : ipc_port := set_ip_srights (ip_srights x + 1) x.
Definition make_send (x : ipc_port) : ipc_port :=
  add_send (set_ip_mscount (u32 (ip_mscount x + 1)) x).
Definition add_sonce (x : ipc_port) : ipc_port := set_ip_sorights (ip_sorights x + 1) x.

Section naked_ops.
Context {X : gset (Z * Z)} {n : naked} {R : rights} {w : world} (I : inv_with X n R w).
Context (p : Z) (x : ipc_port) (h : ipc_object).
Context (Hx : w_port w !! p = Some x) (Hh : w_io w !! p = Some h) (Ha : io_active h = true).
Context (Hroom : io_references h + 1 < IO_MAX_REFERENCES).

Lemma live_count_id c : c <= io_references h -> 0 <= c -> u32 (c + 1) = c + 1.
Proof. unfold IO_MAX_REFERENCES in Hroom. intros. apply u32_id. lia. Qed.

Lemma wp_require_active (Q : unit -> world -> Prop) : Q tt w -> wp (require_ip_active p) Q w.
Proof.
  intros HQ. unfold require_ip_active, ip_active. apply wp_bind, wp_bind. eapply wp_io; [done|].
  apply wp_ret. by rewrite Ha.
Qed.

Let upd (x' : ipc_port) (w : world) : world :=
  set_w_io (<[p := add_ref 1 h]> (w_io w)) (set_w_port (<[p := x']> (w_port w)) w).

Lemma upd_then_reference x' f (Q : unit -> world -> Prop) :
  f x = x' -> Q tt (upd x' w) -> wp (upd_port p f;; ip_reference p) Q w.
Proof.
  intros Hf HQ. pose proof (ref_range I p h Hh). apply wp_bind. eapply wp_upd_port; [done|].
  unfold io_reference. apply wp_bind. eapply wp_io; [done|].
  rewrite (proj2 (Z.eqb_neq _ _)), (proj2 (Z.leb_gt _ _)) by lia. simpl.
  eapply wp_upd_io; [done|]. by rewrite Hf.
Qed.

Lemma wp_make_send_locked (Q : unit -> world -> Prop) :
  Q tt (upd (make_send x) w) -> wp (ipc_port_make_send_locked p) Q w.
Proof.
  intros HQ. destruct (live_counts I p x h Hx Hh Ha). unfold ipc_port_make_send_locked.
  apply wp_bind, wp_require_active. eapply upd_then_reference; [|done].
  unfold make_send, add_send. simpl. by rewrite live_count_id by lia.
Qed.

Lemma wp_copy_send_locked (Q : unit -> world -> Prop) :
  0 < ip_srights x -> Q tt (upd (add_send x) w) -> wp (ipc_port_copy_send_locked p) Q w.
Proof.
  intros Hp HQ. destruct (live_counts I p x h Hx Hh Ha). unfold ipc_port_copy_send_locked.
  apply wp_bind. eapply wp_port; [done|]. apply wp_bind, wp_massert; [by apply Z.ltb_lt|].
  eapply upd_then_reference; [|done]. unfold add_send. by rewrite live_count_id by lia.
Qed.

Lemma wp_make_sonce_locked (Q : unit -> world -> Prop) :
  Q tt (upd (add_sonce x) w) -> wp (ipc_port_make_sonce_locked p) Q w.
Proof.
  intros HQ. destruct (live_counts I p x h Hx Hh Ha). unfold ipc_port_make_sonce_locked.
  apply wp_bind, wp_require_active. eapply upd_then_reference; [|done].
  unfold add_sonce. by rewrite live_count_id by lia.
Qed.

(** A new naked right. *)
Lemma inv_new_naked ds dso x' w' :
  port_same x x' -> ip_srights x' = ip_srights x + ds -> ip_sorights x' = ip_sorights x + dso ->
  0 <= ds -> 0 <= dso -> ds + dso <= 1 ->
  w_space w' = w_space w -> w_env w' = w_env w -> w_io w' = <[p := add_ref 1 h]> (w_io w) ->
  w_port w' = <[p := x']> (w_port w) -> inv_with X (give p ds dso 0 1 n) R w'.
Proof.
  intros. pose proof (naked_inv I p) as (? & ? & ? & ?). pose proof (ref_range I p h Hh).
  by apply (inv_naked I p x h Hx Hh ds dso 1 x' (add_ref 1 h)); try lia.
Qed.
End naked_ops.

(** ** Symbolic execution of the port code *)

Lemma wp_ip_lock p x h (Q : unit -> world -> Prop) w :
  w_port w !! p = Some x -> w_io w !! p = Some h -> LObject p ∉ w_locks w ->
  Q tt (set_w_locks ({[LObject p]} ∪ w_locks w) w) -> wp (ip_lock p) Q w.
Proof.
  intros Hx Hh Hl HQ. unfold io_lock, ipc_object_validate. apply wp_bind, wp_bind.
  eapply wp_io; [done|]. assert (H : wp (lock (LObject p)) Q w) by by apply wp_lock.
  destruct (io_otype h =? IOT_PORT_SET); simpl; [by apply wp_ret|].
  apply wp_bind. eapply wp_port; [done|]. by apply wp_ret.
Qed.

Lemma wp_pset_lock o h (Q : unit -> world -> Prop) w1 :
  w_io w1 !! o = Some h -> io_otype h = IOT_PORT_SET -> LObject o ∉ w_locks w1 ->
  Q tt (set_w_locks ({[LObject o]} ∪ w_locks w1) w1) -> wp (io_lock o) Q w1.
Proof.
  intros Hh Hty Hl1 HQ. unfold io_lock, ipc_object_validate. apply wp_bind, wp_bind.
  eapply wp_io; [done|]. rewrite Hty. by apply wp_ret, wp_lock.
Qed.

Ltac wp_extra ::=
  lazymatch goal with
  | |- wp (is_write_lock _) _ _ => unfold is_write_lock
  | |- wp (is_write_unlock _) _ _ => unfold is_write_unlock
  | |- wp (io_lock _) _ _ => eapply wp_ip_lock; [wlook|wlook|try wlk|]
  | |- wp (io_unlock _) _ _ => unfold io_unlock
  | |- wp (ip_active _) _ _ => unfold ip_active
  | |- wp (mach_port_guard_exception _ _ _ _) _ _ => unfold mach_port_guard_exception
  | |- wp (ipc_notify_send_once _) _ _ => unfold ipc_notify_send_once
  | |- wp (ipc_notify_no_senders _ _) _ _ => unfold ipc_notify_no_senders
  | |- wp (ipc_notify_dead_name _ _) _ _ => unfold ipc_notify_dead_name
  | |- wp (ipc_notify_send_possible _ _) _ _ => unfold ipc_notify_send_possible
  | |- wp (ipc_notify_port_deleted _ _) _ _ => unfold ipc_notify_port_deleted
  | |- _ => wp_held
  end.

(** ** The contract of naked rights *)

Inductive naked_op := MakeSend | MakeSonce | CopySend | ReleaseSend | ReleaseSonce.

Definition naked_run (op : naked_op) (p : Z) : M Z :=
  match op with
  | MakeSend => ipc_port_make_send p
  | MakeSonce => ipc_port_make_sonce p
  | CopySend => ipc_port_copy_send p
  | ReleaseSend => ipc_port_release_send p;; mret p
  | ReleaseSonce => ipc_port_release_sonce p;; mret p
  end.

(** A special reply port is not linked to a port, a knote or a thread. *)
Definition unlinked (x : ipc_port) : Prop :=
  ip_sync_link_state x = PORT_SYNC_LINK_ANY \/ ip_sync_link_state x = PORT_SYNC_LINK_NO_LINKAGE.

(** What the caller holds, and room for one more reference.  Giving up the
    send-once right of a special reply port would also unlink it. *)
Definition naked_pre (op : naked_op) (n : naked) (p : Z) (x : ipc_port) (h : ipc_object) : Prop :=
  match op with
  | MakeSend | MakeSonce => io_references h + 1 < IO_MAX_REFERENCES
  | CopySend => io_references h + 1 < IO_MAX_REFERENCES /\ 0 < n_send n p
  | ReleaseSend => 0 < n_send n p
  | ReleaseSonce => 0 < n_sonce n p /\ (ip_specialreply x = true -> unlinked x)
  end.

(** What it gets. *)
Definition naked_spec (op : naked_op) (live : bool) (p : Z) (n : naked) : Z * naked :=
  match op, live with
  | MakeSend, true | CopySend, true => (p, give p 1 0 0 1 n)
  | MakeSonce, true => (p, give p 0 1 0 1 n)
  | MakeSend, false | CopySend, false | MakeSonce, false => (IP_DEAD, n)
  | ReleaseSend, _ => (p, give p (-1) 0 0 (-1) n)
  | ReleaseSonce, _ => (p, give p 0 (-1) 0 (-1) n)
  end.

Section contract.
Context {X : gset (Z * Z)} {n : naked} {R : rights} {w : world} (I : inv_with X n R w).
Context (p : Z) (x : ipc_port) (h : ipc_object).
Context (Hx : w_port w !! p = Some x) (Hh : w_io w !! p = Some h).
Context (Hl : LObject p ∉ w_locks w) (Hm : LMqueue p ∉ w_locks w).

Definition naked_post (op : naked_op) (r : Z) (w' : world) : Prop :=
  let '(r', n') := naked_spec op (io_active h) p n in
  r = r' /\ inv_with X n' R w' /\ quiet p w w'.

(** A port that is not live gives no right. *)
Lemma naked_make_dead op :
  match op with MakeSend | MakeSonce | CopySend => True | _ => False end ->
  io_active h = false -> wp (naked_run op p) (naked_post op) w.
Proof.
  intros Hop Ha. destruct (port_addr I p h Hh) as (_ & _ & Hv).
  unfold naked_post. rewrite Ha. clear -I Hx Hh Hl Ha Hv Hop. wstart w.
  destruct op; try done; simpl;
    unfold ipc_port_make_send, ipc_port_make_sonce, ipc_port_copy_send; rewrite Hv;
    wp_steps; rewrite Ha; wp_steps; rewrite unlock_again by done; (split; [done|]); by split.
Qed.

Lemma quiet_port h' x' w' :
  w_space w' = w_space w -> w_locks w' = w_locks w -> w_env w' = w_env w ->
  w_assertions w' = w_assertions w ->
  w_io w' = <[p := h']> (w_io w) -> w_port w' = <[p := x']> (w_port w) -> quiet p w w'.
Proof.
  intros ???? Hio Hpo. split; try done; intros q Hq; rewrite ?Hio, ?Hpo; by rewrite lookup_insert_ne.
Qed.

(** A live port gives a new right and a reference for it. *)
Lemma naked_make_live op :
  match op with MakeSend | MakeSonce | CopySend => True | _ => False end ->
  io_active h = true -> naked_pre op n p x h -> wp (naked_run op p) (naked_post op) w.
Proof.
  intros Hop Ha Hpre. destruct (port_addr I p h Hh) as (_ & _ & Hv).
  assert (Hs : 0 < n_send n p -> 0 < ip_srights x).
  { intros Hns. destruct (po_live _ _ _ _ _ _ _ (port_inv I p x h Hx Hh) Ha) as (-> & _).
    pose proof (count_nonneg (is_send p) R). lia. }
  assert (Hroom : io_references h + 1 < IO_MAX_REFERENCES) by (destruct op; simpl in Hpre; tauto).
  pose proof quiet_port as Hquiet.
  pose proof (fun ds dso x' => @inv_new_naked X n R w I p x h Hx Hh Hroom ds dso x') as Hnew.
  pose proof (fun ls => @wp_make_send_locked X n R (set_w_locks ls w) I p x h Hx Hh Ha Hroom) as Rms.
  pose proof (fun ls => @wp_make_sonce_locked X n R (set_w_locks ls w) I p x h Hx Hh Ha Hroom) as Rmo.
  pose proof (fun ls => @wp_copy_send_locked X n R (set_w_locks ls w) I p x h Hx Hh Ha Hroom) as Rcs.
  unfold naked_post. rewrite Ha. clear -Hx Hh Hl Ha Hv Hop Hs Hpre Hroom Hquiet Hnew Rms Rmo Rcs.
  wstart w. destruct op; try done; simpl;
    unfold ipc_port_make_send, ipc_port_make_sonce, ipc_port_copy_send; rewrite Hv;
    wp_steps; rewrite Ha; wp_steps; first [apply Rms|apply Rmo|apply Rcs; [by apply Hs, Hpre|]];
    wp_steps; rewrite unlock_again by done; (split; [done|]); (split; [|by eapply Hquiet]).
  - apply (Hnew 1 0 (make_send x)); simpl; done || lia.
  - apply (Hnew 0 1 (add_sonce x)); simpl; done || lia.
  - apply (Hnew 1 0 (add_send x)); simpl; done || lia.
Qed.

(** A naked right leaves the port, which then loses a reference. *)
Lemma drop_and_release ds dso x' w1 (Q : unit -> world -> Prop) :
  port_same x x' -> ip_srights x' = ip_srights x + ds -> ip_sorights x' = ip_sorights x + dso ->
  ds + dso = -1 -> 0 <= n_send n p + ds -> 0 <= n_sonce n p + dso ->
  w_space w1 = w_space w -> w_env w1 = w_env w -> w_locks w1 = w_locks w ->
  w_assertions w1 = w_assertions w -> w_io w1 = w_io w ->
  w_port w1 = <[p := x']> (w_port w) ->
  (forall w', inv_with X (give p ds dso 0 (-1) n) R w' -> quiet p w w' -> Q tt w') ->
  wp (ip_release p) Q w1.
Proof.
  intros Hsame Es Eso Hd N1 N2 Hsp He Hlk Has Hio Hpo HQ.
  pose proof (naked_inv I p) as (? & ? & ? & ?). pose proof (ref_range I p h Hh).
  assert (I1 : inv_with X (give p ds dso 0 0 n) R w1).
  { apply (inv_naked I p x h Hx Hh ds dso 0 x' h); try done; try lia.
    by rewrite Hio, insert_id. }
  apply (wp_io_release I1 p h); [by rewrite Hio|simpl; rewrite !bump_eq; lia|].
  intros w' I' []. apply HQ.
  - rewrite give_give, !Z.add_0_r in I'. done.
  - split; try congruence; intros q Hq; [rewrite qt_io0, Hio by done|rewrite qt_port0, Hpo by done]; [done|].
    by rewrite lookup_insert_ne.
Qed.

Lemma send_positive : 0 < n_send n p -> 0 < ip_srights x.
Proof.
  intros Hn. pose proof (count_nonneg (is_send p) R). destruct (port_inv I p x h Hx Hh) as [_ Hlv Hd _].
  destruct (io_active h); [destruct (Hlv eq_refl)|destruct (Hd eq_refl)]; lia.
Qed.

Lemma sonce_positive : 0 < n_sonce n p -> 0 < ip_sorights x.
Proof.
  intros Hn. pose proof (count_nonneg (is_sonce p) R). destruct (port_inv I p x h Hx Hh) as [_ Hlv Hd _].
  destruct (io_active h); [destruct (Hlv eq_refl) as (_ & ? & _)|destruct (Hd eq_refl) as (_ & ? & _)]; lia.
Qed.

Lemma naked_release_send : 0 < n_send n p -> wp (naked_run ReleaseSend p) (naked_post ReleaseSend) w.
Proof.
  intros Hn. destruct (port_addr I p h Hh) as (_ & _ & Hv). pose proof (send_positive Hn) as Hs.
  pose proof (naked_inv I p) as (_ & ? & _).
  pose proof (fun x' w1 Q => @drop_and_release (-1) 0 x' w1 Q) as Rdrop.
  unfold naked_post, naked_spec. clear -Hx Hh Hl Hv Hs Hn H Rdrop.
  wstart w. simpl. unfold ipc_port_release_send. rewrite Hv. wp_steps; [by apply Z.ltb_lt|].
  set (x1 := set_ip_srights (ip_srights x - 1) x).
  destruct (io_active h) eqn:Ha; wp_steps.
  - destruct (_ && _); wp_steps; rewrite ?insert_insert_eq, unlock_again by done.
    + apply (Rdrop (set_ip_nsrequest IP_NULL x1)); try done; simpl; try lia.
      intros w' I' Q'. wp_steps. split; [done|]. split; [done|]. by destruct Q'.
    + apply (Rdrop x1); try done; simpl; try lia.
  - rewrite unlock_again by done. apply (Rdrop x1); try done; simpl; try lia.
Qed.

(** Evaluates the tests of constant flags and states. *)
Ltac flags :=
  repeat match goal with
  | |- context [?f ?c ?d] =>
      lazymatch f with flag => idtac | Z.eqb => idtac end;
      let v := eval vm_compute in (f c d) in
      lazymatch v with true => idtac | false => idtac end;
      change (f c d) with v
  end.

Lemma wp_special_reply_unlinked (Q : unit -> world -> Prop) :
  (ip_specialreply x = true -> unlinked x) ->
  (forall x1, x1 = x \/ x1 = set_ip_sync_bootstrap_checkin false x ->
     Q tt (set_w_port (<[p := x1]> (w_port w)) w)) ->
  wp (ipc_port_adjust_special_reply_port p IPC_PORT_ADJUST_RESET_BOOSTRAP_CHECKIN) Q w.
Proof.
  intros Hun HQ. unfold ipc_port_adjust_special_reply_port. clear -Hx Hh Hl Hm Hun HQ.
  destruct (ip_specialreply x) eqn:Hsr.
  - assert (Hls : ({[LMqueue p]} ∪ ({[LObject p]} ∪ w_locks w)) ∖ {[LMqueue p]} ∖ {[LObject p]} = w_locks w) by set_solver.
    specialize (HQ _ (or_intror eq_refl)). destruct (Hun eq_refl) as [Hst|Hst];
      unfold ipc_port_adjust_special_reply_port_locked, imq_lock, imq_unlock; wopen w; wp_steps; rewrite Hsr; wp_steps;
      rewrite Hsr, Hst; flags; wp_steps; flags; wp_steps; rewrite Hls; exact HQ.
  - wopen w. wp_steps. rewrite Hsr. specialize (HQ x (or_introl eq_refl)). rewrite insert_id in HQ by done.
    by apply wp_ret.
Qed.

Lemma naked_release_sonce :
  0 < n_sonce n p -> (ip_specialreply x = true -> unlinked x) ->
  wp (naked_run ReleaseSonce p) (naked_post ReleaseSonce) w.
Proof.
  intros Hn Hsr. destruct (port_addr I p h Hh) as (_ & _ & Hv). pose proof (sonce_positive Hn) as Hs.
  pose proof (naked_inv I p) as (? & _).
  pose proof (fun x' w1 Q => @drop_and_release 0 (-1) x' w1 Q) as Rdrop.
  unfold naked_post, naked_spec. simpl. unfold ipc_port_release_sonce. rewrite Hv. cbn [negb].
  apply wp_bind, wp_bind, wp_special_reply_unlinked; [done|]. intros x1 Hx1.
  assert (port_same x x1 /\ ip_srights x1 = ip_srights x /\ ip_sorights x1 = ip_sorights x) as (Hsm & E1 & E2)
    by by destruct Hx1 as [-> | ->].
  clear -Hx Hh Hl Hs Hn H Rdrop Hsm E1 E2. wopen w. wp_steps; [apply Z.ltb_lt; by rewrite E2|].
  rewrite insert_insert_eq, unlock_again by done.
  apply (Rdrop (set_ip_sorights (ip_sorights x1 - 1) x1)); try done; simpl; try lia.
Qed.
End contract.

Lemma wp_naked_run X n R w p x h op :
  inv_with X n R w -> w_port w !! p = Some x -> w_io w !! p = Some h -> LObject p ∉ w_locks w -> LMqueue p ∉ w_locks w ->
  naked_pre op n p x h ->
  wp (naked_run op p) (@naked_post X n R w p h op) w.
Proof.
  intros I Hx Hh Hl Hm Hpre. destruct (io_active h) eqn:Ha, op; simpl in Hpre;
    first [by eapply naked_make_live | by eapply naked_make_dead | by eapply naked_release_send
          | by destruct Hpre; eapply naked_release_sonce].
Qed.

(** C10.  Making, copying and releasing rights that no entry holds
    (ipc_port_make_send, ipc_port_make_sonce, ipc_port_copy_send,
    ipc_port_release_send, ipc_port_release_sonce): whoever holds the right that
    the operation takes gets from it exactly the right that [naked_spec] says,
    with its reference, or nothing from a dead port; the invariant that ties the
    counts of all ports to the rights holds again, and nothing but the port has
    changed.  Releasing the last reference frees the port.  A right is made or copied
    where the port has room for one more reference, and the send-once right of a
    special reply port is released where that port is not linked to another port,
    a knote or a thread. *)
Theorem naked_rights_counted X n R w p x h op :
  inv_with X n R w -> w_port w !! p = Some x -> w_io w !! p = Some h -> LObject p ∉ w_locks w -> LMqueue p ∉ w_locks w ->
  naked_pre op n p x h ->
  wp (naked_run op p) (@naked_post X n R w p h op) w.
Proof. apply wp_naked_run. Qed.
