(* ===== verification/IpcRequests.v ===== *)
(** * Notification requests (ipc/ipc_port.c)

    The table of requests of a port: the free list of its slots, cancelling and
    making a request, and what they mean for the requests of other entries. *)

From S2P Require Import Prelude IpcTypes IpcBits IpcHash IpcTable KernelState Kernel IpcFreelist IpcEntry IpcEntryInv IpcGrow IpcAlloc IpcPort IpcRight IpcHeld IpcRights IpcNaked.

(** ** Chains of free slots *)

Lemma rq_chain_ext slots slots' i l :
  (forall j, j ∈ i :: l -> rq_next slots' j = rq_next slots j) ->
  rq_chain slots i l -> rq_chain slots' i l.
Proof.
  revert i. induction l as [|k l IH]; intros i H; simpl.
  - by rewrite H by set_solver.
  - rewrite H by set_solver. intros [? ?]. split; [done|]. apply IH; [|done].
    intros j Hj. apply H. set_solver.
Qed.

Lemma rq_next_aset slots k q i :
  0 <= k < alen slots ->
  rq_next (aset slots k q) i = if decide (i = k) then Some (ipr_next q) else rq_next slots i.
Proof.
  intros Hk. unfold rq_next. case_decide as E.
  - subst. by rewrite aget_aset_eq.
  - by rewrite aget_aset_ne.
Qed.

(** The entries other than [k] keep their requests; that of [k] is gone or the
    same. *)
Lemma req_ok_put sizes R p t k a' :
  req_ok sizes R p t ->
  (forall a0, a' = Some a0 -> r_object a0 = p -> r_request a0 = IE_REQ_NONE \/
     exists a, R !! k = Some a /\ r_object a = p /\ r_request a0 = r_request a /\
       entry_name k.2 (r_bits a0) = entry_name k.2 (r_bits a)) ->
  req_ok sizes (put k a' R) p t.
Proof.
  intros Hok Hnew.
  assert (Hget : forall j a0, put k a' R !! j = Some a0 -> r_object a0 = p ->
    r_request a0 <> IE_REQ_NONE -> exists a, R !! j = Some a /\ r_object a = p /\
      r_request a0 = r_request a /\ entry_name j.2 (r_bits a0) = entry_name j.2 (r_bits a)).
  { intros j a0. destruct (decide (k = j)) as [<-|].
    - rewrite put_eq. intros E Ho Hr. destruct (Hnew a0 E Ho); [done|]. done.
    - rewrite put_ne by done. intros E Ho Hr. by exists a0. }
  destruct t as [t|]; simpl in *.
  - destruct Hok as (l & Hw & Hs & Hi). exists l. split; [done|]. split.
    + intros s i a0 E Ho Hr. destruct (Hget (s, i) a0 E Ho Hr) as (a & Ha & Hao & Er & En).
      rewrite Er in *. simpl in En. rewrite En. by apply (Hs s i a).
    + intros j j' a0 b0 Ea Eb Hoa Hob Hr Heq.
      destruct (Hget j a0 Ea Hoa Hr) as (a & Ha & ? & Er & _).
      destruct (Hget j' b0 Eb Hob ltac:(congruence)) as (b & Hb & ? & Er' & _).
      apply (Hi j j' a b); congruence.
  - intros j a0 E Ho. destruct (decide (r_request a0 = IE_REQ_NONE)) as [|Hr]; [done|].
    destruct (Hget j a0 E Ho Hr) as (a & Ha & Hao & Er & _). rewrite Er. eauto.
Qed.

(** ** Cancelling *)

(** The table after slot [r] has been put on the free list. *)
Definition cancelled (t : ipr_table) (r : Z) (head : ipc_port_request) : ipr_table :=
  mkRequests (ipt_addr t)
    (aset (aset (ipt_slots t) r (mkRequest (ipr_next head) MACH_PORT_NULL)) 0
       (set_ipr_notify r head)).

Lemma req_wf_cancel sizes t l r head q :
  req_wf sizes t l -> aget (ipt_slots t) 0 = Some head -> aget (ipt_slots t) r = Some q ->
  r ∉ 0 :: l -> req_wf sizes (cancelled t r head) (r :: l).
Proof.
  intros [(h & Hh & Hsz) Hch Hnd Hfr] Hhead Hq Hrl. rewrite Hhead in Hh. injection Hh as <-.
  apply aget_Some_range in Hq as Hrq, Hhead as Hr0. apply NoDup_cons in Hnd as Hnd'.
  apply not_elem_of_cons in Hrl as Hrl'.
  assert (Hnext : forall j, rq_next (ipt_slots (cancelled t r head)) j =
    if decide (j = 0) then Some r else if decide (j = r) then Some (ipr_next head)
    else rq_next (ipt_slots t) j).
  { intros j. simpl. rewrite rq_next_aset by (by rewrite alen_aset).
    case_decide; [done|]. by rewrite rq_next_aset. }
  split.
  - eexists. simpl. rewrite aget_aset_eq by (by rewrite alen_aset). split; [done|].
    by rewrite !alen_aset.
  - assert (H0 : rq_next (ipt_slots t) 0 = Some (ipr_next head)) by (unfold rq_next; by rewrite Hhead).
    split; [by rewrite Hnext, decide_True|].
    destruct l as [|j l]; cbn [rq_chain] in Hch |- *; rewrite Hnext, decide_False, decide_True by tauto.
    + by rewrite <- H0.
    + destruct Hch as [Hc0 Hch]. rewrite <- H0. split; [done|].
      eapply rq_chain_ext; [|exact Hch]. intros m Hm.
      rewrite Hnext, !decide_False; [done|..]; intros ->; tauto.
  - rewrite !NoDup_cons, not_elem_of_cons. split; [|tauto]. split; [|tauto].
    intros E. symmetry in E. tauto.
  - intros j Hj. simpl. apply elem_of_cons in Hj as [->|Hj].
    + rewrite aget_aset_ne, aget_aset_eq by (tauto || (intros E; symmetry in E; tauto)). by eexists.
    + destruct (Hfr j Hj) as (q' & Hq' & Hn'). exists q'. split; [|done].
      rewrite !aget_aset_ne; [done|..]; intros <-; tauto.
Qed.

Section cancel.
Context (sizes : list Z) (R : rights) (p : Z) (t : ipr_table) (s i : Z) (a : right).
Context (Hok : req_ok sizes R p (Some t)).
Context (Ha : R !! (s, i) = Some a) (Hp : r_object a = p) (Hr : r_request a <> IE_REQ_NONE).
Context (Hname : entry_name i (r_bits a) <> MACH_PORT_NULL).

(** The slot of a request is there, with the name of its entry. *)
Lemma req_slot :
  exists q head, aget (ipt_slots t) (r_request a) = Some q /\
    ipr_name q = entry_name i (r_bits a) /\ aget (ipt_slots t) 0 = Some head.
Proof.
  destruct Hok as (l & [(head & Hh & _) _ _ _] & Hs & _).
  destruct (Hs s i a Ha Hp Hr) as (q & Hq & Hn). by exists q, head.
Qed.

Lemma req_cancel_ok head a' :
  aget (ipt_slots t) 0 = Some head ->
  (forall a0, a' = Some a0 -> r_object a0 = p -> r_request a0 = IE_REQ_NONE) ->
  req_ok sizes (put (s, i) a' R) p (Some (cancelled t (r_request a) head)).
Proof.
  intros Hhead Hnew.
  assert (Hok' : req_ok sizes (put (s, i) a' R) p (Some t)) by (apply req_ok_put; [done|]; auto).
  destruct Hok as (l & Hw & Hs & Hi). destruct (Hs s i a Ha Hp Hr) as (q & Hq & Hn).
  exists (r_request a :: l). split.
  - apply (req_wf_cancel _ _ _ _ _ q); [done..|]. rewrite not_elem_of_cons. split; [done|].
    intros Hrl. destruct (rw_free _ _ _ Hw _ Hrl) as (q' & Hq' & Hn').
    rewrite Hq in Hq'. injection Hq' as <-. congruence.
  - destruct Hok' as (l' & _ & Hs' & Hi'). split; [|done].
    intros s1 i1 a1 E1 Ho1 Hr1. destruct (Hs' s1 i1 a1 E1 Ho1 Hr1) as (q1 & Hq1 & Hn1).
    assert (Hne : r_request a <> r_request a1).
    { intros E. destruct (decide ((s, i) = (s1, i1))) as [[= <- <-]|Hne].
      - rewrite put_eq in E1. by apply Hr1, (Hnew a1).
      - rewrite put_ne in E1 by done. apply Hne. by apply (Hi (s, i) (s1, i1) a a1). }
    exists q1. simpl. rewrite !aget_aset_ne; [done|done|by intros E; symmetry in E].
Qed.
End cancel.

(** ** Rules of symbolic execution *)

(** The type bits of the request in a slot. *)
Definition slot_type (q : ipc_port_request) : Z :=
  let sor := ipr_soright q in
  if IP_VALID (IPR_SOR_PORT sor) then
    Z.lor MACH_PORT_TYPE_DNREQUEST
      (if IPR_SOR_SPREQ sor then
         Z.lor MACH_PORT_TYPE_SPREQUEST
           (if negb (IPR_SOR_SPARMED sor) then MACH_PORT_TYPE_SPREQUEST_DELAYED else 0)
       else 0)
  else 0.

Lemma wp_request_type p x t name r q (Q : Z -> world -> Prop) w :
  w_port w !! p = Some x -> ip_requests x = Some t -> aget (ipt_slots t) r = Some q ->
  ipr_name q = name -> r <> IE_REQ_NONE -> Q (slot_type q) w ->
  wp (ipc_port_request_type p name r) Q w.
Proof.
  intros Hx Ht Hq Hn Hr HQ. wstart w. unfold ipc_port_request_type.
  wp_steps; [by apply negb_true_iff, Z.eqb_neq|by apply Z.eqb_eq|]. done.
Qed.

Lemma wp_port_request_cancel p x h t name r q head (Q : Z -> world -> Prop) w :
  w_port w !! p = Some x -> w_io w !! p = Some h -> io_active h = true ->
  ip_requests x = Some t -> aget (ipt_slots t) r = Some q -> ipr_name q = name ->
  r <> IE_REQ_NONE -> aget (ipt_slots t) 0 = Some head ->
  Q (IPR_SOR_PORT (ipr_soright q))
    (set_w_port (<[p := set_ip_requests (Some (cancelled t r head)) x]> (w_port w)) w) ->
  wp (ipc_port_request_cancel p name r) Q w.
Proof.
  intros Hx Hh Ha Ht Hq Hn Hr Hhd HQ. wstart w. unfold ipc_port_request_cancel, require_ip_active.
  wp_steps. rewrite Ha. wp_steps; [by apply negb_true_iff, Z.eqb_neq|by apply Z.eqb_eq|]. done.
Qed.

(** Port [x'] is port [x] without the request of entry [k]. *)
Definition unrequested (sizes : list Z) (R : rights) (p : Z) (k : Z * Z) (x x' : ipc_port) : Prop :=
  x' = set_ip_requests (ip_requests x') x /\
  forall a', (forall a0, a' = Some a0 -> r_object a0 = p -> r_request a0 = IE_REQ_NONE) ->
    req_ok sizes (put k a' R) p (ip_requests x').

Lemma entry_name_nonzero i b : 0 < i < 2 ^ 24 -> entry_name i b <> MACH_PORT_NULL.
Proof.
  intros Hi E. pose proof (entry_name_index i b ltac:(lia)) as H. rewrite E in H.
  change (MACH_PORT_INDEX MACH_PORT_NULL) with 0 in H. lia.
Qed.

Section request_cancel.
Context {sizes reqs : list Z} {sp0 sp : ipc_space} {l : list Z} {s i : Z} {hb : bool} {p b r : Z}.
Context {R : rights} {x : ipc_port} {h : ipc_object} {a : right} {w : world}.
Context (Hs : w_space w !! s = Some sp) (H : held sizes sp0 l i hb p b r sp).
Context (Hx : w_port w !! p = Some x) (Hh : w_io w !! p = Some h) (Ha : io_active h = true).
Context (Hok : req_ok reqs R p (ip_requests x)).
Context (HR : R !! (s, i) = Some a) (Hao : r_object a = p) (Har : r_request a = r).
Context (Hb : entry_name i b = entry_name i (r_bits a)).

Lemma held_name_nonzero : entry_name i b <> MACH_PORT_NULL.
Proof.
  pose proof (held_range _ _ _ _ _ _ _ _ _ H). pose proof (sw_size _ _ (hd_wf _ _ _ _ _ _ _ _ _ H)).
  apply entry_name_nonzero. lia.
Qed.

Lemma wp_request_cancel name (Q : Z -> world -> Prop) :
  name = entry_name i b ->
  (forall prev x' sp', unrequested reqs R p (s, i) x x' ->
     held sizes sp0 l i hb p b IE_REQ_NONE sp' ->
     Q prev (set_w_space (<[s := sp']> (w_space w)) (set_w_port (<[p := x']> (w_port w)) w))) ->
  wp (request_cancel s p name i) Q w.
Proof.
  intros Hn HQ. unfold request_cancel. apply wp_bind. eapply wp_held_entry; [done..|]. intros d y. simpl.
  destruct (Z.eqb_spec r IE_REQ_NONE) as [E|E].
  - apply wp_ret. rewrite E in H.
    assert (HQ' := HQ IP_NULL x sp). rewrite !insert_id in HQ' by done.
    replace (set_w_space (w_space w) (set_w_port (w_port w) w)) with w in HQ' by by destruct w.
    apply HQ'; [|done]. split; [by destruct x|]. intros a' Ha'. apply req_ok_put; auto.
  - destruct (ip_requests x) as [t|] eqn:Ht; [|exfalso; apply E; rewrite <- Har; by apply (Hok (s, i))].
    destruct (req_slot reqs R p t s i a Hok HR Hao) as (q & head & Hq & Hqn & Hhd); [congruence|].
    rewrite Har in *. unfold ipc_right_request_cancel, require_ip_active. apply wp_bind. apply wp_bind.
    unfold ip_active. apply wp_bind. eapply wp_io; [done|]. apply wp_ret. rewrite Ha. apply wp_ret.
    apply wp_bind. eapply wp_held_entry; [done..|]. intros d' y'. simpl.
    apply wp_bind, wp_massert; [by apply Z.eqb_eq|]. rewrite (proj2 (Z.eqb_neq r _)) by done.
    apply wp_bind. eapply (wp_port_request_cancel p x h t name r q head); try done; [congruence|].
    apply wp_bind. eapply wp_held_upd with (o' := p) (b' := b) (r' := IE_REQ_NONE);
      [done|exact H|done|done|done|]. intros sp1 H1.
    apply wp_bind. eapply wp_held_modified; [apply lookup_insert_eq|exact H1|done|]. intros sp2 H2.
    apply wp_ret. simpl. rewrite insert_insert_eq. refine (HQ _ _ sp2 _ H2).
    split; [done|]. intros a' Ha'. rewrite <- Har. apply req_cancel_ok; try done; [congruence|].
    rewrite <- Hb. apply held_name_nonzero.
Qed.
End request_cancel.
