(* ===== verification/IpcRightCheck.v ===== *)
(** * Rights whose port may have died (ipc/ipc_right.c, ipc_right_check)

    The context of the operations on one right, the bits of a right, and the
    conversion of a right for a dead port into a dead name. *)

From S2P Require Import Prelude IpcTypes IpcBits IpcHash IpcTable KernelState Kernel IpcFreelist IpcEntry IpcEntryInv IpcGrow IpcAlloc IpcPort IpcRight IpcHeld IpcRights IpcNaked IpcRequests.

(** ** Bits *)

Lemma has_type b t : Z.land IE_BITS_TYPE_MASK t = t -> has b t = has (IE_BITS_TYPE b) t.
Proof. intros Ht. unfold has, IE_BITS_TYPE. by rewrite <- Z.land_assoc, Ht. Qed.

(** Evaluates the tests between constants. *)
Ltac consts :=
  repeat match goal with
  | |- context [?f ?c ?d] =>
      lazymatch f with has => idtac | Z.eqb => idtac end;
      let v := eval vm_compute in (f c d) in
      lazymatch v with true => idtac | false => idtac end;
      change (f c d) with v
  end.

(** Evaluates the tests of type bits of a word whose type is known. *)
Ltac types :=
  repeat match goal with
  | Ht : IE_BITS_TYPE ?b = _ |- context [has ?b ?t] =>
      rewrite (has_type b t) by reflexivity; rewrite Ht
  end; consts.

Definition died_bits (b : Z) : Z :=
  Z.lor (Z.land b (Z.lnot IE_BITS_TYPE_MASK)) MACH_PORT_TYPE_DEAD_NAME.

Lemma died_type b : IE_BITS_TYPE (died_bits b) = MACH_PORT_TYPE_DEAD_NAME.
Proof.
  unfold died_bits, IE_BITS_TYPE. rewrite Z.land_lor_distr_l, <- Z.land_assoc.
  change (Z.land (Z.lnot IE_BITS_TYPE_MASK) IE_BITS_TYPE_MASK) with 0. by rewrite Z.land_0_r.
Qed.

Lemma died_urefs b : IE_BITS_UREFS (died_bits b) = IE_BITS_UREFS b.
Proof.
  unfold died_bits, IE_BITS_UREFS. rewrite Z.land_lor_distr_l, <- Z.land_assoc.
  change (Z.land (Z.lnot IE_BITS_TYPE_MASK) IE_BITS_UREFS_MASK) with IE_BITS_UREFS_MASK.
  change (Z.land MACH_PORT_TYPE_DEAD_NAME IE_BITS_UREFS_MASK) with 0. by rewrite Z.lor_0_r.
Qed.

Lemma died_gen_roll b : gen_roll (died_bits b) = gen_roll b.
Proof.
  unfold died_bits, gen_roll. rewrite Z.land_lor_distr_l, <- Z.land_assoc.
  change (Z.land (Z.lnot IE_BITS_TYPE_MASK) (Z.lor IE_BITS_GEN_MASK IE_BITS_ROLL_MASK))
    with (Z.lor IE_BITS_GEN_MASK IE_BITS_ROLL_MASK).
  change (Z.land MACH_PORT_TYPE_DEAD_NAME (Z.lor IE_BITS_GEN_MASK IE_BITS_ROLL_MASK)) with 0.
  by rewrite Z.lor_0_r.
Qed.

Lemma gen_roll_urefs b d :
  0 <= IE_BITS_UREFS b + d <= MACH_PORT_UREFS_MAX -> gen_roll (b + d) = gen_roll b.
Proof. intros H. by apply (land_high_urefs b d 0xffc0). Qed.

Lemma entry_name_roll i b b' : gen_roll b' = gen_roll b -> entry_name i b' = entry_name i b.
Proof.
  intros E. unfold entry_name. by rewrite <- (IE_BITS_GEN_gen_roll b'), E, IE_BITS_GEN_gen_roll.
Qed.

(** ** The right an operation works on *)

Section right.
Context {X : gset (Z * Z)} {n : naked} {R : rights} {w : world} (I : inv_with X n R w).
Context {s i : Z} {sp : ipc_space} {a : right}.
Context (Hs : w_space w !! s = Some sp) (Hsa : is_active sp = true) (Ha : R !! (s, i) = Some a).
Let sizes := e_table_entries (w_env w).
Let reqs := e_table_requests (w_env w).

Lemma the_right : right_ok (w_io w) (w_port w) (s, i) a.
Proof. destruct I as [_ O]. by apply O. Qed.

Lemma right_typed : IE_BITS_TYPE (r_bits a) <> MACH_PORT_TYPE_NONE.
Proof.
  destruct (ro_bits _ _ _ _ the_right) as [[-> _]|[[-> _]|[[-> _]|[[-> _]|[[-> _]|[-> _]]]]]]; done.
Qed.

(** What entries off the free list look like. *)
Definition typed_but (l : list Z) : Prop :=
  forall j e, j ∉ 0 :: l -> aget (is_table sp) j = Some e ->
    IE_BITS_TYPE (ie_bits e) = MACH_PORT_TYPE_NONE ->
    (s, j) ∈ X /\ IE_BITS_UREFS (ie_bits e) = 0 /\ ie_request e = IE_REQ_NONE.

Lemma right_hold :
  exists l, held sizes sp l i (negb (r_object a =? IO_NULL)
      && (IE_BITS_TYPE (r_bits a) =? MACH_PORT_TYPE_SEND))
    (r_object a) (r_bits a) (r_request a) sp /\ typed_but l.
Proof. destruct I as [S _]. by apply (space_hold S s sp). Qed.

Lemma right_port :
  is_port_type (IE_BITS_TYPE (r_bits a)) = true ->
  exists x h, w_port w !! r_object a = Some x /\ w_io w !! r_object a = Some h /\
    (has (r_bits a) MACH_PORT_TYPE_RECEIVE = true ->
       ip_receiver x = s /\ ip_receiver_name x = entry_name i (r_bits a)).
Proof.
  intros Ht. destruct (ro_port _ _ _ _ the_right Ht) as (x & Hx & Hrv).
  destruct I as [_ O]. destruct (oi_port _ _ _ _ _ _ O _ x Hx) as (h & Hh & _). eauto 6.
Qed.

(** The counts include this right. *)
Lemma right_counted P : P a = true -> 1 <= count P R.
Proof. intros HP. pose proof (count_get P R (s, i)) as H. rewrite Ha in H. simpl in H. by rewrite HP in H. Qed.

(** *** New contents of the entry *)

Lemma right_space X' l h0 o b r sp' :
  typed_but l -> held sizes sp l i h0 o b r sp' ->
  h0 = negb (o =? IO_NULL) && (IE_BITS_TYPE b =? MACH_PORT_TYPE_SEND) ->
  (IE_BITS_TYPE b = MACH_PORT_TYPE_NONE ->
     (s, i) ∈ X' /\ IE_BITS_UREFS b = 0 /\ r = IE_REQ_NONE) ->
  (forall k, k <> (s, i) -> k ∈ X -> k ∈ X') ->
  (names_port b = true -> r_object a = o /\ names_port (r_bits a) = true) ->
  space_inv sizes X' (<[s := sp']> (w_space w)) (put (s, i) (right_of o b r) R).
Proof.
  intros Hty H Hh Hlimbo HX Hnames. destruct I as [S _].
  apply (space_step_held S s sp Hs i (right_of o b r) sp' X' HX l Hty h0 o b r); try done.
  intros a0 j a1 E Hn0 Hj Hn1 Ho. unfold right_of in E. case_match; [done|]. injection E as <-.
  simpl in *. destruct (Hnames Hn0) as [Eo Hna].
  apply (si_unique _ _ _ _ S s j i a1 a); try done. congruence.
Qed.

Lemma right_freed X' l sp' :
  typed_but l -> space_wf sp l -> freed sizes sp l i sp' ->
  (forall k, k <> (s, i) -> k ∈ X -> k ∈ X') ->
  space_inv sizes X' (<[s := sp']> (w_space w)) (put (s, i) None R).
Proof.
  intros Hty W Hf HX. destruct I as [S _].
  by apply (space_step_freed S s sp Hs Hsa i None sp' X' HX l Hty).
Qed.

(** *** New values of the port *)

Lemma right_objects p x h x' h' n' a' :
  w_port w !! p = Some x -> w_io w !! p = Some h -> r_object a = p -> about p a' ->
  naked_off p n n' -> naked_ok n' p ->
  io_references h' = count (is_ref p) (put (s, i) a' R) + n_ref n' p ->
  0 < io_references h' < IO_MAX_REFERENCES ->
  port_ok reqs (active_in (w_space w)) n' (put (s, i) a' R) p x' h' ->
  (forall a0, a' = Some a0 -> right_ok (<[p := h']> (w_io w)) (<[p := x']> (w_port w)) (s, i) a0) ->
  (ip_receiver x' = ip_receiver x /\ ip_receiver_name x' = ip_receiver_name x) \/
    is_recv p a = true /\ a' <> Some a ->
  obj_inv reqs (active_in (w_space w)) n' (put (s, i) a' R) (<[p := h']> (w_io w))
    (<[p := x']> (w_port w)).
Proof.
  intros Hx Hh Hao Hab Hoff Hn Href Hrange Hpo Hnew Hrv. pose proof (port_inv I p x h Hx Hh) as Hold.
  destruct I as [_ O]. apply (port_step O p x x' h h' _ n' Hx Hh); try done.
  - apply moves_put; [|done]. rewrite Ha. intros a0 [= <-]. by left.
  - intros j a0 Hj Hne. destruct (decide ((s, i) = j)) as [<-|Hk].
    + rewrite put_eq in Hj. auto.
    + by rewrite put_ne in Hj by done.
  - destruct Hrv as [|[Hrv Hne]]; [by left|]. right. intros j a0 Hj Hj'.
    destruct (is_recv p a0) eqn:E; [|done]. exfalso.
    destruct (decide ((s, i) = j)) as [<-|Hk].
    + rewrite put_eq in Hj. congruence.
    + pose proof (count_two (is_recv p) R (s, i) j a a0 Hk Ha Hj' Hrv E) as H2.
      pose proof (oi_naked _ _ _ _ _ _ O p) as (_ & _ & ? & _).
      destruct Hold as [_ Hl Hd _]. destruct (io_active h);
        [destruct (Hl eq_refl) as (_ & _ & ? & _)|destruct (Hd eq_refl) as (_ & _ & ? & _)]; lia.
Qed.
End right.

(** ** ipc_right_check *)

(** The dead name that is left of a right [a] for a dead port, with one more user
    reference, if there is room, for the notification that was requested. *)
Definition died (extra : bool) (a : right) : right :=
  let b := died_bits (r_bits a) in
  mkRight IO_NULL
    (if extra && (IE_BITS_UREFS b <? MACH_PORT_UREFS_MAX) then b + 1 else b) IE_REQ_NONE.

Section died.
Context (extra : bool) (a : right).
Let b := died_bits (r_bits a).

Lemma died_room : (IE_BITS_UREFS b <? MACH_PORT_UREFS_MAX) = true ->
  0 <= IE_BITS_UREFS b + 1 <= MACH_PORT_UREFS_MAX.
Proof. intros H%Z.ltb_lt. pose proof (IE_BITS_UREFS_range b). lia. Qed.

Lemma died_right_type : IE_BITS_TYPE (r_bits (died extra a)) = MACH_PORT_TYPE_DEAD_NAME.
Proof.
  unfold died. simpl. fold b. destruct extra; simpl; [|apply died_type]. case_match eqn:E; [|apply died_type].
  rewrite type_urefs_add by by apply died_room. apply died_type.
Qed.

Lemma died_right_gen : gen_roll (r_bits (died extra a)) = gen_roll (r_bits a).
Proof.
  unfold died. simpl. fold b. destruct extra; simpl; [|apply died_gen_roll].
  case_match eqn:E; [|apply died_gen_roll].
  rewrite gen_roll_urefs by by apply died_room. apply died_gen_roll.
Qed.

Lemma died_right_urefs :
  IE_BITS_UREFS (r_bits a) <= IE_BITS_UREFS (r_bits (died extra a)) <= IE_BITS_UREFS (r_bits a) + 1.
Proof.
  unfold died. simpl. fold b. rewrite <- (died_urefs (r_bits a)). fold b.
  destruct extra; simpl; [|lia]. case_match eqn:E; [|lia]. rewrite urefs_add by by apply died_room. lia.
Qed.

Lemma died_right_ok io ports k :
  0 < IE_BITS_UREFS (r_bits a) -> right_ok io ports k (died extra a).
Proof.
  intros Hu. pose proof died_right_type as Ht. pose proof died_right_urefs as Hu'.
  split; rewrite ?Ht; try done. right. right. right. right. right. split; [done|lia].
Qed.
End died.

(** The check passes: the port is live, or the caller allows a send-once right
    for a dead port that nobody has asked a notification for. *)
Definition usable (flags : Z) (h : ipc_object) (a : right) : bool :=
  io_active h || (flag flags IPC_RIGHT_COPYIN_FLAGS_ALLOW_DEAD_SEND_ONCE
    && (r_request a =? IE_REQ_NONE) && has (r_bits a) MACH_PORT_TYPE_SEND_ONCE).

Lemma usable_active flags h a : usable flags h a = false -> io_active h = false.
Proof. unfold usable. by intros [? _]%orb_false_iff. Qed.

Section check.
Context {X : gset (Z * Z)} {n : naked} {R : rights} {w : world} (I : inv_with X n R w).
Context {s i : Z} {sp : ipc_space} {a : right}.
Context (Hs : w_space w !! s = Some sp) (Hsa : is_active sp = true) (Ha : R !! (s, i) = Some a).
Context (Hty : is_port_type (IE_BITS_TYPE (r_bits a)) = true).
Context (x : ipc_port) (h : ipc_object).
Let p := r_object a.
Context (Hx : w_port w !! p = Some x) (Hh : w_io w !! p = Some h).
Context (Hl : LObject p ∉ w_locks w).

(** A dead port has send and send-once rights only. *)
Lemma dead_port_type :
  io_active h = false ->
  (IE_BITS_TYPE (r_bits a) = MACH_PORT_TYPE_SEND /\ 0 < IE_BITS_UREFS (r_bits a)) \/
  (IE_BITS_TYPE (r_bits a) = MACH_PORT_TYPE_SEND_ONCE /\ IE_BITS_UREFS (r_bits a) = 1).
Proof.
  intros Hd. destruct (po_dead _ _ _ _ _ _ _ (port_inv I p x h Hx Hh) Hd) as (_ & _ & Hrv & _).
  pose proof (naked_inv I p) as (_ & _ & ? & _).
  assert (Hno : has (r_bits a) MACH_PORT_TYPE_RECEIVE = false).
  { destruct (has _ _) eqn:E; [|done]. pose proof (right_counted Ha (is_recv p)) as Hc.
    unfold is_recv, is_ref in Hc. fold p in Hc. rewrite Z.eqb_refl, E in Hc. specialize (Hc eq_refl).
    pose proof (count_nonneg (is_recv p) R). unfold is_recv, is_ref in Hrv. lia. }
  revert Hty Hno. rewrite has_type by done.
  destruct (ro_bits _ _ _ _ (the_right I Ha)) as [[-> ?]|[[-> _]|[[-> _]|[[-> ?]|[[-> _]|[-> _]]]]]];
    try done; auto.
Qed.

(** The counts of the dead port without this right. *)
Lemma check_port_ok extra x' :
  io_active h = false ->
  x' = (if IE_BITS_TYPE (r_bits a) =? MACH_PORT_TYPE_SEND then set_ip_srights (ip_srights x - 1) x
        else set_ip_sorights (ip_sorights x - 1) x) ->
  port_ok (e_table_requests (w_env w)) (active_in (w_space w)) (give p 0 0 0 1 n)
    (put (s, i) (Some (died extra a)) R) p x' h.
Proof.
  intros Hd Hx'. destruct (port_addr I p h Hh) as (Hp0 & _).
  destruct (port_inv I p x h Hx Hh) as [Hpt _ Hdead Hrq]. destruct (Hdead Hd) as (Hs1 & Hs2 & Hs3 & Hs4).
  assert (Hrq' : req_ok (e_table_requests (w_env w)) (put (s, i) (Some (died extra a)) R) p (ip_requests x)).
  { apply req_ok_put; [done|]. intros a0 [= <-] E. by destruct Hp0. }
  destruct (rights_at p a eq_refl) as (_ & Eas & Eao & Ear).
  destruct (rights_off p (died extra a)) as (_ & Eds & Edo & Edr); [by intros E; apply Hp0|].
  split; [done|by rewrite Hd|..].
  - intros _. rewrite !count_put, Ha. cbn [counts]. rewrite Eas, Eao, Ear, Eds, Edo, Edr.
    cbn [give n_send n_sonce n_recv]. rewrite !bump_eq.
    destruct (dead_port_type Hd) as [[Ht _]|[Ht _]]; types; rewrite Ht in Hx'; subst x'; simpl;
      split_and!; simpl; (lia || apply Hs4).
  - subst x'. by case_match.
Qed.

(** What is left after the conversion, for the callers to work on. *)
Record checked (extra : bool) (w' : world) : Prop := {
  ck_inv : inv_with X (give p 0 0 0 1 n) (put (s, i) (Some (died extra a)) R) w';
  ck_space : exists sp', w_space w' !! s = Some sp' /\ is_active sp' = true;
  ck_locks : w_locks w' = w_locks w;
  ck_env : w_env w' = w_env w;
  ck_io : w_io w' = w_io w;
  ck_extra : extra = true -> r_request a <> IE_REQ_NONE
}.

Lemma check_finish extra l sp' x' w' :
  io_active h = false -> typed_but (X := X) (s := s) (sp := sp) l ->
  held (e_table_entries (w_env w)) sp l i false IO_NULL (r_bits (died extra a)) IE_REQ_NONE sp' ->
  x' = (if IE_BITS_TYPE (r_bits a) =? MACH_PORT_TYPE_SEND then set_ip_srights (ip_srights x - 1) x
        else set_ip_sorights (ip_sorights x - 1) x) ->
  (extra = true -> r_request a <> IE_REQ_NONE) ->
  w_space w' = <[s := sp']> (w_space w) -> w_locks w' = w_locks w -> w_env w' = w_env w ->
  w_io w' = w_io w -> w_port w' = <[p := x']> (w_port w) -> checked extra w'.
Proof.
  intros Hd Htb H Hx' Hex Hsp Hlk Hen Hio Hpo. pose proof (died_right_type extra a) as Hdt.
  pose proof (dead_port_type Hd) as Hdp.
  assert (Hu : 0 < IE_BITS_UREFS (r_bits a)) by (destruct Hdp as [[_ ?]|[_ ?]]; lia).
  pose proof (naked_inv I p) as HN. pose proof (ref_range I p h Hh) as Hrr.
  pose proof (ref_count I p h Hh) as Hrc.
  split; try done; [|eexists; rewrite Hsp; split; [apply lookup_insert_eq|apply H]].
  apply (inv_finish _ _ _ w w' s sp sp' Hs Hen Hsp (proj1 (hd_same _ _ _ _ _ _ _ _ _ H))).
  - replace (Some (died extra a)) with (right_of IO_NULL (r_bits (died extra a)) IE_REQ_NONE)
      by (unfold right_of; by rewrite Hdt).
    eapply (right_space I Hs Ha X l false); [done|done|done|by rewrite Hdt|done|].
    unfold names_port. types. done.
  - rewrite Hio, Hpo, <- (insert_id (w_io w) p h) by done.
    apply (right_objects I Ha p x h x' h); try done.
    + intros a0 [= <-]. by right.
    + apply give_off.
    + apply give_ok; try done; destruct HN as (? & ? & ? & ?); lia.
    + rewrite count_put, Ha. cbn [counts]. destruct (rights_at p a eq_refl) as (-> & _).
      destruct (rights_off p (died extra a)) as (-> & _).
      { simpl. destruct (port_addr I p h Hh). congruence. }
      simpl. rewrite bump_eq. lia.
    + by apply check_port_ok.
    + intros a0 [= <-]. by apply died_right_ok.
    + left. subst x'. by case_match.
Qed.

(** The rest of the routine once the port has been updated and the entry is not
    hashed any more. *)
Lemma wp_check_tail name l sp1 x' w1 (Q : bool -> world -> Prop) :
  name = entry_name i (r_bits a) -> io_active h = false ->
  typed_but (X := X) (s := s) (sp := sp) l ->
  held (e_table_entries (w_env w)) sp l i false p (r_bits a) (r_request a) sp1 ->
  x' = (if IE_BITS_TYPE (r_bits a) =? MACH_PORT_TYPE_SEND then set_ip_srights (ip_srights x - 1) x
        else set_ip_sorights (ip_sorights x - 1) x) ->
  w_space w1 = <[s := sp1]> (w_space w) -> w_locks w1 = w_locks w -> w_env w1 = w_env w ->
  w_io w1 = w_io w -> w_port w1 = <[p := x']> (w_port w) ->
  (forall extra w', checked extra w' -> Q true w') ->
  wp (let bits := died_bits (r_bits a) in
      bits ←
        (if negb (r_request a =? IE_REQ_NONE) then
           t ← ipc_port_request_type p name (r_request a);
           upd_entry s i (set_ie_request IE_REQ_NONE);;
           mret (if negb (t =? 0) && (IE_BITS_UREFS bits <? MACH_PORT_UREFS_MAX)
                 then bits + 1 else bits)
         else mret bits);
      upd_entry s i (fun e => set_ie_object IO_NULL (set_ie_bits bits e));;
      entry_modified s name i;;
      mret true) Q w1.
Proof.
  intros Hn Hd Htb H Hx' Hsp Hlk Hen Hio Hpo HQ.
  assert (Hend : forall extra sp' w', (extra = true -> r_request a <> IE_REQ_NONE) ->
    held (e_table_entries (w_env w)) sp l i false IO_NULL (r_bits (died extra a)) IE_REQ_NONE sp' ->
    w_space w' = <[s := sp']> (w_space w1) -> w_locks w' = w_locks w1 -> w_env w' = w_env w1 ->
    w_io w' = w_io w1 -> w_port w' = w_port w1 -> Q true w').
  { intros extra sp' w' Hex H' E1 E2 E3 E4 E5. apply (HQ extra).
    apply (check_finish extra l sp' x'); try done; try congruence.
    rewrite E1, Hsp. apply insert_insert_eq. }
  assert (Hs1 : w_space w1 !! s = Some sp1) by (rewrite Hsp; apply lookup_insert_eq).
  assert (Hx1 : w_port w1 !! p = Some x') by (rewrite Hpo; apply lookup_insert_eq).
  assert (Hrq : ip_requests x' = ip_requests x) by (subst x'; by case_match).
  pose proof (fun e => died_right_gen e a) as Hgen.
  pose proof (fun e => entry_name_roll i _ _ (Hgen e)) as Hname.
  clear Hsp Hpo Hlk Hio. wopen w1. destruct (Z.eqb_spec (r_request a) IE_REQ_NONE) as [Er|Er].
  - rewrite Er in *. wp_steps; [by apply (Hgen false)|by rewrite Hn; symmetry; apply (Hname false)|].
    by eapply (Hend false).
  - pose proof (po_reqs _ _ _ _ _ _ _ (port_inv I p x h Hx Hh)) as Hreq.
    destruct (ip_requests x) as [t|] eqn:Ht; [|exfalso; by apply Er, (Hreq (s, i))].
    destruct (req_slot _ R p t s i a Hreq Ha eq_refl Er) as (q & _ & Hq & Hqn & _).
    wp_steps. eapply (wp_request_type p x' t); [wlook|done|done|congruence|done|].
    wp_steps; [by apply (Hgen (negb (slot_type q =? 0)))
      |by rewrite Hn; symmetry; apply (Hname (negb (slot_type q =? 0)))|].
    by eapply (Hend (negb (slot_type q =? 0))).
Qed.

Context (Hsm : small_table sp).

Lemma wp_right_check name flags (Q : bool -> world -> Prop) :
  name = entry_name i (r_bits a) ->
  (usable flags h a = true -> Q false (set_w_locks ({[LObject p]} ∪ w_locks w) w)) ->
  (usable flags h a = false -> forall extra w', checked extra w' -> Q true w') ->
  wp (ipc_right_check s p name i flags) Q w.
Proof.
  intros Hn Hlive Hdead. destruct (right_hold I Hs Hsa Ha) as (l & H & Htb). fold p in H.
  assert (Htail := fun x' sp1 w1 Q Hd => wp_check_tail name l sp1 x' w1 Q Hn Hd Htb).
  pose proof (right_counted Ha) as Hcnt. destruct (rights_at p a eq_refl) as (_ & Eas & Eao & _).
  pose proof (po_dead _ _ _ _ _ _ _ (port_inv I p x h Hx Hh)) as Hdd.
  pose proof (naked_inv I p) as (N1 & N2 & _). destruct (port_addr I p h Hh) as (Hp0 & _).
  unfold ipc_right_check. pose proof dead_port_type as Hdt. wopen w. wp_steps; [by apply Z.eqb_refl|].
  unfold usable in Hlive, Hdead. destruct (io_active h) eqn:Hact; wp_steps; [by apply Hlive|].
  destruct (Hdd eq_refl) as (Hd1 & Hd2 & _). clear Hdd.
  pose proof (Hcnt (is_send p)) as Hc1. pose proof (Hcnt (is_sonce p)) as Hc2.
  rewrite Eas in Hc1. rewrite Eao in Hc2. revert Hc1 Hc2.
  destruct (Hdt eq_refl) as [[Ht Hu]|[Ht Hu]]; clear Hdt; types; cbn [andb]; intros Hc1 Hc2.
  - rewrite andb_false_r. specialize (Hc1 eq_refl).
    wp_steps; [lia..|by rewrite Ht; apply andb_true_iff; split; [lia|]|].
    apply wp_unbind, (Htail (set_ip_srights (ip_srights x - 1) x) _ _ _ eq_refl Hd); [by rewrite Ht|done|by apply unlock_again|done..|].
    apply Hdead. cbn [orb]. types. by rewrite andb_false_r.
  - specialize (Hc2 eq_refl). rewrite Ht, andb_false_r in H.
    rewrite andb_true_r. assert (Hus : has (r_bits a) MACH_PORT_TYPE_SEND_ONCE = true) by by types.
    rewrite Hus, andb_true_r in Hlive, Hdead. cbn [orb] in Hlive, Hdead.
    destruct (_ && _) eqn:Hf; wp_steps; [|lia..|].
    + by apply Hlive.
    + apply wp_unbind, (Htail (set_ip_sorights (ip_sorights x - 1) x) _ _ _ eq_refl H); 
        [by rewrite Ht|by symmetry; apply insert_id|by apply unlock_again|done..|].
      by apply Hdead.
Qed.
End check.
Arguments checked : clear implicits.
