(* ===== verification/IpcRightLive.v ===== *)
(** * Rights for live ports (ipc/ipc_right.c)

    How an operation on one right of a live port ends: what the counts, the
    receiver and the requests of the port have to be for the new right.  The
    steps that the routines of the file share. *)

From S2P Require Import Prelude IpcTypes IpcBits IpcHash IpcTable KernelState Kernel IpcFreelist IpcEntry IpcEntryInv IpcGrow IpcAlloc IpcPort IpcRight IpcHeld IpcRights IpcNaked IpcRequests IpcRightCheck.

(** ** Clearing bits of a word *)

Lemma clear_mask b m k : Z.land (Z.land b (Z.lnot m)) k = Z.land (Z.land b k) (Z.lnot m).
Proof. by rewrite <- !Z.land_assoc, (Z.land_comm (Z.lnot m)). Qed.

Lemma clear_urefs b m :
  Z.land IE_BITS_UREFS_MASK (Z.lnot m) = 0 -> IE_BITS_UREFS (Z.land b (Z.lnot m)) = 0.
Proof. intros H. unfold IE_BITS_UREFS. by rewrite clear_mask, <- Z.land_assoc, H, Z.land_0_r. Qed.

Lemma clear_gen_roll b m :
  Z.land (Z.lor IE_BITS_GEN_MASK IE_BITS_ROLL_MASK) (Z.lnot m) =
    Z.lor IE_BITS_GEN_MASK IE_BITS_ROLL_MASK ->
  gen_roll (Z.land b (Z.lnot m)) = gen_roll b.
Proof. intros H. unfold gen_roll. by rewrite clear_mask, <- Z.land_assoc, H. Qed.

(** A send right is taken from the word, with all user references. *)
Definition without_send (b : Z) : Z :=
  Z.land b (Z.lnot (Z.lor IE_BITS_UREFS_MASK MACH_PORT_TYPE_SEND)).

Lemma without_send_type b :
  IE_BITS_TYPE (without_send b) = Z.land (IE_BITS_TYPE b) (Z.lnot (Z.lor IE_BITS_UREFS_MASK MACH_PORT_TYPE_SEND)).
Proof. apply clear_mask. Qed.

Lemma without_send_urefs b : IE_BITS_UREFS (without_send b) = 0.
Proof. by apply clear_urefs. Qed.

Lemma without_send_gen b : gen_roll (without_send b) = gen_roll b.
Proof. by apply clear_gen_roll. Qed.

Lemma without_send_receive b :
  IE_BITS_TYPE b = MACH_PORT_TYPE_SEND_RECEIVE ->
  IE_BITS_TYPE (without_send b) = MACH_PORT_TYPE_RECEIVE /\ bits_ok (without_send b).
Proof.
  intros Hb. pose proof (without_send_type b) as Ht. rewrite Hb in Ht. split; [done|].
  right. left. by rewrite Ht, without_send_urefs.
Qed.

Section live.
Context {X : gset (Z * Z)} {n : naked} {R : rights} {w : world} (I : inv_with X n R w).
Context {s i : Z} {sp : ipc_space} {a : right}.
Context (Hs : w_space w !! s = Some sp) (Hsa : is_active sp = true) (Ha : R !! (s, i) = Some a).
Context {x : ipc_port} {h : ipc_object}.
Let p := r_object a.
Let sizes := e_table_entries (w_env w).
Let reqs := e_table_requests (w_env w).
Context (Hx : w_port w !! p = Some x) (Hh : w_io w !! p = Some h) (Hact : io_active h = true).

(** The new counts of the port: [a'] in the place of [a], and the naked rights
    that have been given. *)
Record recount (a' : option right) (ds dso dr d : Z) (x' : ipc_port) : Prop := {
  rc_send : ip_srights x' + counts (is_send p) (Some a) =
    ip_srights x + counts (is_send p) a' + ds;
  rc_sonce : ip_sorights x' + counts (is_sonce p) (Some a) =
    ip_sorights x + counts (is_sonce p) a' + dso;
  rc_recv : counts (is_recv p) a' + dr = counts (is_recv p) (Some a);
  rc_ref : counts (is_ref p) a' + d = 1;
  rc_ok : naked_ok (give p ds dso dr d n) p;
  rc_receiver :
    (ip_receiver x' = ip_receiver x /\ ip_receiver_name x' = ip_receiver_name x /\ dr = 0) \/
    (is_recv p a = true /\ a' <> Some a /\
     (dr = 1 -> active_in (w_space w) (ip_receiver x') = false))
}.

Lemma live_receive : counts (is_recv p) (Some a) + n_recv n p <= 1.
Proof.
  destruct (po_live _ _ _ _ _ _ _ (port_inv I p x h Hx Hh) Hact) as (_ & _ & Hr & _).
  pose proof (count_get (is_recv p) R (s, i)) as Hc. rewrite Ha in Hc. lia.
Qed.

Lemma live_port_ok a' ds dso dr d x' :
  recount a' ds dso dr d x' -> req_ok reqs (put (s, i) a' R) p (ip_requests x') ->
  port_ok reqs (active_in (w_space w)) (give p ds dso dr d n) (put (s, i) a' R) p x' h.
Proof.
  intros [Es Eso Er _ _ Hrv] Hrq. destruct (port_inv I p x h Hx Hh) as [Hty Hl _ _].
  destruct (Hl Hact) as (Cs & Cso & Cr & Hnr). pose proof live_receive as Hlr.
  pose proof (naked_inv I p) as (_ & _ & N3 & _).
  split; [done| |by rewrite Hact|done]. intros _. rewrite !count_put, Ha. cbn [give n_send n_sonce n_recv].
  rewrite !bump_eq. split_and!; [lia..|]. intros E. destruct Hrv as [(-> & _ & ->)|(Hir & _ & Hina)].
  - apply Hnr. lia.
  - apply Hina. cbn [counts] in Hlr. rewrite Hir in Hlr. simpl in Hlr. lia.
Qed.

Lemma live_finish X' a' ds dso dr d x' sp' w' :
  space_inv sizes X' (<[s := sp']> (w_space w)) (put (s, i) a' R) -> is_bits sp' = is_bits sp ->
  about p a' -> recount a' ds dso dr d x' ->
  req_ok reqs (put (s, i) a' R) p (ip_requests x') ->
  (forall a0, a' = Some a0 -> right_ok (w_io w) (<[p := x']> (w_port w)) (s, i) a0) ->
  w_env w' = w_env w -> w_space w' = <[s := sp']> (w_space w) -> w_io w' = w_io w ->
  w_port w' = <[p := x']> (w_port w) ->
  inv_with X' (give p ds dso dr d n) (put (s, i) a' R) w'.
Proof.
  intros HS Hb Hab Hrc Hrq Hok Hen Hsp Hio Hpo. pose proof (live_port_ok _ _ _ _ _ _ Hrc Hrq) as Hpok.
  destruct Hrc as [_ _ _ Ed Hnok Hrv]. pose proof (ref_count I p h Hh) as Hrc.
  pose proof (ref_range I p h Hh) as Hrr.
  apply (inv_finish _ _ _ w w' s sp sp' Hs Hen Hsp Hb HS).
  rewrite Hio, Hpo, <- (insert_id (w_io w) p h) by done.
  apply (right_objects I Ha p x h x' h); try done.
  - apply give_off.
  - rewrite count_put, Ha. cbn [counts]. destruct (rights_at p a eq_refl) as (-> & _).
    cbn [give n_ref]. rewrite bump_eq. simpl. lia.
  - intros a0 Ea. rewrite insert_id by done. auto.
  - destruct Hrv as [(? & ? & _)|(? & ? & _)]; auto.
Qed.

(** A right for a live port is counted. *)
Lemma live_send : has (r_bits a) MACH_PORT_TYPE_SEND = true -> 0 < ip_srights x.
Proof.
  intros Hb. destruct (po_live _ _ _ _ _ _ _ (port_inv I p x h Hx Hh) Hact) as (-> & _).
  pose proof (right_counted Ha (is_send p)) as Hc. pose proof (naked_inv I p) as (? & _).
  destruct (rights_at p a eq_refl) as (_ & Es & _). rewrite Es, Hb in Hc. specialize (Hc eq_refl). lia.
Qed.

Lemma live_sonce : has (r_bits a) MACH_PORT_TYPE_SEND_ONCE = true -> 0 < ip_sorights x.
Proof.
  intros Hb. destruct (po_live _ _ _ _ _ _ _ (port_inv I p x h Hx Hh) Hact) as (_ & -> & _).
  pose proof (right_counted Ha (is_sonce p)) as Hc. pose proof (naked_inv I p) as (_ & ? & _).
  destruct (rights_at p a eq_refl) as (_ & _ & Es & _). rewrite Es, Hb in Hc. specialize (Hc eq_refl). lia.
Qed.

(** Only a live port has a receive right. *)
Lemma receive_live : has (r_bits a) MACH_PORT_TYPE_RECEIVE = true -> io_active h = true.
Proof.
  clear Hact. intros Hb. destruct (io_active h) eqn:E; [done|].
  destruct (po_dead _ _ _ _ _ _ _ (port_inv I p x h Hx Hh) E) as (_ & _ & Hr & _).
  pose proof (right_counted Ha (is_recv p)) as Hc. pose proof (naked_inv I p) as (_ & _ & ? & _).
  destruct (rights_at p a eq_refl) as (_ & _ & _ & Er). rewrite Er, Hb in Hc. specialize (Hc eq_refl). lia.
Qed.
End live.

(** Port [x'] is port [x] with [ds] send rights and [dso] send-once rights more. *)
Definition port_counts (ds dso : Z) (x x' : ipc_port) : Prop :=
  ip_srights x' = ip_srights x + ds /\ ip_sorights x' = ip_sorights x + dso /\
  ip_receiver x' = ip_receiver x /\ ip_receiver_name x' = ip_receiver_name x.

Section finish.
Context {X : gset (Z * Z)} {n : naked} {R : rights} {w : world} (I : inv_with X n R w).
Context {s i : Z} {sp : ipc_space} {a : right}.
Context (Hs : w_space w !! s = Some sp) (Hsa : is_active sp = true) (Ha : R !! (s, i) = Some a).
Context {x : ipc_port} {h : ipc_object} {l : list Z}.
Let p := r_object a.
Let sizes := e_table_entries (w_env w).
Let reqs := e_table_requests (w_env w).
Let send := Z.b2z (has (r_bits a) MACH_PORT_TYPE_SEND).
Let sonce := Z.b2z (has (r_bits a) MACH_PORT_TYPE_SEND_ONCE).
Context (Hx : w_port w !! p = Some x) (Hh : w_io w !! p = Some h) (Hact : io_active h = true).
Context (Htb : typed_but (X := X) (s := s) (sp := sp) l).

(** The entry is freed, and its right and its reference are naked: [ds] send
    rights and [dso] send-once rights of them are kept. *)
Lemma freed_finish ds dso x' sp' w' :
  has (r_bits a) MACH_PORT_TYPE_RECEIVE = false ->
  port_counts (ds - send) (dso - sonce) x x' -> 0 <= ds -> 0 <= dso -> ds + dso <= 1 ->
  req_ok reqs (put (s, i) None R) p (ip_requests x') ->
  space_wf sp l -> freed sizes sp l i sp' ->
  w_env w' = w_env w -> w_space w' = <[s := sp']> (w_space w) -> w_io w' = w_io w ->
  w_port w' = <[p := x']> (w_port w) ->
  inv_with X (give p ds dso 0 1 n) (put (s, i) None R) w'.
Proof.
  intros Hr (Es & Eso & Erc & Ern) ??? Hrq W Hf Hen Hsp Hio Hpo.
  destruct (rights_at p a eq_refl) as (Ref & Rs & Rso & Rr).
  apply (live_finish I Hs Ha Hx Hh Hact X None ds dso 0 1 x' sp'); try done.
  - by apply (right_freed I Hs Hsa X l).
  - apply (fr_same _ _ _ _ _ Hf).
  - split; cbn [counts]; fold p; rewrite ?Rs, ?Rso, ?Rr, ?Hr; unfold send, sonce in *; try (cbn [Z.b2z]; lia).
    pose proof (naked_inv I p) as HN. apply give_ok; try done; destruct HN as (? & ? & ? & ?); lia.
Qed.

(** The entry keeps a right for the port, with other bits. *)
Lemma kept_finish ds dso b r x' h0 sp' w' :
  bits_ok b -> is_port_type (IE_BITS_TYPE b) = true -> gen_roll b = gen_roll (r_bits a) ->
  has b MACH_PORT_TYPE_RECEIVE = has (r_bits a) MACH_PORT_TYPE_RECEIVE ->
  (names_port b = true -> names_port (r_bits a) = true) ->
  port_counts (Z.b2z (has b MACH_PORT_TYPE_SEND) + ds - send)
    (Z.b2z (has b MACH_PORT_TYPE_SEND_ONCE) + dso - sonce) x x' ->
  naked_ok (give p ds dso 0 0 n) p ->
  req_ok reqs (put (s, i) (Some (mkRight p b r)) R) p (ip_requests x') ->
  held sizes sp l i h0 p b r sp' -> h0 = (IE_BITS_TYPE b =? MACH_PORT_TYPE_SEND) ->
  w_env w' = w_env w -> w_space w' = <[s := sp']> (w_space w) -> w_io w' = w_io w ->
  w_port w' = <[p := x']> (w_port w) ->
  inv_with X (give p ds dso 0 0 n) (put (s, i) (Some (mkRight p b r)) R) w'.
Proof.
  intros Hb Hty Hg Hr Hnp (Es & Eso & Erc & Ern) Hnok Hrq H Hh0 Hen Hsp Hio Hpo.
  destruct (rights_at p a eq_refl) as (Ref & Rs & Rso & Rr).
  destruct (rights_at p (mkRight p b r) eq_refl) as (Ref' & Rs' & Rso' & Rr'). simpl in Rs', Rso', Rr'.
  destruct (port_addr I p h Hh) as (Hp0 & _).
  assert (Hnt : IE_BITS_TYPE b <> MACH_PORT_TYPE_NONE) by (intros E; by rewrite E in Hty).
  apply (live_finish I Hs Ha Hx Hh Hact X _ ds dso 0 0 x' sp'); try done.
  - replace (Some (mkRight p b r)) with (right_of p b r)
      by (unfold right_of; by rewrite (proj2 (Z.eqb_neq _ _) Hnt)).
    apply (right_space I Hs Ha X l h0); try done.
    + by rewrite (proj2 (Z.eqb_neq _ _) Hp0).
    + auto.
  - apply (hd_same _ _ _ _ _ _ _ _ _ H).
  - intros a0 [= <-]. by left.
  - split; cbn [counts]; fold p; rewrite ?Rs, ?Rso, ?Rr, ?Rs', ?Rso', ?Rr', ?Ref', ?Hr; unfold send, sonce in *;
      try (cbn [Z.b2z]; lia). done.
  - intros a0 [= <-]. split; simpl; [done|..].
    + intros E. by rewrite E in Hty.
    + intros E. by rewrite E in Hty.
    + intros _. exists x'. rewrite lookup_insert_eq. split; [done|]. intros Hb'. rewrite Hr in Hb'.
      assert (Hta : is_port_type (IE_BITS_TYPE (r_bits a)) = true).
      { revert Hb'. rewrite has_type by done.
        destruct (ro_bits _ _ _ _ (the_right I Ha)) as [[-> _]|[[-> _]|[[-> _]|[[-> _]|[[-> _]|[-> _]]]]]];
          done. }
      destruct (right_port I Ha Hta) as (x0 & _ & Hx0 & _ & Hrv). fold p in Hx0.
      rewrite Hx in Hx0. injection Hx0 as <-. destruct (Hrv Hb') as [E1 E2].
      rewrite Erc, Ern, E1, E2. split; [done|]. by symmetry; apply entry_name_roll.
Qed.
End finish.

(** ** Names without an object *)

(** Rights for nothing change. *)
Lemma obj_inv_dead sizes active n R io ports k a' :
  obj_inv sizes active n R io ports ->
  about IO_NULL (R !! k) -> about IO_NULL a' ->
  (forall a0, a' = Some a0 -> right_ok io ports k a0) ->
  obj_inv sizes active n (put k a' R) io ports.
Proof.
  intros O Hk Hk' Hok. pose proof (moves_put IO_NULL R k a' Hk Hk') as HR.
  assert (Hoff : naked_off IO_NULL n n) by done.
  assert (Hn : naked_ok n IO_NULL) by apply O. split.
  - apply O.
  - intros o ho Hho. apply (step_object O IO_NULL _ _ HR Hoff); [|done].
    by destruct (oi_object _ _ _ _ _ _ O o ho Hho).
  - apply O.
  - apply O.
  - intros q x Hx. destruct (oi_port _ _ _ _ _ _ O q x Hx) as (hq & Hhq & Hpo). exists hq. split; [done|].
    destruct (oi_object _ _ _ _ _ _ O q hq Hhq) as (? & _).
    by apply (@step_port_ok sizes active n R IO_NULL).
  - intros j a0. destruct (decide (k = j)) as [<-|].
    + rewrite put_eq. auto.
    + rewrite put_ne by done. apply O.
  - intros o ho Hho. apply (step_pset O IO_NULL _ HR); [|done].
    by destruct (oi_object _ _ _ _ _ _ O o ho Hho).
Qed.

(** ** Steps *)

Lemma wp_drop_send_right p x (Q : Z * Z -> world -> Prop) w :
  w_port w !! p = Some x -> 0 < ip_srights x < 2 ^ 32 ->
  (forall ns x', port_counts (-1) 0 x x' -> ip_requests x' = ip_requests x ->
     Q ns (set_w_port (<[p := x']> (w_port w)) w)) ->
  wp (drop_send_right p) Q w.
Proof.
  intros Hx Hr HQ. wopen w. unfold drop_send_right. wp_steps.
  rewrite (u32_id (ip_srights x - 1)) by lia.
  destruct (_ =? 0); wp_steps; [destruct (negb _)|]; wp_steps; rewrite ?insert_insert_eq;
    (apply HQ; [|done]); unfold port_counts; simpl; split_and!; done || lia.
Qed.

(** ** User references *)

(** One user reference less; the count is pinned at the maximum. *)
Definition drop_uref (a : right) : option right :=
  let u := IE_BITS_UREFS (r_bits a) in
  if u =? 1 then None
  else if u <? MACH_PORT_UREFS_MAX then Some (mkRight (r_object a) (r_bits a - 1) (r_request a))
  else Some a.

Lemma has_urefs b d t :
  0 <= IE_BITS_UREFS b + d <= MACH_PORT_UREFS_MAX -> Z.land IE_BITS_TYPE_MASK t = t ->
  has (b + d) t = has b t.
Proof. intros Hd Ht. by rewrite (has_type (b + d)), (has_type b), type_urefs_add by done. Qed.

(** The types of rights that have user references to count. *)
Definition counted_type (t : Z) : Prop :=
  t = MACH_PORT_TYPE_SEND \/ t = MACH_PORT_TYPE_SEND_RECEIVE \/ t = MACH_PORT_TYPE_DEAD_NAME.

Lemma bits_ok_urefs b d :
  counted_type (IE_BITS_TYPE b) -> 0 < IE_BITS_UREFS b + d <= MACH_PORT_UREFS_MAX -> bits_ok (b + d).
Proof.
  intros Ht Hd. unfold bits_ok. rewrite type_urefs_add, urefs_add by lia.
  destruct Ht as [-> | [-> | ->]]; [left|do 2 right; left|do 5 right]; split; done || lia.
Qed.

Lemma bits_ok_counted b : bits_ok b -> counted_type (IE_BITS_TYPE b) -> 0 < IE_BITS_UREFS b.
Proof.
  intros Hb Ht. destruct Hb as [[E ?]|[[E _]|[[E ?]|[[E _]|[[E _]|[E ?]]]]]]; try lia;
    rewrite E in Ht; by destruct Ht as [?|[?|?]].
Qed.

Section urefs.
Context {X : gset (Z * Z)} {n : naked} {R : rights} {w : world} (I : inv_with X n R w).
Context {s i : Z} {sp : ipc_space} {a : right} {l : list Z}.
Context (Hs : w_space w !! s = Some sp) (Hsa : is_active sp = true) (Ha : R !! (s, i) = Some a).
Context (Htb : typed_but (X := X) (s := s) (sp := sp) l).
Let sizes := e_table_entries (w_env w).

(** The entry of a dead name is changed or freed. *)
Lemma dead_finish {X'} a' sp' w' :
  r_object a = IO_NULL -> space_inv sizes X' (<[s := sp']> (w_space w)) (put (s, i) a' R) ->
  is_bits sp' = is_bits sp -> about IO_NULL a' ->
  (forall a0, a' = Some a0 -> right_ok (w_io w) (w_port w) (s, i) a0) ->
  w_env w' = w_env w -> w_space w' = <[s := sp']> (w_space w) -> w_io w' = w_io w ->
  w_port w' = w_port w -> inv_with X' n (put (s, i) a' R) w'.
Proof.
  intros Ho HS Hb Hab Hok Hen Hsp Hio Hpo.
  apply (inv_finish _ _ _ w w' s sp sp' Hs Hen Hsp Hb HS). rewrite Hio, Hpo.
  destruct I as [_ O]. apply obj_inv_dead; try done. rewrite Ha. intros a0 [= <-]. by left.
Qed.
End urefs.

(** ** Notifications leave a trace only *)

Lemma wp_when_call b fn args (Q : unit -> world -> Prop) w :
  (forall tr, Q tt (set_w_trace tr w)) -> wp (when b (call_ fn args)) Q w.
Proof.
  intros HQ. apply wp_when; intros _; [apply wp_call_, HQ|].
  specialize (HQ (w_trace w)). by destruct w.
Qed.

Lemma wp_notify_no_senders ns (Q : unit -> world -> Prop) w :
  (forall tr, Q tt (set_w_trace tr w)) -> wp (notify_no_senders ns) Q w.
Proof. apply wp_when_call. Qed.

Lemma wp_notify_port_deleted request name (Q : unit -> world -> Prop) w :
  (forall tr, Q tt (set_w_trace tr w)) -> wp (notify_port_deleted request name) Q w.
Proof. apply wp_when_call. Qed.


(** The reference that a right left behind is released. *)
Lemma wp_give_release {X n R w} (I : inv_with X n R w) p R' w1 h1 (Q : unit -> world -> Prop) :
  inv_with X (give p 0 0 0 1 n) R' w1 -> w_io w1 !! p = Some h1 ->
  (forall w', inv_with X n R' w' -> w_locks w' = w_locks w1 -> w_env w' = w_env w1 -> Q tt w') ->
  wp (ip_release p) Q w1.
Proof.
  intros I1 Hh HQ. pose proof (naked_inv I p) as (? & ? & ? & ?).
  apply (wp_io_release I1 p h1 Hh); [simpl; rewrite !bump_eq; lia|]. intros w' I' [].
  rewrite give_give, !Z.add_0_l in I'. simpl in I'. rewrite give_zero in I'. by apply HQ.
Qed.

Lemma port_counts_requests ds dso x x1 x2 r :
  port_counts ds dso x x1 -> x2 = set_ip_requests r x1 -> port_counts ds dso x x2.
Proof. by intros ? ->. Qed.

Lemma naked_ok_zero n p : naked_ok n p -> naked_ok (give p 0 0 0 0 n) p.
Proof. intros (? & ? & ? & ?). unfold naked_ok. simpl. rewrite !bump_eq. lia. Qed.

Section uref_finish.
Context {X : gset (Z * Z)} {n : naked} {R : rights} {w : world} (I : inv_with X n R w).
Context {s i : Z} {sp : ipc_space} {a : right}.
Context (Hs : w_space w !! s = Some sp) (Hsa : is_active sp = true) (Ha : R !! (s, i) = Some a).
Context {x : ipc_port} {h : ipc_object} {l : list Z}.
Let p := r_object a.
Context (Hx : w_port w !! p = Some x) (Hh : w_io w !! p = Some h) (Hact : io_active h = true).
Context (Htb : typed_but (X := X) (s := s) (sp := sp) l).

Lemma send_urefs : has (r_bits a) MACH_PORT_TYPE_SEND = true -> 0 < IE_BITS_UREFS (r_bits a).
Proof.
  rewrite has_type by done.
  destruct (ro_bits _ _ _ _ (the_right I Ha)) as [[-> ?]|[[-> _]|[[-> ?]|[[-> _]|[[-> _]|[-> _]]]]]]; done.
Qed.

(** The entry of a send right has another number of user references. *)
Lemma uref_finish b sp' w' :
  has (r_bits a) MACH_PORT_TYPE_SEND = true -> IE_BITS_TYPE b = IE_BITS_TYPE (r_bits a) ->
  gen_roll b = gen_roll (r_bits a) -> 0 < IE_BITS_UREFS b ->
  held (e_table_entries (w_env w)) sp l i
    (negb (p =? IO_NULL) && (IE_BITS_TYPE (r_bits a) =? MACH_PORT_TYPE_SEND)) p b (r_request a) sp' ->
  w_env w' = w_env w -> w_space w' = <[s := sp']> (w_space w) -> w_io w' = w_io w ->
  w_port w' = w_port w ->
  inv_with X n (put (s, i) (Some (mkRight p b (r_request a))) R) w'.
Proof.
  intros Hb Hbt Hg Hu H Hen Hsp Hio Hpo. rewrite <- (give_zero p n). pose proof (naked_inv I p) as HN.
  assert (Hhas : forall t, Z.land IE_BITS_TYPE_MASK t = t -> has b t = has (r_bits a) t)
    by (intros t E; by rewrite (has_type b), Hbt, <- has_type).
  assert (Hty : bits_ok b /\ is_port_type (IE_BITS_TYPE b) = true).
  { revert Hb. rewrite has_type by done. unfold bits_ok. rewrite Hbt.
    destruct (ro_bits _ _ _ _ (the_right I Ha)) as [[-> _]|[[-> _]|[[-> _]|[[-> _]|[[-> _]|[-> _]]]]]];
      try done; (split; [tauto|done]). }
  destruct Hty as [Hct Hpt]. destruct (port_addr I p h Hh) as (Hp0 & _). apply Z.eqb_neq in Hp0.
  rewrite Hp0 in H. pose proof (po_reqs _ _ _ _ _ _ _ (port_inv I p x h Hx Hh)) as Hrq.
  eapply (kept_finish I Hs Ha Hx Hh Hact Htb 0 0 _ _ x _ sp'); try exact H; try done.
  - by apply Hhas.
  - unfold names_port. by rewrite !Hhas.
  - rewrite !Hhas by done. unfold port_counts. split_and!; done || lia.
  - destruct HN as (? & ? & ? & ?). unfold naked_ok. simpl. fold p. rewrite !bump_eq. lia.
  - apply req_ok_put; [done|]. intros a0 [= <-] _. right. exists a. split_and!; try done.
    simpl. by apply entry_name_roll.
  - by rewrite Hbt.
  - by rewrite insert_id.
Qed.

Lemma drop_uref_finish b sp' w' :
  has (r_bits a) MACH_PORT_TYPE_SEND = true -> IE_BITS_UREFS (r_bits a) <> 1 ->
  held (e_table_entries (w_env w)) sp l i
    (negb (p =? IO_NULL) && (IE_BITS_TYPE (r_bits a) =? MACH_PORT_TYPE_SEND)) p b (r_request a) sp' ->
  b = (if IE_BITS_UREFS (r_bits a) <? MACH_PORT_UREFS_MAX then r_bits a - 1 else r_bits a) ->
  w_env w' = w_env w -> w_space w' = <[s := sp']> (w_space w) -> w_io w' = w_io w ->
  w_port w' = w_port w -> inv_with X n (put (s, i) (drop_uref a) R) w'.
Proof.
  intros Hb E1 H -> Hen Hsp Hio Hpo. unfold drop_uref. rewrite (proj2 (Z.eqb_neq _ _) E1).
  pose proof (IE_BITS_UREFS_range (r_bits a)). pose proof (send_urefs Hb).
  destruct (Z.ltb_spec (IE_BITS_UREFS (r_bits a)) MACH_PORT_UREFS_MAX).
  - change (r_bits a - 1) with (r_bits a + -1) in *. eapply uref_finish; try done.
    + apply type_urefs_add. lia.
    + apply gen_roll_urefs. lia.
    + rewrite urefs_add; lia.
  - replace (Some a) with (Some (mkRight p (r_bits a) (r_request a))) by by destruct a.
    by eapply uref_finish.
Qed.

(** The entry of send and receive rights keeps the receive right; [ds] tells
    whether the send right is naked. *)
Lemma without_send_finish ds x' sp' w' :
  IE_BITS_TYPE (r_bits a) = MACH_PORT_TYPE_SEND_RECEIVE ->
  port_counts (ds - 1) 0 x x' -> ip_requests x' = ip_requests x ->
  naked_ok (give p ds 0 0 0 n) p ->
  held (e_table_entries (w_env w)) sp l i false p (without_send (r_bits a)) (r_request a) sp' ->
  w_env w' = w_env w -> w_space w' = <[s := sp']> (w_space w) -> w_io w' = w_io w ->
  w_port w' = <[p := x']> (w_port w) ->
  inv_with X (give p ds 0 0 0 n)
    (put (s, i) (Some (mkRight p (without_send (r_bits a)) (r_request a))) R) w'.
Proof.
  intros Ht Hc Hrq' Hnok H Hen Hsp Hio Hpo. destruct (without_send_receive _ Ht) as [Hbt Hbok].
  pose proof (without_send_gen (r_bits a)) as Hg.
  pose proof (po_reqs _ _ _ _ _ _ _ (port_inv I p x h Hx Hh)) as Hrq.
  eapply (kept_finish I Hs Ha Hx Hh Hact Htb ds 0 _ _ x'); try exact H; try done; try by rewrite Hbt.
  - by types.
  - unfold names_port. by types.
  - types. destruct Hc as (? & ? & ? & ?). unfold port_counts. cbn [Z.b2z]. split_and!; done || lia.
  - fold p. rewrite Hrq'. apply req_ok_put; [done|]. intros a0 [= <-] _. right. exists a.
    split_and!; try done. simpl. by apply entry_name_roll.
Qed.
End uref_finish.

Section facts.
Context {X : gset (Z * Z)} {n : naked} {R : rights} {w : world} (I : inv_with X n R w).
Context {s i : Z} {a : right} (Ha : R !! (s, i) = Some a).

Lemma sonce_urefs : IE_BITS_TYPE (r_bits a) = MACH_PORT_TYPE_SEND_ONCE -> IE_BITS_UREFS (r_bits a) = 1.
Proof.
  intros Ht. destruct (ro_bits _ _ _ _ (the_right I Ha)) as [[E _]|[[E _]|[[E _]|[[E ?]|[[E _]|[E _]]]]]];
    by rewrite Ht in E.
Qed.

(** The port of a receive right knows its holder. *)
Lemma right_receiver :
  has (r_bits a) MACH_PORT_TYPE_RECEIVE = true ->
  forall x, w_port w !! r_object a = Some x ->
    ip_receiver x = s /\ ip_receiver_name x = entry_name i (r_bits a).
Proof.
  intros Hr x Hx. pose proof (the_right I Ha) as [Hb _ _ Hpt].
  assert (Ht : is_port_type (IE_BITS_TYPE (r_bits a)) = true).
  { revert Hr. rewrite has_type by done.
    by destruct Hb as [[-> _]|[[-> _]|[[-> _]|[[-> _]|[[-> _]|[-> _]]]]]]. }
  destruct (Hpt Ht) as (x' & Hx' & Hrv). rewrite Hx in Hx'. injection Hx' as <-. by apply Hrv.
Qed.
End facts.
