(* ===== verification/IpcRightDealloc.v ===== *)
(** * Releasing a user reference (ipc/ipc_right.c, ipc_right_dealloc)

    Every branch of the routine, on rights for live and dead ports and on dead
    names, takes one user reference from the right, and keeps the invariant. *)

From S2P Require Import Prelude IpcTypes IpcBits IpcHash IpcTable KernelState Kernel IpcFreelist IpcEntry IpcEntryInv IpcGrow IpcAlloc IpcPort IpcRight IpcHeld IpcRights IpcNaked IpcRequests IpcRightCheck IpcRightLive.

(** How an operation on the right of entry [i] of space [s] ends: [spec] says
    which results, rights and naked rights are possible.  The lock of the space
    has been given up. *)
Definition right_post {A : Type} (X : gset (Z * Z)) (R : rights) (s i : Z) (w : world)
    (spec : A -> option right -> naked -> Prop) (v : A) (w' : world) : Prop :=
  exists a' n', spec v a' n' /\ inv_with X n' (put (s, i) a' R) w' /\
    w_locks w' = w_locks w ∖ {[LSpace s]} /\ w_env w' = w_env w.

(** ** Dead names *)

Section dead_name.
Context {X : gset (Z * Z)} {n : naked} {R : rights} {w : world} (I : inv_with X n R w).
Context {s i : Z} {sp : ipc_space} {a : right}.
Context (Hs : w_space w !! s = Some sp) (Hsa : is_active sp = true) (Ha : R !! (s, i) = Some a).
Context (Ht : IE_BITS_TYPE (r_bits a) = MACH_PORT_TYPE_DEAD_NAME).
Context (Hlock : LSpace s ∈ w_locks w).

Lemma dead_kept l b sp' w' :
  typed_but (X := X) (s := s) (sp := sp) l -> IE_BITS_TYPE b = MACH_PORT_TYPE_DEAD_NAME ->
  0 < IE_BITS_UREFS b ->
  held (e_table_entries (w_env w)) sp l i false IO_NULL b IE_REQ_NONE sp' ->
  w_env w' = w_env w -> w_space w' = <[s := sp']> (w_space w) -> w_io w' = w_io w ->
  w_port w' = w_port w ->
  inv_with X n (put (s, i) (Some (mkRight IO_NULL b IE_REQ_NONE)) R) w'.
Proof.
  intros Htb Hb Hu H Hen Hsp Hio Hpo. destruct (ro_dead _ _ _ _ (the_right I Ha) Ht) as [Ho _].
  apply (dead_finish I Hs Ha _ sp'); try done.
  - replace (Some (mkRight IO_NULL b IE_REQ_NONE)) with (right_of IO_NULL b IE_REQ_NONE)
      by (unfold right_of; by rewrite Hb).
    apply (right_space I Hs Ha X l false); try done; [by rewrite Hb|]. unfold names_port. by types.
  - apply (hd_same _ _ _ _ _ _ _ _ _ H).
  - intros a0 [= <-]. by left.
  - intros a0 [= <-]. split; simpl; rewrite ?Hb; try done. do 5 right. done.
Qed.

Lemma dead_freed l sp' w' :
  typed_but (X := X) (s := s) (sp := sp) l ->
  freed (e_table_entries (w_env w)) sp l i sp' -> space_wf sp l ->
  w_env w' = w_env w -> w_space w' = <[s := sp']> (w_space w) -> w_io w' = w_io w ->
  w_port w' = w_port w -> inv_with X n (put (s, i) None R) w'.
Proof.
  intros Htb Hf W Hen Hsp Hio Hpo. destruct (ro_dead _ _ _ _ (the_right I Ha) Ht) as [Ho _].
  apply (dead_finish I Hs Ha None sp'); try done.
  - by apply (right_freed I Hs Hsa X l).
  - apply (fr_same _ _ _ _ _ Hf).
Qed.

(** The rest of the routine after the entry has been updated: [p] is a dead port
    that a reference is left of. *)
Definition spare (p : Z) : Prop :=
  exists h, w_io w !! p = Some h /\ n_send n p + n_sonce n p + n_recv n p < n_ref n p.

Lemma wp_spare_release p R' w1 (Q : Z -> world -> Prop) :
  p = IP_NULL \/ spare p -> inv_with X n R' w1 -> w_io w1 = w_io w -> w_env w1 = w_env w ->
  (forall w', inv_with X (if p =? IP_NULL then n else give p 0 0 0 (-1) n) R' w' ->
     w_locks w' = w_locks w1 -> w_env w' = w_env w -> Q KERN_SUCCESS w') ->
  wp (when (negb (p =? IP_NULL)) (ip_release p);; mret KERN_SUCCESS) Q w1.
Proof.
  intros Hp I1 Hio Hen HQ. destruct (Z.eqb_spec p IP_NULL) as [E|E].
  - wp_steps. by apply HQ.
  - destruct Hp as [|(h & Hh & Hn)]; [done|]. cbn [negb]. wp_step.
    unfold when. apply (wp_io_release I1 p h); [congruence|done|]. intros w' I' []. wp_step.
    apply HQ; congruence || done.
Qed.

Lemma wp_dealloc_dead_name p name (Q : Z -> world -> Prop) :
  name = entry_name i (r_bits a) -> p = IP_NULL \/ spare p ->
  (forall w', inv_with X (if p =? IP_NULL then n else give p 0 0 0 (-1) n)
       (put (s, i) (drop_uref a) R) w' ->
     w_locks w' = w_locks w ∖ {[LSpace s]} -> w_env w' = w_env w -> Q KERN_SUCCESS w') ->
  wp (dealloc_dead_name s name i (r_bits a) p) Q w.
Proof.
  intros Hn Hp HQ. destruct (right_hold I Hs Hsa Ha) as (l & H & Htb).
  destruct (ro_dead _ _ _ _ (the_right I Ha) Ht) as [Ho Hr]. rewrite Ho, Hr in H.
  pose proof (bits_ok_counted _ (ro_bits _ _ _ _ (the_right I Ha))) as Hu.
  rewrite Ht in Hu. specialize (Hu (or_intror (or_intror eq_refl))).
  pose proof (IE_BITS_UREFS_range (r_bits a)) as Hur.
  pose proof (fun R' w1 => wp_spare_release p R' w1 Q Hp) as Hrel.
  pose proof (dead_kept l) as Hkept. pose proof (dead_freed l) as Hfreed.
  unfold dealloc_dead_name. unfold drop_uref in HQ. rewrite Ho, Hr in HQ.
  wopen w. wp_steps; [lia|].
  destruct (Z.eqb_spec (IE_BITS_UREFS (r_bits a)) 1) as [E1|E1]; wp_steps.
  - apply wp_unbind, (Hrel (put (s, i) None R)); [|done..].
    apply (Hfreed sp'); try done. apply H.
  - destruct (Z.ltb_spec (IE_BITS_UREFS (r_bits a)) MACH_PORT_UREFS_MAX) as [E2|E2]; wp_steps.
    + by apply (gen_roll_urefs _ (-1)); lia.
    + rewrite Hn. symmetry. apply entry_name_roll, (gen_roll_urefs _ (-1)). lia.
    + eapply wp_unbind, Hrel; [|done..]. eapply (Hkept (r_bits a - 1)); try done.
      * rewrite <- Ht. apply (type_urefs_add _ (-1)). lia.
      * pose proof (urefs_add (r_bits a) (-1) ltac:(lia)). change (r_bits a - 1) with (r_bits a + -1). lia.
    + apply wp_unbind, (Hrel (put (s, i) (Some a) R)); [|done..].
      destruct a as [o b r]. simpl in *. subst o r. by eapply (Hkept b).
Qed.
End dead_name.

(** ** Port sets *)

(** The right for a port set goes and leaves a reference; the set may have been
    marked dead. *)
Lemma pset_step {sizes active n R io ports} (O : obj_inv sizes active n R io ports) k a o h h' :
  R !! k = Some a -> r_object a = o -> io !! o = Some h ->
  io_otype h = IOT_PORT_SET -> io_otype h' = IOT_PORT_SET -> io_references h' = io_references h ->
  obj_inv sizes active (give o 0 0 0 1 n) (put k None R) (<[o := h']> io) ports.
Proof.
  intros Ha Ho Hh Ht Ht' Href. destruct (oi_object _ _ _ _ _ _ O o h Hh) as (Ho0 & _ & Hrc & Hrr).
  pose proof (oi_pset _ _ _ _ _ _ O o h Hh Ht) as Hp. pose proof (oi_naked _ _ _ _ _ _ O o) as HN.
  destruct (rights_at o a Ho) as (Er & _).
  assert (Hc : count (is_ref o) (put k None R) = count (is_ref o) R - 1).
  { rewrite count_put, Ha. simpl. rewrite Er. simpl. lia. }
  apply (step_keep O o) with (h := h) (h' := h') (x' := ports !! o); try done.
  - apply moves_put; [|done]. rewrite Ha. intros a0 [= <-]. by left.
  - apply give_off.
  - apply give_ok; try done; lia.
  - symmetry. apply partial_alter_self.
  - rewrite Hc. simpl. rewrite bump_eq. lia.
  - lia.
  - intros E. by rewrite Ht' in E.
  - lia.
  - intros x Hx. destruct (oi_port _ _ _ _ _ _ O o x Hx) as (h0 & Hh0 & Hpo). simplify_eq.
    pose proof (po_type _ _ _ _ _ _ _ Hpo) as E. by rewrite Ht in E.
  - intros j a0 Hj Hor. destruct (decide (k = j)) as [<-|Hk]; [by rewrite put_eq in Hj|].
    pose proof Hj as Hj'. rewrite put_ne in Hj' by done. destruct Hor as [?|Hor]; [done|].
    destruct (rights_at o a0 Hor) as (Er0 & _).
    pose proof (count_two (is_ref o) R k j a a0 Hk Ha Hj' Er Er0). lia.
Qed.

Lemma otype_inactive h :
  io_otype (set_io_bits (Z.land (io_bits h) (Z.lnot IO_BITS_ACTIVE)) h) = io_otype h.
Proof. unfold io_otype. simpl. by rewrite clear_mask, <- Z.land_assoc. Qed.

Section pset.
Context {X : gset (Z * Z)} {n : naked} {R : rights} {w : world} (I : inv_with X n R w).
Context {s i : Z} {sp : ipc_space} {a : right}.
Context (Hs : w_space w !! s = Some sp) (Hsa : is_active sp = true) (Ha : R !! (s, i) = Some a).
Context (Ht : IE_BITS_TYPE (r_bits a) = MACH_PORT_TYPE_PORT_SET).
Let o := r_object a.
Context (Hlock : LSpace s ∈ w_locks w) (Hl : LObject o ∉ w_locks w) (Hm : LMqueue o ∉ w_locks w).

Lemma pset_finish l h h' sp' w' :
  typed_but (X := X) (s := s) (sp := sp) l -> w_io w !! o = Some h ->
  io_otype h = IOT_PORT_SET -> io_otype h' = IOT_PORT_SET -> io_references h' = io_references h ->
  freed (e_table_entries (w_env w)) sp l i sp' -> space_wf sp l ->
  w_env w' = w_env w -> w_space w' = <[s := sp']> (w_space w) -> w_io w' = <[o := h']> (w_io w) ->
  w_port w' = w_port w -> inv_with X (give o 0 0 0 1 n) (put (s, i) None R) w'.
Proof.
  intros Htb Hh Hty Hty' Href Hf W Hen Hsp Hio Hpo.
  apply (inv_finish _ _ _ w w' s sp sp' Hs Hen Hsp).
  - apply (fr_same _ _ _ _ _ Hf).
  - by apply (right_freed I Hs Hsa X l).
  - rewrite Hio, Hpo. destruct I as [_ O]. by apply (pset_step O (s, i) a o h).
Qed.

(** The entry of a port set goes, and the port set with it. *)
Lemma wp_pset_gone name (Q : Z -> world -> Prop) :
  name = entry_name i (r_bits a) ->
  (forall w', inv_with X n (put (s, i) None R) w' ->
     w_locks w' = w_locks w ∖ {[LSpace s]} -> w_env w' = w_env w -> Q KERN_SUCCESS w') ->
  wp (entry_clear_dealloc s name i;;
      io_lock o;; a ← ip_active o; massert a;; is_write_unlock s;;
      ipc_pset_destroy s o;; mret KERN_SUCCESS) Q w.
Proof.
  intros Hn HQ. destruct (right_hold I Hs Hsa Ha) as (l & H & Htb). fold o in H.
  rewrite Ht, andb_false_r in H.
  destruct (ro_pset _ _ _ _ (the_right I Ha) Ht) as (Hr & h & Hh & Hty & Hact). fold o in Hh.
  rewrite Hr in H. pose proof (pset_finish l h) as Hfin.
  pose proof (fun R' w1 h1 => wp_give_release I o R' w1 h1) as Hrel.
  unfold ipc_pset_destroy, imq_lock, imq_unlock. wopen w. wp_steps.
  apply (wp_pset_lock o h); [done..|]. wp_steps.
  eapply Hrel; [|wlook|].
  - eapply (Hfin (set_io_bits (Z.land (io_bits h) (Z.lnot IO_BITS_ACTIVE)) h)); try done; [by rewrite otype_inactive|apply H].
  - intros w' I' Hlk Hen. wp_step. apply HQ; [done| |done]. rewrite Hlk. set_solver.
Qed.

(** What the entry of a port set is like. *)
Lemma pset_right :
  r_request a = IE_REQ_NONE /\ IE_BITS_UREFS (r_bits a) = 0 /\ o <> IO_NULL.
Proof.
  destruct (ro_pset _ _ _ _ (the_right I Ha) Ht) as (Hr & h & Hh & _). fold o in Hh.
  destruct (port_addr I o h Hh) as (Ho0 & _). split; [done|]. split; [|done].
  destruct (ro_bits _ _ _ _ (the_right I Ha)) as [[E _]|[[E _]|[[E _]|[[E _]|[[E ?]|[E _]]]]]];
    by rewrite Ht in E.
Qed.

Lemma wp_dealloc_pset name (Q : Z -> world -> Prop) :
  name = entry_name i (r_bits a) ->
  (forall w', inv_with X n (put (s, i) None R) w' ->
     w_locks w' = w_locks w ∖ {[LSpace s]} -> w_env w' = w_env w -> Q KERN_SUCCESS w') ->
  wp (dealloc_pset s name i (r_bits a)) Q w.
Proof.
  intros Hn HQ. destruct (right_hold I Hs Hsa Ha) as (l & H & _). fold o in H.
  destruct pset_right as (Hr & Hu & Ho0). apply Z.eqb_neq in Ho0. rewrite Hr in H.
  unfold dealloc_pset. do 2 wp_step; [lia|]. do 6 wp_step; [by rewrite Ho0|]. by apply wp_pset_gone.
Qed.
End pset.

(** ** Rights for ports *)

Lemma put_put k a a' R : put k a (put k a' R) = put k a R.
Proof.
  apply map_eq. intros k'. destruct (decide (k = k')) as [<-|]; [by rewrite !put_eq|].
  by rewrite !put_ne.
Qed.

Lemma put_id k a R : R !! k = a -> put k a R = R.
Proof. intros <-. apply partial_alter_self. Qed.

Section dealloc.
Context {X : gset (Z * Z)} {n : naked} {R : rights} {w : world} (I : inv_with X n R w).
Context {s i : Z} {sp : ipc_space} {a : right}.
Context (Hs : w_space w !! s = Some sp) (Hsa : is_active sp = true) (Ha : R !! (s, i) = Some a).
Context {x : ipc_port} {h : ipc_object}.
Let p := r_object a.
Context (Hx : w_port w !! p = Some x) (Hh : w_io w !! p = Some h).
Context (Hlock : LSpace s ∈ w_locks w) (Hl : LObject p ∉ w_locks w) (Hsm : small_table sp).

(** The port was found dead: the dead name loses a user reference, and the port
    the reference of the right. *)
Lemma wp_dealloc_died extra w1 name (Q : Z -> world -> Prop) :
  checked X n R w s i a extra w1 -> name = entry_name i (r_bits a) ->
  (forall w', inv_with X n (put (s, i) (drop_uref (died extra a)) R) w' ->
     w_locks w' = w_locks w ∖ {[LSpace s]} -> w_env w' = w_env w -> Q KERN_SUCCESS w') ->
  wp (dealloc_died s name i p) Q w1.
Proof.
  intros C Hn HQ. destruct C as [I1 (sp1 & Hs1 & Hsa1) Hlk Hen Hio _].
  pose proof (died_right_type extra a) as Ht. pose proof (died_right_gen extra a) as Hg.
  assert (Ha1 : put (s, i) (Some (died extra a)) R !! (s, i) = Some (died extra a)) by apply put_eq.
  destruct (port_addr I p h Hh) as (Hp0 & _). pose proof (naked_inv I p) as (? & ? & ? & ?).
  destruct (right_hold I1 Hs1 Hsa1 Ha1) as (l & Hd1 & _).
  unfold dealloc_died. apply wp_bind. eapply wp_held_entry; [done|exact Hd1|]. intros d y. cbn [ie_bits].
  apply wp_bind, wp_massert; [by rewrite Ht|].
  apply (wp_dealloc_dead_name I1 Hs1 Hsa1 Ha1 Ht); [by rewrite Hlk| | |].
  - rewrite Hn. symmetry. by apply entry_name_roll.
  - right. exists h. split; [by rewrite Hio|]. simpl. rewrite !bump_eq. lia.
  - rewrite (proj2 (Z.eqb_neq _ _) Hp0), put_put. intros w' I' Hlk' Hen'.
    fold p in I'. rewrite give_give, !Z.add_0_l in I'. simpl in I'. rewrite give_zero in I'.
    apply HQ; congruence.
Qed.

(** What the operation makes of a right, of which the port is [live]; [extra] is
    the additional reference of a dead name. *)
Definition dealloc_spec (live extra : bool) (a : right) (n : naked) : Z * option right * naked :=
  let t := IE_BITS_TYPE (r_bits a) in
  let u := IE_BITS_UREFS (r_bits a) in
  if t =? MACH_PORT_TYPE_PORT_SET then (KERN_SUCCESS, None, n)
  else if t =? MACH_PORT_TYPE_DEAD_NAME then (KERN_SUCCESS, drop_uref a, n)
  else if t =? MACH_PORT_TYPE_RECEIVE then (KERN_INVALID_RIGHT, Some a, n)
  else if negb live then (KERN_SUCCESS, drop_uref (died extra a), n)
  else if t =? MACH_PORT_TYPE_SEND_ONCE then (KERN_SUCCESS, None, give (r_object a) 0 1 0 1 n)
  else if (t =? MACH_PORT_TYPE_SEND_RECEIVE) && (u =? 1) then
    (KERN_SUCCESS, Some (mkRight (r_object a) (without_send (r_bits a)) (r_request a)), n)
  else (KERN_SUCCESS, drop_uref a, n).

Definition dealloc_ends (live : bool) (kr : Z) (a' : option right) (n' : naked) : Prop :=
  exists extra n1, n' ≡ n1 /\ dealloc_spec live extra a n = (kr, a', n1).

Lemma dealloc_check name (Q : bool -> world -> Prop) :
  name = entry_name i (r_bits a) ->
  is_port_type (IE_BITS_TYPE (r_bits a)) = true ->
  (io_active h = true -> Q false (set_w_locks ({[LObject p]} ∪ w_locks w) w)) ->
  (io_active h = false -> forall extra w', checked X n R w s i a extra w' -> Q true w') ->
  wp (ipc_right_check s p name i IPC_RIGHT_COPYIN_FLAGS_NONE) Q w.
Proof.
  intros Hn Hty Hlive Hdead. apply (wp_right_check I Hs Hsa Ha Hty x h); try done.
  - unfold usable. cbn [andb]. rewrite orb_false_r. done.
  - intros Hu. by eapply Hdead, usable_active.
Qed.

Lemma wp_dealloc_send name (Q : Z -> world -> Prop) :
  name = entry_name i (r_bits a) -> IE_BITS_TYPE (r_bits a) = MACH_PORT_TYPE_SEND ->
  (forall kr w', right_post X R s i w (dealloc_ends (io_active h)) kr w' -> Q kr w') ->
  wp (dealloc_send s name i (r_bits a)) Q w.
Proof.
  intros Hn Ht HQ. destruct (right_hold I Hs Hsa Ha) as (l & H & Htb). fold p in H.
  destruct (port_addr I p h Hh) as (Hp0 & _). apply Z.eqb_neq in Hp0.
  pose proof (bits_ok_counted _ (ro_bits _ _ _ _ (the_right I Ha))) as Hu.
  rewrite Ht in Hu. specialize (Hu (or_introl eq_refl)).
  unfold dealloc_send. wp_steps; [lia|by rewrite Hp0|].
  apply dealloc_check; [done|by rewrite Ht|..].
  2:{ intros Hd extra w1 C. apply (wp_dealloc_died extra); [done..|]. intros w' I' Hlk Hen.
      apply HQ. exists (drop_uref (died extra a)), n. split; [|done].
      exists extra, n. split; [done|]. unfold dealloc_spec. by rewrite Ht, Hd. }
  intros Hact.
  pose proof (live_send I Ha Hx Hh Hact) as Hsr. revert Hsr. types. intros Hsr. specialize (Hsr eq_refl).
  destruct (live_counts I p x h Hx Hh Hact) as [Hsb _]. pose proof (ref_range I p h Hh) as Hrr.
  pose proof (po_reqs _ _ _ _ _ _ _ (port_inv I p x h Hx Hh)) as Hrq.
  pose proof (freed_finish I Hs Hsa Ha Hx Hh Hact Htb 0 0) as Hfin. revert Hfin. types. intros Hfin.
  pose proof (fun R' w1 => wp_give_release I p R' w1 h) as Hrel.
  pose proof (drop_uref_finish I Hs Ha Hx Hh Hact Htb) as Hdrop.
  assert (Hsend : has (r_bits a) MACH_PORT_TYPE_SEND = true) by by types.
  wopen w. wp_steps; [lia|].
  destruct (Z.eqb_spec (IE_BITS_UREFS (r_bits a)) 1) as [E1|E1]; wp_steps.
  - apply (wp_drop_send_right p x); [wlook|unfold IO_MAX_REFERENCES in *; lia|]. intros ns x1 Hx1 Hq1. wp_steps.
    eapply (wp_request_cancel (R := R) (x := x1) (a := a)); [wlook|exact H|wlook|wlook|done|rewrite Hq1; exact Hrq|done..|].
    intros prev x2 sp2 [Ex2 Hrq2] H2. wp_steps; [by rewrite Hp0, Ht|].
    apply (Hrel (put (s, i) None R)); [|done|].
    { apply (Hfin x2 sp'1); try done; [by eapply port_counts_requests|by apply Hrq2|apply H]. }
    intros w' I' Hlk Hen. simpl in Hlk. rewrite unlock_again in Hlk by done.
    wp_step. apply wp_notify_no_senders. intros tr1. wp_step.
    apply wp_notify_port_deleted. intros tr2. wp_step. apply HQ.
    exists None, n. split; [|by split].
    exists false, n. split; [done|]. unfold dealloc_spec, drop_uref. by rewrite Ht, Hact, E1.
  - destruct (Z.ltb_spec (IE_BITS_UREFS (r_bits a)) MACH_PORT_UREFS_MAX) as [E2|E2]; wp_steps.
    1: by apply (gen_roll_urefs _ (-1)); lia.
    1: by rewrite Hn; symmetry; apply entry_name_roll, (gen_roll_urefs _ (-1)); lia.
    all: apply HQ; exists (drop_uref a), n; (split; [|split; [|by simpl; rewrite unlock_again]]).
    2, 4: by eapply Hdrop.
    all: exists false, n; split; [done|]; unfold dealloc_spec; by rewrite Ht, Hact.
Qed.

(** The send-once right goes into the notification. *)
Lemma wp_release_send_once name (Q : Z -> world -> Prop) :
  name = entry_name i (r_bits a) -> IE_BITS_TYPE (r_bits a) = MACH_PORT_TYPE_SEND_ONCE ->
  io_active h = true ->
  (forall w', inv_with X (give p 0 1 0 1 n) (put (s, i) None R) w' ->
     w_locks w' = w_locks w ∖ {[LSpace s]} -> w_env w' = w_env w -> Q KERN_SUCCESS w') ->
  wp (release_send_once s name i p) Q (set_w_locks ({[LObject p]} ∪ w_locks w) w).
Proof.
  intros Hn Ht Hact HQ. destruct (right_hold I Hs Hsa Ha) as (l & H & Htb). fold p in H.
  pose proof (po_reqs _ _ _ _ _ _ _ (port_inv I p x h Hx Hh)) as Hrq.
  pose proof (freed_finish I Hs Hsa Ha Hx Hh Hact Htb 0 1) as Hfin. revert Hfin. types. intros Hfin.
  unfold release_send_once. wopen w. wp_steps.
  eapply (wp_request_cancel (R := R) (x := set_ip_reply_context 0 x) (a := a));
    [wlook|exact H|wlook|wlook|done|exact Hrq|done..|].
  intros prev x2 sp2 [Ex2 Hrq2] H2. rewrite Ht, andb_false_r in H2. wp_steps.
  apply wp_notify_port_deleted. intros tr. wp_step. apply HQ; [|by simpl; rewrite unlock_again|done].
  eapply (Hfin x2); try done; [|by apply Hrq2|apply H].
  eapply port_counts_requests, Ex2. unfold port_counts. simpl. split_and!; done || lia.
Qed.

Lemma wp_dealloc_send_once name (Q : Z -> world -> Prop) :
  name = entry_name i (r_bits a) -> IE_BITS_TYPE (r_bits a) = MACH_PORT_TYPE_SEND_ONCE ->
  (forall kr w', right_post X R s i w (dealloc_ends (io_active h)) kr w' -> Q kr w') ->
  wp (dealloc_send_once s name i (r_bits a)) Q w.
Proof.
  intros Hn Ht HQ. destruct (right_hold I Hs Hsa Ha) as (l & H & Htb). fold p in H.
  destruct (port_addr I p h Hh) as (Hp0 & _). apply Z.eqb_neq in Hp0.
  pose proof (sonce_urefs I Ha Ht) as Hu.
  unfold dealloc_send_once. wp_steps; [lia|by rewrite Hp0|].
  apply dealloc_check; [done|by rewrite Ht|..].
  - intros Hact. pose proof (live_sonce I Ha Hx Hh Hact) as Hsr. revert Hsr. types.
    intros Hsr. specialize (Hsr eq_refl). apply wp_bind. eapply wp_port; [done|].
    apply wp_bind, wp_massert; [lia|]. apply wp_release_send_once; try done.
    intros w' I' Hlk Hen. apply HQ. exists None, (give p 0 1 0 1 n). split; [|done].
    exists false, (give p 0 1 0 1 n). split; [done|]. unfold dealloc_spec. by rewrite Ht, Hact.
  - intros Hd extra w1 C. apply (wp_dealloc_died extra); [done..|]. intros w' I' Hlk Hen.
    apply HQ. exists (drop_uref (died extra a)), n. split; [|done].
    exists extra, n. split; [done|]. unfold dealloc_spec. by rewrite Ht, Hd.
Qed.

Lemma wp_dealloc_send_receive name (Q : Z -> world -> Prop) :
  name = entry_name i (r_bits a) -> IE_BITS_TYPE (r_bits a) = MACH_PORT_TYPE_SEND_RECEIVE ->
  (forall kr w', right_post X R s i w (dealloc_ends (io_active h)) kr w' -> Q kr w') ->
  wp (dealloc_send_receive s name i (r_bits a)) Q w.
Proof.
  intros Hn Ht HQ. destruct (right_hold I Hs Hsa Ha) as (l & H & Htb). fold p in H.
  destruct (port_addr I p h Hh) as (Hp0 & _). apply Z.eqb_neq in Hp0.
  assert (Hsend : has (r_bits a) MACH_PORT_TYPE_SEND = true) by by types.
  assert (Hrecv : has (r_bits a) MACH_PORT_TYPE_RECEIVE = true) by by types.
  pose proof (send_urefs I Ha Hsend) as Hu. pose proof (receive_live I Ha Hx Hh Hrecv) as Hact.
  pose proof (live_send I Ha Hx Hh Hact Hsend) as Hsr.
  destruct (live_counts I p x h Hx Hh Hact) as [Hsb _]. pose proof (ref_range I p h Hh) as Hrr.
  destruct (right_receiver I Ha Hrecv x Hx) as [Erc Ern].
  pose proof (without_send_finish I Hs Ha Hx Hh Hact Htb 0) as Hfin.
  pose proof (drop_uref_finish I Hs Ha Hx Hh Hact Htb) as Hdrop.
  pose proof (naked_ok_zero n p (naked_inv I p)) as HN.
  unfold dealloc_send_receive, require_ip_active. wopen w. wp_steps; [lia|by rewrite Hp0|].
  rewrite Hact. wp_steps; [lia..|].
  destruct (Z.eqb_spec (IE_BITS_UREFS (r_bits a)) 1) as [E1|E1]; wp_steps.
  - apply (wp_drop_send_right p x); [wlook|unfold IO_MAX_REFERENCES in *; lia|]. intros ns x1 Hx1 Hq1. wp_steps.
    { apply without_send_gen. }
    { rewrite Hn. symmetry. apply entry_name_roll, without_send_gen. }
    apply wp_notify_no_senders. intros tr. wp_step. apply HQ.
    exists (Some (mkRight p (without_send (r_bits a)) (r_request a))), (give p 0 0 0 0 n).
    split; [|split; [|by simpl; rewrite unlock_again]].
    + exists false, n. split; [apply give_zero|]. unfold dealloc_spec. by rewrite Ht, Hact, E1.
    + rewrite Ht, andb_false_r in Hd0. by apply (Hfin x1 sp'0).
  - destruct (Z.ltb_spec (IE_BITS_UREFS (r_bits a)) MACH_PORT_UREFS_MAX) as [E2|E2]; wp_steps.
    1: by apply (gen_roll_urefs _ (-1)); lia.
    1: by rewrite Hn; symmetry; apply entry_name_roll, (gen_roll_urefs _ (-1)); lia.
    all: apply HQ; exists (drop_uref a), n; (split; [|split; [|by simpl; rewrite unlock_again]]).
    2, 4: by eapply Hdrop.
    all: exists false, n; split; [done|]; unfold dealloc_spec.
    all: by rewrite Ht, Hact, (proj2 (Z.eqb_neq _ _) E1).
Qed.
End dealloc.

(** The entry after a right was found dead. *)
Lemma wp_checked_entry {X n R w s i a} extra w1 (Q : ipc_entry -> world -> Prop) :
  checked X n R w s i a extra w1 ->
  (forall d y, Q (mkEntry IO_NULL (r_bits (died extra a)) d y IE_REQ_NONE) w1) ->
  wp (entry s i) Q w1.
Proof.
  intros [I1 (sp1 & Hs1 & Hsa1) _ _ _ _] HQ.
  pose proof (put_eq (s, i) (Some (died extra a)) R) as Ha1.
  destruct (right_hold I1 Hs1 Hsa1 Ha1) as (l1 & H1 & _). by eapply wp_held_entry.
Qed.

(** *** The routine *)

(** Right [a] is at entry [i] of the active space [s], which is locked, and
    [name] is its name: what the callers of the routines of ipc_right.c ensure.
    The table of the space has at most 4096 entries. *)
Record at_right (X : gset (Z * Z)) (n : naked) (R : rights) (w : world) (s i : Z) (a : right)
    (name : Z) : Prop := {
  ar_inv : inv_with X n R w;
  ar_space : exists sp, w_space w !! s = Some sp /\ is_active sp = true /\ small_table sp;
  ar_right : R !! (s, i) = Some a;
  ar_name : name = entry_name i (r_bits a);
  ar_locks : w_locks w = {[LSpace s]}
}.

(** The object of the right is active. *)
Definition right_live (w : world) (a : right) : bool :=
  match w_io w !! r_object a with Some h => io_active h | None => false end.

(** The rights there are, by type. *)
Lemma right_types {X n R w} (I : inv_with X n R w) {s i a} (Ha : R !! (s, i) = Some a) :
  IE_BITS_TYPE (r_bits a) = MACH_PORT_TYPE_PORT_SET \/
  IE_BITS_TYPE (r_bits a) = MACH_PORT_TYPE_DEAD_NAME \/
  (exists x h, w_port w !! r_object a = Some x /\ w_io w !! r_object a = Some h /\
     right_live w a = io_active h /\
     (IE_BITS_TYPE (r_bits a) = MACH_PORT_TYPE_SEND \/
      IE_BITS_TYPE (r_bits a) = MACH_PORT_TYPE_RECEIVE \/
      IE_BITS_TYPE (r_bits a) = MACH_PORT_TYPE_SEND_RECEIVE \/
      IE_BITS_TYPE (r_bits a) = MACH_PORT_TYPE_SEND_ONCE)).
Proof.
  assert (Hp : is_port_type (IE_BITS_TYPE (r_bits a)) = true ->
    exists x h, w_port w !! r_object a = Some x /\ w_io w !! r_object a = Some h /\
      right_live w a = io_active h).
  { intros Ht. destruct (right_port I Ha Ht) as (x & h & Hx & Hh & _). exists x, h.
    unfold right_live. by rewrite Hh. }
  destruct (ro_bits _ _ _ _ (the_right I Ha)) as [[E _]|[[E _]|[[E _]|[[E _]|[[E _]|[E _]]]]]];
    rewrite E in *; auto; right; right; destruct (Hp eq_refl) as (x & h & ? & ? & ?);
    exists x, h; auto 8.
Qed.

Lemma send_types {X n R w} (I : inv_with X n R w) {s i a} (Ha : R !! (s, i) = Some a) :
  has (r_bits a) MACH_PORT_TYPE_SEND = true ->
  IE_BITS_TYPE (r_bits a) = MACH_PORT_TYPE_SEND \/
  IE_BITS_TYPE (r_bits a) = MACH_PORT_TYPE_SEND_RECEIVE.
Proof.
  rewrite has_type by done.
  destruct (right_types I Ha) as [E|[E|(_ & _ & _ & _ & _ & [E|[E|[E|E]]])]]; rewrite E;
    auto; discriminate.
Qed.

Lemma wp_right_dealloc X n R w s i a name :
  at_right X n R w s i a name ->
  wp (ipc_right_dealloc s name i)
    (right_post X R s i w (dealloc_ends (n := n) (a := a) (right_live w a))) w.
Proof.
  intros [I (sp & Hs & Hsa & Hsm) Ha Hn Hlk].
  assert (Hlock : LSpace s ∈ w_locks w) by (rewrite Hlk; set_solver).
  assert (Hl : forall o, LObject o ∉ w_locks w) by (intros o; rewrite Hlk; set_solver).
  assert (Hm : forall o, LMqueue o ∉ w_locks w) by (intros o; rewrite Hlk; set_solver).
  destruct (right_hold I Hs Hsa Ha) as (l & H & _).
  assert (Hend : forall n' a' w', inv_with X n' (put (s, i) a' R) w' ->
    w_locks w' = w_locks w ∖ {[LSpace s]} -> w_env w' = w_env w ->
    dealloc_spec (right_live w a) false a n = (KERN_SUCCESS, a', n') ->
    right_post X R s i w (dealloc_ends (n := n) (a := a) (right_live w a)) KERN_SUCCESS w').
  { intros n' a' w' I' ? ? Hsp. exists a', n'. split; [|done]. by exists false, n'. }
  unfold ipc_right_dealloc. do 4 wp_step.
  destruct (right_types I Ha) as [Ht|[Ht|(x & h & Hx & Hh & Hlive & Hty)]].
  - rewrite Ht. apply (wp_dealloc_pset I Hs Hsa Ha); try done. intros. apply (Hend n None); try done.
    unfold dealloc_spec. by rewrite Ht.
  - rewrite Ht. apply (wp_dealloc_dead_name I Hs Hsa Ha Ht); [done|done|by left|]. intros.
    apply (Hend n (drop_uref a)); try done. unfold dealloc_spec. by rewrite Ht.
  - rewrite Hlive in *. destruct Hty as [Ht|[Ht|[Ht|Ht]]]; rewrite Ht.
    + by apply (wp_dealloc_send I Hs Hsa Ha Hx Hh).
    + consts. wopen w. wp_steps. exists (Some a), n. rewrite put_id by done. split; [|done].
      exists false, n. split; [done|]. unfold dealloc_spec. by rewrite Ht.
    + by apply (wp_dealloc_send_receive I Hs Hsa Ha Hx Hh).
    + by apply (wp_dealloc_send_once I Hs Hsa Ha Hx Hh).
Qed.

(** C5.  ipc_right_dealloc on any right of an active space of at most 4096 entries
    (in which no hash distance saturates): it does not panic, it takes one user
    reference from the right as [dealloc_spec] says (the entry goes with the
    last one, a right for a dead port is made a dead name first, a receive
    right alone is refused), it keeps the invariant that ties the counts of
    all ports and the references of all objects to the rights in the spaces,
    and it has released all locks. *)
Theorem right_dealloc_ok X n R w s i a name :
  at_right X n R w s i a name ->
  wp (ipc_right_dealloc s name i)
    (right_post X R s i w (dealloc_ends (n := n) (a := a) (right_live w a))) w.
Proof. apply wp_right_dealloc. Qed.
