(* ===== verification/IpcDestroy.v ===== *)
(** * The death of a port (ipc/ipc_port.c, ipc_port_destroy)

    A port whose receive right is taken away dies, or goes to its backup; the
    rights that other entries hold for it stay counted. *)

From S2P Require Import Prelude IpcTypes IpcBits IpcHash IpcTable KernelState Kernel IpcFreelist IpcEntry IpcEntryInv IpcGrow IpcAlloc IpcPort IpcRight IpcHeld IpcRights IpcNaked IpcRequests IpcRightCheck IpcRightLive.

(** A port with no special reply port, preallocated message, turnstile or
    importance task: those subsystems are external to this development. *)
Record plain (x : ipc_port) (h : ipc_object) : Prop := {
  pl_special : ip_specialreply x = false;
  pl_prealloc : IP_PREALLOC h = false;
  pl_send_ts : ip_send_turnstile x = 0;
  pl_waitq_ts : waitq_ts x = 0;
  pl_imp_task : ip_imp_task x = IIT_NULL;
  pl_impcount : 0 <= ip_impcount x
}.

(** The world with port [p] in limbo; that is what the invariant is about while
    the port is locked and its receiver is being changed. *)
Definition in_limbo (x : ipc_port) : ipc_port :=
  set_ip_receiver IS_NULL (set_ip_receiver_name MACH_PORT_NULL x).
Definition limbo (p : Z) (x : ipc_port) (w : world) : world :=
  set_w_port (<[p := in_limbo x]> (w_port w)) w.

Definition inactive (h : ipc_object) : ipc_object :=
  set_io_bits (Z.land (io_bits h) (Z.lnot IO_BITS_ACTIVE)) h.

Lemma inactive_active h : io_active (inactive h) = false.
Proof.
  unfold io_active, inactive. simpl. rewrite <- Z.land_assoc.
  by rewrite (Z.land_comm (Z.lnot _)), Z.land_lnot_diag, Z.land_0_r.
Qed.

Lemma inactive_otype h : io_otype (inactive h) = io_otype h.
Proof. unfold io_otype, inactive. simpl. by rewrite clear_mask, <- Z.land_assoc. Qed.

Lemma inactive_prealloc h : IP_PREALLOC (inactive h) = IP_PREALLOC h.
Proof. unfold IP_PREALLOC, inactive. simpl. by rewrite clear_mask, <- Z.land_assoc. Qed.

Section die.
Context {X : gset (Z * Z)} {n : naked} {R : rights} {w : world}.
Context (p : Z) (x : ipc_port) (h : ipc_object).
Context (I : inv_with X n R (limbo p x w)).
Context (Hx : w_port w !! p = Some x) (Hh : w_io w !! p = Some h) (Hact : io_active h = true).
Context (Hn : n_recv n p = 1).

Lemma limbo_port : w_port (limbo p x w) !! p = Some (in_limbo x).
Proof. apply lookup_insert_eq. Qed.

(** The port is marked dead; it still has the reference of its receive right. *)
Lemma inv_die x' w' :
  port_same (in_limbo x) (in_limbo x') -> ip_srights x' = ip_srights x ->
  ip_sorights x' = ip_sorights x -> plain x h ->
  w_space w' = w_space w -> w_env w' = w_env w -> w_io w' = <[p := inactive h]> (w_io w) ->
  w_port w' = <[p := x']> (w_port w) -> inv_with X (give p 0 0 (-1) 0 n) R w'.
Proof.
  intros (_ & _ & Erq & Ets & Ewt) Es Eso [_ Hpre Hts Hwt _ _] Hsp Hen Hio Hpo. simpl in Erq, Ets, Ewt.
  destruct (port_inv I p (in_limbo x) h limbo_port Hh) as [Hty Hl _ Hrq].
  destruct (Hl Hact) as (Cs & Cso & Cr & _). simpl in Cs, Cso, Hrq.
  pose proof (count_nonneg (is_recv p) R) as Hc0. pose proof (naked_inv I p) as HN.
  pose proof (ref_count I p h Hh) as Hrc. pose proof (ref_range I p h Hh) as Hrr.
  destruct I as [S O]. unfold inv_with. rewrite Hsp, Hen, Hio, Hpo. split; [done|]. simpl in O.
  replace (<[p := x']> (w_port w)) with (<[p := x']> (<[p := in_limbo x]> (w_port w)))
    by apply insert_insert_eq.
  apply (port_step O p (in_limbo x) x' h (inactive h) R _ limbo_port Hh (moves_refl p R)
    (give_off _ _ _ _ _ _)).
  - apply give_ok; try done; destruct HN as (? & ? & ? & ?); lia.
  - simpl. rewrite bump_eq. lia.
  - done.
  - split.
    + by rewrite inactive_otype.
    + by rewrite inactive_active.
    + intros _. simpl. rewrite !bump_eq, inactive_prealloc. split_and!; try lia; try done; congruence.
    + by rewrite Erq.
  - intros j a Ha Hne. done.
  - right. intros j a Ha _. destruct (is_recv p a) eqn:E; [|done].
    pose proof (count_get (is_recv p) R j) as Hc. rewrite Ha in Hc. simpl in Hc. rewrite E in Hc.
    simpl in Hc. lia.
Qed.

(** The port goes on to its backup. *)
Lemma inv_backup x' w' :
  port_same (in_limbo x) x' -> ip_srights x' = ip_srights x -> ip_sorights x' = ip_sorights x ->
  w_space w' = w_space w -> w_env w' = w_env w -> w_io w' = w_io w ->
  w_port w' = <[p := x']> (w_port w) -> inv_with X n R w'.
Proof.
  intros Hsame Es Eso Hsp Hen Hio Hpo. rewrite <- (give_zero p n).
  pose proof (naked_inv I p) as (? & ? & ? & ?). pose proof (ref_range I p h Hh).
  apply (inv_naked I p (in_limbo x) h limbo_port Hh 0 0 0 x' h); simpl; try done; try lia.
  - by rewrite Hio, insert_id.
  - by rewrite insert_insert_eq.
Qed.
End die.

(** In a world that differs from [w] by the death of port [p] the invariant holds
    with the naked rights [n']; among their references is the one to release. *)
Record doomed (X : gset (Z * Z)) (n' : naked) (R : rights) (w : world) (p : Z) (x : ipc_port) (h : ipc_object)
    : Prop := {
  dm_reqs : req_ok (e_table_requests (w_env w)) R p (ip_requests x);
  dm_naked : n_send n' p + n_sonce n' p + n_recv n' p + 1 <= n_ref n' p;
  dm_inv x' w' : port_same (in_limbo x) (in_limbo x') -> ip_srights x' = ip_srights x ->
    ip_sorights x' = ip_sorights x -> w_space w' = w_space w -> w_env w' = w_env w ->
    w_io w' = <[p := inactive h]> (w_io w) -> w_port w' = <[p := x']> (w_port w) -> inv_with X n' R w'
}.

Lemma limbo_doomed {X n R w} p x h :
  inv_with X n R (limbo p x w) -> w_io w !! p = Some h -> io_active h = true ->
  n_recv n p = 1 -> plain x h -> doomed X (give p 0 0 (-1) 0 n) R w p x h.
Proof.
  intros I Hh Hact Hn Hpl. pose proof (naked_inv I p) as (? & ? & ? & ?). split.
  - apply (po_reqs _ _ _ _ _ _ _ (port_inv I p (in_limbo x) h (limbo_port p x) Hh)).
  - simpl. rewrite !bump_eq. lia.
  - intros x' w' Hs Es Eso. by apply (inv_die p x h I Hh Hact Hn).
Qed.

(** ** The receiver is cleared *)

(** What the code that destroys a port leaves of it. *)
Record cleared (x x' : ipc_port) : Prop := {
  cl_special : ip_specialreply x' = ip_specialreply x;
  cl_srights : ip_srights x' = ip_srights x;
  cl_sorights : ip_sorights x' = ip_sorights x;
  cl_requests : ip_requests x' = ip_requests x;
  cl_send_ts : ip_send_turnstile x' = ip_send_turnstile x;
  cl_waitq_ts : waitq_ts x' = waitq_ts x;
  cl_imp_task : ip_imp_task x' = ip_imp_task x;
  cl_in_pset : ip_in_pset x' = false;
  cl_mscount : ip_mscount x' = 0;
  cl_tempowner : ip_tempowner x' = ip_tempowner x
}.

(** The test of a send turnstile that is null in the port the field was set in. *)
Ltac no_turnstile H :=
  match goal with
  | |- context [negb (?t =? 0)] => replace (t =? 0) with true by (symmetry; apply Z.eqb_eq; exact H)
  end.

Section clear.
Context (p : Z) (x : ipc_port) (h : ipc_object) (w : world).
Context (Hx : w_port w !! p = Some x) (Hh : w_io w !! p = Some h).
Context (Hm : LMqueue p ∉ w_locks w).

Lemma wp_clear_receiver_backup (Q : bool -> world -> Prop) :
  (forall x' tr, cleared x x' -> ip_receiver x' = IS_NULL -> ip_receiver_name x' = MACH_PORT_NULL ->
     Q false (set_w_trace tr (set_w_port (<[p := x']> (w_port w)) w))) ->
  wp (ipc_port_clear_receiver p false) Q w.
Proof.
  intros HQ. unfold ipc_port_clear_receiver, ipc_pset_remove_from_all, imq_lock, imq_unlock.
  wopen w. wp_steps. destruct (ip_in_pset x) eqn:Hps; wp_steps.
  - rewrite Hps. wp_steps. rewrite ?insert_insert_eq, unlock_again by done. by apply HQ.
  - rewrite ?insert_insert_eq, unlock_again by done. by apply HQ.
Qed.

Lemma wp_clear_receiver_dead (Q : bool -> world -> Prop) :
  IP_PREALLOC h = false -> ip_send_turnstile x = 0 ->
  (forall x' tr t b, cleared x x' ->
     Q b (set_w_timestamp t (set_w_io (<[p := inactive h]> (w_io w))
       (set_w_trace tr (set_w_port (<[p := x']> (w_port w)) w))))) ->
  wp (ipc_port_clear_receiver p true) Q w.
Proof.
  intros Hpre Hts HQ. rewrite <- inactive_prealloc in Hpre.
  unfold ipc_port_clear_receiver, ipc_pset_remove_from_all, imq_lock, imq_unlock,
    ipc_port_timestamp, ipc_mqueue_destroy_locked, port_send_turnstile.
  wopen w. wp_steps. destruct (ip_in_pset x) eqn:Hps; wp_steps.
  - rewrite Hps. wp_steps. fold (inactive h). rewrite Hpre. wp_steps. no_turnstile Hts. wp_steps.
    rewrite ?insert_insert_eq, unlock_again by done. by apply HQ.
  - fold (inactive h). rewrite Hpre. wp_steps. no_turnstile Hts. wp_steps; [by simpl; rewrite Hps|].
    rewrite ?insert_insert_eq, unlock_again by done. by apply HQ.
Qed.
End clear.

Section parts.
Context (p : Z) (x : ipc_port) (h : ipc_object) (w : world).
Context (Hx : w_port w !! p = Some x) (Hh : w_io w !! p = Some h).
Context (Hl : LObject p ∈ w_locks w) (Hm : LMqueue p ∈ w_locks w).

Lemma wp_push_locked (Q : unit -> world -> Prop) :
  IP_PREALLOC h = false -> ip_send_turnstile x = 0 ->
  Q tt (set_w_locks (w_locks w ∖ {[LMqueue p]} ∖ {[LObject p]}) w) ->
  wp (ipc_port_send_turnstile_recompute_push_locked p) Q w.
Proof.
  intros Hpre Hts HQ.
  unfold ipc_port_send_turnstile_recompute_push_locked, port_send_turnstile, imq_unlock.
  wopen w. wp_steps. rewrite Hpre. wp_steps. rewrite Hts. consts. wp_steps. done.
Qed.

Lemma wp_clear_watchport (Q : Z -> world -> Prop) :
  ip_specialreply x = false ->
  (forall we, Q we (set_w_port (<[p := set_waitq_tspriv 0 x]> (w_port w)) w)) ->
  wp (ipc_port_clear_watchport_elem_internal p) Q w.
Proof.
  intros Hsp HQ. unfold ipc_port_clear_watchport_elem_internal, ipc_port_update_watchport_elem.
  wopen w. wp_steps. rewrite Hsp. wp_steps; [by rewrite Hsp|]. apply HQ.
Qed.
End parts.

(** ** The two ends of a port *)

(** The port has been unlocked, and [n'] are the naked rights. *)
Record destroyed (X : gset (Z * Z)) (R : rights) (w : world) (p : Z) (n' : naked) (w' : world) : Prop := {
  ds_inv : inv_with X n' R w';
  ds_space : w_space w' = w_space w;
  ds_locks : w_locks w' = w_locks w ∖ {[LObject p]};
  ds_env : w_env w' = w_env w;
  ds_assertions : w_assertions w' = w_assertions w
}.

Section destroy.
Context {X : gset (Z * Z)} {n : naked} {R : rights} {w : world}.
Context (p : Z) (x : ipc_port) (h : ipc_object).
Context (Hx : w_port w !! p = Some x) (Hh : w_io w !! p = Some h).
Context (Hplain : plain x h) (Hl : LObject p ∈ w_locks w) (Hm : LMqueue p ∉ w_locks w).

Lemma wp_destroy_backup pd (Q : unit -> world -> Prop) :
  inv_with X n R (limbo p x w) ->
  (forall w', destroyed X R w p n w' -> Q tt w') -> wp (port_destroy_backup p pd false) Q w.
Proof.
  intros I HQ. pose proof (inv_backup p x h I Hh) as Hinv. destruct Hplain as [Hsp Hpre Hts Hwt _ _].
  unfold port_destroy_backup. wp_step.
  apply (wp_clear_receiver_backup p x h w Hx Hh Hm). intros x1 tr1 [Esp Es Eso Erq Ets Ewt _ Eps Ems _] Erc Ern.
  rewrite Hsp in Esp. rewrite Hts in Ets. rewrite Hwt in Ewt.
  unfold imq_lock, imq_unlock, ipc_notify_port_destroyed.
  wopen w. wp_steps; [by rewrite Eps|by rewrite Ems|].
  eapply wp_clear_watchport; [wlook|wlk|wlk|done|]. intros we. wp_steps.
  eapply (wp_push_locked p _ h); [wlook|wlook|wlk|wlk|done|done|]. wp_steps.
  rewrite !insert_insert_eq, unlock_again by done.
  destruct (negb (we =? 0)); wp_steps; apply HQ; (split; [|done..]);
    (apply (Hinv (set_waitq_tspriv 0 (set_ip_pdrequest IP_NULL x1))); try done);
    split_and!; simpl; congruence || done.
Qed.

(** Dead-name notifications leave a trace only. *)
Lemma wp_dnnotify_loop slots (Q : unit -> world -> Prop) w1 :
  (forall tr, Q tt (set_w_trace tr w1)) -> wp (dnnotify_loop slots) Q w1.
Proof.
  revert w1. induction slots as [|q slots IH]; intros w1 HQ; simpl.
  - wp_step. specialize (HQ (w_trace w1)). by destruct w1.
  - apply wp_bind. apply wp_when; intros _; [unfold ipc_notify_dead_name; wp_step|]; by apply IH.
Qed.

Lemma wp_dnnotify x1 h1 sizes t (Q : unit -> world -> Prop) w1 :
  w_port w1 !! p = Some x1 -> w_io w1 !! p = Some h1 -> io_active h1 = false ->
  e_table_requests (w_env w1) = sizes -> ip_requests x1 = t -> req_ok sizes R p t ->
  (forall tr, Q tt (set_w_trace tr w1)) -> wp (ipc_port_dnnotify p) Q w1.
Proof.
  intros Hx1 Hh1 Ha1 Hsz Ht Hrq HQ. unfold ipc_port_dnnotify. wopen w1. wp_steps; [by rewrite Ha1|].
  rewrite Ht. destruct t as [t|]; [|by wp_steps; apply (HQ wtrace)].
  destruct Hrq as (l & [(q & Hq & Hqs) _ _ _] & _). rewrite <- Hsz in Hqs.
  unfold request_size, its_requests. wp_steps. rewrite Z.ltb_irrefl.
  by apply wp_dnnotify_loop.
Qed.

Lemma wp_destroy_dead (Q : unit -> world -> Prop) :
  doomed X n R w p x h ->
  (forall w', destroyed X R w p (give p 0 0 0 (-1) n) w' -> Q tt w') ->
  wp (port_destroy_dead p false) Q w.
Proof.
  intros [Hrq Hn Hinv] HQ. destruct Hplain as [Hsp Hpre Hts Hwt _ _]. unfold port_destroy_dead. wp_step.
  apply (wp_clear_receiver_dead p x h w Hx Hh Hm); [done..|].
  intros x1 tr1 t1 reap [Esp Es Eso Erq Ets Ewt _ Eps Ems _].
  rewrite Hsp in Esp. rewrite Hts in Ets. rewrite Hwt in Ewt. rewrite <- inactive_prealloc in Hpre.
  unfold port_destroy_prealloc, imq_lock, imq_unlock, ipc_notify_send_once. wopen w. wp_steps.
  { by rewrite Eps. }
  { by rewrite Ems. }
  eapply wp_clear_watchport; [wlook|wlk|wlk|done|]. intros we. wp_steps. rewrite Hpre. wp_steps.
  eapply (wp_push_locked p _ (inactive h)); [wlook|wlook|wlk|wlk|done|done|]. wp_step.
  rewrite !insert_insert_eq, !unlock_again by set_solver.
  apply wp_when_call. intros tr2. wp_steps. apply wp_when_call. intros tr3. wp_steps.
  apply wp_when_call. intros tr4. wp_steps.
  eapply wp_dnnotify; [wlook|wlook|apply inactive_active|done|exact Erq|exact Hrq|]. intros tr5. wp_steps.
  match goal with |- wp _ _ ?w2 => assert (I2 : inv_with X n R w2) end.
  { apply (Hinv (set_waitq_tspriv 0 x1)); try done. split_and!; simpl; congruence || done. }
  apply (wp_io_release I2 p (inactive h)); [wlook|lia|].
  intros w' I' [E1 E2 E3 E4 _ _]. by apply HQ.
Qed.
End destroy.

Section port_destroy.
Context {X : gset (Z * Z)} {R : rights} {w : world}.
Context (p : Z) (x : ipc_port) (h : ipc_object).
Context (Hx : w_port w !! p = Some x) (Hh : w_io w !! p = Some h) (Hact : io_active h = true).
Context (Hplain : plain x h) (Has : w_assertions w = 0).
Context (Hl : LObject p ∈ w_locks w) (Hm : LMqueue p ∉ w_locks w).

(** The port with its importance count taken over. *)
Definition port_like (x x' : ipc_port) : Prop :=
  port_same x x' /\ ip_srights x' = ip_srights x /\ ip_sorights x' = ip_sorights x /\ plain x' h.

Lemma limbo_like {n} x' w1 :
  inv_with X n R (limbo p x w) ->
  port_like x x' -> w_space w1 = w_space w -> w_env w1 = w_env w -> w_io w1 = w_io w ->
  w_port w1 = <[p := x']> (w_port w) -> inv_with X n R (limbo p x' w1).
Proof.
  intros I ((E1 & E2 & E3 & E4 & E5) & Es & Eso & _) Hsp Hen Hio Hpo.
  apply (inv_backup p x h I Hh (in_limbo x')); simpl; try done.
  rewrite Hpo. apply insert_insert_eq.
Qed.

Lemma doomed_like {n} x' w1 :
  doomed X n R w p x h ->
  port_like x x' -> w_space w1 = w_space w -> w_env w1 = w_env w -> w_io w1 = w_io w ->
  w_port w1 = <[p := x']> (w_port w) -> doomed X n R w1 p x' h.
Proof.
  intros [Hrq Hn Hinv] ((E1 & E2 & E3 & E4 & E5) & Es & Eso & _) Hsp Hen Hio Hpo. split; [by rewrite Hen, E3|done|].
  intros x2 w2 (F1 & F2 & F3 & F4 & F5) Fs Fso G1 G2 G3 G4. apply (Hinv x2); try congruence.
  - split_and!; simpl in *; congruence.
  - rewrite G4, Hpo. apply insert_insert_eq.
Qed.

Lemma wp_destroy_assertions (Q : Z * Z -> world -> Prop) :
  (forall x' c, port_like x x' -> ip_pdrequest x' = ip_pdrequest x -> 0 <= c ->
     Q (IIT_NULL, c) (set_w_port (<[p := x']> (w_port w)) w)) ->
  wp (upd_port p (set_ip_reply_context 0);; port_destroy_assertions p true) Q w.
Proof.
  intros HQ. destruct Hplain as [Hsp Hpre Hts Hwt Him Hic]. unfold port_destroy_assertions.
  wopen w. wp_steps. simpl ip_tempowner. destruct (ip_tempowner x); wp_steps.
  - simpl ip_imp_task. rewrite Him. wp_steps. apply HQ; [|done|lia]. by repeat split.
  - simpl ip_pdrequest. destruct (negb _); wp_steps; rewrite ?insert_insert_eq;
      (apply HQ; [|done|by simpl]); by repeat split.
Qed.

Lemma wp_drop_assertions c (Q : unit -> world -> Prop) w1 :
  0 <= c -> w_assertions w1 = c ->
  (forall tr, Q tt (set_w_assertions 0 (set_w_trace tr w1))) ->
  wp (port_drop_assertions IIT_NULL c true) Q w1.
Proof.
  intros Hc Ha HQ. unfold port_drop_assertions. consts. cbn [negb]. rewrite andb_true_r.
  apply wp_when; intros Hc'.
  - wopen w1. wp_steps. apply wp_when_call. intros tr. apply (HQ tr).
  - assert (E : c = 0) by lia. specialize (HQ (w_trace w1)).
    replace (set_w_assertions 0 (set_w_trace (w_trace w1) w1)) with w1 in HQ; [done|].
    rewrite E in Ha. rewrite <- Ha. by destruct w1.
Qed.

(** The port goes to its backup, or dies. *)
Definition going (n : naked) : Prop :=
  if ip_pdrequest x =? IP_NULL then exists n0, n = give p 0 0 0 (-1) n0 /\ doomed X n0 R w p x h
  else inv_with X n R (limbo p x w).

Lemma wp_port_destroy n (Q : unit -> world -> Prop) :
  going n -> (forall w', destroyed X R w p n w' -> Q tt w') -> wp (ipc_port_destroy p) Q w.
Proof.
  intros I HQ. pose proof (fun n => limbo_like (n := n)) as Hlike. pose proof (fun n => doomed_like (n := n)) as Hdoom.
  pose proof Hplain as [Hsp _ _ _ _ _]. unfold ipc_port_destroy, require_ip_active.
  apply wp_bind. eapply wp_port; [done|]. apply wp_bind, wp_gets. rewrite Has. consts.
  apply wp_bind, wp_bind. unfold ip_active. apply wp_bind. eapply wp_io; [done|]. apply wp_ret.
  rewrite Hact, Hsp. apply wp_ret. cbn [andb].
  assert (Hgo : wp (upd_port p (set_ip_reply_context 0);; port_destroy_assertions p true)
    (fun v => wp (let '(release_imp_task, assertcnt) := v in
      when true (modify (set_w_assertions assertcnt));;
      (if negb (ip_pdrequest x =? IP_NULL) then port_destroy_backup p (ip_pdrequest x) false
       else port_destroy_dead p false);;
      port_drop_assertions release_imp_task assertcnt true) Q) w).
  { apply wp_destroy_assertions. intros x' c Hx' Hpd Hc. cbn [when]. do 2 wp_step.
    pose proof Hx' as (_ & _ & _ & Hpl').
    assert (Hend : forall w' w2, w_space w2 = w_space w -> w_locks w2 = w_locks w -> w_env w2 = w_env w ->
      w_assertions w2 = c -> destroyed X R w2 p n w' -> wp (port_drop_assertions IIT_NULL c true) Q w').
    { intros w' w2 E1 E2 E3 E4 [D1 D2 D3 D4 D5]. apply wp_drop_assertions; [done|congruence|].
      intros tr. apply HQ. split; simpl; try done; congruence. }
    wp_step. unfold going in I. destruct (ip_pdrequest x =? IP_NULL); cbn [negb].
    - destruct I as (n0 & -> & D0). eapply (wp_destroy_dead (n := n0) p x' h); [apply lookup_insert_eq|done..| |].
      + by eapply Hdoom.
      + intros w' D. by eapply Hend; [..|exact D].
    - eapply (wp_destroy_backup (n := n) p x' h); [apply lookup_insert_eq|done..| |].
      + by eapply Hlike.
      + intros w' D. by eapply Hend; [..|exact D]. }
  apply wp_bind. apply wp_unbind in Hgo. eapply wp_mono; [exact Hgo|]. intros [] w1 Hw1. by apply wp_bind.
Qed.
End port_destroy.

Lemma going_locks {X R w} p x h n ls :
  going (X := X) (R := R) (w := w) p x h n -> going (X := X) (R := R) (w := set_w_locks ls w) p x h n.
Proof.
  unfold going. destruct (ip_pdrequest x =? IP_NULL); [|done]. intros (n0 & -> & [D1 D2 D3]).
  exists n0. split; [done|]. by split.
Qed.
