(* ===== verification/IpcRightDelta.v ===== *)
(** * Changing user references (ipc/ipc_right.c, ipc_right_delta)

    What a change of the count of user references does to a right of any type,
    for every delta; the count is pegged at its maximum.  Taking the receive
    right away with delta -1 destroys the port. *)

From S2P Require Import Prelude IpcTypes IpcBits IpcHash IpcTable KernelState Kernel IpcFreelist IpcEntry IpcEntryInv IpcGrow IpcAlloc IpcPort IpcRight IpcHeld IpcRights IpcNaked IpcRequests IpcRightCheck IpcRightLive IpcRightDealloc IpcDestroy.

(** ** Arithmetic *)

Lemma land_u32 b m : 0 <= m < 2 ^ 32 -> Z.land (u32 b) m = Z.land b m.
Proof.
  intros Hm. unfold u32. rewrite <- Z.land_ones, <- Z.land_assoc by lia. f_equal.
  rewrite Z.land_comm, Z.land_ones by lia. by apply Z.mod_small.
Qed.

(** The count of user references after a change by [delta], or [None] when the
    change is refused: a delta of more than 65535 either way, or one that takes
    more references than there are.  A count that reaches 65535 stays there, until
    all its references are taken at once. *)
Definition next_urefs (u delta : Z) : option Z :=
  if 65535 <? Z.abs delta then None
  else if u =? 65535 then Some (if delta =? -65535 then 0 else 65535)
  else if u + delta <? 0 then None
  else Some (Z.min (u + delta) 65535).

(** The code, with its comparisons of 32-bit numbers, computes this. *)
Lemma urefs_delta_spec u delta :
  0 < u <= 65535 ->
  (if delta_in_range delta then urefs_delta u delta else None) = (fun v => v - u) <$> next_urefs u delta.
Proof.
  intros Hu. unfold next_urefs, delta_in_range, urefs_delta. change MACH_PORT_UREFS_MAX with 65535.
  change (- (65535)) with (-65535). replace ((delta <=? 65535) && (-65535 <=? delta)) with (negb (65535 <? Z.abs delta)) by lia.
  destruct (Z.ltb_spec 65535 (Z.abs delta)) as [|Hd]; [done|]. cbn [negb].
  destruct (Z.eqb_spec u 65535) as [->|Hne].
  { by destruct (Z.eqb_spec delta (-65535)) as [->|]. }
  replace (MACH_PORT_UREFS_UNDERFLOW u delta) with (u + delta <? 0)
    by (unfold MACH_PORT_UREFS_UNDERFLOW, u32; zlia).
  destruct (Z.ltb_spec (u + delta) 0); [done|]. unfold MACH_PORT_UREFS_OVERFLOW, MACH_PORT_UREFS_MAX, u32. simpl.
  case_match eqn:E; f_equal; zlia.
Qed.

(** A delta that is accepted leaves the count in its range. *)
Lemma urefs_delta_range u delta d :
  0 < u <= MACH_PORT_UREFS_MAX -> delta_in_range delta = true ->
  urefs_delta u delta = Some d -> 0 <= u + d <= MACH_PORT_UREFS_MAX.
Proof.
  unfold urefs_delta, delta_in_range. intros Hu Hr.
  apply andb_true_iff in Hr as [H1%Z.leb_le H2%Z.leb_le].
  destruct (Z.eqb_spec u MACH_PORT_UREFS_MAX) as [E|E].
  - intros [= <-]. case_match eqn:Hd; [lia|].
    apply negb_false_iff, Z.eqb_eq in Hd. lia.
  - destruct (MACH_PORT_UREFS_UNDERFLOW u delta) eqn:Hun; [done|].
    destruct (MACH_PORT_UREFS_OVERFLOW u delta) eqn:Hov; intros [= <-]; [lia|].
    revert Hun Hov. unfold MACH_PORT_UREFS_UNDERFLOW, MACH_PORT_UREFS_OVERFLOW, u32.
    unfold MACH_PORT_UREFS_MAX in *. zlia.
Qed.

Section u32_urefs.
Context (b d : Z) (Hd : 0 <= IE_BITS_UREFS b + d <= MACH_PORT_UREFS_MAX).

Lemma u32_urefs_type : IE_BITS_TYPE (u32 (b + d)) = IE_BITS_TYPE b.
Proof. unfold IE_BITS_TYPE at 1. rewrite land_u32 by done. by apply type_urefs_add. Qed.

Lemma u32_urefs_urefs : IE_BITS_UREFS (u32 (b + d)) = IE_BITS_UREFS b + d.
Proof. unfold IE_BITS_UREFS at 1. rewrite land_u32 by done. by apply urefs_add. Qed.

Lemma u32_urefs_gen : gen_roll (u32 (b + d)) = gen_roll b.
Proof. unfold gen_roll at 1. rewrite land_u32 by done. by apply gen_roll_urefs. Qed.
End u32_urefs.

(** ** Specification *)

(** Right [a] with [v] user references; the rest of its bits is the same. *)
Definition with_urefs (v : Z) (a : right) : right :=
  let u := IE_BITS_UREFS (r_bits a) in
  if v =? u then a else mkRight (r_object a) (u32 (r_bits a + (v - u))) (r_request a).

Lemma with_urefs_bits v a :
  0 <= v <= MACH_PORT_UREFS_MAX ->
  IE_BITS_UREFS (r_bits (with_urefs v a)) = v /\
  IE_BITS_TYPE (r_bits (with_urefs v a)) = IE_BITS_TYPE (r_bits a) /\
  gen_roll (r_bits (with_urefs v a)) = gen_roll (r_bits a).
Proof.
  intros Hv. unfold with_urefs. destruct (Z.eqb_spec v (IE_BITS_UREFS (r_bits a))) as [->|]; [done|]. simpl.
  rewrite u32_urefs_urefs, u32_urefs_type, u32_urefs_gen by lia. split; [lia|done].
Qed.

(** The change of the user references of [a]; [gone] is what is left when there
    are none. *)
Definition uref_delta (gone : option right) (delta : Z) (a : right) : Z * option right :=
  match next_urefs (IE_BITS_UREFS (r_bits a)) delta with
  | None => (KERN_INVALID_VALUE, Some a)
  | Some v => (KERN_SUCCESS, if v =? 0 then gone else Some (with_urefs v a))
  end.

Lemma uref_delta_code gone delta a :
  0 < IE_BITS_UREFS (r_bits a) -> uref_delta gone delta a =
  let u := IE_BITS_UREFS (r_bits a) in
  if negb (delta_in_range delta) then (KERN_INVALID_VALUE, Some a)
  else
    match urefs_delta u delta with
    | None => (KERN_INVALID_VALUE, Some a)
    | Some d =>
        (KERN_SUCCESS,
         if u + d =? 0 then gone
         else if d =? 0 then Some a
         else Some (mkRight (r_object a) (u32 (r_bits a + d)) (r_request a)))
    end.
Proof.
  intros Hu. pose proof (IE_BITS_UREFS_range (r_bits a)) as Hur. change MACH_PORT_UREFS_MAX with 65535 in Hur.
  pose proof (urefs_delta_spec (IE_BITS_UREFS (r_bits a)) delta ltac:(lia)) as E. unfold uref_delta.
  destruct (next_urefs _ delta) as [v|], (delta_in_range delta); cbn [negb fmap option_fmap option_map] in *;
    rewrite ?E; try done.
  cbv zeta. replace (_ + (v - _)) with v by lia. unfold with_urefs.
  replace (v - IE_BITS_UREFS (r_bits a) =? 0) with (v =? IE_BITS_UREFS (r_bits a)) by lia.
  by destruct (v =? 0), (v =? IE_BITS_UREFS (r_bits a)).
Qed.

Definition delta_spec (live extra : bool) (right delta : Z) (a : IpcRights.right) (n : naked)
    : Z * option IpcRights.right * naked :=
  let t := IE_BITS_TYPE (r_bits a) in
  let p := r_object a in
  let same kr := (kr, Some a, n) in
  if right =? MACH_PORT_RIGHT_PORT_SET then
    if negb (t =? MACH_PORT_TYPE_PORT_SET) then same KERN_INVALID_RIGHT
    else if delta =? 0 then same KERN_SUCCESS
    else if negb (delta =? -1) then same KERN_INVALID_VALUE
    else (KERN_SUCCESS, None, n)
  else if right =? MACH_PORT_RIGHT_SEND_ONCE then
    if negb (t =? MACH_PORT_TYPE_SEND_ONCE) then same KERN_INVALID_RIGHT
    else if negb live then (KERN_INVALID_RIGHT, Some (died extra a), n)
    else if (0 <? delta) || (delta <? -1) then same KERN_INVALID_VALUE
    else if delta =? 0 then same KERN_SUCCESS
    else (KERN_SUCCESS, None, give p 0 1 0 1 n)
  else if right =? MACH_PORT_RIGHT_DEAD_NAME then
    if t =? MACH_PORT_TYPE_DEAD_NAME then (uref_delta None delta a, n)
    else if has (r_bits a) MACH_PORT_TYPE_SEND_RIGHTS && negb live then
      let '(kr, a') := uref_delta None delta (died extra a) in
      (kr, a', if kr =? KERN_SUCCESS then n else give p 0 0 0 1 n)
    else same KERN_INVALID_RIGHT
  else if right =? MACH_PORT_RIGHT_SEND then
    if negb (has (r_bits a) MACH_PORT_TYPE_SEND) then same KERN_INVALID_RIGHT
    else if negb live then (KERN_INVALID_RIGHT, Some (died extra a), n)
    else (uref_delta (if t =? MACH_PORT_TYPE_SEND then None
                      else Some (mkRight p (without_send (r_bits a)) (r_request a))) delta a, n)
  else same KERN_INVALID_RIGHT.

Definition delta_ends (live : bool) (right delta : Z) (n : naked) (a : IpcRights.right)
    (kr : Z) (a' : option IpcRights.right) (n' : naked) : Prop :=
  exists extra n1, n' ≡ n1 /\ delta_spec live extra right delta a n = (kr, a', n1).

(** ** Dead names *)

Section delta_dead.
Context {X : gset (Z * Z)} {n : naked} {R : rights} {w : world} (I : inv_with X n R w).
Context {s i : Z} {sp : ipc_space} {a : right}.
Context (Hs : w_space w !! s = Some sp) (Hsa : is_active sp = true) (Ha : R !! (s, i) = Some a).
Context (Ht : IE_BITS_TYPE (r_bits a) = MACH_PORT_TYPE_DEAD_NAME).
Context (Hlock : LSpace s ∈ w_locks w).

(** The reference of a port that the check found dead is released, but not when
    the delta is refused. *)
Definition dead_naked (kr p : Z) : naked :=
  if (p =? IP_NULL) || negb (kr =? KERN_SUCCESS) then n else give p 0 0 0 (-1) n.

Lemma wp_delta_dead p name delta (Q : Z -> world -> Prop) :
  name = entry_name i (r_bits a) -> p = IP_NULL \/ spare (n := n) (w := w) p ->
  (forall w', inv_with X (dead_naked (fst (uref_delta None delta a)) p)
       (put (s, i) (snd (uref_delta None delta a)) R) w' ->
     w_locks w' = w_locks w ∖ {[LSpace s]} -> w_env w' = w_env w ->
     Q (fst (uref_delta None delta a)) w') ->
  wp (delta_dead s name i (r_bits a) delta p) Q w.
Proof.
  intros Hn Hp HQ. destruct (right_hold I Hs Hsa Ha) as (l & H & Htb).
  destruct (ro_dead _ _ _ _ (the_right I Ha) Ht) as [Ho Hr]. rewrite Ho, Hr in H.
  pose proof (bits_ok_counted _ (ro_bits _ _ _ _ (the_right I Ha))) as Hu.
  rewrite Ht in Hu. specialize (Hu (or_intror (or_intror eq_refl))).
  pose proof (IE_BITS_UREFS_range (r_bits a)) as Hur.
  pose proof (fun R' w1 => @wp_spare_release X n w p R' w1 Q Hp) as Hrel.
  pose proof (dead_kept I Hs Ha Ht l) as Hkept. pose proof (dead_freed I Hs Hsa Ha Ht l) as Hfreed.
  unfold delta_dead, delta_invalid_value. rewrite !(uref_delta_code _ _ _ Hu), Ho, Hr in HQ. cbv zeta in HQ.
  wopen w. wp_steps; [by rewrite Ht|lia|].
  destruct (delta_in_range delta) eqn:Hdr; cbn [negb fst snd] in *.
  2:{ wp_steps. apply HQ; [|done..]. unfold dead_naked. rewrite put_id by done.
      by rewrite orb_true_r. }
  destruct (urefs_delta (IE_BITS_UREFS (r_bits a)) delta) as [dd|] eqn:Hd; cbn [fst snd] in *.
  2:{ wp_steps. apply HQ; [|done..]. unfold dead_naked. rewrite put_id by done.
      by rewrite orb_true_r. }
  pose proof (urefs_delta_range _ _ _ (conj Hu (proj2 Hur)) Hdr Hd) as Hdu.
  unfold dead_naked in HQ. rewrite orb_false_r in HQ.
  destruct (Z.eqb_spec (IE_BITS_UREFS (r_bits a) + dd) 0) as [E1|E1]; wp_steps.
  - apply wp_unbind, (Hrel (put (s, i) None R)); [|done..].
    apply (Hfreed sp'); try done. apply H.
  - destruct (Z.eqb_spec dd 0) as [E2|E2]; wp_steps.
    + apply wp_unbind, (Hrel R); [done..|]. rewrite put_id in HQ by done. apply HQ.
    + by apply u32_urefs_gen.
    + rewrite Hn. symmetry. by apply entry_name_roll, u32_urefs_gen.
    + eapply wp_unbind, Hrel; [|done..]. eapply (Hkept (u32 (r_bits a + dd))); try done.
      * rewrite <- Ht. by apply u32_urefs_type.
      * rewrite u32_urefs_urefs by done. lia.
Qed.
End delta_dead.

(** ** Rights for ports *)

Section delta.
Context {X : gset (Z * Z)} {n : naked} {R : rights} {w : world} (I : inv_with X n R w).
Context {s i : Z} {sp : ipc_space} {a : right}.
Context (Hs : w_space w !! s = Some sp) (Hsa : is_active sp = true) (Ha : R !! (s, i) = Some a).
Context {x : ipc_port} {h : ipc_object}.
Let p := r_object a.
Context (Hx : w_port w !! p = Some x) (Hh : w_io w !! p = Some h).
Context (Hlock : LSpace s ∈ w_locks w) (Hl : LObject p ∉ w_locks w) (Hsm : small_table sp).

(** The port was found dead, which is not what the caller asked for: the dead
    name stays. *)
Lemma wp_died_refused extra w1 (Q : Z -> world -> Prop) :
  checked X n R w s i a extra w1 ->
  (forall w', inv_with X n (put (s, i) (Some (died extra a)) R) w' ->
     w_locks w' = w_locks w ∖ {[LSpace s]} -> w_env w' = w_env w -> Q KERN_INVALID_RIGHT w') ->
  wp (delta_invalid_right s p) Q w1.
Proof.
  intros [I1 (sp1 & Hs1 & Hsa1) Hlk Hen Hio _] HQ. destruct (port_addr I p h Hh) as (Hp0 & _).
  apply Z.eqb_neq in Hp0. pose proof (fun R' w2 => wp_give_release I p R' w2 h) as Hrel.
  unfold delta_invalid_right. rewrite Hp0. wopen w1. wp_steps.
  eapply Hrel; [exact I1|by rewrite Hio|]. intros w' I' Hlk' Hen'. wp_step.
  apply HQ; [done| |]; simpl in *; congruence.
Qed.

(** The entry as it was; the port is unlocked. *)
Lemma same_post (spec : Z -> option IpcRights.right -> naked -> Prop) kr w' :
  spec kr (Some a) n -> w_space w' = w_space w -> w_env w' = w_env w -> w_io w' = w_io w ->
  w_port w' = w_port w -> w_locks w' = w_locks w ∖ {[LSpace s]} ->
  right_post X R s i w spec kr w'.
Proof.
  intros Hsp E1 E2 E3 E4 E5. exists (Some a), n. rewrite put_id by done. split; [done|].
  split; [|done]. unfold inv_with. by rewrite E1, E2, E3, E4.
Qed.

Lemma wp_delta_send_once name delta (Q : Z -> world -> Prop) :
  name = entry_name i (r_bits a) -> is_port_type (IE_BITS_TYPE (r_bits a)) = true ->
  (forall kr w', right_post X R s i w
     (delta_ends (io_active h) MACH_PORT_RIGHT_SEND_ONCE delta n a) kr w' -> Q kr w') ->
  wp (delta_send_once s name i (r_bits a) delta) Q w.
Proof.
  intros Hn Hty HQ. destruct (right_hold I Hs Hsa Ha) as (l & H & Htb). fold p in H.
  destruct (port_addr I p h Hh) as (Hp0 & _). apply Z.eqb_neq in Hp0.
  unfold delta_send_once.
  destruct (Z.eqb_spec (IE_BITS_TYPE (r_bits a)) MACH_PORT_TYPE_SEND_ONCE) as [Ht|Ht].
  2:{ assert (Hso : has (r_bits a) MACH_PORT_TYPE_SEND_ONCE = false).
      { rewrite has_type by done. destruct (right_types I Ha) as [E|[E|(_ & _ & _ & _ & _ & E)]];
          [by rewrite E..|]. destruct E as [E|[E|[E|E]]]; by rewrite E. }
      rewrite Hso. unfold delta_invalid_right. wopen w. wp_steps. apply HQ, same_post; try done.
      exists false, n. split; [done|]. unfold delta_spec. by rewrite (proj2 (Z.eqb_neq _ _) Ht). }
  pose proof (sonce_urefs I Ha Ht) as Hu. types. cbn [negb].
  wp_steps; [lia|by rewrite Hp0|]. apply (dealloc_check I Hs Hsa Ha Hx Hh Hl Hsm); [done..| |].
  2:{ intros Hd extra w1 C. apply wp_bind, (wp_checked_entry extra w1 _ C). intros d1 y1. cbn [ie_bits].
      pose proof (died_right_type extra a) as Hdt. types. cbn [negb].
      apply wp_bind, wp_massert; [done|]. unfold mach_port_guard_exception. apply wp_bind, wp_call_.
      apply (wp_died_refused extra); [by destruct C|]. intros w' I' Hlk Hen. apply HQ.
      exists (Some (died extra a)), n. split; [|done]. exists extra, n. split; [done|].
      unfold delta_spec. by rewrite Ht, Hd. }
  intros Hact. pose proof (live_sonce I Ha Hx Hh Hact) as Hsr. revert Hsr. types.
  intros Hsr. specialize (Hsr eq_refl).
  apply wp_bind. eapply wp_port; [done|]. apply wp_bind, wp_massert; [lia|].
  assert (Hsame : forall kr b w', delta_spec true false MACH_PORT_RIGHT_SEND_ONCE delta a n = (kr, Some a, n) ->
    w' = mkWorld (w_io w) (w_port w) (w_space w) (w_locks w ∖ {[LSpace s]}) b (w_timestamp w)
      (w_assertions w) (w_env w) -> Q kr w').
  { intros kr b w' Hsp ->. apply HQ, same_post; try done. exists false, n. by rewrite Hact. }
  unfold delta_spec in Hsame. rewrite Ht in Hsame.
  destruct ((0 <? delta) || (delta <? -1)) eqn:Hdv.
  { unfold delta_invalid_value. wopen w. wp_steps. rewrite unlock_again by done. by eapply Hsame. }
  destruct (Z.eqb_spec delta 0) as [->|Hd0].
  { unfold delta_success. wopen w. wp_steps. rewrite unlock_again by done. by eapply Hsame. }
  apply (wp_release_send_once I Hs Hsa Ha Hx Hh Hlock Hl); [done..|].
  intros w' I' Hlk Hen. apply HQ. exists None, (give p 0 1 0 1 n). split; [|done].
  exists false, (give p 0 1 0 1 n). split; [done|]. unfold delta_spec.
  by rewrite Ht, Hact, Hdv, (proj2 (Z.eqb_neq _ _) Hd0).
Qed.

Lemma wp_delta_dead_name name delta (Q : Z -> world -> Prop) :
  name = entry_name i (r_bits a) -> is_port_type (IE_BITS_TYPE (r_bits a)) = true ->
  (forall kr w', right_post X R s i w
     (delta_ends (io_active h) MACH_PORT_RIGHT_DEAD_NAME delta n a) kr w' -> Q kr w') ->
  wp (delta_dead_name s name i (r_bits a) delta) Q w.
Proof.
  intros Hn Hty HQ. destruct (right_hold I Hs Hsa Ha) as (l & H & Htb). fold p in H.
  destruct (port_addr I p h Hh) as (Hp0 & _). pose proof (proj2 (Z.eqb_neq _ _) Hp0) as Hp0'.
  assert (Htd : (IE_BITS_TYPE (r_bits a) =? MACH_PORT_TYPE_DEAD_NAME) = false /\
    has (r_bits a) MACH_PORT_TYPE_DEAD_NAME = false).
  { rewrite has_type by done.
    destruct (right_types I Ha) as [E|[E|(_ & _ & _ & _ & _ & [E|[E|[E|E]]])]]; by rewrite E in *. }
  destruct Htd as [Htd Htd']. unfold delta_dead_name. rewrite Htd'.
  destruct (has (r_bits a) MACH_PORT_TYPE_SEND_RIGHTS) eqn:Hsr.
  2:{ unfold delta_invalid_right. wopen w. wp_steps. apply HQ, same_post; try done.
      exists false, n. split; [done|]. unfold delta_spec. by rewrite Htd, Hsr. }
  wp_steps; [by rewrite Hp0'|]. apply (dealloc_check I Hs Hsa Ha Hx Hh Hl Hsm); [done..| |].
  - intros Hact. cbn [negb]. unfold delta_invalid_right. wopen w. wp_steps.
    apply HQ, same_post; try done; [|simpl; by rewrite unlock_again].
    exists false, n. split; [done|]. unfold delta_spec. by rewrite Htd, Hsr, Hact.
  - intros Hd extra w1 C. cbn [negb].
    apply wp_bind, (wp_checked_entry extra w1 _ C). intros d1 y1. cbn [ie_bits].
    destruct C as [I1 (sp1 & Hs1 & Hsa1) Hlk1 Hen1 Hio1 _]. fold p in I1.
    pose proof (naked_inv I p) as (? & ? & ? & ?).
    eapply (wp_delta_dead I1 Hs1 Hsa1 (put_eq _ _ _)).
    + apply died_right_type.
    + by rewrite Hlk1.
    + rewrite Hn. symmetry. apply entry_name_roll, died_right_gen.
    + right. exists h. split; [by rewrite Hio1|]. simpl. rewrite !bump_eq. lia.
    + intros w'. rewrite put_put. intros I' Hlk Hen. apply HQ. rewrite Hlk1 in Hlk. rewrite Hen1 in Hen.
      eexists _, _. split; [|split; [exact I'|done]].
      destruct (uref_delta None delta (died extra a)) as [kr a'] eqn:E. cbn [fst snd].
      exists extra, (if kr =? KERN_SUCCESS then n else give p 0 0 0 1 n). split.
      * unfold dead_naked. rewrite Hp0'. cbn [orb]. destruct (kr =? KERN_SUCCESS); [|done]. cbn [negb].
        rewrite give_give. apply give_zero.
      * unfold delta_spec. rewrite Htd, Hsr, Hd. simpl. by rewrite E.
Qed.

(** What is left of a right without user references. *)
Definition send_gone : option right :=
  if IE_BITS_TYPE (r_bits a) =? MACH_PORT_TYPE_SEND then None
  else Some (mkRight p (without_send (r_bits a)) (r_request a)).
Definition send_changed (d : Z) : option right :=
  if IE_BITS_UREFS (r_bits a) + d =? 0 then send_gone
  else if d =? 0 then Some a
  else Some (mkRight p (u32 (r_bits a + d)) (r_request a)).

(** The port is unlocked; [rel] is to be released. *)
Record send_applied (d rel : Z) (w1 : world) : Prop := {
  sa_rel : rel = IP_NULL \/ rel = p;
  sa_inv : inv_with X (if rel =? IP_NULL then n else give p 0 0 0 1 n) (put (s, i) (send_changed d) R) w1;
  sa_locks : w_locks w1 = w_locks w;
  sa_env : w_env w1 = w_env w;
  sa_io : w_io w1 = w_io w
}.

Lemma wp_delta_send_apply name d (Q : (Z * Z) * Z * Z -> world -> Prop) :
  name = entry_name i (r_bits a) -> has (r_bits a) MACH_PORT_TYPE_SEND = true ->
  io_active h = true -> 0 <= IE_BITS_UREFS (r_bits a) + d <= MACH_PORT_UREFS_MAX ->
  (forall ns req rel w1, send_applied d rel w1 -> Q (ns, req, rel) w1) ->
  wp (delta_send_apply s name i p (r_bits a) d) Q (set_w_locks ({[LObject p]} ∪ w_locks w) w).
Proof.
  intros Hn Hsend Hact Hd HQ. destruct (right_hold I Hs Hsa Ha) as (l & H & Htb). fold p in H.
  destruct (port_addr I p h Hh) as (Hp0 & _). apply Z.eqb_neq in Hp0.
  pose proof (live_send I Ha Hx Hh Hact Hsend) as Hsr.
  destruct (live_counts I p x h Hx Hh Hact) as [Hsb _]. pose proof (ref_range I p h Hh) as Hrr.
  pose proof (po_reqs _ _ _ _ _ _ _ (port_inv I p x h Hx Hh)) as Hrq.
  pose proof (send_types I Ha Hsend) as Hty.
  pose proof (freed_finish I Hs Hsa Ha Hx Hh Hact Htb 0 0) as Hfree.
  pose proof (without_send_finish I Hs Ha Hx Hh Hact Htb 0) as Hkeep.
  pose proof (uref_finish I Hs Ha Hx Hh Hact Htb) as Huref.
  pose proof (naked_ok_zero n p (naked_inv I p)) as HN. pose proof (give_zero p n) as Hz.
  pose proof (inv_with_proper X _ _ Hz) as HIz. pose proof (fun E => right_receiver I Ha E x Hx) as Hrcv.
  unfold delta_send_apply. wopen w.
  destruct (Z.eqb_spec (IE_BITS_UREFS (r_bits a) + d) 0) as [E1|E1]; wp_steps.
  - apply (wp_drop_send_right p x); [wlook|unfold IO_MAX_REFERENCES in *; lia|]. intros ns x1 Hx1 Hq1. wp_steps.
    assert (Hch : send_changed d = send_gone) by (unfold send_changed; by rewrite E1).
    destruct Hty as [Ht|Ht]; types; wp_steps; rewrite ?Ht; try done.
    { eapply (wp_request_cancel (R := R) (x := x1) (a := a)); [wlook|exact H|wlook|wlook|done|rewrite Hq1; exact Hrq|done..|].
      intros prev x2 sp2 [Ex2 Hrq2] H2. wp_steps; [by rewrite Hp0, Ht|].
      rewrite unlock_again by done. apply HQ. split; try done; [by right|]. rewrite Hp0.
      rewrite Hch. unfold send_gone. rewrite Ht.
      apply (Hfree x2 sp'1); try done; [by types| |by apply Hrq2|apply H].
      types. by eapply port_counts_requests. }
    all: destruct Hx1 as (Es1 & Eso1 & Erc1 & Ern1).
    + destruct Hrcv as [_ E]; [by types|]. by rewrite Ern1, E, Hn, Z.eqb_refl.
    + destruct Hrcv as [E _]; [by types|]. by rewrite Erc1, E, Z.eqb_refl.
    + apply without_send_gen.
    + rewrite Hn. symmetry. apply entry_name_roll, without_send_gen.
    + rewrite unlock_again by done. apply HQ. split; try done; [by left|].
      rewrite Hch. unfold send_gone. rewrite Ht in *. rewrite andb_false_r in *. simpl.
      apply (HIz _ _ eq_refl _ _ eq_refl). by apply (Hkeep x1 sp'0).
  - destruct (Z.eqb_spec d 0) as [E2|E2]; wp_steps; rewrite ?unlock_again by done.
    + apply HQ. split; try done; [by left|]. unfold send_changed.
      rewrite (proj2 (Z.eqb_neq _ _) E1), E2. simpl. by rewrite put_id.
    + by apply u32_urefs_gen.
    + rewrite Hn. symmetry. by apply entry_name_roll, u32_urefs_gen.
    + apply HQ. split; try done; [by left|]. unfold send_changed.
      rewrite (proj2 (Z.eqb_neq _ _) E1), (proj2 (Z.eqb_neq _ _) E2). simpl.
      eapply Huref; [done|by apply u32_urefs_type|by apply u32_urefs_gen
        |rewrite u32_urefs_urefs by done; lia|eassumption|done..].
Qed.

Lemma wp_send_applied_tail d ns req rel name w1 (Q : Z -> world -> Prop) :
  send_applied d rel w1 ->
  (forall w', inv_with X n (put (s, i) (send_changed d) R) w' ->
     w_locks w' = w_locks w ∖ {[LSpace s]} -> w_env w' = w_env w -> Q KERN_SUCCESS w') ->
  wp (is_write_unlock s;; when (negb (rel =? IP_NULL)) (ip_release rel);;
      notify_no_senders ns;; notify_port_deleted req name;; mret KERN_SUCCESS) Q w1.
Proof.
  intros [Hrel I1 Hlk Hen Hio] HQ. destruct (port_addr I p h Hh) as (Hp0 & _). apply Z.eqb_neq in Hp0.
  assert (Hnotify : forall w2, inv_with X n (put (s, i) (send_changed d) R) w2 ->
    w_locks w2 = w_locks w ∖ {[LSpace s]} -> w_env w2 = w_env w ->
    wp (notify_no_senders ns;; notify_port_deleted req name;; mret KERN_SUCCESS) Q w2).
  { intros w2 I2 ??. wp_step. apply wp_notify_no_senders. intros tr1. wp_step.
    apply wp_notify_port_deleted. intros tr2. wp_step. by apply HQ. }
  pose proof (fun R' w2 => wp_give_release I p R' w2 h) as Hr.
  wopen w1. wp_steps. destruct Hrel as [->| ->].
  - change (IP_NULL =? IP_NULL) with true in *. wp_steps. apply wp_unbind, Hnotify; simpl; congruence || done.
  - rewrite Hp0 in *. wp_steps. eapply Hr; [exact I1|simpl; congruence|].
    intros w' I' Hlk' Hen'. simpl in *. apply Hnotify; congruence || done.
Qed.

Lemma wp_delta_send name delta (Q : Z -> world -> Prop) :
  name = entry_name i (r_bits a) -> is_port_type (IE_BITS_TYPE (r_bits a)) = true ->
  (forall kr w', right_post X R s i w
     (delta_ends (io_active h) MACH_PORT_RIGHT_SEND delta n a) kr w' -> Q kr w') ->
  wp (delta_send s name i (r_bits a) delta) Q w.
Proof.
  intros Hn Hty HQ. destruct (right_hold I Hs Hsa Ha) as (l & H & Htb). fold p in H.
  destruct (port_addr I p h Hh) as (Hp0 & _). apply Z.eqb_neq in Hp0.
  unfold delta_send.
  destruct (has (r_bits a) MACH_PORT_TYPE_SEND) eqn:Hsend; cbn [negb].
  2:{ unfold delta_invalid_right, mach_port_guard_exception. wp_step. apply wp_when_call. intros tr.
      wopen w. wp_steps. apply HQ, same_post; try done.
      exists false, n. split; [done|]. unfold delta_spec. by rewrite Hsend. }
  wp_steps; [by rewrite Hp0|]. apply (dealloc_check I Hs Hsa Ha Hx Hh Hl Hsm); [done..| |].
  2:{ intros Hd extra w1 C. apply wp_bind, (wp_checked_entry extra w1 _ C). intros d1 y1. cbn [ie_bits].
      pose proof (died_right_type extra a) as Hdt. types. apply wp_bind, wp_massert; [done|].
      apply (wp_died_refused extra); [done|]. intros w' I' Hlk Hen. apply HQ.
      exists (Some (died extra a)), n. split; [|done]. exists extra, n. split; [done|].
      unfold delta_spec. by rewrite Hsend, Hd. }
  intros Hact. pose proof (live_send I Ha Hx Hh Hact Hsend) as Hsr.
  apply wp_bind. eapply wp_port; [done|]. apply wp_bind, wp_massert; [lia|].
  fold p.
  pose proof (IE_BITS_UREFS_range (r_bits a)) as Hur. pose proof (send_urefs I Ha Hsend) as Hu.
  assert (Hsame : forall b w', snd (fst (delta_spec true false MACH_PORT_RIGHT_SEND delta a n)) = Some a ->
    fst (fst (delta_spec true false MACH_PORT_RIGHT_SEND delta a n)) = KERN_INVALID_VALUE ->
    w' = mkWorld (w_io w) (w_port w) (w_space w) (w_locks w ∖ {[LSpace s]}) b (w_timestamp w)
      (w_assertions w) (w_env w) -> Q KERN_INVALID_VALUE w').
  { intros b w' E1 E2 ->. apply HQ, same_post; try done. exists false, n. split; [done|]. rewrite Hact.
    unfold delta_spec in *. rewrite Hsend in *. simpl in *. destruct (uref_delta _ _ _). by simpl in *; subst. }
  unfold delta_spec in Hsame. rewrite Hsend in Hsame. simpl in Hsame.
  rewrite (uref_delta_code _ _ _ Hu) in Hsame. cbv zeta in Hsame.
  destruct (delta_in_range delta) eqn:Hdr; cbn [negb fst snd] in *.
  2:{ unfold delta_invalid_value. wopen w. wp_steps. rewrite unlock_again by done. by eapply Hsame. }
  destruct (urefs_delta (IE_BITS_UREFS (r_bits a)) delta) as [dd|] eqn:Hd.
  2:{ unfold delta_invalid_value. wopen w. wp_steps. rewrite unlock_again by done. by eapply Hsame. }
  pose proof (urefs_delta_range _ _ _ (conj Hu (proj2 Hur)) Hdr Hd) as Hdu.
  apply wp_bind, wp_delta_send_apply; [done..|]. intros ns req rel w1 A.
  apply (wp_send_applied_tail dd); [done|]. intros w' I' Hlk Hen. apply HQ.
  exists (send_changed dd), n. split; [|done]. exists false, n. split; [done|]. rewrite Hact.
  unfold delta_spec, send_changed, send_gone. rewrite Hsend, !(uref_delta_code _ _ _ Hu). cbv zeta. by rewrite Hdr, Hd.
Qed.
End delta.

(** ** The routine *)

Section routine.
Context {X : gset (Z * Z)} {n : naked} {R : rights} {w : world} (I : inv_with X n R w).
Context {s i : Z} {sp : ipc_space} {a : right}.
Context (Hs : w_space w !! s = Some sp) (Hsa : is_active sp = true) (Ha : R !! (s, i) = Some a).
Context (Hlk : w_locks w = {[LSpace s]}).

Lemma wp_delta_refused (spec : Z -> option right -> naked -> Prop) :
  spec KERN_INVALID_RIGHT (Some a) n ->
  wp (delta_invalid_right s IP_NULL) (right_post X R s i w spec) w /\
  (forall fn args, wp (call_ fn args;; delta_invalid_right s IP_NULL) (right_post X R s i w spec) w) /\
  (forall b fn args,
     wp (when b (call_ fn args);; delta_invalid_right s IP_NULL) (right_post X R s i w spec) w).
Proof.
  intros Hsp. assert (Hlock : LSpace s ∈ w_locks w) by (rewrite Hlk; set_solver).
  pose proof (fun w' => same_post (R := R) I Ha spec KERN_INVALID_RIGHT w' Hsp) as Hsame.
  assert (Hgo : forall tr, wp (delta_invalid_right s IP_NULL) (right_post X R s i w spec) (set_w_trace tr w)).
  { intros tr. unfold delta_invalid_right. wopen w. wp_steps. by apply Hsame. }
  split_and!.
  - specialize (Hgo (w_trace w)). by destruct w.
  - intros fn args. apply wp_bind, wp_call_, Hgo.
  - intros b fn args. apply wp_bind, wp_when_call, Hgo.
Qed.

Lemma wp_delta_pset name delta :
  name = entry_name i (r_bits a) ->
  wp (delta_pset s name i (r_bits a) delta)
    (right_post X R s i w (delta_ends (right_live w a) MACH_PORT_RIGHT_PORT_SET delta n a)) w.
Proof.
  intros Hn. set (spec := delta_ends _ _ _ _ _). unfold delta_pset, mach_port_guard_exception.
  assert (Hsp : forall kr a', delta_spec (right_live w a) false MACH_PORT_RIGHT_PORT_SET delta a n = (kr, a', n) ->
    spec kr a' n) by (intros kr a' E; by exists false, n).
  assert (Hlock : LSpace s ∈ w_locks w) by (rewrite Hlk; set_solver).
  destruct (Z.eqb_spec (IE_BITS_TYPE (r_bits a)) MACH_PORT_TYPE_PORT_SET) as [Ht|Ht].
  2:{ assert (Hps : has (r_bits a) MACH_PORT_TYPE_PORT_SET = false).
      { rewrite has_type by done.
        destruct (right_types I Ha) as [E|[E|(_ & _ & _ & _ & _ & [E|[E|[E|E]]])]]; by rewrite E in *. }
      rewrite Hps. apply wp_delta_refused, Hsp. unfold delta_spec. by rewrite (proj2 (Z.eqb_neq _ _) Ht). }
  destruct (right_hold I Hs Hsa Ha) as (l & H & Htb). destruct (pset_right I Ha Ht) as (Hr & Hu & Ho0).
  apply Z.eqb_neq in Ho0. types. cbn [negb].
  pose proof (fun kr w' E => same_post (R := R) I Ha spec kr w' E) as Hsame.
  assert (Hlo : LObject (r_object a) ∉ w_locks w) by (rewrite Hlk; set_solver).
  assert (Hlm : LMqueue (r_object a) ∉ w_locks w) by (rewrite Hlk; set_solver).
  pose proof (fun Q => @wp_pset_gone _ _ _ _ I _ _ _ _ Hs Hsa Ha Ht Hlock Hlo Hlm name Q Hn) as Hgone.
  unfold delta_spec in Hsp. rewrite Ht in Hsp. apply wp_bind, wp_massert; [done|].
  apply wp_bind, wp_massert; [lia|]. apply wp_bind. eapply wp_held_entry; [done|exact H|].
  intros d y. cbn [ie_request ie_next ie_object]. rewrite Hr. apply wp_bind, wp_massert; [done|].
  destruct (delta =? 0).
  { unfold delta_success. wopen w. wp_steps. apply Hsame; [by apply Hsp|done..]. }
  destruct (delta =? -1); cbn [negb].
  - apply wp_bind, wp_massert; [by rewrite Ho0|]. apply Hgone. intros w' I' Hlk' Hen'.
    exists None, n. split; [by apply Hsp|done].
  - unfold delta_invalid_value. wopen w. wp_steps. apply Hsame; [by apply Hsp|done..].
Qed.

(** Names that are not for ports. *)
Lemma wp_delta_not_port name right delta :
  name = entry_name i (r_bits a) ->
  IE_BITS_TYPE (r_bits a) = MACH_PORT_TYPE_PORT_SET \/
    IE_BITS_TYPE (r_bits a) = MACH_PORT_TYPE_DEAD_NAME ->
  right = MACH_PORT_RIGHT_SEND_ONCE \/ right = MACH_PORT_RIGHT_DEAD_NAME \/ right = MACH_PORT_RIGHT_SEND ->
  wp (if right =? MACH_PORT_RIGHT_SEND_ONCE then delta_send_once s name i (r_bits a) delta
      else if right =? MACH_PORT_RIGHT_DEAD_NAME then delta_dead_name s name i (r_bits a) delta
      else delta_send s name i (r_bits a) delta)
    (right_post X R s i w (delta_ends (right_live w a) right delta n a)) w.
Proof.
  intros Hn Hty Hright. set (spec := delta_ends _ _ _ _ _).
  assert (Hsp : forall kr a', delta_spec (right_live w a) false right delta a n = (kr, a', n) ->
    spec kr a' n) by (intros kr a' E; by exists false, n).
  assert (Hlock : LSpace s ∈ w_locks w) by (rewrite Hlk; set_solver).
  unfold delta_send_once, delta_dead_name, delta_send, mach_port_guard_exception.
  assert (Hno : spec KERN_INVALID_RIGHT (Some a) n -> forall b fn args,
    wp (when b (call_ fn args);; delta_invalid_right s IP_NULL) (right_post X R s i w spec) w)
    by (intros Hs'; by apply wp_delta_refused).
  destruct Hty as [Ht|Ht], Hright as [->|[->| ->]]; unfold delta_spec in Hsp; rewrite Ht in Hsp;
    revert Hsp; types; consts; intros Hsp; cbn [negb andb orb].
  - by apply wp_delta_refused, Hsp.
  - by apply wp_delta_refused, Hsp.
  - by apply Hno, Hsp.
  - by apply wp_delta_refused, Hsp.
  - apply (wp_delta_dead I Hs Hsa Ha Ht Hlock); [done|by left|]. intros w' I' Hl' He'.
    unfold dead_naked in I'. simpl in I'. exists (snd (uref_delta None delta a)), n.
    split; [|done]. apply Hsp. by destruct (uref_delta None delta a).
  - by apply Hno, Hsp.
Qed.
End routine.

Lemma wp_right_delta X n R w s i a name right delta :
  at_right X n R w s i a name ->
  0 <= right < MACH_PORT_RIGHT_NUMBER -> right <> MACH_PORT_RIGHT_RECEIVE ->
  wp (ipc_right_delta s name i right delta)
    (right_post X R s i w (delta_ends (right_live w a) right delta n a)) w.
Proof.
  intros [I (sp & Hs & Hsa & Hsm) Ha Hn Hlk] Hr Hnr.
  assert (Hlock : LSpace s ∈ w_locks w) by (rewrite Hlk; set_solver).
  assert (Hl : forall o, LObject o ∉ w_locks w) by (intros o; rewrite Hlk; set_solver).
  destruct (right_hold I Hs Hsa Ha) as (l & H & _).
  unfold ipc_right_delta. do 4 wp_step. apply wp_bind, wp_massert; [lia|].
  destruct (Z.eqb_spec right MACH_PORT_RIGHT_PORT_SET) as [->|H1]; [by apply (wp_delta_pset I Hs Hsa Ha)|].
  rewrite (proj2 (Z.eqb_neq _ _) Hnr).
  destruct (Z.eqb_spec right MACH_PORT_RIGHT_LABELH) as [->|H2].
  { consts. apply (wp_delta_refused I Hs Hsa Ha Hlk). by exists false, n. }
  assert (Hright : right = MACH_PORT_RIGHT_SEND_ONCE \/ right = MACH_PORT_RIGHT_DEAD_NAME \/
    right = MACH_PORT_RIGHT_SEND).
  { revert Hr Hnr H1 H2. unfold MACH_PORT_RIGHT_NUMBER, MACH_PORT_RIGHT_RECEIVE, MACH_PORT_RIGHT_PORT_SET,
      MACH_PORT_RIGHT_LABELH, MACH_PORT_RIGHT_SEND_ONCE, MACH_PORT_RIGHT_DEAD_NAME, MACH_PORT_RIGHT_SEND. lia. }
  pose proof (fun Hty => wp_delta_not_port I Hs Hsa Ha Hlk name right delta Hn Hty Hright) as Hnot.
  destruct (right_types I Ha) as [Ht|[Ht|(x & h & Hx & Hh & Hlive & Hty)]].
  - specialize (Hnot (or_introl Ht)). by destruct Hright as [->|[->| ->]].
  - specialize (Hnot (or_intror Ht)). by destruct Hright as [->|[->| ->]].
  - rewrite Hlive. assert (Hpt : is_port_type (IE_BITS_TYPE (r_bits a)) = true)
      by (by destruct Hty as [E|[E|[E|E]]]; rewrite E).
    destruct Hright as [->|[->| ->]]; consts.
    + by apply (wp_delta_send_once I Hs Hsa Ha Hx Hh).
    + by apply (wp_delta_dead_name I Hs Hsa Ha Hx Hh).
    + by apply (wp_delta_send I Hs Hsa Ha Hx Hh).
Qed.

(** C6.  ipc_right_delta on any right of an active space of at most 4096 entries
    (in which no hash distance saturates), for a kind of right other than the
    receive right and for any delta: it does not panic, it changes the user
    references of the right as [delta_spec] says (pegged at the maximum, an
    underflow or a delta out of range refused, the entry gone with the last
    reference, a right for a dead port made a dead name first), it keeps the
    invariant and releases all locks.  The specification shows one leak: a
    dead-name delta that is refused after the port was found dead leaves a
    reference to the port that nobody releases. *)
Theorem right_delta_ok X n R w s i a name right delta :
  at_right X n R w s i a name ->
  0 <= right < MACH_PORT_RIGHT_NUMBER -> right <> MACH_PORT_RIGHT_RECEIVE ->
  wp (ipc_right_delta s name i right delta)
    (right_post X R s i w (delta_ends (right_live w a) right delta n a)) w.
Proof. apply wp_right_delta. Qed.
