(* ===== verification/IpcCopyin.v ===== *)
(** * Rights that leave a space (ipc/ipc_right.c, ipc_right_copyin)

    Every disposition of [ipc_right_copyin]: the right that a message is to carry
    is made, copied or moved out of its entry, and the counts of its port go with
    it.  An entry that has lost its last right is left without a type; the caller
    gives it back. *)

From S2P Require Import Prelude IpcTypes IpcBits IpcHash IpcTable KernelState Kernel IpcFreelist IpcEntry IpcEntryInv IpcGrow IpcAlloc IpcPort IpcRight IpcHeld IpcRights IpcNaked IpcRequests IpcRightCheck IpcRightLive IpcRightDealloc IpcDestroy.

(** ** The entry without a right *)

(** Entry [i] of space [s], of which [name] is the name, is empty but not free. *)
Definition limbo_at (X : gset (Z * Z)) (s i name : Z) (w : world) : Prop :=
  exists sp l b, w_space w !! s = Some sp /\
    held (e_table_entries (w_env w)) sp l i false IO_NULL b IE_REQ_NONE sp /\
    (forall j e, j ∉ 0 :: l -> aget (is_table sp) j = Some e ->
       IE_BITS_TYPE (ie_bits e) = MACH_PORT_TYPE_NONE ->
       (s, j) ∈ X /\ IE_BITS_UREFS (ie_bits e) = 0 /\ ie_request e = IE_REQ_NONE) /\
    IE_BITS_TYPE b = MACH_PORT_TYPE_NONE /\ name = entry_name i b.

Lemma held_again sizes sp0 l i h o b r sp :
  held sizes sp0 l i h o b r sp -> held sizes sp l i h o b r sp.
Proof. by intros []. Qed.

(** The entries that may be without a type once entry [k] denotes [a']. *)
Definition emptied (k : Z * Z) (a' : option right) (X : gset (Z * Z)) : gset (Z * Z) :=
  match a' with None => {[k]} ∪ X | Some _ => X end.

(** How an operation that keeps the lock of the space ends. *)
Definition held_post {A : Type} (X : gset (Z * Z)) (R : rights) (s i name : Z) (w : world)
    (spec : A -> option right -> naked -> Prop) (v : A) (w' : world) : Prop :=
  exists a' n', spec v a' n' /\ inv_with (emptied (s, i) a' X) n' (put (s, i) a' R) w' /\
    (a' = None -> limbo_at ({[(s, i)]} ∪ X) s i name w') /\
    w_locks w' = w_locks w /\ w_env w' = w_env w.

Lemma requests_only x x' :
  x' = set_ip_requests (ip_requests x') x ->
  ip_srights x' = ip_srights x /\ ip_sorights x' = ip_sorights x /\
  ip_receiver x' = ip_receiver x /\ ip_receiver_name x' = ip_receiver_name x /\
  ip_send_turnstile x' = ip_send_turnstile x /\ waitq_ts x' = waitq_ts x.
Proof. generalize (ip_requests x'). by intros r ->. Qed.

Section moved.
Context {X : gset (Z * Z)} {n : naked} {R : rights} {w : world} (I : inv_with X n R w).
Context {s i : Z} {sp : ipc_space} {a : right}.
Context (Hs : w_space w !! s = Some sp) (Hsa : is_active sp = true) (Ha : R !! (s, i) = Some a).
Context {l : list Z} (Htb : typed_but (X := X) (s := s) (sp := sp) l).
Let p := r_object a.
Let sizes := e_table_entries (w_env w).
Let reqs := e_table_requests (w_env w).

(** The entry is emptied. *)
Lemma limbo_space b sp' :
  held sizes sp l i false IO_NULL b IE_REQ_NONE sp' ->
  IE_BITS_TYPE b = MACH_PORT_TYPE_NONE -> IE_BITS_UREFS b = 0 ->
  space_inv sizes ({[(s, i)]} ∪ X) (<[s := sp']> (w_space w)) (put (s, i) None R).
Proof.
  intros H Ht Hu. replace (@None right) with (right_of IO_NULL b IE_REQ_NONE)
    by (unfold right_of; by rewrite Ht).
  apply (right_space I Hs Ha _ l false); try done.
  - intros _. split; [set_solver|done].
  - set_solver.
  - unfold names_port. by types.
Qed.

Lemma limbo_intro name b sp' w' :
  held sizes sp l i false IO_NULL b IE_REQ_NONE sp' ->
  IE_BITS_TYPE b = MACH_PORT_TYPE_NONE -> IE_BITS_UREFS b = 0 ->
  name = entry_name i b -> w_env w' = w_env w ->
  w_space w' = <[s := sp']> (w_space w) -> limbo_at ({[(s, i)]} ∪ X) s i name w'.
Proof.
  intros H Ht Hu Hn Hen Hsp. exists sp', l, b. rewrite Hen, Hsp. split; [apply lookup_insert_eq|].
  split; [by eapply held_again|]. split; [|done]. intros j e Hj He Hte.
  destruct (decide (j = i)) as [->|Hne].
  - destruct (hd_entry _ _ _ _ _ _ _ _ _ H) as (d & y & He'). rewrite He in He'. injection He' as ->.
    split; [set_solver|done].
  - pose proof (hd_frame _ _ _ _ _ _ _ _ _ H j Hne) as Hf. rewrite He in Hf. symmetry in Hf.
    apply fmap_Some in Hf as (e1 & He1 & (Eo & Eb & En)%strip_eq). rewrite Eb, En in *.
    destruct (Htb j e1 Hj He1 Hte) as (? & ?). split; [set_solver|done].
Qed.

Context {x : ipc_port} {h : ipc_object}.
Let send := Z.b2z (has (r_bits a) MACH_PORT_TYPE_SEND).
Let sonce := Z.b2z (has (r_bits a) MACH_PORT_TYPE_SEND_ONCE).
Context (Hx : w_port w !! p = Some x) (Hh : w_io w !! p = Some h).

(** A send or a send-once right is now naked, and the entry empty; the port is
    live or dead. *)
Lemma moved_finish b x' sp' w' :
  has (r_bits a) MACH_PORT_TYPE_RECEIVE = false -> send + sonce <= 1 ->
  x' = set_ip_requests (ip_requests x') x ->
  req_ok reqs (put (s, i) None R) p (ip_requests x') ->
  held sizes sp l i false IO_NULL b IE_REQ_NONE sp' ->
  IE_BITS_TYPE b = MACH_PORT_TYPE_NONE -> IE_BITS_UREFS b = 0 ->
  w_env w' = w_env w -> w_space w' = <[s := sp']> (w_space w) -> w_io w' = w_io w ->
  w_port w' = <[p := x']> (w_port w) ->
  inv_with ({[(s, i)]} ∪ X) (give p send sonce 0 1 n) (put (s, i) None R) w'.
Proof.
  intros Hr H1 Ex Hrq H Ht Hu Hen Hsp Hio Hpo.
  destruct (rights_at p a eq_refl) as (Ref & Rs & Rso & Rr). rewrite Hr in Rr.
  pose proof (naked_inv I p) as HN. pose proof (ref_count I p h Hh) as Hrc.
  pose proof (ref_range I p h Hh) as Hrr. destruct (port_inv I p x h Hx Hh) as [Hty Hl Hd _].
  destruct (requests_only x x' Ex) as (E1 & E2 & E3 & E4 & E5 & E6).
  apply (inv_finish _ _ _ w w' s sp sp' Hs Hen Hsp); [apply (hd_same _ _ _ _ _ _ _ _ _ H)|by eapply limbo_space|].
  rewrite Hio, Hpo, <- (insert_id (w_io w) p h) by done.
  apply (right_objects I Ha p x h x' h); try done; [apply give_off|..|by left].
  - apply give_ok; try done; destruct HN as (? & ? & ? & ?); unfold send, sonce in *;
      destruct (has _ _), (has _ _); simpl in *; lia.
  - rewrite count_put, Ha. cbn [counts]. rewrite Ref. simpl. rewrite bump_eq. lia.
  - split; [done| | |done]; intros Hact; rewrite !count_put, Ha; cbn [counts give n_send n_sonce n_recv];
      rewrite Rs, Rso, Rr, !bump_eq, ?E1, ?E2, ?E3, ?E5, ?E6; fold send sonce; cbn [Z.b2z].
    + destruct (Hl Hact) as (? & ? & ? & Hnr). split_and!; [lia..|]. intros ?. apply Hnr. lia.
    + destruct (Hd Hact) as (? & ? & ? & ?). split_and!; try lia; tauto.
Qed.
End moved.

(** ** What copyin promises *)

(** Result, object, port to release, what is left in the entry, naked rights. *)
Abbreviation outcome := (Z * Z * Z * option right * naked)%type.

(** A dead name: [move] takes a user reference of it. *)
Definition copyin_dead (move deadok : bool) (release : Z) (a : right) (n : naked) : outcome :=
  if negb deadok then (KERN_INVALID_RIGHT, IO_NULL, release, Some a, n)
  else (KERN_SUCCESS, IO_DEAD, release, if move then drop_uref a else Some a, n).

(** The dispositions for send and send-once rights: [kind] is the type that the
    disposition is for, [imm] tells whether the port has immovable send rights,
    and [took] is what is left of the right. *)
Definition copyin_sends (kind flags : Z) (move imm live extra : bool) (took : option right)
    (a : right) (n : naked) : outcome :=
  let p := r_object a in
  let deadok := flag flags IPC_RIGHT_COPYIN_FLAGS_DEADOK in
  let same kr := (kr, IO_NULL, IP_NULL, Some a, n) in
  if has (r_bits a) MACH_PORT_TYPE_DEAD_NAME then copyin_dead move deadok IP_NULL a n
  else if negb (has (r_bits a) MACH_PORT_TYPE_SEND_RIGHTS) then same KERN_INVALID_RIGHT
  else if negb live then copyin_dead move deadok p (died extra a) (give p 0 0 0 1 n)
  else if negb (has (r_bits a) kind) then same KERN_INVALID_RIGHT
  else if negb (flag flags IPC_RIGHT_COPYIN_FLAGS_ALLOW_IMMOVABLE_SEND) && imm
  then same KERN_INVALID_CAPABILITY
  else (KERN_SUCCESS, p, IP_NULL, took,
        give p (Z.b2z (kind =? MACH_PORT_TYPE_SEND)) (Z.b2z (kind =? MACH_PORT_TYPE_SEND_ONCE)) 0 1 n).

(** A new right is made from a receive right. *)
Definition copyin_make (ds dso : Z) (a : right) (n : naked) : outcome :=
  if negb (has (r_bits a) MACH_PORT_TYPE_RECEIVE)
  then (KERN_INVALID_RIGHT, IO_NULL, IP_NULL, Some a, n)
  else (KERN_SUCCESS, r_object a, IP_NULL, Some a, give (r_object a) ds dso 0 1 n).

(** A user reference of a send right, or the send right of a port of which the
    entry keeps the receive right. *)
Definition take_send (a : right) : option right :=
  if (IE_BITS_TYPE (r_bits a) =? MACH_PORT_TYPE_SEND_RECEIVE) && (IE_BITS_UREFS (r_bits a) =? 1)
  then Some (mkRight (r_object a) (without_send (r_bits a)) (r_request a))
  else drop_uref a.

(** The entry has lost its receive right. *)
Definition without_receive (b : Z) : Z :=
  Z.lor (Z.land b (Z.lnot MACH_PORT_TYPE_RECEIVE)) MACH_PORT_TYPE_EX_RECEIVE.
Definition take_receive (a : right) : option right :=
  if has (r_bits a) MACH_PORT_TYPE_SEND
  then Some (mkRight (r_object a) (without_receive (r_bits a)) (r_request a)) else None.

(** The guard of the port allows the move. *)
Definition guard_ok (x : ipc_port) (context : Z) (gf : option Z) : bool :=
  match gf with
  | None => true
  | Some flags =>
      has flags MACH_MSG_GUARD_FLAGS_UNGUARDED_ON_SEND && negb (ip_guarded x) && (context =? 0)
      || ip_guarded x && (ip_context x =? context)
  end.

Definition copyin_receive (x : ipc_port) (h : ipc_object) (context : Z) (gf : option Z) (a : right)
    (n : naked) : outcome :=
  let same kr := (kr, IO_NULL, IP_NULL, Some a, n) in
  if negb (has (r_bits a) MACH_PORT_TYPE_RECEIVE) then same KERN_INVALID_RIGHT
  else if io_is_kobject h || io_is_kolabeled h || ip_immovable_receive x || ip_specialreply x
  then same KERN_INVALID_CAPABILITY
  else if negb (guard_ok x context gf) then same KERN_INVALID_ARGUMENT
  else (KERN_SUCCESS, r_object a, IP_NULL, take_receive a, give (r_object a) 0 0 1 1 n).

Definition copyin_spec (msgt flags context : Z) (gf : option Z) (x : ipc_port) (h : ipc_object)
    (extra : bool) (a : right) (n : naked) : outcome :=
  let imm := ip_immovable_send x in
  let live := io_active h in
  if msgt =? MACH_MSG_TYPE_MAKE_SEND then copyin_make 1 0 a n
  else if msgt =? MACH_MSG_TYPE_MAKE_SEND_ONCE then copyin_make 0 1 a n
  else if msgt =? MACH_MSG_TYPE_MOVE_RECEIVE then copyin_receive x h context gf a n
  else if msgt =? MACH_MSG_TYPE_COPY_SEND then
    copyin_sends MACH_PORT_TYPE_SEND flags false imm live extra (Some a) a n
  else if msgt =? MACH_MSG_TYPE_MOVE_SEND then
    copyin_sends MACH_PORT_TYPE_SEND flags true imm live extra (take_send a) a n
  else if msgt =? MACH_MSG_TYPE_MOVE_SEND_ONCE then
    copyin_sends MACH_PORT_TYPE_SEND_ONCE flags true imm (usable flags h a) extra None a n
  else (KERN_INVALID_RIGHT, IO_NULL, IP_NULL, Some a, n).

(** The results that the specification allows: the request that was cancelled
    with the entry is only returned when the entry is gone, and importance
    assertions only travel with a receive right. *)
Definition copyin_ends (spec : bool -> outcome) (r : copyin_result) (a' : option right) (n' : naked)
    : Prop :=
  exists extra n1, n' ≡ n1 /\ spec extra = (ci_kr r, ci_object r, ci_release r, a', n1) /\
    (ci_soright r <> IP_NULL -> a' = None) /\ (ci_assertcnt r <> 0 -> n_recv n' (ci_object r) = 1).

(** ** Dead names *)

Section dead.
Context {X : gset (Z * Z)} {n : naked} {R : rights} {w : world} (I : inv_with X n R w).
Context {s i : Z} {sp : ipc_space} {a : right}.
Context (Hs : w_space w !! s = Some sp) (Hsa : is_active sp = true) (Ha : R !! (s, i) = Some a).
Context (Ht : IE_BITS_TYPE (r_bits a) = MACH_PORT_TYPE_DEAD_NAME).
Context (deadok : bool) (release : Z) (gf : option Z).
Let answer := if negb deadok then copyin_err KERN_INVALID_RIGHT release gf
  else copyin_ok IO_DEAD IP_NULL release gf.

Lemma dead_urefs : 0 < IE_BITS_UREFS (r_bits a).
Proof.
  apply (bits_ok_counted _ (ro_bits _ _ _ _ (the_right I Ha))). rewrite Ht. do 2 right. done.
Qed.

Lemma wp_assert_dead (Q : unit -> world -> Prop) : Q tt w -> wp (copyin_assert_dead s i (r_bits a)) Q w.
Proof.
  intros HQ. destruct (right_hold I Hs Hsa Ha) as (l & H & _). pose proof dead_urefs.
  destruct (ro_dead _ _ _ _ (the_right I Ha) Ht) as [Ho Hr]. rewrite Ho, Hr in H.
  unfold copyin_assert_dead. apply wp_bind, wp_massert; [by rewrite Ht|].
  apply wp_bind, wp_massert; [lia|]. apply wp_bind. eapply wp_held_entry; [done|exact H|].
  intros d y. apply wp_bind, wp_massert; [done|]. by apply wp_massert.
Qed.

Lemma wp_copy_dead (Q : copyin_result -> world -> Prop) :
  Q answer w -> wp (copyin_copy_dead s i (r_bits a) deadok release gf) Q w.
Proof. intros HQ. unfold copyin_copy_dead. apply wp_bind, wp_assert_dead. by apply wp_ret. Qed.

(** The last user reference: the type goes with it. *)
Lemma last_dead_bits :
  IE_BITS_UREFS (r_bits a) = 1 ->
  let b := Z.land (r_bits a) (Z.lnot MACH_PORT_TYPE_DEAD_NAME) + -1 in
  IE_BITS_TYPE b = MACH_PORT_TYPE_NONE /\ IE_BITS_UREFS b = 0 /\ gen_roll b = gen_roll (r_bits a) /\
  IE_BITS_UREFS (Z.land (r_bits a) (Z.lnot MACH_PORT_TYPE_DEAD_NAME)) = 1.
Proof.
  intros Hu. set (b0 := Z.land _ _).
  assert (Hu0 : IE_BITS_UREFS b0 = 1).
  { unfold b0, IE_BITS_UREFS. rewrite clear_mask, <- Z.land_assoc. rewrite <- Hu. done. }
  assert (Ht0 : IE_BITS_TYPE b0 = MACH_PORT_TYPE_NONE).
  { unfold b0. unfold IE_BITS_TYPE in *. by rewrite clear_mask, Ht. }
  cbv zeta. rewrite type_urefs_add, urefs_add, gen_roll_urefs by (unfold MACH_PORT_UREFS_MAX; lia).
  split_and!; [done|lia| |done]. by apply clear_gen_roll.
Qed.

Lemma wp_move_dead name (Q : copyin_result -> world -> Prop) :
  name = entry_name i (r_bits a) ->
  (forall w', (if deadok then
       inv_with (emptied (s, i) (drop_uref a) X) n (put (s, i) (drop_uref a) R) w' /\
       (drop_uref a = None -> limbo_at ({[(s, i)]} ∪ X) s i name w')
     else inv_with X n R w') ->
     w_locks w' = w_locks w -> w_env w' = w_env w -> Q answer w') ->
  wp (copyin_move_dead s name i (r_bits a) deadok release gf) Q w.
Proof.
  intros Hn HQ. destruct (right_hold I Hs Hsa Ha) as (l & H & Htb). pose proof dead_urefs as Hu.
  destruct (ro_dead _ _ _ _ (the_right I Ha) Ht) as [Ho Hr]. rewrite Ho, Hr in H.
  pose proof (IE_BITS_UREFS_range (r_bits a)) as Hur.
  unfold copyin_move_dead. apply wp_bind, wp_assert_dead. unfold answer in HQ.
  destruct deadok; cbn [negb] in HQ |- *; [|apply wp_ret; by apply HQ].
  pose proof (dead_kept I Hs Ha Ht l) as Hkept. pose proof (limbo_space I Hs Hsa Ha Htb) as Hlimbo.
  pose proof (limbo_intro I Hs Hsa Ha Htb) as Hintro.
  pose proof (fun X' sp' => dead_finish I Hs Ha (X' := X') None sp') as Hfin.
  pose proof last_dead_bits as Hlast. unfold drop_uref in HQ. rewrite Ho, Hr in HQ.
  destruct (Z.eqb_spec (IE_BITS_UREFS (r_bits a)) 1) as [E1|E1].
  - destruct (Hlast E1) as (Hbt & Hbu & Hbg & ->). change (_ <? _) with true. cbn [when].
    change (Z.land ?b ?c - 1) with (Z.land b c + -1). set (b := Z.land _ _ + -1) in *.
    wopen w. wp_steps.
    + by rewrite Hn; symmetry; apply entry_name_roll.
    + apply HQ; try done. split.
      * cbn [emptied]. apply (Hfin _ sp'0); try done; [by eapply Hlimbo|apply (hd_same _ _ _ _ _ _ _ _ _ Hd0)].
      * intros _. eapply Hintro; try done. by rewrite Hn; symmetry; apply entry_name_roll.
  - destruct (Z.ltb_spec (IE_BITS_UREFS (r_bits a)) MACH_PORT_UREFS_MAX) as [E2|E2]; cbn [when];
      wopen w; wp_steps.
    + by apply (gen_roll_urefs _ (-1)); lia.
    + rewrite Hn. symmetry. apply entry_name_roll, (gen_roll_urefs _ (-1)). lia.
    + apply HQ; try done. split; [|done]. eapply (Hkept (r_bits a - 1)); try done.
      * rewrite <- Ht. apply (type_urefs_add _ (-1)). lia.
      * pose proof (urefs_add (r_bits a) (-1) ltac:(lia)). change (r_bits a - 1) with (r_bits a + -1). lia.
    + apply HQ; try done. split; [|done]. destruct a as [o b r]. simpl in *. subst o r. by eapply (Hkept b).
Qed.
End dead.

(** ** The dispositions *)

Section copyin.
Context {X : gset (Z * Z)} {n : naked} {R : rights} {w : world} (I : inv_with X n R w).
Context {s i : Z} {sp : ipc_space} {a : right}.
Context (Hs : w_space w !! s = Some sp) (Hsa : is_active sp = true) (Ha : R !! (s, i) = Some a).
Context (name : Z) (Hn : name = entry_name i (r_bits a)).
Context (spec : bool -> outcome).
Let p := r_object a.
Let post := held_post X R s i name w (copyin_ends spec).

(** The right stays as it is; there may be new naked rights. *)
Lemma kept_post r n' extra w' :
  spec extra = (ci_kr r, ci_object r, ci_release r, Some a, n') ->
  ci_soright r = IP_NULL -> ci_assertcnt r = 0 ->
  inv_with X n' R w' -> w_locks w' = w_locks w -> w_env w' = w_env w -> post r w'.
Proof.
  intros Hsp Hso Hac I' Hlk Hen. exists (Some a), n'. rewrite put_id by done. split; [|done].
  exists extra, n'. split_and!; done || congruence.
Qed.

Lemma err_post kr gf w' :
  spec false = (kr, IO_NULL, IP_NULL, Some a, n) -> w_space w' = w_space w -> w_io w' = w_io w ->
  w_port w' = w_port w -> w_locks w' = w_locks w -> w_env w' = w_env w ->
  post (copyin_err kr IP_NULL gf) w'.
Proof.
  intros Hsp E1 E2 E3 Hlk Hen. apply (kept_post _ n false); try done.
  unfold inv_with. by rewrite E1, E2, E3, Hen.
Qed.

Context {x : ipc_port} {h : ipc_object} (Hx : w_port w !! p = Some x) (Hh : w_io w !! p = Some h).
Context (Hl : LObject p ∉ w_locks w) (Hroom : io_references h + 1 < IO_MAX_REFERENCES).
Context (Hsm : small_table sp).

(** *** A receive right makes other rights *)

Lemma wp_copyin_make_send gf (Q : copyin_result -> world -> Prop) :
  (forall e, spec e = copyin_make 1 0 a n) -> (forall r w', post r w' -> Q r w') ->
  wp (copyin_make_send s name i (r_bits a) gf) Q w.
Proof.
  intros Hspec HQ. unfold copyin_make in Hspec. unfold copyin_make_send.
  destruct (right_hold I Hs Hsa Ha) as (l & H & _). fold p in H.
  destruct (has (r_bits a) MACH_PORT_TYPE_RECEIVE) eqn:Hr; cbn [negb] in *.
  - pose proof (receive_live I Ha Hx Hh Hr) as Hact. destruct (right_receiver I Ha Hr x Hx) as [Erc Ern].
    destruct (port_addr I p h Hh) as (Hp0 & _). apply Z.eqb_neq in Hp0.
    pose proof (fun ls => @wp_make_send_locked X n R (set_w_locks ls w) I p x h Hx Hh Hact Hroom) as Rms.
    pose proof (fun x' => @inv_new_naked X n R w I p x h Hx Hh Hroom 1 0 x') as Hnew.
    pose proof kept_post as Hend. clear -Hx Hh Hl Hs H Hp0 Erc Ern Hn Hend Hnew Rms HQ Hspec. wstart w.
    wp_steps; [by rewrite Hp0|by apply Z.eqb_eq; congruence|by apply Z.eqb_eq|].
    apply Rms. wp_steps. apply HQ, (Hend _ (give p 1 0 0 1 n) false); try done.
    + apply (Hnew (make_send x)); simpl; done || lia.
    + simpl. by rewrite unlock_again.
  - apply wp_ret, HQ. by apply err_post.
Qed.

Lemma wp_copyin_make_send_once gf (Q : copyin_result -> world -> Prop) :
  (forall e, spec e = copyin_make 0 1 a n) -> (forall r w', post r w' -> Q r w') ->
  wp (copyin_make_send_once s name i (r_bits a) gf) Q w.
Proof.
  intros Hspec HQ. unfold copyin_make in Hspec. unfold copyin_make_send_once.
  destruct (right_hold I Hs Hsa Ha) as (l & H & _). fold p in H.
  destruct (has (r_bits a) MACH_PORT_TYPE_RECEIVE) eqn:Hr; cbn [negb] in *.
  - pose proof (receive_live I Ha Hx Hh Hr) as Hact. destruct (right_receiver I Ha Hr x Hx) as [Erc Ern].
    destruct (port_addr I p h Hh) as (Hp0 & _). apply Z.eqb_neq in Hp0.
    pose proof (fun ls => @wp_make_sonce_locked X n R (set_w_locks ls w) I p x h Hx Hh Hact Hroom) as Rms.
    pose proof (fun x' => @inv_new_naked X n R w I p x h Hx Hh Hroom 0 1 x') as Hnew.
    pose proof kept_post as Hend. clear -Hx Hh Hl Hs H Hp0 Erc Ern Hn Hend Hnew Rms HQ Hspec Hact.
    unfold require_ip_active. wstart w. wp_steps; [by rewrite Hp0|]. rewrite Hact.
    wp_steps; [by apply Z.eqb_eq; congruence|by apply Z.eqb_eq|].
    apply Rms. wp_steps. apply HQ, (Hend _ (give p 0 1 0 1 n) false); try done.
    + apply (Hnew (add_sonce x)); simpl; done || lia.
    + simpl. by rewrite unlock_again.
  - apply wp_ret, HQ. by apply err_post.
Qed.

(** *** Send rights *)

(** The check for a dead port, and what follows for a right for one. *)
Lemma wp_check_dead flags move deadok gf (k : bool -> M copyin_result) (Q : copyin_result -> world -> Prop) :
  is_port_type (IE_BITS_TYPE (r_bits a)) = true ->
  k true = (e ← entry s i;
    if (move : bool) then copyin_move_dead s name i (ie_bits e) deadok p gf
    else copyin_copy_dead s i (ie_bits e) deadok p gf) ->
  (usable flags h a = false -> forall extra,
     spec extra = copyin_dead move deadok p (died extra a) (give p 0 0 0 1 n)) ->
  (usable flags h a = true ->
   wp (k false) Q (set_w_locks ({[LObject p]} ∪ w_locks w) w)) ->
  (forall r w', post r w' -> Q r w') ->
  wp (ipc_right_check s p name i flags ≫= k) Q w.
Proof.
  intros Hty Hk Hspec Hlive HQ. apply wp_bind.
  apply (wp_right_check I Hs Hsa Ha Hty x h Hx Hh Hl Hsm); [done|done|]. intros Hd extra w1 C.
  rewrite Hk. apply wp_bind. apply (wp_checked_entry extra w1 _ C). intros d y. cbn [ie_bits].
  specialize (Hspec Hd extra). unfold copyin_dead in Hspec.
  destruct C as [I1 (sp1 & Hs1 & Hsa1) Hlk Hen _ _]. fold p in I1.
  pose proof (put_eq (s, i) (Some (died extra a)) R) as Ha1.
  pose proof (died_right_type extra a) as Ht1.
  assert (Hn1 : name = entry_name i (r_bits (died extra a)))
    by (rewrite Hn; symmetry; apply entry_name_roll, died_right_gen).
  assert (Hkept : forall r, spec extra = (ci_kr r, ci_object r, ci_release r, Some (died extra a), give p 0 0 0 1 n) ->
    ci_soright r = IP_NULL -> ci_assertcnt r = 0 -> forall w',
    inv_with X (give p 0 0 0 1 n) (put (s, i) (Some (died extra a)) R) w' ->
    w_locks w' = w_locks w1 -> w_env w' = w_env w1 -> Q r w').
  { intros r Hsp Hso Hac w' I' Hlk' Hen'. apply HQ. exists (Some (died extra a)), (give p 0 0 0 1 n).
    split; [exists extra; eexists; by split_and!|]. split_and!; done || congruence. }
  destruct move.
  - apply (wp_move_dead I1 Hs1 Hsa1 Ha1 Ht1 deadok p gf); [done|].
    rewrite put_put. intros w' I' Hlk' Hen'. destruct deadok; cbn [negb] in *.
    + destruct I' as [I' Hlim]. apply HQ. exists (drop_uref (died extra a)), (give p 0 0 0 1 n).
      split; [exists extra; eexists; by split_and!|]. split_and!; done || congruence.
    + by apply Hkept.
  - apply (wp_copy_dead I1 Hs1 Hsa1 Ha1 Ht1). by destruct deadok; apply Hkept.
Qed.

Definition port_typed : Prop :=
  IE_BITS_TYPE (r_bits a) = MACH_PORT_TYPE_SEND \/ IE_BITS_TYPE (r_bits a) = MACH_PORT_TYPE_RECEIVE \/
  IE_BITS_TYPE (r_bits a) = MACH_PORT_TYPE_SEND_RECEIVE \/
  IE_BITS_TYPE (r_bits a) = MACH_PORT_TYPE_SEND_ONCE.
Context (Hpt : port_typed).

Lemma port_typed_is : is_port_type (IE_BITS_TYPE (r_bits a)) = true.
Proof. by destruct Hpt as [-> |[-> |[-> | ->]]]. Qed.

Lemma send_rights_urefs :
  has (r_bits a) MACH_PORT_TYPE_SEND_RIGHTS = true -> 0 < IE_BITS_UREFS (r_bits a).
Proof.
  rewrite has_type by done.
  destruct (ro_bits _ _ _ _ (the_right I Ha)) as [[-> ?]|[[-> _]|[[-> ?]|[[-> ?]|[[-> _]|[-> _]]]]]];
    done || lia.
Qed.

(** The part that the three dispositions have in common, up to the check. *)
Lemma wp_sends_start gf (k : ipc_entry -> M copyin_result) (Q : copyin_result -> world -> Prop) :
  (has (r_bits a) MACH_PORT_TYPE_SEND_RIGHTS = false ->
   spec false = (KERN_INVALID_RIGHT, IO_NULL, IP_NULL, Some a, n)) ->
  (has (r_bits a) MACH_PORT_TYPE_SEND_RIGHTS = true -> forall d y,
   wp (k (mkEntry p (r_bits a) d y (r_request a))) Q w) ->
  (forall r w', post r w' -> Q r w') ->
  wp (if negb (has (r_bits a) MACH_PORT_TYPE_SEND_RIGHTS)
      then mret (copyin_err KERN_INVALID_RIGHT IP_NULL gf)
      else
        massert (0 <? IE_BITS_UREFS (r_bits a));;
        e ← entry s i;
        massert (negb (ie_object e =? IP_NULL));;
        k e) Q w.
Proof.
  intros Hspec Hk HQ. destruct (right_hold I Hs Hsa Ha) as (l & H & _). fold p in H.
  destruct (port_addr I p h Hh) as (Hp0 & _). apply Z.eqb_neq in Hp0.
  pose proof send_rights_urefs as Hu. pose proof err_post as Herr.
  destruct (has (r_bits a) MACH_PORT_TYPE_SEND_RIGHTS) eqn:Hsr; cbn [negb] in *.
  - specialize (Hu eq_refl). apply wp_bind, wp_massert; [lia|]. apply wp_bind.
    eapply wp_held_entry; [done|exact H|]. intros d y. cbn [ie_object]. apply wp_bind, wp_massert; [by rewrite Hp0|].
    by apply Hk.
  - apply wp_ret, HQ. by apply Herr; auto.
Qed.

Lemma port_typed_dead : has (r_bits a) MACH_PORT_TYPE_DEAD_NAME = false.
Proof. rewrite has_type by done. by destruct Hpt as [-> |[-> |[-> | ->]]]. Qed.

Lemma usable_none : usable IPC_RIGHT_COPYIN_FLAGS_NONE h a = io_active h.
Proof. unfold usable. by rewrite orb_false_r. Qed.

Lemma wp_copyin_copy_send flags gf (Q : copyin_result -> world -> Prop) :
  (forall extra, spec extra = copyin_sends MACH_PORT_TYPE_SEND flags false (ip_immovable_send x)
     (io_active h) extra (Some a) a n) ->
  (forall r w', post r w' -> Q r w') ->
  wp (copyin_copy_send s name i (r_bits a) flags gf) Q w.
Proof.
  intros Hspec HQ. unfold copyin_copy_send.
  pose proof port_typed_dead as Hnd. unfold copyin_sends in Hspec. rewrite Hnd in Hspec |- *.
  apply (wp_sends_start gf); [by intros E; rewrite Hspec, E| |done]. intros Hsr d y. cbn [ie_object].
  rewrite Hsr in Hspec. cbn [negb] in Hspec.
  apply (wp_check_dead _ false (flag flags IPC_RIGHT_COPYIN_FLAGS_DEADOK) gf); [apply port_typed_is|done| | |done];
    rewrite usable_none; intros Hact; [by intros extra; rewrite Hspec, Hact|].
  rewrite Hact in Hspec. cbn [negb] in Hspec. pose proof (live_send I Ha Hx Hh Hact) as Hpos.
  pose proof (live_sonce I Ha Hx Hh Hact) as Hpos1.
  pose proof (fun ls => @wp_copy_send_locked X n R (set_w_locks ls w) I p x h Hx Hh Hact Hroom) as Rcs.
  pose proof (fun x' => @inv_new_naked X n R w I p x h Hx Hh Hroom 1 0 x') as Hnew.
  pose proof kept_post as Hend. pose proof err_post as Herr.
  assert (Hso : has (r_bits a) MACH_PORT_TYPE_SEND = false -> IE_BITS_TYPE (r_bits a) = MACH_PORT_TYPE_SEND_ONCE).
  { revert Hsr. rewrite !(has_type (r_bits a)) by done. by destruct Hpt as [-> |[-> |[-> | ->]]]. }
  clear -Hx Hh Hl Hs Hend Herr Hnew Rcs HQ Hspec Hpos Hpos1 Hso. wstart w. wp_steps.
  destruct (has (r_bits a) MACH_PORT_TYPE_SEND) eqn:Hsend; cbn [negb] in *.
  - destruct (negb (flag flags _) && ip_immovable_send x); wp_steps.
    + apply HQ, Herr; try done. simpl. by rewrite unlock_again.
    + apply Rcs; [by apply Hpos|]. wp_steps. apply HQ, (Hend _ (give p 1 0 0 1 n) false); try done.
      * apply (Hnew (add_send x)); simpl; done || lia.
      * simpl. by rewrite unlock_again.
  - specialize (Hso eq_refl). wp_steps; [by rewrite Hso| |].
    + apply Z.ltb_lt, Hpos1. by types.
    + apply HQ, Herr; try done. simpl. by rewrite unlock_again.
Qed.

(** The last user reference of a send right: the send right goes into the
    message, and so does the reference of the entry. *)
Lemma wp_take_last_send l gf (Q : copyin_result -> world -> Prop) :
  typed_but (X := X) (s := s) (sp := sp) l ->
  held (e_table_entries (w_env w)) sp l i true p (r_bits a) (r_request a) sp ->
  io_active h = true -> IE_BITS_TYPE (r_bits a) = MACH_PORT_TYPE_SEND ->
  IE_BITS_UREFS (r_bits a) = 1 ->
  (spec false = (KERN_SUCCESS, p, IP_NULL, None, give p 1 0 0 1 n)) ->
  (forall r w', post r w' -> Q r w') ->
  wp (copyin_take_send s name i p (r_bits a) gf) Q (set_w_locks ({[LObject p]} ∪ w_locks w) w).
Proof.
  intros Htb H Hact Ht Hu Hspec HQ.
  assert (Hb : has (r_bits a) MACH_PORT_TYPE_SEND = true) by by types.
  pose proof (live_send I Ha Hx Hh Hact Hb) as Hpos.
  pose proof (po_reqs _ _ _ _ _ _ _ (port_inv I p x h Hx Hh)) as Hrq.
  pose proof (moved_finish I Hs Hsa Ha Htb Hx Hh (without_send (r_bits a))) as Hfin. revert Hfin. types.
  intros Hfin. pose proof (limbo_intro I Hs Hsa Ha Htb name (without_send (r_bits a))) as Hlim.
  pose proof (without_send_type (r_bits a)) as Hbt. rewrite Ht in Hbt.
  pose proof (without_send_urefs (r_bits a)) as Hbu. pose proof (without_send_gen (r_bits a)) as Hbg.
  assert (Hn' : name = entry_name i (without_send (r_bits a)))
    by (rewrite Hn; symmetry; by apply entry_name_roll).
  assert (Hpost : forall req w', inv_with ({[(s, i)]} ∪ X) (give p 1 0 0 1 n) (put (s, i) None R) w' ->
    limbo_at ({[(s, i)]} ∪ X) s i name w' -> w_locks w' = w_locks w -> w_env w' = w_env w ->
    Q (copyin_ok p req IP_NULL gf) w').
  { intros req w' I' L' Hlk Hen. apply HQ. exists None, (give p 1 0 0 1 n). split; [|done].
    exists false. eexists. by split_and!. }
  unfold copyin_take_send, copyin_last_send. rewrite Hu. clear Hspec HQ. wopen w. types. wp_steps; [lia|].
  eapply (wp_request_cancel (R := R) (x := x) (a := a)); [wlook|exact H|wlook|wlook|done|exact Hrq|done..|].
  intros prev x2 sp2 [Ex2 Hrq2] H2. wp_steps; [done..|].
  apply Hpost; try done.
  - eapply (Hfin x2); try done. by apply Hrq2.
  - by eapply Hlim.
  - simpl. by rewrite unlock_again.
Qed.

(** The right is still in its entry, with other bits, and there is a new naked
    send right. *)
Lemma took_post gf a' w' (Q : copyin_result -> world -> Prop) :
  spec false = (KERN_SUCCESS, p, IP_NULL, Some a', give p 1 0 0 1 n) ->
  (forall r w', post r w' -> Q r w') ->
  forall n', n' ≡ give p 1 0 0 1 n -> inv_with X n' (put (s, i) (Some a') R) w' ->
  w_locks w' = w_locks w -> w_env w' = w_env w -> Q (copyin_ok p IP_NULL IP_NULL gf) w'.
Proof.
  intros Hspec HQ n' En I' Hlk Hen. apply HQ. exists (Some a'), n'. split; [|done].
  exists false. eexists. by split_and!.
Qed.

Lemma wp_take_send_receive l gf (Q : copyin_result -> world -> Prop) :
  typed_but (X := X) (s := s) (sp := sp) l ->
  held (e_table_entries (w_env w)) sp l i false p (r_bits a) (r_request a) sp ->
  IE_BITS_TYPE (r_bits a) = MACH_PORT_TYPE_SEND_RECEIVE -> IE_BITS_UREFS (r_bits a) = 1 ->
  spec false = (KERN_SUCCESS, p, IP_NULL,
    Some (mkRight p (without_send (r_bits a)) (r_request a)), give p 1 0 0 1 n) ->
  (forall r w', post r w' -> Q r w') ->
  wp (copyin_take_send s name i p (r_bits a) gf) Q (set_w_locks ({[LObject p]} ∪ w_locks w) w).
Proof.
  intros Htb H Ht Hu Hspec HQ.
  assert (Hb : has (r_bits a) MACH_PORT_TYPE_SEND = true) by by types.
  assert (Hr : has (r_bits a) MACH_PORT_TYPE_RECEIVE = true) by by types.
  pose proof (receive_live I Ha Hx Hh Hr) as Hact.
  pose proof (live_send I Ha Hx Hh Hact Hb) as Hpos. destruct (right_receiver I Ha Hr x Hx) as [Erc Ern].
  pose proof (ref_range I p h Hh) as Hrr. pose proof (naked_inv I p) as (? & ? & ? & ?).
  set (w1 := set_w_io (<[p := add_ref 1 h]> (w_io w)) w).
  assert (I1 : inv_with X (give p 0 0 0 1 n) R w1) by (apply (inv_ref I p h Hh 1 (add_ref 1 h)); done || lia).
  assert (Hh1 : w_io w1 !! p = Some (add_ref 1 h)) by apply lookup_insert_eq.
  pose proof (without_send_finish I1 Hs Ha Hx Hh1 Hact Htb 1 x) as Hfin. simpl in Hfin.
  pose proof (without_send_gen (r_bits a)) as Hbg.
  pose proof (fun w' => took_post gf _ w' Q Hspec HQ) as Hpost.
  assert (Hn' : name = entry_name i (without_send (r_bits a)))
    by (rewrite Hn; symmetry; by apply entry_name_roll).
  unfold copyin_take_send, copyin_last_send, io_reference. rewrite Hu.
  clear Hspec HQ. subst w1. wopen w. types. wp_steps; [lia|by apply Z.eqb_eq; congruence|by apply Z.eqb_eq|].
  rewrite (proj2 (Z.eqb_neq _ _)), (proj2 (Z.leb_gt _ _)) by lia. wp_steps.
  eapply Hpost; [| |simpl; by rewrite unlock_again|done].
  2:{ eapply (Hfin sp'0); try done.
      - unfold port_counts. split_and!; done || lia.
      - unfold naked_ok. simpl. fold p. rewrite !bump_eq. lia.
      - simpl. by rewrite insert_id. }
  fold p. rewrite give_give. done.
Qed.

Lemma wp_take_send_uref l gf (Q : copyin_result -> world -> Prop) :
  typed_but (X := X) (s := s) (sp := sp) l ->
  held (e_table_entries (w_env w)) sp l i (negb (p =? IO_NULL)
      && (IE_BITS_TYPE (r_bits a) =? MACH_PORT_TYPE_SEND)) p (r_bits a) (r_request a) sp ->
  io_active h = true -> has (r_bits a) MACH_PORT_TYPE_SEND = true -> IE_BITS_UREFS (r_bits a) <> 1 ->
  spec false = (KERN_SUCCESS, p, IP_NULL, drop_uref a, give p 1 0 0 1 n) ->
  (forall r w', post r w' -> Q r w') ->
  wp (copyin_take_send s name i p (r_bits a) gf) Q (set_w_locks ({[LObject p]} ∪ w_locks w) w).
Proof.
  intros Htb H Hact Hb Hu Hspec HQ. pose proof (live_send I Ha Hx Hh Hact Hb) as Hpos.
  pose proof (send_urefs I Ha Hb) as Hu0. pose proof (IE_BITS_UREFS_range (r_bits a)) as Hur.
  set (w1 := set_w_io (<[p := add_ref 1 h]> (w_io w)) (set_w_port (<[p := add_send x]> (w_port w)) w)).
  assert (I1 : inv_with X (give p 1 0 0 1 n) R w1)
    by (apply (inv_new_naked I p x h Hx Hh Hroom 1 0 (add_send x)); simpl; done || lia).
  assert (Hh1 : w_io w1 !! p = Some (add_ref 1 h)) by apply lookup_insert_eq.
  assert (Hx1 : w_port w1 !! p = Some (add_send x)) by apply lookup_insert_eq.
  pose proof (drop_uref_finish I1 Hs Ha Hx1 Hh1 Hact Htb) as Hfin. simpl in Hfin.
  pose proof (fun ls => @wp_copy_send_locked X n R (set_w_locks ls w) I p x h Hx Hh Hact Hroom) as Rcs.
  assert (Hpost : forall w', inv_with X (give p 1 0 0 1 n) (put (s, i) (drop_uref a) R) w' ->
    w_locks w' = w_locks w -> w_env w' = w_env w -> Q (copyin_ok p IP_NULL IP_NULL gf) w').
  { intros w' I' Hlk Hen. apply HQ. exists (drop_uref a), (give p 1 0 0 1 n).
    split; [exists false; eexists; by split_and!|]. revert I'. unfold drop_uref.
    rewrite (proj2 (Z.eqb_neq _ _) Hu). intros I'. split; [by destruct (_ <? _)|]. split; [by destruct (_ <? _)|done]. }
  unfold copyin_take_send. rewrite (proj2 (Z.eqb_neq _ _) Hu). clear Hspec HQ I I1. subst w1.
  clear -Hs H Hx Hh Hl Hn Hpos Hfin Rcs Hpost Hb Hu Hu0 Hur. wstart w. wp_step. wp_step.
  apply Rcs; [done|]. wp_step.
  destruct (Z.ltb_spec (IE_BITS_UREFS (r_bits a)) MACH_PORT_UREFS_MAX) as [E2|E2]; wp_steps.
  1: by apply (gen_roll_urefs _ (-1)); lia.
  1: by rewrite Hn; symmetry; apply entry_name_roll, (gen_roll_urefs _ (-1)); lia.
  all: apply Hpost; [by eapply Hfin|simpl; by rewrite unlock_again|done].
Qed.

Lemma wp_copyin_move_send flags gf (Q : copyin_result -> world -> Prop) :
  (forall extra, spec extra = copyin_sends MACH_PORT_TYPE_SEND flags true (ip_immovable_send x)
     (io_active h) extra (take_send a) a n) ->
  (forall r w', post r w' -> Q r w') ->
  wp (copyin_move_send s name i (r_bits a) flags gf) Q w.
Proof.
  intros Hspec HQ. unfold copyin_move_send.
  pose proof port_typed_dead as Hnd. unfold copyin_sends in Hspec. rewrite Hnd in Hspec |- *.
  apply (wp_sends_start gf); [by intros E; rewrite Hspec, E| |done]. intros Hsr d y. cbn [ie_object].
  rewrite Hsr in Hspec. cbn [negb] in Hspec.
  apply (wp_check_dead _ true (flag flags IPC_RIGHT_COPYIN_FLAGS_DEADOK) gf); [apply port_typed_is|done| | |done];
    rewrite usable_none; intros Hact; [by intros extra; rewrite Hspec, Hact|].
  rewrite Hact in Hspec. cbn [negb] in Hspec. pose proof (live_sonce I Ha Hx Hh Hact) as Hpos1.
  pose proof err_post as Herr. destruct (right_hold I Hs Hsa Ha) as (l & H & Htb). fold p in H.
  destruct (port_addr I p h Hh) as (Hp0 & _). apply Z.eqb_neq in Hp0.
  apply wp_bind. eapply wp_port; [done|].
  assert (Hkind : has (r_bits a) MACH_PORT_TYPE_SEND = true /\ (IE_BITS_TYPE (r_bits a) = MACH_PORT_TYPE_SEND \/
      IE_BITS_TYPE (r_bits a) = MACH_PORT_TYPE_SEND_RECEIVE) \/
    has (r_bits a) MACH_PORT_TYPE_SEND = false /\ IE_BITS_TYPE (r_bits a) = MACH_PORT_TYPE_SEND_ONCE).
  { revert Hsr. rewrite !(has_type (r_bits a)) by done. destruct Hpt as [-> |[-> |[-> | ->]]]; auto; done. }
  destruct Hkind as [[Hb Hkind]|[Hb Ht]]; rewrite Hb in Hspec |- *; cbn [negb] in *.
  - destruct (negb (flag flags _) && ip_immovable_send x).
    + clear -Hs Hl Herr HQ Hspec. wopen w. wp_steps. apply HQ, Herr; try done. simpl. by rewrite unlock_again.
    + specialize (Hspec false). unfold take_send in Hspec. fold p in Hspec.
      destruct (Z.eqb_spec (IE_BITS_UREFS (r_bits a)) 1) as [Hu|Hu].
      * destruct Hkind as [Ht|Ht]; rewrite Ht in Hspec, H; rewrite ?Hp0, ?andb_false_r in H.
        -- apply (wp_take_last_send l); try done. rewrite Hspec. unfold drop_uref. by rewrite Hu.
        -- by apply (wp_take_send_receive l).
      * rewrite andb_false_r in Hspec. by apply (wp_take_send_uref l).
  - clear -Hs Hl Herr HQ Hspec Ht Hpos1. wopen w. wp_steps; [by rewrite Ht| |].
    + apply Z.ltb_lt, Hpos1. by types.
    + apply HQ, Herr; try done. simpl. by rewrite unlock_again.
Qed.

(** *** Send-once rights *)

(** The send-once right, and the reference of its entry, go into the message; the
    port may be dead. *)
Lemma wp_take_send_once l gf (Q : copyin_result -> world -> Prop) :
  typed_but (X := X) (s := s) (sp := sp) l ->
  held (e_table_entries (w_env w)) sp l i false p (r_bits a) (r_request a) sp ->
  (io_active h = true \/ r_request a = IE_REQ_NONE) ->
  IE_BITS_TYPE (r_bits a) = MACH_PORT_TYPE_SEND_ONCE ->
  spec false = (KERN_SUCCESS, p, IP_NULL, None, give p 0 1 0 1 n) ->
  (forall r w', post r w' -> Q r w') ->
  wp (copyin_take_send_once s name i p (r_bits a) gf) Q (set_w_locks ({[LObject p]} ∪ w_locks w) w).
Proof.
  intros Htb H Hact Ht Hspec HQ. pose proof (sonce_urefs I Ha Ht) as Hu.
  assert (Hb : has (r_bits a) MACH_PORT_TYPE_SEND_ONCE = true) by by types.
  assert (Hpos : 0 < ip_sorights x).
  { pose proof (right_counted Ha (is_sonce p)) as Hc. destruct (rights_at p a eq_refl) as (_ & _ & Es & _).
    rewrite Es, Hb in Hc. specialize (Hc eq_refl). pose proof (naked_inv I p) as (_ & ? & _).
    destruct (port_inv I p x h Hx Hh) as [_ Hlv Hdd _]. destruct (io_active h);
      [destruct (Hlv eq_refl) as (_ & ? & _)|destruct (Hdd eq_refl) as (_ & ? & _)]; lia. }
  pose proof (po_reqs _ _ _ _ _ _ _ (port_inv I p x h Hx Hh)) as Hrq.
  set (b := Z.land (r_bits a) (Z.lnot (Z.lor IE_BITS_UREFS_MASK MACH_PORT_TYPE_SEND_ONCE))).
  pose proof (moved_finish I Hs Hsa Ha Htb Hx Hh b) as Hfin. revert Hfin. types.
  intros Hfin. pose proof (limbo_intro I Hs Hsa Ha Htb name b) as Hlim.
  assert (Hbt : IE_BITS_TYPE b = MACH_PORT_TYPE_NONE).
  { unfold b. unfold IE_BITS_TYPE in *. by rewrite clear_mask, Ht. }
  assert (Hbu : IE_BITS_UREFS b = 0) by by apply clear_urefs.
  assert (Hbg : gen_roll b = gen_roll (r_bits a)) by by apply clear_gen_roll.
  assert (Hn' : name = entry_name i b) by (rewrite Hn; symmetry; by apply entry_name_roll).
  assert (Hpost : forall req w', inv_with ({[(s, i)]} ∪ X) (give p 0 1 0 1 n) (put (s, i) None R) w' ->
    limbo_at ({[(s, i)]} ∪ X) s i name w' -> w_locks w' = w_locks w -> w_env w' = w_env w ->
    Q (copyin_ok p req IP_NULL gf) w').
  { intros req w' I' L' Hlk Hen. apply HQ. exists None, (give p 0 1 0 1 n). split; [|done].
    exists false. eexists. by split_and!. }
  unfold copyin_take_send_once. rewrite Hu. clear Hspec HQ. fold b. wopen w. wp_steps; [by rewrite Ht|lia|].
  assert (Hend : forall prev x2 sp2, unrequested (e_table_requests wenv) R p (s, i) x x2 ->
    held (e_table_entries wenv) sp l i false p (r_bits a) IE_REQ_NONE sp2 ->
    wp (ip_unlock p;; upd_entry s i (fun e => set_ie_bits b (set_ie_object IO_NULL e));;
        entry_modified s name i;; mret (copyin_ok p prev IP_NULL gf)) Q
      (mkWorld wio (<[p := x2]> wport) (<[s := sp2]> wspace) ({[LObject p]} ∪ wlocks) wtrace wtime
         wassert wenv)).
  { intros prev x2 sp2 [Ex2 Hrq2] H2. wp_steps. apply Hpost; try done.
    - eapply (Hfin x2); try done. by apply Hrq2.
    - by eapply Hlim.
    - simpl. by rewrite unlock_again. }
  destruct Hact as [Hact|Hnone].
  - eapply (wp_request_cancel (R := R) (x := x) (a := a)); [wlook|exact H|wlook|wlook|done|exact Hrq|done..|].
    intros prev x2 sp2 Hun H2. by apply Hend.
  - rewrite Hnone in H. unfold request_cancel. wp_step. wp_step. apply wp_ret.
    specialize (Hend IP_NULL x sp). rewrite !insert_id in Hend by done. apply Hend; [|done].
    split; [by destruct x|]. intros a' Ha'. apply req_ok_put; auto.
Qed.

Lemma wp_copyin_move_send_once flags gf (Q : copyin_result -> world -> Prop) :
  (forall extra, spec extra = copyin_sends MACH_PORT_TYPE_SEND_ONCE flags true (ip_immovable_send x)
     (usable flags h a) extra None a n) ->
  (forall r w', post r w' -> Q r w') ->
  wp (copyin_move_send_once s name i (r_bits a) flags gf) Q w.
Proof.
  intros Hspec HQ. unfold copyin_move_send_once.
  pose proof port_typed_dead as Hnd. unfold copyin_sends in Hspec. rewrite Hnd in Hspec |- *.
  apply (wp_sends_start gf); [by intros E; rewrite Hspec, E| |done]. intros Hsr d y. cbn [ie_object].
  rewrite Hsr in Hspec. cbn [negb] in Hspec.
  apply (wp_check_dead _ true (flag flags IPC_RIGHT_COPYIN_FLAGS_DEADOK) gf); [apply port_typed_is|done| | |done];
    intros Hact; [by intros extra; rewrite Hspec, Hact|].
  rewrite Hact in Hspec. cbn [negb] in Hspec.
  pose proof err_post as Herr. destruct (right_hold I Hs Hsa Ha) as (l & H & Htb). fold p in H.
  apply wp_bind. eapply wp_port; [done|].
  assert (Hkind : has (r_bits a) MACH_PORT_TYPE_SEND_ONCE = false /\ has (r_bits a) MACH_PORT_TYPE_SEND = true \/
    has (r_bits a) MACH_PORT_TYPE_SEND_ONCE = true /\ IE_BITS_TYPE (r_bits a) = MACH_PORT_TYPE_SEND_ONCE).
  { revert Hsr. rewrite !(has_type (r_bits a)) by done. destruct Hpt as [-> |[-> |[-> | ->]]]; auto; done. }
  unfold usable in Hact. destruct Hkind as [[Hb Hsend]|[Hb Ht]]; rewrite Hb in Hspec, Hact |- *; cbn [negb] in *.
  - rewrite andb_false_r, orb_false_r in Hact. pose proof (live_send I Ha Hx Hh Hact Hsend) as Hpos.
    clear -Hs Hl Herr HQ Hspec Hsend Hpos. wopen w. wp_steps; [lia|].
    apply HQ, Herr; try done. simpl. by rewrite unlock_again.
  - destruct (negb (flag flags _) && ip_immovable_send x).
    + clear -Hs Hl Herr HQ Hspec. wopen w. wp_steps. apply HQ, Herr; try done. simpl. by rewrite unlock_again.
    + rewrite Ht, andb_false_r in H. apply (wp_take_send_once l); try done.
      apply orb_true_iff in Hact as [?|[[_ ?%Z.eqb_eq]%andb_true_iff _]%andb_true_iff]; auto.
Qed.

(** *** Receive rights *)

Lemma without_receive_type b :
  IE_BITS_TYPE (without_receive b) = Z.land (IE_BITS_TYPE b) (Z.lnot MACH_PORT_TYPE_RECEIVE).
Proof.
  unfold without_receive, IE_BITS_TYPE. rewrite Z.land_lor_distr_l, clear_mask.
  change (Z.land MACH_PORT_TYPE_EX_RECEIVE IE_BITS_TYPE_MASK) with 0. apply Z.lor_0_r.
Qed.

Lemma without_receive_urefs b : IE_BITS_UREFS (without_receive b) = IE_BITS_UREFS b.
Proof.
  unfold without_receive, IE_BITS_UREFS. rewrite Z.land_lor_distr_l, clear_mask, <- Z.land_assoc.
  change (Z.land MACH_PORT_TYPE_EX_RECEIVE IE_BITS_UREFS_MASK) with 0. by rewrite Z.lor_0_r.
Qed.

Lemma without_receive_gen b : gen_roll (without_receive b) = gen_roll b.
Proof.
  unfold without_receive, gen_roll. rewrite Z.land_lor_distr_l, clear_mask, <- Z.land_assoc.
  change (Z.land MACH_PORT_TYPE_EX_RECEIVE (Z.lor IE_BITS_GEN_MASK IE_BITS_ROLL_MASK)) with 0.
  by rewrite Z.lor_0_r.
Qed.

(** The receive right is naked; the port belongs to no space. *)
Lemma received_recount {n0 w0} a' d x' :
  w_space w0 = w_space w ->
  naked_ok (give p 0 0 1 d n0) p -> is_recv p a = true -> a' <> Some a ->
  ip_srights x' = ip_srights x -> ip_sorights x' = ip_sorights x -> ip_receiver x' = IS_NULL ->
  counts (is_send p) a' = counts (is_send p) (Some a) ->
  counts (is_sonce p) a' = counts (is_sonce p) (Some a) ->
  counts (is_recv p) a' = 0 -> counts (is_ref p) a' + d = 1 ->
  recount (n := n0) (w := w0) (a := a) (x := x) a' 0 0 1 d x'.
Proof.
  intros Ew HN Hr Hne Es Eso Erc Cs Cso Cr Cd. split; fold p; rewrite ?Cs, ?Cso; try lia; try done.
  - rewrite Cr. simpl. by rewrite Hr.
  - right. split; [done|]. split; [done|]. intros _. rewrite Erc, Ew. apply I.
Qed.

(** What is left of the port: the fields that the invariant is about. *)
Definition received (t : option ipr_table) (x' : ipc_port) : Prop :=
  ip_srights x' = ip_srights x /\ ip_sorights x' = ip_sorights x /\ ip_receiver x' = IS_NULL /\
  ip_requests x' = t.

Lemma cleared_received x1 x2 x' :
  cleared x1 x2 -> ip_receiver x2 = IS_NULL -> ip_srights x1 = ip_srights x ->
  ip_sorights x1 = ip_sorights x -> (x' = x2 \/ x' = set_ip_tempowner true x2) ->
  received (ip_requests x1) x'.
Proof. intros [_ Es Eso Er _ _ _ _ _] Hr Hs1 Hso1 [-> | ->]; split_and!; simpl; congruence. Qed.

(** The entry keeps the send right; the port has a reference for each. *)
Lemma take_receive_kept l x' sp' w' :
  io_active h = true -> typed_but (X := X) (s := s) (sp := sp) l ->
  IE_BITS_TYPE (r_bits a) = MACH_PORT_TYPE_SEND_RECEIVE -> received (ip_requests x) x' ->
  held (e_table_entries (w_env w)) sp l i true p (without_receive (r_bits a)) (r_request a) sp' ->
  w_env w' = w_env w -> w_space w' = <[s := sp']> (w_space w) ->
  w_io w' = <[p := add_ref 1 h]> (w_io w) -> w_port w' = <[p := x']> (w_port w) ->
  inv_with X (give p 0 0 1 0 (give p 0 0 0 1 n))
    (put (s, i) (Some (mkRight p (without_receive (r_bits a)) (r_request a))) R) w'.
Proof.
  intros Hact Htb Ht (E1 & E2 & E3 & E4) H Hen Hsp Hio Hpo.
  pose proof (ref_range I p h Hh) as Hrr. pose proof (naked_inv I p) as (? & ? & ? & ?).
  set (w1 := set_w_io (<[p := add_ref 1 h]> (w_io w)) w).
  assert (I1 : inv_with X (give p 0 0 0 1 n) R w1) by (apply (inv_ref I p h Hh 1 (add_ref 1 h)); done || lia).
  assert (Hh1 : w_io w1 !! p = Some (add_ref 1 h)) by apply lookup_insert_eq.
  set (b := without_receive (r_bits a)) in *. set (a' := mkRight p b (r_request a)).
  assert (Hbt : IE_BITS_TYPE b = MACH_PORT_TYPE_SEND) by (unfold b; by rewrite without_receive_type, Ht).
  destruct (rights_at p a eq_refl) as (Rf & Rs & Rso & Rr).
  destruct (rights_at p a' eq_refl) as (Rf' & Rs' & Rso' & Rr'). cbn [a' r_bits] in Rs', Rso', Rr'.
  revert Rs Rso Rr Rs' Rso' Rr'. types. intros Rs Rso Rr Rs' Rso' Rr'.
  pose proof (po_reqs _ _ _ _ _ _ _ (port_inv I p x h Hx Hh)) as Hrq.
  assert (Hp0 : (p =? IO_NULL) = false) by (apply Z.eqb_neq, (port_addr I p h Hh)).
  eapply (live_finish I1 Hs Ha Hx Hh1 Hact X (Some a') 0 0 1 0 x' sp' w'); try done.
  - replace (Some a') with (right_of p b (r_request a)) by (unfold right_of; by rewrite Hbt).
    apply (right_space I Hs Ha _ l true); try done; [by rewrite Hp0, Hbt|by rewrite Hbt|].
    intros _. split; [done|]. unfold names_port. by types.
  - apply (hd_same _ _ _ _ _ _ _ _ _ H).
  - intros a0 [= <-]. by left.
  - apply received_recount; try done; cbn [counts]; try (by rewrite ?Rs, ?Rs', ?Rso, ?Rso', ?Rr', ?Rf').
    2: intros [= E]; by rewrite E, Rr in Rr'.
    unfold naked_ok. simpl. fold p. rewrite !bump_eq. lia.
  - fold p. rewrite E4. apply req_ok_put; [done|]. intros a0 [= <-] _. right. exists a.
    split_and!; try done. simpl. apply entry_name_roll, without_receive_gen.
  - intros a0 [= <-]. split; simpl; rewrite ?Hbt; try done.
    + left. split; [done|]. unfold b. rewrite without_receive_urefs. apply (send_urefs I Ha). by types.
    + intros _. exists x'. split; [apply lookup_insert_eq|]. by types.
Qed.

(** The entry is empty; its reference is that of the receive right. *)
Lemma take_receive_gone l b x' sp' w' :
  io_active h = true -> typed_but (X := X) (s := s) (sp := sp) l ->
  IE_BITS_TYPE (r_bits a) = MACH_PORT_TYPE_RECEIVE ->
  received (ip_requests x') x' ->
  req_ok (e_table_requests (w_env w)) (put (s, i) None R) p (ip_requests x') ->
  held (e_table_entries (w_env w)) sp l i false IO_NULL b IE_REQ_NONE sp' ->
  IE_BITS_TYPE b = MACH_PORT_TYPE_NONE -> IE_BITS_UREFS b = 0 ->
  w_env w' = w_env w -> w_space w' = <[s := sp']> (w_space w) -> w_io w' = w_io w ->
  w_port w' = <[p := x']> (w_port w) ->
  inv_with ({[(s, i)]} ∪ X) (give p 0 0 1 1 n) (put (s, i) None R) w'.
Proof.
  intros Hact Htb Ht (E1 & E2 & E3 & _) Hrq H Hbt Hbu Hen Hsp Hio Hpo.
  destruct (rights_at p a eq_refl) as (Rf & Rs & Rso & Rr). revert Rs Rso Rr. types. intros Rs Rso Rr.
  pose proof (naked_inv I p) as (? & ? & ? & ?).
  pose proof (live_receive I Ha Hx Hh Hact) as Hone. cbn [counts] in Hone. fold p in Hone. rewrite Rr in Hone.
  eapply (live_finish I Hs Ha Hx Hh Hact _ None 0 0 1 1 x' sp' w'); try done.
  - by eapply (limbo_space I Hs Hsa Ha Htb).
  - apply (hd_same _ _ _ _ _ _ _ _ _ H).
  - apply received_recount; try done; cbn [counts]; [|by rewrite Rs|by rewrite Rso].
    unfold naked_ok. simpl. fold p. rewrite !bump_eq. simpl in Hone. lia.
Qed.

(** The rest of the move: the port is taken out of its space. *)
Lemma wp_receive_tail x1 h1 req gf w1 (Q : copyin_result -> world -> Prop) :
  w_port w1 !! p = Some x1 -> w_io w1 !! p = Some h1 ->
  (ip_tempowner x1 = false -> ip_imp_task x1 = IIT_NULL) ->
  LObject p ∈ w_locks w1 -> LMqueue p ∉ w_locks w1 ->
  ip_srights x1 = ip_srights x -> ip_sorights x1 = ip_sorights x ->
  (forall cnt x' tr, received (ip_requests x1) x' ->
     Q (mkCopyin KERN_SUCCESS p req IP_NULL cnt gf)
       (set_w_locks (w_locks w1 ∖ {[LObject p]})
         (set_w_trace tr (set_w_port (<[p := x']> (w_port w1)) w1)))) ->
  wp (ipc_port_clear_receiver p false;;
      x ← port p;
      assertcnt ←
        (if negb (ip_tempowner x) then
           massert (ip_imp_task x =? IIT_NULL);;
           upd_port p (set_ip_tempowner true);;
           mret (ip_impcount x)
         else mret 0);
      ip_unlock p;;
      mret (mkCopyin KERN_SUCCESS p req IP_NULL assertcnt gf)) Q w1.
Proof.
  intros Hx1 Hh1 Him Hlk Hmq E1 E2 HQ. apply wp_bind.
  apply (wp_clear_receiver_backup p x1 h1 w1 Hx1 Hh1 Hmq). intros x2 tr Hcl Hrc _.
  pose proof (fun x' => cleared_received x1 x2 x' Hcl Hrc E1 E2) as Hrec.
  pose proof (cl_imp_task _ _ Hcl) as Him2. pose proof (cl_tempowner _ _ Hcl) as Hto. wopen w1. wp_steps.
  destruct (ip_tempowner x2) eqn:Ht; wp_steps.
  - apply HQ. auto.
  - rewrite Him2, Him; [done|congruence].
  - rewrite insert_insert_eq. apply HQ. auto.
Qed.

Context (Hmq : LMqueue p ∉ w_locks w).

Section take_receive.
Context (Him : ip_tempowner x = false -> ip_imp_task x = IIT_NULL).

Lemma wp_take_receive_kept l gf (Q : copyin_result -> world -> Prop) :
  typed_but (X := X) (s := s) (sp := sp) l ->
  held (e_table_entries (w_env w)) sp l i false p (r_bits a) (r_request a) sp ->
  IE_BITS_TYPE (r_bits a) = MACH_PORT_TYPE_SEND_RECEIVE ->
  spec false = (KERN_SUCCESS, p, IP_NULL,
    Some (mkRight p (without_receive (r_bits a)) (r_request a)), give p 0 0 1 1 n) ->
  (forall r w', post r w' -> Q r w') ->
  wp (copyin_take_receive s name i p (r_bits a) gf) Q (set_w_locks ({[LObject p]} ∪ w_locks w) w).
Proof.
  intros Htb H Ht Hspec HQ.
  assert (Hb : has (r_bits a) MACH_PORT_TYPE_SEND = true) by by types.
  assert (Hr : has (r_bits a) MACH_PORT_TYPE_RECEIVE = true) by by types.
  pose proof (receive_live I Ha Hx Hh Hr) as Hact. pose proof (send_urefs I Ha Hb) as Hu.
  pose proof (live_send I Ha Hx Hh Hact Hb) as Hpos. pose proof (ref_range I p h Hh) as Hrr.
  pose proof (fun x' sp' w' => take_receive_kept l x' sp' w' Hact Htb Ht) as Hfin.
  pose proof (without_receive_gen (r_bits a)) as Hbg.
  assert (Hn' : name = entry_name i (without_receive (r_bits a)))
    by (rewrite Hn; symmetry; by apply entry_name_roll).
  destruct (port_addr I p h Hh) as (Hp0 & _).
  pose proof (naked_inv I p) as (_ & _ & Hn0 & _).
  assert (Hpost : forall cnt w', inv_with X (give p 0 0 1 0 (give p 0 0 0 1 n))
      (put (s, i) (Some (mkRight p (without_receive (r_bits a)) (r_request a))) R) w' ->
    w_locks w' = w_locks w -> w_env w' = w_env w ->
    Q (mkCopyin KERN_SUCCESS p IP_NULL IP_NULL cnt
        ((fun f => Z.lor f MACH_MSG_GUARD_FLAGS_UNGUARDED_ON_SEND) <$> gf)) w').
  { intros cnt w' I' Hlk Hen. apply HQ. eexists (Some _), _. split; [|split; [exact I'|done]].
    exists false. eexists. split; [|split; [exact Hspec|split; [done|]]].
    - fold p. by rewrite give_give.
    - intros _. simpl. rewrite !bump_eq. pose proof (live_receive I Ha Hx Hh Hact) as Hone.
      cbn [counts] in Hone. destruct (rights_at p a eq_refl) as (_ & _ & _ & Rr).
      fold p in Hone. rewrite Rr, Hr in Hone. simpl in Hone. lia. }
  unfold copyin_take_receive, io_reference. fold (without_receive (r_bits a)). clear Hspec HQ.
  wopen w. types. wp_steps; [lia..|].
  rewrite (proj2 (Z.eqb_neq _ _)), (proj2 (Z.leb_gt _ _)) by lia. wp_steps. apply wp_unbind.
  eapply wp_receive_tail; [wlook|wlook|done|wlk|wlk|done|done|].
  intros cnt x' tr Hrec. apply Hpost; [|simpl; by rewrite unlock_again|done].
  by eapply Hfin.
Qed.

Lemma wp_take_receive_gone l gf (Q : copyin_result -> world -> Prop) :
  typed_but (X := X) (s := s) (sp := sp) l ->
  held (e_table_entries (w_env w)) sp l i false p (r_bits a) (r_request a) sp ->
  IE_BITS_TYPE (r_bits a) = MACH_PORT_TYPE_RECEIVE ->
  spec false = (KERN_SUCCESS, p, IP_NULL, None, give p 0 0 1 1 n) ->
  (forall r w', post r w' -> Q r w') ->
  wp (copyin_take_receive s name i p (r_bits a) gf) Q (set_w_locks ({[LObject p]} ∪ w_locks w) w).
Proof.
  intros Htb H Ht Hspec HQ. assert (Hr : has (r_bits a) MACH_PORT_TYPE_RECEIVE = true) by by types.
  pose proof (receive_live I Ha Hx Hh Hr) as Hact.
  assert (Hu : IE_BITS_UREFS (r_bits a) = 0).
  { destruct (ro_bits _ _ _ _ (the_right I Ha)) as [[E _]|[[_ E]|[[E _]|[[E _]|[[E _]|[E _]]]]]]; by rewrite ?Ht in E. }
  pose proof (po_reqs _ _ _ _ _ _ _ (port_inv I p x h Hx Hh)) as Hrq.
  pose proof (fun b x' sp' w' => take_receive_gone l b x' sp' w' Hact Htb Ht) as Hfin.
  pose proof (limbo_intro I Hs Hsa Ha Htb name (without_receive (r_bits a))) as Hlim.
  pose proof (without_receive_type (r_bits a)) as Hbt. rewrite Ht in Hbt.
  pose proof (without_receive_urefs (r_bits a)) as Hbu. rewrite Hu in Hbu.
  pose proof (without_receive_gen (r_bits a)) as Hbg.
  assert (Hn' : name = entry_name i (without_receive (r_bits a)))
    by (rewrite Hn; symmetry; by apply entry_name_roll).
  pose proof (naked_inv I p) as (_ & _ & Hn0 & _).
  assert (Hpost : forall req cnt w', inv_with ({[(s, i)]} ∪ X) (give p 0 0 1 1 n) (put (s, i) None R) w' ->
    limbo_at ({[(s, i)]} ∪ X) s i name w' -> w_locks w' = w_locks w -> w_env w' = w_env w ->
    Q (mkCopyin KERN_SUCCESS p req IP_NULL cnt
        ((fun f => Z.lor f MACH_MSG_GUARD_FLAGS_UNGUARDED_ON_SEND) <$> gf)) w').
  { intros req cnt w' I' L' Hlk Hen. apply HQ. eexists None, _. split; [|split; [exact I'|done]].
    exists false. eexists. split; [done|split; [exact Hspec|split; [done|]]].
    intros _. simpl. rewrite !bump_eq. pose proof (live_receive I Ha Hx Hh Hact) as Hone.
    cbn [counts] in Hone. destruct (rights_at p a eq_refl) as (_ & _ & _ & Rr).
    fold p in Hone. rewrite Rr, Hr in Hone. simpl in Hone. lia. }
  unfold copyin_take_receive. fold (without_receive (r_bits a)). rewrite Hu. clear Hspec HQ.
  wopen w. types. wp_steps.
  eapply (wp_request_cancel (R := R) (x := x) (a := a)); [wlook|exact H|wlook|wlook|done|exact Hrq|done..|].
  intros prev x2 sp2 [Ex2 Hrq2] H2. wp_steps. apply wp_unbind.
  destruct (requests_only x x2 Ex2) as (E1 & E2 & _). assert (Eim : ip_tempowner x2 = false -> ip_imp_task x2 = IIT_NULL).
  { revert Him Ex2. generalize (ip_requests x2). by intros ? ? ->. }
  eapply wp_receive_tail; [wlook|wlook|done|wlk|wlk|done|done|].
  intros cnt x' tr Hrec. cbn [w_port]; rewrite insert_insert_eq. destruct Hrec as (F1 & F2 & F3 & F4).
  apply Hpost; [| |simpl; by rewrite unlock_again|done].
  - eapply (Hfin _ x'); try done. rewrite F4. by apply Hrq2.
  - by eapply Hlim.
Qed.
End take_receive.

Lemma wp_check_guard context gf w1 (Q : Z -> world -> Prop) :
  w_port w1 !! p = Some x ->
  (if guard_ok x context gf then Q KERN_SUCCESS w1
   else forall tr, Q KERN_INVALID_ARGUMENT (set_w_trace tr w1)) ->
  wp (match gf with
      | Some flags => ipc_right_copyin_check_guard_locked name p context flags
      | None => mret KERN_SUCCESS
      end) Q w1.
Proof.
  intros Hx1 HQ. unfold guard_ok in HQ. destruct gf as [flags|].
  - unfold ipc_right_copyin_check_guard_locked. wstart w1. wp_step. wp_step.
    destruct (_ && (context =? 0)), (_ && (ip_context x =? context)); cbn [orb] in HQ; wp_steps;
      first [exact HQ|apply HQ].
  - by apply wp_ret.
Qed.

Context (Hks : s <> e_space_kernel (w_env w)) (Hkt : e_current_task (w_env w) <> e_kernel_task (w_env w)).
Context (Him : io_is_kobject h = false -> ip_tempowner x = false -> ip_imp_task x = IIT_NULL).

Lemma wp_copyin_move_receive context gf (Q : copyin_result -> world -> Prop) :
  (forall extra, spec extra = copyin_receive x h context gf a n) ->
  (forall r w', post r w' -> Q r w') ->
  wp (copyin_move_receive s name i (r_bits a) context gf) Q w.
Proof.
  intros Hspec HQ. unfold copyin_receive in Hspec. unfold copyin_move_receive. pose proof err_post as Herr.
  destruct (right_hold I Hs Hsa Ha) as (l & H & Htb). fold p in H.
  destruct (has (r_bits a) MACH_PORT_TYPE_RECEIVE) eqn:Hr; cbn [negb] in *;
    [|apply wp_ret, HQ, (kept_post _ n false); done].
  pose proof (receive_live I Ha Hx Hh Hr) as Hact. destruct (right_receiver I Ha Hr x Hx) as [Erc Ern].
  destruct (port_addr I p h Hh) as (Hp0 & _). apply Z.eqb_neq in Hp0.
  assert (Hkind : IE_BITS_TYPE (r_bits a) = MACH_PORT_TYPE_SEND_RECEIVE \/
    IE_BITS_TYPE (r_bits a) = MACH_PORT_TYPE_RECEIVE).
  { revert Hr. rewrite (has_type (r_bits a)) by done. destruct Hpt as [-> |[-> |[-> | ->]]]; auto; done. }
  assert (Hns : (IE_BITS_TYPE (r_bits a) =? MACH_PORT_TYPE_SEND) = false) by (by destruct Hkind as [-> | ->]).
  rewrite Hns, andb_false_r in H. apply wp_bind. eapply wp_held_entry; [done|exact H|]. intros d y. cbn [ie_object].
  apply wp_bind. eapply wp_io; [done|]. destruct (io_is_kobject h || io_is_kolabeled h) eqn:Hko; cbn [orb] in Hspec.
  { clear -Hs Hl Herr HQ Hspec. wopen w. wp_steps. apply HQ, Herr; try done. }
  apply orb_false_iff in Hko as [Hko _]. specialize (Him Hko). clear Hko.
  apply wp_bind, wp_massert; [by rewrite Hp0|].
  assert (Hstart : forall k : ipc_port -> M copyin_result,
    wp (k x) Q (set_w_locks ({[LObject p]} ∪ w_locks w) w) ->
    wp (ip_lock p;; require_ip_active p;; x ← port p; massert (ip_receiver_name x =? name);;
        massert (ip_receiver x =? s);; k x) Q w).
  { intros k Hk. unfold require_ip_active. clear -Hk Hx Hh Hl Hact Erc Ern Hn. wopen w. wp_steps.
    rewrite Hact. wp_steps; [by apply Z.eqb_eq; congruence|by apply Z.eqb_eq|done]. }
  apply Hstart. clear Hstart. destruct (ip_immovable_receive x || ip_specialreply x) eqn:Him'.
  { clear -Hs Hl Herr HQ Hspec Hx Hh Erc Hks Hkt Him'.
    wopen w. wp_steps; [by apply negb_true_iff, Z.eqb_neq; congruence|by apply negb_true_iff, Z.eqb_neq|].
    apply HQ, Herr; try done. simpl. by rewrite unlock_again. }
  apply wp_bind, wp_check_guard; [done|].
  destruct (guard_ok x context gf); cbn [negb] in Hspec.
  - change (negb (KERN_SUCCESS =? KERN_SUCCESS)) with false. cbn iota.
    destruct Hkind as [Ht|Ht]; [apply (wp_take_receive_kept Him l)|apply (wp_take_receive_gone Him l)]; try done;
      rewrite Hspec; unfold take_receive; by types.
  - intros tr. change (negb _) with true. clear -Hs Hl Herr HQ Hspec. wopen w. wp_steps. apply HQ, Herr; try done. simpl. by rewrite unlock_again.
Qed.
End copyin.

(** ** The whole routine *)

(** The port of a right, where the right is for a port: it has room for one more
    reference, without which [io_reference] panics.  A receive right that is moved
    must also be one for which the assertion of ipc_right_copyin holds: unless the
    port is a kernel object or has a temporary owner, no importance is attached to
    it.  Kernel object ports are included, whatever their [ip_kobject] is. *)
Definition port_of (msgt : Z) (w : world) (a : right) (x : ipc_port) (h : ipc_object) : Prop :=
  is_port_type (IE_BITS_TYPE (r_bits a)) = true ->
  w_port w !! r_object a = Some x /\ w_io w !! r_object a = Some h /\
  io_references h + 1 < IO_MAX_REFERENCES /\
  (msgt = MACH_MSG_TYPE_MOVE_RECEIVE -> io_is_kobject h = false -> ip_tempowner x = false ->
   ip_imp_task x = IIT_NULL).

(** A user's space, and a user's thread. *)
Definition user_space (w : world) (s : Z) : Prop :=
  s <> e_space_kernel (w_env w) /\ e_current_task (w_env w) <> e_kernel_task (w_env w).

Definition dispositions : list Z :=
  [MACH_MSG_TYPE_MAKE_SEND; MACH_MSG_TYPE_MAKE_SEND_ONCE; MACH_MSG_TYPE_MOVE_RECEIVE;
   MACH_MSG_TYPE_COPY_SEND; MACH_MSG_TYPE_MOVE_SEND; MACH_MSG_TYPE_MOVE_SEND_ONCE].

Section whole.
Context {X : gset (Z * Z)} {n : naked} {R : rights} {w : world} {s i : Z} {a : right} {name : Z}.
Context (Hat : at_right X n R w s i a name).
Context (msgt flags context : Z) (gf : option Z) (x : ipc_port) (h : ipc_object).
Let spec extra := copyin_spec msgt flags context gf x h extra a n.
Let post := held_post X R s i name w (copyin_ends spec).

(** The entry is read and the disposition is dispatched on. *)
Lemma wp_copyin_start (Q : copyin_result -> world -> Prop) :
  (msgt = MACH_MSG_TYPE_MAKE_SEND -> wp (copyin_make_send s name i (r_bits a) gf) Q w) ->
  (msgt = MACH_MSG_TYPE_MAKE_SEND_ONCE -> wp (copyin_make_send_once s name i (r_bits a) gf) Q w) ->
  (msgt = MACH_MSG_TYPE_MOVE_RECEIVE -> wp (copyin_move_receive s name i (r_bits a) context gf) Q w) ->
  (msgt = MACH_MSG_TYPE_COPY_SEND -> wp (copyin_copy_send s name i (r_bits a) flags gf) Q w) ->
  (msgt = MACH_MSG_TYPE_MOVE_SEND -> wp (copyin_move_send s name i (r_bits a) flags gf) Q w) ->
  (msgt = MACH_MSG_TYPE_MOVE_SEND_ONCE -> wp (copyin_move_send_once s name i (r_bits a) flags gf) Q w) ->
  (msgt ∉ dispositions -> Q (copyin_err KERN_INVALID_RIGHT IP_NULL gf) w) ->
  wp (ipc_right_copyin s name i msgt flags context gf) Q w.
Proof.
  intros H1 H2 H3 H4 H5 H6 H7. destruct Hat as [I (sp & Hs & Hsa & Hsm) Ha _ _].
  destruct (right_hold I Hs Hsa Ha) as (l & H & _).
  unfold ipc_right_copyin. apply wp_bind. eapply wp_held_entry; [done|exact H|]. intros d y. cbn [ie_bits].
  apply wp_bind. unfold assert_active. apply wp_bind. eapply wp_space; [done|]. apply wp_massert; [done|].
  repeat match goal with |- context [msgt =? ?t] => destruct (Z.eqb_spec msgt t); [auto|] end.
  apply wp_ret, H7. unfold dispositions. rewrite !not_elem_of_cons. split_and!; try done. apply not_elem_of_nil.
Qed.

Lemma spec_other extra :
  msgt ∉ dispositions -> spec extra = (KERN_INVALID_RIGHT, IO_NULL, IP_NULL, Some a, n).
Proof.
  unfold dispositions. rewrite !not_elem_of_cons. intros (H1 & H2 & H3 & H4 & H5 & H6 & _).
  unfold spec, copyin_spec. by rewrite !(proj2 (Z.eqb_neq _ _)).
Qed.

(** No disposition applies to a port set. *)
Lemma wp_copyin_pset :
  IE_BITS_TYPE (r_bits a) = MACH_PORT_TYPE_PORT_SET ->
  wp (ipc_right_copyin s name i msgt flags context gf) post w.
Proof.
  intros Ht. destruct Hat as [I (sp & Hs & Hsa & Hsm) Ha Hn Hlk].
  destruct (right_hold I Hs Hsa Ha) as (l & H & _).
  assert (Hpost : post (copyin_err KERN_INVALID_RIGHT IP_NULL gf) w).
  { apply (err_post I Ha); try done. unfold spec, copyin_spec, copyin_make, copyin_receive, copyin_sends.
    types. by repeat case_match. }
  apply wp_copyin_start; intros _;
    unfold copyin_make_send, copyin_make_send_once, copyin_move_receive, copyin_copy_send, copyin_move_send,
      copyin_move_send_once; types; done || by apply wp_ret.
Qed.

(** A dead name may be sent as a send or a send-once right. *)
Lemma wp_copyin_dead :
  IE_BITS_TYPE (r_bits a) = MACH_PORT_TYPE_DEAD_NAME ->
  wp (ipc_right_copyin s name i msgt flags context gf) post w.
Proof.
  intros Ht. pose proof spec_other as Hother. destruct Hat as [I (sp & Hs & Hsa & Hsm) Ha Hn Hlk].
  pose proof (fun kr => err_post I Ha name spec kr gf w) as Herr.
  set (deadok := flag flags IPC_RIGHT_COPYIN_FLAGS_DEADOK).
  assert (Hmove : (forall e, spec e = copyin_dead true deadok IP_NULL a n) ->
    wp (copyin_move_dead s name i (r_bits a) deadok IP_NULL gf) post w).
  { intros Hspec. apply (wp_move_dead I Hs Hsa Ha Ht); [done|]. intros w' Hw Elk Een.
    unfold copyin_dead in Hspec. destruct deadok; cbn [negb] in *.
    - destruct Hw as [Hi Hlim]. exists (drop_uref a), n. split; [|done].
      exists false, n. by split_and!.
    - by apply (kept_post Ha name spec _ n false). }
  apply wp_copyin_start; intros Hm.
  7: by apply Herr; try done; apply Hother.
  all: unfold copyin_make_send, copyin_make_send_once, copyin_move_receive, copyin_copy_send, copyin_move_send,
    copyin_move_send_once; types; fold deadok.
  1-3: apply wp_ret, Herr; try done; unfold spec, copyin_spec, copyin_make, copyin_receive; rewrite Hm; types; done.
  2-3: apply Hmove; intros e; unfold spec, copyin_spec, copyin_sends; rewrite Hm; types; done.
  apply (wp_copy_dead I Hs Hsa Ha Ht).
  apply (kept_post Ha name spec _ n false); try by destruct deadok.
  unfold spec, copyin_spec, copyin_sends. rewrite Hm. types. fold deadok. unfold copyin_dead. by destruct deadok.
Qed.

Lemma wp_right_copyin :
  port_of msgt w a x h -> user_space w s -> wp (ipc_right_copyin s name i msgt flags context gf) post w.
Proof.
  intros Hport [Hks Hkt]. pose proof spec_other as Hother. destruct (Hat) as [I (sp & Hs & Hsa & Hsm) Ha Hn Hlk].
  pose proof (fun kr => err_post I Ha name spec kr gf w) as Herr.
  destruct (right_types I Ha) as [Ht|[Ht|(x1 & h1 & _ & _ & _ & Hty)]];
    [by apply wp_copyin_pset|by apply wp_copyin_dead|].
  destruct Hport as (Hx & Hh & Hroom & Him); [by destruct Hty as [-> |[-> |[-> | ->]]]|].
  assert (Hl : LObject (r_object a) ∉ w_locks w) by (rewrite Hlk; set_solver).
  assert (Hmq : LMqueue (r_object a) ∉ w_locks w) by (rewrite Hlk; set_solver).
  assert (Hkind : forall m f, msgt = m ->
    (forall e, copyin_spec m flags context gf x h e a n = f e) -> forall e, spec e = f e)
    by (intros m f Hm Hf e; unfold spec; by rewrite Hm).
  apply wp_copyin_start; intros Hm.
  - by apply (wp_copyin_make_send I Hs Hsa Ha name Hn spec Hx Hh Hl Hroom); [apply (Hkind _ _ Hm)|].
  - by apply (wp_copyin_make_send_once I Hs Hsa Ha name Hn spec Hx Hh Hl Hroom); [apply (Hkind _ _ Hm)|].
  - by apply (wp_copyin_move_receive I Hs Hsa Ha name Hn spec Hx Hh Hl Hroom Hsm Hty Hmq Hks Hkt (Him Hm));
      [apply (Hkind _ _ Hm)|].
  - by apply (wp_copyin_copy_send I Hs Hsa Ha name Hn spec Hx Hh Hl Hroom Hsm Hty); [apply (Hkind _ _ Hm)|].
  - by apply (wp_copyin_move_send I Hs Hsa Ha name Hn spec Hx Hh Hl Hroom Hsm Hty); [apply (Hkind _ _ Hm)|].
  - by apply (wp_copyin_move_send_once I Hs Hsa Ha name Hn spec Hx Hh Hl Hroom Hsm Hty); [apply (Hkind _ _ Hm)|].
  - by apply Herr; try done; apply Hother.
Qed.
End whole.

(** C7.  ipc_right_copyin, for any disposition and any right of a space that is not
    the kernel's and has at most 4096 entries (so that no hash distance saturates),
    called by a user's thread, where the port of the right, if it is for a port, has
    room for one more reference and, when its receive right is moved, meets the
    routine's assertion that a port that is no kernel object and has no temporary
    owner has no importance attached: the routine does not panic, its result, the object it returns, what it leaves in the entry and the naked
    rights it hands out are those of [copyin_spec] (a made, copied or moved right
    is counted by its port; a right for a dead port becomes a dead name first; a
    receive right leaves with the port belonging to no space), it keeps the
    invariant and the locks, and an entry that has lost its last right is the
    empty entry that the caller gives back. *)
Theorem right_copyin_ok X n R w s i a name msgt flags context gf x h :
  at_right X n R w s i a name -> port_of msgt w a x h -> user_space w s ->
  wp (ipc_right_copyin s name i msgt flags context gf)
    (held_post X R s i name w
      (copyin_ends (fun extra => copyin_spec msgt flags context gf x h extra a n))) w.
Proof. intros Hat Hp Hu. by apply wp_right_copyin. Qed.
