(* ===== verification/IpcRightReceive.v ===== *)
(** * Giving up a receive right (ipc/ipc_right.c)

    [ipc_right_delta] on a receive right destroys the port, or sends it to the
    backup that was registered for it; a send right in the same entry becomes a
    dead name, or stays. *)

From S2P Require Import Prelude IpcTypes IpcBits IpcHash IpcTable KernelState Kernel IpcFreelist IpcEntry IpcEntryInv IpcGrow IpcAlloc IpcPort IpcRight IpcHeld IpcRights IpcNaked IpcRequests IpcRightCheck IpcRightLive IpcRightDealloc IpcDestroy IpcRightDelta IpcCopyin.

(** ** The dead name that is left *)

Definition orphan_bits (b : Z) : Z :=
  Z.lor (Z.land b (Z.lnot IE_BITS_TYPE_MASK)) (Z.lor MACH_PORT_TYPE_DEAD_NAME MACH_PORT_TYPE_EX_RECEIVE).

Definition orphan (a : right) : right :=
  let b := orphan_bits (r_bits a) in
  mkRight IO_NULL
    (if negb (r_request a =? IE_REQ_NONE) && (IE_BITS_UREFS b <? MACH_PORT_UREFS_MAX) then b + 1 else b)
    IE_REQ_NONE.

Lemma orphan_bits_type b : IE_BITS_TYPE (orphan_bits b) = MACH_PORT_TYPE_DEAD_NAME.
Proof.
  unfold orphan_bits, IE_BITS_TYPE. rewrite Z.land_lor_distr_l, <- Z.land_assoc.
  change (Z.land (Z.lnot IE_BITS_TYPE_MASK) IE_BITS_TYPE_MASK) with 0. by rewrite Z.land_0_r.
Qed.

Lemma orphan_bits_urefs b : IE_BITS_UREFS (orphan_bits b) = IE_BITS_UREFS b.
Proof.
  unfold orphan_bits, IE_BITS_UREFS. rewrite Z.land_lor_distr_l, clear_mask, <- Z.land_assoc.
  change (Z.land (Z.lnot IE_BITS_TYPE_MASK) IE_BITS_UREFS_MASK) with IE_BITS_UREFS_MASK.
  change (Z.land (Z.lor _ _) IE_BITS_UREFS_MASK) with 0. apply Z.lor_0_r.
Qed.

Lemma orphan_bits_gen b : gen_roll (orphan_bits b) = gen_roll b.
Proof.
  unfold orphan_bits, gen_roll. rewrite Z.land_lor_distr_l, <- Z.land_assoc.
  change (Z.land (Z.lnot IE_BITS_TYPE_MASK) (Z.lor IE_BITS_GEN_MASK IE_BITS_ROLL_MASK))
    with (Z.lor IE_BITS_GEN_MASK IE_BITS_ROLL_MASK).
  change (Z.land (Z.lor MACH_PORT_TYPE_DEAD_NAME MACH_PORT_TYPE_EX_RECEIVE)
    (Z.lor IE_BITS_GEN_MASK IE_BITS_ROLL_MASK)) with 0. by rewrite Z.lor_0_r.
Qed.

Section orphan.
Context (a : right).
Let b := orphan_bits (r_bits a).

Lemma orphan_room : (IE_BITS_UREFS b <? MACH_PORT_UREFS_MAX) = true ->
  0 <= IE_BITS_UREFS b + 1 <= MACH_PORT_UREFS_MAX.
Proof. intros H%Z.ltb_lt. pose proof (IE_BITS_UREFS_range b). lia. Qed.

Lemma orphan_type : IE_BITS_TYPE (r_bits (orphan a)) = MACH_PORT_TYPE_DEAD_NAME.
Proof.
  unfold orphan. simpl. fold b. case_match eqn:E; [|apply orphan_bits_type].
  apply andb_true_iff in E as [_ E]. rewrite type_urefs_add by by apply orphan_room. apply orphan_bits_type.
Qed.

Lemma orphan_gen : gen_roll (r_bits (orphan a)) = gen_roll (r_bits a).
Proof.
  unfold orphan. simpl. fold b. case_match eqn:E; [|apply orphan_bits_gen].
  apply andb_true_iff in E as [_ E]. rewrite gen_roll_urefs by by apply orphan_room. apply orphan_bits_gen.
Qed.

Lemma orphan_ok io ports k : 0 < IE_BITS_UREFS (r_bits a) -> right_ok io ports k (orphan a).
Proof.
  intros Hu. pose proof orphan_type as Ht. split; rewrite ?Ht; try done. do 5 right. split; [done|].
  unfold orphan. simpl. fold b. rewrite <- (orphan_bits_urefs (r_bits a)) in Hu. fold b in Hu.
  case_match eqn:E; [|done]. apply andb_true_iff in E as [_ E]. rewrite urefs_add by by apply orphan_room. lia.
Qed.
End orphan.

(** ** The invariant when the port goes *)

#[export] Instance give_proper p a b c d : Proper ((≡) ==> (≡)) (give p a b c d).
Proof. intros n n' E q. destruct (E q) as (E1 & E2 & E3 & E4). simpl. unfold bump. destruct (q =? p); lia. Qed.

Section receive.
Context {X : gset (Z * Z)} {n : naked} {R : rights} {w : world} (I : inv_with X n R w).
Context {s i : Z} {sp : ipc_space} {a : right}.
Context (Hs : w_space w !! s = Some sp) (Hsa : is_active sp = true) (Ha : R !! (s, i) = Some a).
Context {x : ipc_port} {h : ipc_object}.
Let p := r_object a.
Context (Hx : w_port w !! p = Some x) (Hh : w_io w !! p = Some h) (Hact : io_active h = true).
Context (Hr : has (r_bits a) MACH_PORT_TYPE_RECEIVE = true) (Hplain : plain x h).

Lemma receive_recv : is_recv p a = true /\ n_recv n p = 0.
Proof.
  pose proof (live_receive I Ha Hx Hh Hact) as Hone. cbn [counts] in Hone. fold p in Hone.
  destruct (rights_at p a eq_refl) as (_ & _ & _ & Rr). rewrite Rr, Hr in *. simpl in Hone.
  pose proof (naked_inv I p) as (? & ? & ? & ?). split; [done|lia].
Qed.

(** The entry becomes a dead name; the port is about to die. *)
Lemma orphan_doomed l sp' w' :
  typed_but (X := X) (s := s) (sp := sp) l -> 0 < IE_BITS_UREFS (r_bits a) ->
  held (e_table_entries (w_env w)) sp l i false IO_NULL (r_bits (orphan a)) IE_REQ_NONE sp' ->
  w_env w' = w_env w -> w_space w' = <[s := sp']> (w_space w) -> w_io w' = w_io w -> w_port w' = w_port w ->
  doomed X (give p 0 0 0 1 n) (put (s, i) (Some (orphan a)) R) w' p x h.
Proof.
  intros Htb Hu H Hen Hsp Hio Hpo. destruct (port_addr I p h Hh) as (Hp0 & _).
  destruct receive_recv as [Rr Hnr]. destruct Hplain as [_ Hpre Hts Hwt _ _].
  destruct (port_inv I p x h Hx Hh) as [Hpt Hlive _ Hrq]. destruct (Hlive Hact) as (Cs & Cso & Cr & _).
  pose proof (naked_inv I p) as HN. pose proof HN as (? & ? & ? & ?). pose proof (orphan_type a) as Ht.
  destruct (rights_off p (orphan a)) as (Ef & Es & Eso & Er); [by intros E; apply Hp0|].
  destruct (rights_at p a eq_refl) as (Raf & _). pose proof (count_nonneg (is_recv p) R).
  assert (Hrq' : req_ok (e_table_requests (w_env w)) (put (s, i) (Some (orphan a)) R) p (ip_requests x)).
  { apply req_ok_put; [done|]. intros a0 [= <-] E. by destruct Hp0. }
  split; [by rewrite Hen|simpl; rewrite !bump_eq; lia|].
  intros x' w2 (_ & _ & Erq & Ets & Ewt) Exs Exso G1 G2 G3 G4. simpl in Erq, Ets, Ewt. rewrite Hsp in G1.
  apply (inv_finish _ _ _ w w2 s sp sp' Hs ltac:(congruence) G1 (proj1 (hd_same _ _ _ _ _ _ _ _ _ H))).
  - replace (Some (orphan a)) with (right_of IO_NULL (r_bits (orphan a)) IE_REQ_NONE)
      by (unfold right_of; by rewrite Ht).
    eapply (right_space I Hs Ha X l false); [done|done|done|by rewrite Ht|done|]. unfold names_port. by types.
  - rewrite G3, G4, Hio, Hpo. apply (right_objects I Ha p x h x' (inactive h)); try done.
    + intros a0 [= <-]. by right.
    + apply give_off.
    + apply give_ok; try done; lia.
    + rewrite count_put, Ha. cbn [counts]. rewrite Raf, Ef. simpl. rewrite bump_eq.
      pose proof (ref_count I p h Hh). lia.
    + apply (ref_range I p h Hh).
    + split; [by rewrite inactive_otype|by rewrite inactive_active| |by rewrite Erq].
      intros _. rewrite !count_put, Ha. cbn [counts]. rewrite Es, Eso, Er, Rr.
      cbn [give n_send n_sonce n_recv]. rewrite !bump_eq, inactive_prealloc. simpl Z.b2z.
      split_and!; try congruence; try (destruct (is_send p a), (is_sonce p a); simpl; lia).
    + intros a0 [= <-]. by apply orphan_ok.
    + right. split; [done|]. intros [= E]. rewrite <- E in Er. congruence.
Qed.

(** The entry is given back; the receive right is naked. *)
Lemma freed_limbo l x' sp' w' :
  typed_but (X := X) (s := s) (sp := sp) l -> IE_BITS_TYPE (r_bits a) = MACH_PORT_TYPE_RECEIVE ->
  received (x := x) (ip_requests x') x' ->
  req_ok (e_table_requests (w_env w)) (put (s, i) None R) p (ip_requests x') ->
  freed (e_table_entries (w_env w)) sp l i sp' -> space_wf sp l ->
  w_env w' = w_env w -> w_space w' = <[s := sp']> (w_space w) -> w_io w' = w_io w ->
  w_port w' = <[p := x']> (w_port w) ->
  inv_with X (give p 0 0 1 1 n) (put (s, i) None R) w'.
Proof.
  intros Htb Ht (E1 & E2 & E3 & _) Hrq Hf W Hen Hsp Hio Hpo. destruct receive_recv as [Rr Hnr].
  destruct (rights_at p a eq_refl) as (_ & Rs & Rso & _). revert Rs Rso. types. intros Rs Rso.
  pose proof (naked_inv I p) as (? & ? & ? & ?).
  eapply (live_finish I Hs Ha Hx Hh Hact X None 0 0 1 1 x' sp' w'); try done.
  - by apply (right_freed I Hs Hsa X l).
  - apply (fr_same _ _ _ _ _ Hf).
  - apply (received_recount I); fold p; try done; cbn [counts]; [|by rewrite Rs|by rewrite Rso].
    unfold naked_ok. simpl. rewrite !bump_eq. lia.
Qed.

(** ** The routine *)

Context (name : Z) (Hn : name = entry_name i (r_bits a)) (Hlk : w_locks w = {[LSpace s]}) (Has : w_assertions w = 0).

(** The naked rights at the end: those for the backup, if there is one. *)
Definition after_destroy (n : naked) : naked :=
  if ip_pdrequest x =? IP_NULL then n else give p 0 0 1 1 n.

Definition destroyed_post (a' : option right) (w' : world) : Prop :=
  exists n', n' ≡ after_destroy n /\ inv_with X n' (put (s, i) a' R) w' /\ w_locks w' = ∅ /\ w_env w' = w_env w.

(** The end of the routine: [x1] and [h1] are what the port is then. *)
Lemma wp_receive_end a' n' x1 h1 request (Q : Z -> world -> Prop) w1 :
  w_port w1 !! p = Some x1 -> w_io w1 !! p = Some h1 -> io_active h1 = true -> plain x1 h1 ->
  w_assertions w1 = 0 -> w_locks w1 = {[LObject p]} -> w_env w1 = w_env w ->
  going (X := X) (R := put (s, i) a' R) (w := w1) p x1 h1 n' -> n' ≡ after_destroy n ->
  (forall w', destroyed_post a' w' -> Q KERN_SUCCESS w') ->
  wp (ipc_port_destroy p;; notify_port_deleted request name;; mret KERN_SUCCESS) Q w1.
Proof.
  intros Hx1 Hh1 Ha1 Hpl Has1 Hl1 Hen1 Hgo En HQ.
  apply wp_bind. apply (wp_port_destroy (X := X) (R := put (s, i) a' R) (w := w1) p x1 h1 Hx1 Hh1 Ha1 Hpl Has1)
    with (n := n'); [rewrite Hl1; set_solver..|done|].
  intros w' [D1 D2 D3 D4 D5]. rewrite Hl1 in D3. apply wp_bind. unfold notify_port_deleted.
  unfold ipc_notify_port_deleted. apply wp_when_call. intros tr. apply wp_ret, HQ.
  exists n'. split; [done|]. split; [exact D1|]. split; [simpl; rewrite D3; set_solver|simpl; congruence].
Qed.

Lemma limbo_going m R' x1 h1 w1 :
  inv_with X m R' (limbo p x1 w1) -> w_io w1 !! p = Some h1 -> io_active h1 = true -> plain x1 h1 ->
  m ≡ give p 0 0 1 1 n -> ip_pdrequest x1 = ip_pdrequest x ->
  exists n', going (X := X) (R := R') (w := w1) p x1 h1 n' /\ n' ≡ after_destroy n.
Proof.
  intros I1 Hh1 Ha1 Hpl1 Em Epd. destruct receive_recv as [_ Hnr]. unfold going, after_destroy. rewrite Epd.
  destruct (ip_pdrequest x =? IP_NULL).
  - eexists. split.
    + eexists. split; [reflexivity|]. apply (limbo_doomed p x1 h1 I1 Hh1 Ha1); [|done].
      destruct (Em p) as (_ & _ & -> & _). simpl. rewrite bump_eq. lia.
    + rewrite Em, !give_give. apply give_zero.
  - by exists m.
Qed.

Lemma wp_delta_gone (Q : Z -> world -> Prop) :
  IE_BITS_TYPE (r_bits a) = MACH_PORT_TYPE_RECEIVE ->
  (forall w', destroyed_post None w' -> Q KERN_SUCCESS w') ->
  wp (request ← receive_gone s name i p (r_bits a);
      is_write_unlock s;; ipc_port_destroy p;; notify_port_deleted request name;; mret KERN_SUCCESS)
    Q (set_w_locks ({[LObject p]} ∪ w_locks w) w).
Proof.
  intros Ht HQ. destruct (right_hold I Hs Hsa Ha) as (l & H & Htb). fold p in H.
  assert (Hu : IE_BITS_UREFS (r_bits a) = 0).
  { destruct (ro_bits _ _ _ _ (the_right I Ha)) as [[E _]|[[_ E]|[[E _]|[[E _]|[[E _]|[E _]]]]]]; by rewrite ?Ht in E. }
  rewrite Ht, andb_false_r in H.
  pose proof (po_reqs _ _ _ _ _ _ _ (port_inv I p x h Hx Hh)) as Hrq.
  pose proof (fun x' sp' w' => freed_limbo l x' sp' w' Htb Ht) as Hfin.
  pose proof (limbo_going) as Hgoing. pose proof (fun n' x1 h1 req w1 => wp_receive_end None n' x1 h1 req Q w1) as Hend.
  unfold receive_gone. clear -Hs Ha Hx Hh Hact Hplain Hn Hlk Has HQ Ht H Htb Hu Hrq Hfin Hgoing Hend.
  rewrite Hu, Ht. wopen w. wp_steps.
  eapply (wp_request_cancel (R := R) (x := x) (a := a)); [wlook|exact H|wlook|wlook|done|exact Hrq|done..|].
  intros prev x2 sp2 [Ex2 Hrq2] H2. wp_steps. apply wp_unbind.
  match goal with |- wp _ _ ?w1 => destruct (Hgoing (give p 0 0 1 1 n) (put (s, i) None R) x2 h w1) as (n' & Hgo & En) end.
  - apply (Hfin (in_limbo x2) sp'0); try done; simpl.
    + rewrite Ex2. by split_and!.
    + by apply Hrq2.
    + apply H.
    + apply insert_insert_eq.
  - done.
  - done.
  - rewrite Ex2. destruct Hplain. by split.
  - done.
  - by rewrite Ex2.
  - eapply (Hend n' x2 h); try done; simpl.
    + apply lookup_insert_eq.
    + rewrite Ex2. destruct Hplain. by split.
    + rewrite Hlk. set_solver.
Qed.

Context (Hroom : io_references h + 1 < IO_MAX_REFERENCES).

(** What is left of the right. *)
Definition left_of_send : right :=
  if ip_pdrequest x =? IP_NULL then orphan a else mkRight p (without_receive (r_bits a)) (r_request a).

Lemma wp_delta_send_left (Q : Z -> world -> Prop) :
  IE_BITS_TYPE (r_bits a) = MACH_PORT_TYPE_SEND_RECEIVE ->
  (forall w', destroyed_post (Some left_of_send) w' -> Q KERN_SUCCESS w') ->
  wp (receive_gone_send_left s name i p (r_bits a);;
      is_write_unlock s;; ipc_port_destroy p;; notify_port_deleted IP_NULL name;; mret KERN_SUCCESS)
    Q (set_w_locks ({[LObject p]} ∪ w_locks w) w).
Proof.
  intros Ht HQ. destruct (right_hold I Hs Hsa Ha) as (l & H & Htb). fold p in H.
  rewrite Ht, andb_false_r in H.
  assert (Hb : has (r_bits a) MACH_PORT_TYPE_SEND = true) by by types.
  pose proof (send_urefs I Ha Hb) as Hu. pose proof (ref_range I p h Hh) as Hrr.
  destruct (port_addr I p h Hh) as (Hp0 & _).
  pose proof (fun x' sp' w' => take_receive_kept I Hs Ha Hx Hh Hroom l x' sp' w' Hact Htb Ht) as Hfin. fold p in Hfin.
  pose proof (fun sp' w' => orphan_doomed l sp' w' Htb Hu) as Hdoom.
  pose proof limbo_going as Hgoing.
  pose proof (fun a' n' x1 h1 w1 => wp_receive_end a' n' x1 h1 IP_NULL Q w1) as Hend.
  pose proof (without_receive_gen (r_bits a)) as Hbg. pose proof (orphan_bits_gen (r_bits a)) as Hog.
  assert (Hn' : name = entry_name i (without_receive (r_bits a)))
    by (rewrite Hn; symmetry; by apply entry_name_roll).
  pose proof (orphan_gen a) as Hog2. assert (Hn2 : name = entry_name i (r_bits (orphan a)))
    by (rewrite Hn; symmetry; by apply entry_name_roll).
  assert (Horphan : forall r, r_request a = r -> r_bits (orphan a) = if negb (r =? IE_REQ_NONE)
    then if IE_BITS_UREFS (orphan_bits (r_bits a)) <? MACH_PORT_UREFS_MAX
         then orphan_bits (r_bits a) + 1 else orphan_bits (r_bits a)
    else orphan_bits (r_bits a)) by (intros r <-; unfold orphan; simpl; by destruct (negb _)).
  specialize (Horphan _ eq_refl).
  unfold receive_gone_send_left. unfold left_of_send in HQ. fold (orphan_bits (r_bits a)).
  clear -Hs Ha Hx Hh Hact Hplain Hn Hlk Has HQ Ht H Htb Hu Hfin Hdoom Hgoing Hend Hroom Hrr Hp0 Hbg Hog Hn' Hog2 Hn2 Horphan.
  apply wp_bind, wp_bind. eapply wp_port; [done|].
  destruct (ip_pdrequest x =? IP_NULL) eqn:Epd; cbn [negb].
  - assert (Hdie : forall sp' ls, held (e_table_entries (w_env w)) sp l i false IO_NULL (r_bits (orphan a)) IE_REQ_NONE sp' ->
      ls = {[LObject p]} ->
      wp (ipc_port_destroy p;; notify_port_deleted IP_NULL name;; mret KERN_SUCCESS) Q
        (set_w_locks ls (set_w_space (<[s := sp']> (w_space w)) w))).
    { intros sp' ls Hd ->. eapply (Hend (Some (orphan a)) (give p 0 0 0 (-1) (give p 0 0 0 1 n)) x h); try done.
      - unfold going. rewrite Epd. eexists. split; [reflexivity|]. by eapply Hdoom.
      - unfold after_destroy. rewrite Epd, give_give. apply give_zero. }
    assert (Els : ({[LObject p]} ∪ w_locks w) ∖ {[LSpace s]} = {[LObject p]}) by (rewrite Hlk; set_solver).
    wopen w. wp_steps. change 0 with IE_REQ_NONE. destruct (Z.eqb_spec (r_request a) IE_REQ_NONE) as [E0|E0];
      cbn [negb] in *; rewrite <- Horphan in *; wp_steps; try done; apply wp_unbind, Hdie; try done.
    by rewrite <- E0.
  - assert (Els : ({[LObject p]} ∪ w_locks w) ∖ {[LSpace s]} = {[LObject p]}) by (rewrite Hlk; set_solver).
    assert (Hpl : plain x (add_ref 1 h)) by (destruct Hplain; by split).
    unfold io_reference, without_receive in *. wopen w. wp_steps.
    rewrite (proj2 (Z.eqb_neq _ _)), (proj2 (Z.leb_gt _ _)) by lia. wp_steps. apply wp_unbind.
    match goal with |- wp _ _ ?w1 => destruct (Hgoing (give p 0 0 1 0 (give p 0 0 0 1 n))
      (put (s, i) (Some (mkRight p (without_receive (r_bits a)) (r_request a))) R) x (add_ref 1 h) w1)
      as (n' & Hgo & En) end; try done; [by eapply (Hfin (in_limbo x))|apply lookup_insert_eq|apply give_give|].
    eapply (Hend _ n' x (add_ref 1 h)); try done. apply lookup_insert_eq.
Qed.

(** ** The whole branch *)

Definition delta_receive_spec (delta : Z) : Z * option right * naked :=
  let same kr := (kr, Some a, n) in
  if delta =? 0 then same KERN_SUCCESS
  else if negb (delta =? -1) then same KERN_INVALID_VALUE
  else if ip_guarded x then same KERN_INVALID_RIGHT
  else (KERN_SUCCESS, if has (r_bits a) MACH_PORT_TYPE_SEND then Some left_of_send else None, after_destroy n).

Lemma wp_delta_receive delta (Q : Z -> world -> Prop) :
  (forall kr a' n' w', delta_receive_spec delta = (kr, a', n') -> (exists n1, n1 ≡ n' /\ inv_with X n1 (put (s, i) a' R) w') ->
    w_locks w' = ∅ -> w_env w' = w_env w -> Q kr w') ->
  wp (delta_receive s name i (r_bits a) delta) Q w.
Proof.
  intros HQ. unfold delta_receive_spec in HQ. unfold delta_receive. rewrite Hr. cbn [negb].
  assert (Hsame : forall w', inv_with X n R w' -> exists n1, n1 ≡ n /\ inv_with X n1 (put (s, i) (Some a) R) w').
  { intros w' I'. exists n. by rewrite put_id. }
  assert (Hls : w_locks w ∖ {[LSpace s]} = ∅) by (rewrite Hlk; set_solver).
  assert (Hkind : IE_BITS_TYPE (r_bits a) = MACH_PORT_TYPE_SEND_RECEIVE \/
    IE_BITS_TYPE (r_bits a) = MACH_PORT_TYPE_RECEIVE).
  { destruct (right_types I Ha) as [Ht|[Ht|(_ & _ & _ & _ & _ & Hty)]];
      revert Hr; rewrite (has_type (r_bits a)) by done; [by rewrite Ht..|].
    destruct Hty as [-> |[-> |[-> | ->]]]; auto; done. }
  destruct (delta =? 0).
  { unfold delta_success, is_write_unlock. apply wp_bind, wp_unlock; [rewrite Hlk; set_solver|]. apply wp_ret.
    by eapply HQ; [done|by apply Hsame|..]. }
  destruct (negb (delta =? -1)).
  { unfold delta_invalid_value, is_write_unlock. apply wp_bind, wp_unlock; [rewrite Hlk; set_solver|].
    apply wp_bind, wp_call_, wp_ret. by eapply HQ; [done|by apply Hsame|..]. }
  destruct (right_hold I Hs Hsa Ha) as (l & H & _). fold p in H. destruct (port_addr I p h Hh) as (Hp0 & _).
  destruct (right_receiver I Ha Hr x Hx) as [Erc Ern].
  apply wp_bind. eapply wp_held_entry; [done|exact H|]. intros d y. cbn [ie_object].
  apply wp_bind, wp_massert; [by rewrite (proj2 (Z.eqb_neq _ _) Hp0)|].
  apply wp_bind. apply (wp_ip_lock p x h); [done|done|rewrite Hlk; set_solver|].
  apply wp_bind. apply (wp_require_active (w := set_w_locks _ w) p h Hh Hact).
  apply wp_bind. apply (wp_port p x); [done|].
  apply wp_bind, wp_massert; [by apply Z.eqb_eq; congruence|].
  apply wp_bind, wp_massert; [by apply Z.eqb_eq|].
  destruct (ip_guarded x).
  { apply wp_bind. unfold io_unlock. apply wp_unlock; [simpl; set_solver|].
    apply wp_bind. unfold is_write_unlock. apply wp_unlock; [simpl; rewrite Hlk; set_solver|].
    apply wp_bind, wp_call_, wp_ret. eapply HQ; [done|by apply Hsame|simpl; rewrite Hlk; set_solver|done]. }
  assert (Hend : forall a' w', a' = (if has (r_bits a) MACH_PORT_TYPE_SEND then Some left_of_send else None) ->
    destroyed_post a' w' -> Q KERN_SUCCESS w').
  { intros a' w' -> (n1 & En & I' & Hl' & He'). eapply HQ; [done|by exists n1|done|done]. }
  destruct Hkind as [Ht|Ht].
  - assert (Hb : has (r_bits a) MACH_PORT_TYPE_SEND = true) by by types. rewrite Hb in *.
    pose proof (send_urefs I Ha Hb) as Hu. pose proof (live_send I Ha Hx Hh Hact Hb) as Hpos.
    apply wp_bind. apply wp_bind, wp_massert; [by rewrite Ht|]. apply wp_bind, wp_massert; [by apply Z.ltb_lt|].
    apply wp_bind, wp_massert; [by apply Z.ltb_lt|].
    pose proof (wp_delta_send_left Q Ht (fun w' => Hend _ w' eq_refl)) as Hgo. apply wp_unbind in Hgo.
    apply wp_bind. eapply wp_mono; [exact Hgo|]. intros [] w1 Hw1. by apply wp_ret.
  - assert (Hb : has (r_bits a) MACH_PORT_TYPE_SEND = false) by by types. rewrite Hb in *.
    by apply wp_delta_gone; [|intros w'; apply Hend].
Qed.
End receive.

(** ** The contract *)

(** The port of a receive right: nothing is attached to it, and it has room for
    one more reference. *)
Definition receive_ready (w : world) (a : right) (x : ipc_port) (h : ipc_object) : Prop :=
  has (r_bits a) MACH_PORT_TYPE_RECEIVE = true ->
  w_port w !! r_object a = Some x /\ w_io w !! r_object a = Some h /\ plain x h /\
  io_references h + 1 < IO_MAX_REFERENCES.

Definition delta_receive_ends (x : ipc_port) (delta : Z) (n : naked) (a : right) (kr : Z) (a' : option right)
    (n' : naked) : Prop :=
  exists n1, n' ≡ n1 /\
    (if has (r_bits a) MACH_PORT_TYPE_RECEIVE then delta_receive_spec (n := n) (a := a) (x := x) delta
     else (KERN_INVALID_RIGHT, Some a, n)) = (kr, a', n1).

Lemma wp_right_delta_receive X n R w s i a name x h delta :
  at_right X n R w s i a name -> receive_ready w a x h -> w_assertions w = 0 ->
  wp (ipc_right_delta s name i MACH_PORT_RIGHT_RECEIVE delta)
    (right_post X R s i w (delta_receive_ends x delta n a)) w.
Proof.
  intros [I (sp & Hs & Hsa & Hsm) Ha Hn Hlk] Hready Has.
  destruct (right_hold I Hs Hsa Ha) as (l & H & _). unfold delta_receive_ends.
  unfold ipc_right_delta. do 4 wp_step. apply wp_bind, wp_massert; [done|]. consts.
  assert (Hls : w_locks w ∖ {[LSpace s]} = ∅) by (rewrite Hlk; set_solver).
  destruct (has (r_bits a) MACH_PORT_TYPE_RECEIVE) eqn:Hr.
  - destruct (Hready Hr) as (Hx & Hh & Hpl & Hroom). pose proof (receive_live I Ha Hx Hh Hr) as Hact.
    apply (wp_delta_receive I Hs Hsa Ha Hx Hh Hact Hr Hpl name Hn Hlk Has Hroom).
    intros kr a' n' w' Hspec (n1 & En & I') Hl' He'. exists a', n1. rewrite Hls. split; [by exists n'|done].
  - unfold delta_receive. rewrite Hr. cbn [negb].
    apply wp_bind, wp_when_call. intros tr.
    unfold delta_invalid_right, is_write_unlock. apply wp_bind, wp_unlock; [simpl; rewrite Hlk; set_solver|].
    apply wp_bind. cbn. apply wp_ret, wp_ret. exists (Some a), n. rewrite put_id by done. split; [by exists n|done].
Qed.

(** A port of which nobody has the receive right is not live. *)
Lemma no_receiver_dead {X n R w} (I : inv_with X n R w) p h :
  w_io w !! p = Some h -> io_otype h = IOT_PORT -> count (is_recv p) R + n_recv n p = 0 -> io_active h = false.
Proof.
  intros Hh Ht Hc. destruct (I) as [_ O]. destruct (oi_kind _ _ _ _ _ _ O p h Hh Ht) as [x Hx].
  destruct (io_active h) eqn:E; [|done].
  destruct (po_live _ _ _ _ _ _ _ (port_inv I p x h Hx Hh) E) as (_ & _ & ? & _). lia.
Qed.

Lemma left_recv {n R} {a : right} {s i p} x b :
  R !! (s, i) = Some a -> r_object a = p -> p <> IO_NULL -> has (r_bits a) MACH_PORT_TYPE_RECEIVE = true ->
  count (is_recv p) R + n_recv n p = 1 ->
  count (is_recv p) (put (s, i) (if b : bool then Some (if ip_pdrequest x =? IP_NULL then orphan a
    else mkRight p (without_receive (r_bits a)) (r_request a)) else None) R) + n_recv n p = 0.
Proof.
  intros Ha Ho Hp Hr Hone. rewrite count_put, Ha. cbn [counts].
  destruct (rights_at p a Ho) as (_ & _ & _ & ->). rewrite Hr.
  destruct b; [|simpl; lia]. destruct (ip_pdrequest x =? IP_NULL); cbn [counts].
  - destruct (rights_off p (orphan a)) as (_ & _ & _ & ->); [by intros E; apply Hp|]. simpl. lia.
  - match goal with |- context [is_recv p ?a0] => destruct (rights_at p a0 eq_refl) as (_ & _ & _ & ->) end.
    simpl r_bits. rewrite has_type by done. unfold has. rewrite without_receive_type, <- Z.land_assoc.
    change (Z.land (Z.lnot MACH_PORT_TYPE_RECEIVE) MACH_PORT_TYPE_RECEIVE) with 0. rewrite Z.land_0_r. simpl. lia.
Qed.

Lemma delta_dies {X n R w s i a x h n' a' w'} :
  inv_with X n R w -> R !! (s, i) = Some a -> receive_ready w a x h ->
  delta_receive_ends x (-1) n a KERN_SUCCESS a' n' -> ip_pdrequest x = IP_NULL ->
  inv_with X n' (put (s, i) a' R) w' ->
  forall h', w_io w' !! r_object a = Some h' -> io_otype h' = IOT_PORT -> io_active h' = false.
Proof.
  intros I Ha Hready (n1 & En & Hspec) Hpd I' h' Hh' Ht'. destruct (has (r_bits a) _) eqn:Hr; [|done].
  destruct (Hready Hr) as (Hx & Hh & _ & _). pose proof (receive_live I Ha Hx Hh Hr) as Hact.
  destruct (port_addr I _ h Hh) as (Hp0 & _).
  destruct (po_live _ _ _ _ _ _ _ (port_inv I _ x h Hx Hh) Hact) as (_ & _ & Hone & _).
  unfold delta_receive_spec in Hspec. cbn [negb Z.eqb Pos.eqb] in Hspec. destruct (ip_guarded x); [done|].
  unfold after_destroy, left_of_send in Hspec. 
  pose proof (left_recv x (has (r_bits a) MACH_PORT_TYPE_SEND) Ha eq_refl Hp0 Hr Hone) as Hz.
  rewrite Hpd in Hspec, Hz. cbn [Z.eqb] in Hspec, Hz. injection Hspec as <- <-.
  apply (no_receiver_dead I' _ h' Hh' Ht'). destruct (En (r_object a)) as (_ & _ & -> & _). exact Hz.
Qed.

(** C9.  Giving up a receive right (ipc_right_delta with MACH_PORT_RIGHT_RECEIVE) in an
    active space of at most 4096 entries, where the port has room for one more
    reference and no special reply port, preallocated message, turnstile, importance
    or kernel object is attached to it ([receive_ready]), and no importance assertion
    is pending: a right of another
    kind is refused, a delta
    other than 0 and -1 and a guarded port are refused and change nothing; with -1
    the entry is freed, or keeps the send right that it also held, as a dead name
    with one more user reference for a notification that had been requested if
    the port dies.  The port goes to its backup with its receive right, or is dead
    from then on.  All counts agree with the rights again. *)
Theorem receive_right_given_up X n R w s i a name x h delta :
  at_right X n R w s i a name -> receive_ready w a x h -> w_assertions w = 0 ->
  wp (ipc_right_delta s name i MACH_PORT_RIGHT_RECEIVE delta)
    (fun kr w' => right_post X R s i w (delta_receive_ends x delta n a) kr w' /\
       (kr = KERN_SUCCESS -> delta = -1 -> ip_pdrequest x = IP_NULL ->
        forall h', w_io w' !! r_object a = Some h' -> io_otype h' = IOT_PORT -> io_active h' = false)) w.
Proof.
  intros Hat Hready Has. eapply wp_mono; [by apply (wp_right_delta_receive X n R w s i a name x h delta)|].
  intros kr w' Hpost. split; [done|]. intros -> -> Hpd. destruct Hat as [I _ Ha _ _].
  destruct Hpost as (a' & n' & Hends & I' & _). by apply (delta_dies I Ha Hready Hends Hpd I').
Qed.
