(* ===== verification/IpcObject.v ===== *)
(** * Objects by name (ipc/ipc_object.c, ipc_port_alloc* of ipc/ipc_port.c)

    Translation of names, allocation of ports, sets and dead names, and the
    copyin and copyout of capabilities between a space and the kernel. *)

From S2P Require Import Prelude IpcTypes IpcHash IpcTable KernelState Kernel IpcFreelist IpcEntry IpcPort IpcRight.

(** ** Translation *)

(** [mach_port_right_t] is unsigned. *)
Definition MACH_PORT_RIGHT_VALID_TRANSLATE (right : Z) : bool :=
  (MACH_PORT_RIGHT_SEND <=? right) && (right <=? MACH_PORT_RIGHT_DEAD_NAME).

(** The object is then locked and active. *)
Definition ipc_object_translate (s name right : Z) : M (Z + Z) :=
  if negb (MACH_PORT_RIGHT_VALID_TRANSLATE right) then mret (inl KERN_INVALID_RIGHT)
  else
    r ← ipc_right_lookup_write s name;
    match r with
    | inl kr => mret (inl kr)
    | inr i =>
        e ← entry s i;
        if Z.land (ie_bits e) (MACH_PORT_TYPE right) =? MACH_PORT_TYPE_NONE then
          is_write_unlock s;; mret (inl KERN_INVALID_RIGHT)
        else
          let object := ie_object e in
          massert (negb (object =? IO_NULL));;
          io_lock object;;
          is_write_unlock s;;
          h ← io object;
          if negb (io_active h) then io_unlock object;; mret (inl KERN_INVALID_NAME)
          else mret (inr object)
    end.

(** The entry of [name] does not hold [right]. *)
Definition translate_two_invalid (s name right : Z) (e : ipc_entry) : M Z :=
  let doguard :=
    negb ((Z.land right MACH_PORT_RIGHT_RECEIVE =? MACH_PORT_RIGHT_RECEIVE)
          && (Z.land (ie_bits e) MACH_PORT_TYPE_EX_RECEIVE =? MACH_PORT_TYPE_EX_RECEIVE)) in
  is_write_unlock s;;
  when doguard (mach_port_guard_exception name 0 0 kGUARD_EXC_INVALID_RIGHT);;
  mret KERN_INVALID_RIGHT.

Definition ipc_object_translate_two (s name1 right1 name2 right2 : Z) : M (Z + (Z * Z)) :=
  r ← ipc_right_lookup_two_write s name1 name2;
  match r with
  | inl kr => mret (inl kr)
  | inr (i1, i2) =>
      e1 ← entry s i1;
      e2 ← entry s i2;
      if Z.land (ie_bits e1) (MACH_PORT_TYPE right1) =? MACH_PORT_TYPE_NONE then
        kr ← translate_two_invalid s name1 right1 e1; mret (inl kr)
      else if Z.land (ie_bits e2) (MACH_PORT_TYPE right2) =? MACH_PORT_TYPE_NONE then
        kr ← translate_two_invalid s name2 right2 e2; mret (inl kr)
      else
        let object1 := ie_object e1 in
        massert (negb (object1 =? IO_NULL));;
        io_lock object1;;
        h1 ← io object1;
        if negb (io_active h1) then
          io_unlock object1;; is_write_unlock s;; mret (inl KERN_INVALID_NAME)
        else
          let object2 := ie_object e2 in
          massert (negb (object2 =? IO_NULL));;
          io_lock object2;;
          h2 ← io object2;
          if negb (io_active h2) then
            io_unlock object1;; io_unlock object2;; is_write_unlock s;;
            mret (inl KERN_INVALID_NAME)
          else
            is_write_unlock s;;
            mret (inr (object1, object2))
  end.

(** ** Allocation *)

(** [entry->ie_bits |= MACH_PORT_TYPE_DEAD_NAME | 1] *)
Definition make_dead_name (s name i : Z) : M unit :=
  e ← entry s i;
  massert (ie_object e =? IO_NULL);;
  upd_entry s i (set_ie_bits (Z.lor (ie_bits e) (Z.lor MACH_PORT_TYPE_DEAD_NAME 1)));;
  entry_modified s name i;;
  is_write_unlock s.

Definition ipc_object_alloc_dead (s : Z) : M (Z + Z) :=
  r ← ipc_entry_alloc s;
  match r with
  | inl kr => mret (inl kr)
  | inr (name, i) => make_dead_name s name i;; mret (inr name)
  end.

Definition ipc_object_alloc_dead_name (s name : Z) : M Z :=
  r ← ipc_entry_alloc_name s name;
  match r with
  | inl kr => mret kr
  | inr i =>
      inuse ← ipc_right_inuse s i;
      if (inuse : bool) then mret KERN_NAME_EXISTS
      else make_dead_name s name i;; mret KERN_SUCCESS
  end.

Definition alloc_asserts (otype type urefs : Z) : M unit :=
  massert (otype <? IOT_NUMBER);;
  massert (Z.land type MACH_PORT_TYPE_ALL_RIGHTS =? type);;
  massert (negb (type =? MACH_PORT_TYPE_NONE));;
  massert (urefs <=? MACH_PORT_UREFS_MAX).

(** The entry takes the new object; the space is locked. *)
Definition alloc_install (s otype type urefs name i object : Z) : M unit :=
  upd_entry s i (fun e => set_ie_object object
    (set_ie_bits (Z.lor (ie_bits e) (Z.lor type urefs)) e));;
  entry_modified s name i;;
  upd_io object (set_io_bits (io_makebits true otype 0));;
  io_lock object.

(** Returns the name and the object; space and object are then locked. *)
Definition ipc_object_alloc (s otype type urefs : Z) : M (Z + (Z * Z)) :=
  alloc_asserts otype type urefs;;
  object ← io_alloc otype;
  if object =? IO_NULL then mret (inl KERN_RESOURCE_SHORTAGE)
  else
    r ← ipc_entry_alloc s;
    match r with
    | inl kr => io_free otype object;; mret (inl kr)
    | inr (name, i) =>
        alloc_install s otype type urefs name i object;;
        upd_io object (set_io_references 1);;
        mret (inr (name, object))
    end.

(** The object is then locked. *)
Definition ipc_object_alloc_name (s otype type urefs name : Z) : M (Z + Z) :=
  alloc_asserts otype type urefs;;
  object ← io_alloc otype;
  if object =? IO_NULL then mret (inl KERN_RESOURCE_SHORTAGE)
  else
    r ← ipc_entry_alloc_name s name;
    match r with
    | inl kr => io_free otype object;; mret (inl kr)
    | inr i =>
        inuse ← ipc_right_inuse s i;
        if (inuse : bool) then io_free otype object;; mret (inl KERN_NAME_EXISTS)
        else
          alloc_install s otype type urefs name i object;;
          is_write_unlock s;;
          upd_io object (set_io_references 1);;
          mret (inr object)
    end.

(** The type and the references of the entry of a new port. *)
Definition port_alloc_type (flags : Z) : Z * Z :=
  if flag flags IPC_PORT_INIT_MAKE_SEND_RIGHT
  then (Z.lor MACH_PORT_TYPE_RECEIVE MACH_PORT_TYPE_SEND, 1)
  else (MACH_PORT_TYPE_RECEIVE, 0).

(** Returns the name and the port, which is locked. *)
Definition ipc_port_alloc (s flags : Z) : M (Z + (Z * Z)) :=
  let '(type, urefs) := port_alloc_type flags in
  r ← ipc_object_alloc s IOT_PORT type urefs;
  match r with
  | inl kr => mret (inl kr)
  | inr (name, p) =>
      ipc_port_init p s flags name;;
      is_write_unlock s;;
      mret (inr (name, p))
  end.

Definition ipc_port_alloc_name (s flags name : Z) : M (Z + Z) :=
  let '(type, urefs) := port_alloc_type flags in
  r ← ipc_object_alloc_name s IOT_PORT type urefs name;
  match r with
  | inl kr => mret (inl kr)
  | inr p => ipc_port_init p s flags name;; mret (inr p)
  end.

(** ** Copyin *)

Definition MACH_MSG_TYPE_PORT_NONE : Z := 0.

Definition ipc_object_copyin_type (msgt_name : Z) : Z :=
  if msgt_name =? MACH_MSG_TYPE_MOVE_RECEIVE then MACH_MSG_TYPE_PORT_RECEIVE
  else if (msgt_name =? MACH_MSG_TYPE_MOVE_SEND_ONCE)
          || (msgt_name =? MACH_MSG_TYPE_MAKE_SEND_ONCE) then MACH_MSG_TYPE_PORT_SEND_ONCE
  else if (msgt_name =? MACH_MSG_TYPE_MOVE_SEND) || (msgt_name =? MACH_MSG_TYPE_MAKE_SEND)
          || (msgt_name =? MACH_MSG_TYPE_COPY_SEND) then MACH_MSG_TYPE_PORT_SEND
  else MACH_MSG_TYPE_PORT_NONE.

Definition IPC_KMSG_FLAGS_ALLOW_IMMOVABLE_SEND : Z := 0x1.

(** The code and the object, and the guard flags. *)
Definition ipc_object_copyin (s name msgt_name context : Z) (gf : option Z) (kmsg_flags : Z)
    : M (Z * Z * option Z) :=
  let irc_flags :=
    Z.lor IPC_RIGHT_COPYIN_FLAGS_DEADOK
      (if flag kmsg_flags IPC_KMSG_FLAGS_ALLOW_IMMOVABLE_SEND
       then IPC_RIGHT_COPYIN_FLAGS_ALLOW_IMMOVABLE_SEND else 0) in
  r ← ipc_right_lookup_write s name;
  match r with
  | inl kr => mret (kr, IO_NULL, gf)
  | inr i =>
      c ← ipc_right_copyin s name i msgt_name irc_flags context gf;
      e ← entry s i;
      when (IE_BITS_TYPE (ie_bits e) =? MACH_PORT_TYPE_NONE) (entry_dealloc s name i);;
      is_write_unlock s;;
      ev ← env;
      when (0 <? ci_assertcnt c)
        (t ← call "task_imp_base" [e_current_task ev];
         rt ← callb "ipc_importance_task_is_any_receiver_type" [t];
         when rt (call_ "ipc_importance_task_drop_internal_assertion" [t; ci_assertcnt c]));;
      when (negb (ci_release c =? IP_NULL)) (ip_release (ci_release c));;
      when ((ci_kr c =? KERN_SUCCESS) && negb (ci_soright c =? IP_NULL))
        (ipc_notify_port_deleted (ci_soright c) name);;
      mret (ci_kr c, ci_object c, ci_guard_flags c)
  end.


Definition ipc_object_copyin_from_kernel (object msgt_name : Z) : M unit :=
  massert (IO_VALID object);;
  let p := object in
  ev ← env;
  if msgt_name =? MACH_MSG_TYPE_MOVE_RECEIVE then
    ip_lock p;;
    imq_lock p;;
    require_ip_active p;;
    x ← port p;
    when (negb (ip_destination x =? IP_NULL))
      (massert (ip_receiver x =? e_space_kernel ev);;
       massert (negb (ip_immovable_receive x));;
       upd_port p (fun x => set_ip_destination IP_NULL
         (set_ip_receiver_name MACH_PORT_NULL (set_ip_mscount 0 x))));;
    imq_unlock p;;
    ip_unlock p
  else if msgt_name =? MACH_MSG_TYPE_COPY_SEND then
    ip_lock p;;
    a ← ip_active p;
    when a
      (x ← port p;
       massert (0 <? ip_srights x);;
       upd_port p (fun x => set_ip_srights (u32 (ip_srights x + 1)) x));;
    ip_reference p;;
    ip_unlock p
  else if msgt_name =? MACH_MSG_TYPE_MAKE_SEND then
    ip_lock p;;
    a ← ip_active p;
    when a
      (x ← port p;
       massert (negb (ip_receiver_name x =? MACH_PORT_NULL));;
       (if ip_receiver x =? e_space_kernel ev then mret tt
        else sp ← space (ip_receiver x); massert (negb (is_node_id sp =? HOST_LOCAL_NODE)));;
       upd_port p (fun x => set_ip_mscount (u32 (ip_mscount x + 1)) x));;
    upd_port p (fun x => set_ip_srights (u32 (ip_srights x + 1)) x);;
    ip_reference p;;
    ip_unlock p
  else if msgt_name =? MACH_MSG_TYPE_MOVE_SEND then
    x ← port p; massert (negb (ip_srights x =? 0))
  else if msgt_name =? MACH_MSG_TYPE_MAKE_SEND_ONCE then
    ip_lock p;;
    a ← ip_active p;
    when a (x ← port p; massert (negb (ip_receiver_name x =? MACH_PORT_NULL)));;
    ipc_port_make_sonce_locked p;;
    ip_unlock p
  else if msgt_name =? MACH_MSG_TYPE_MOVE_SEND_ONCE then
    x ← port p; massert (negb (ip_sorights x =? 0))
  else panic "ipc_object_copyin_from_kernel: strange rights".

(** ** Destruction of a naked capability *)

Definition ipc_object_destroy (object msgt_name : Z) : M unit :=
  massert (IO_VALID object);;
  h ← io object;
  massert (io_otype h =? IOT_PORT);;
  if msgt_name =? MACH_MSG_TYPE_PORT_SEND then ipc_port_release_send object
  else if msgt_name =? MACH_MSG_TYPE_PORT_SEND_ONCE then ipc_notify_send_once object
  else if msgt_name =? MACH_MSG_TYPE_PORT_RECEIVE then ipc_port_release_receive object
  else panic "ipc_object_destroy: strange rights".

Definition ipc_object_destroy_dest (object msgt_name : Z) : M unit :=
  massert (IO_VALID object);;
  h ← io object;
  massert (io_otype h =? IOT_PORT);;
  if msgt_name =? MACH_MSG_TYPE_PORT_SEND then ipc_port_release_send object
  else if msgt_name =? MACH_MSG_TYPE_PORT_SEND_ONCE then
    x ← port object;
    if io_active h && negb (ip_full_kernel x) then ipc_notify_send_once object
    else ipc_port_release_sonce object
  else panic "ipc_object_destroy_dest: strange rights".

(** ** Copyout *)

(** The increment of a count of user references that stays pegged. *)
Definition urefs_inc (bits : Z) : Z :=
  if IE_BITS_UREFS bits <? MACH_PORT_UREFS_MAX then bits + 1 else bits.

Definition ipc_object_insert_send_right (s name msgt_name : Z) : M Z :=
  massert ((msgt_name =? MACH_MSG_TYPE_MAKE_SEND) || (msgt_name =? MACH_MSG_TYPE_COPY_SEND));;
  r ← ipc_right_lookup_write s name;
  match r with
  | inl kr => mret kr
  | inr i =>
      e ← entry s i;
      if negb (IO_VALID (ie_object e)) then
        is_write_unlock s;; mret KERN_INVALID_CAPABILITY
      else
        let bits := ie_bits e in
        let object := ie_object e in
        io_lock object;;
        h ← io object;
        kr ←
          (if negb (io_active h) then mret KERN_INVALID_CAPABILITY
           else if msgt_name =? MACH_MSG_TYPE_MAKE_SEND then
             if has bits MACH_PORT_TYPE_RECEIVE then
               upd_port object (fun x => set_ip_mscount (u32 (ip_mscount x + 1)) x);;
               bits ← (if negb (has bits MACH_PORT_TYPE_SEND) then
                         upd_port object (fun x => set_ip_srights (u32 (ip_srights x + 1)) x);;
                         mret (Z.lor bits MACH_PORT_TYPE_SEND)
                       else mret bits);
               upd_entry s i (set_ie_bits (urefs_inc bits));;
               entry_modified s name i;;
               mret KERN_SUCCESS
             else mret KERN_INVALID_RIGHT
           else if has bits MACH_PORT_TYPE_SEND then
             upd_entry s i (set_ie_bits (urefs_inc bits));;
             entry_modified s name i;;
             mret KERN_SUCCESS
           else mret KERN_INVALID_RIGHT);
        io_unlock object;;
        is_write_unlock s;;
        mret kr
  end.

(** A new entry [i] takes the object, unless the object died or its label
    forbids it: then the entry is released and the space unlocked. *)
Definition copyout_new_entry (s name i object msgt_name : Z) : M bool :=
  let fail := io_unlock object;; entry_dealloc s name i;; is_write_unlock s;; mret false in
  e ← entry s i;
  massert (IE_BITS_TYPE (ie_bits e) =? MACH_PORT_TYPE_NONE);;
  massert (ie_object e =? IO_NULL);;
  io_lock object;;
  h ← io object;
  if negb (io_active h) then fail
  else
    allowed ← (if negb (io_is_kolabeled h) then mret true
               else callb "ipc_kobject_label_check" [s; object; msgt_name]);
    if negb allowed then fail
    else upd_entry s i (set_ie_object object);; mret true.

(** The search for an entry: [inl kr] with the space unlocked, or the name and
    the entry, with space and object locked.  The loop grows the table. *)
Fixpoint copyout_entry (fuel : nat) (s object msgt_name : Z) : M (Z + (Z * Z)) :=
  match fuel with
  | O => panic "fuel"
  | S fuel =>
      sp ← space s;
      if negb (is_active sp) then is_write_unlock s;; mret (inl KERN_INVALID_TASK)
      else
        rev ← (if negb (msgt_name =? MACH_MSG_TYPE_PORT_SEND_ONCE)
               then ipc_right_reverse s object else mret None);
        match rev with
        | Some (name, i) =>
            e ← entry s i;
            massert (has (ie_bits e) MACH_PORT_TYPE_SEND_RECEIVE);;
            mret (inr (name, i))
        | None =>
            r ← on_space s ipc_entry_get;
            match r with
            | inl _ =>
                kr ← ipc_entry_grow_table s ITS_SIZE_NONE;
                if negb (kr =? KERN_SUCCESS) then mret (inl kr)
                else copyout_entry fuel s object msgt_name
            | inr (name, i) =>
                ok ← copyout_new_entry s name i object msgt_name;
                mret (if (ok : bool) then inr (name, i) else inl KERN_INVALID_CAPABILITY)
            end
        end
  end.

(** Returns the name, and what [ipc_right_copyout] writes. *)
Definition ipc_object_copyout (s object msgt_name : Z) (gf : option Z)
    : M (Z + (Z * (option Z * option Z))) :=
  ev ← env;
  massert (IO_VALID object);;
  h ← io object;
  massert (io_otype h =? IOT_PORT);;
  when (ITH_KNOTE_VALID (e_ith_knote ev) msgt_name)
    (call_ "filt_machport_turnstile_prepare_lazily" [e_ith_knote ev; msgt_name; object]);;
  is_write_lock s;;
  r ← copyout_entry (S (length (e_table_entries ev))) s object msgt_name;
  match r with
  | inl kr => mret (inl kr)
  | inr (name, i) =>
      '(kr, out) ← ipc_right_copyout s name i msgt_name gf object;
      is_write_unlock s;;
      mret (if kr =? KERN_SUCCESS then inr (name, out) else inl kr)
  end.

(** The importance a receive right brings to the task of the space: the task
    and the count to boost it by. *)
Definition copyout_name_boost (s object msgt_name : Z) : M (Z * Z) :=
  if negb (msgt_name =? MACH_MSG_TYPE_PORT_RECEIVE) then mret (IIT_NULL, 0)
  else
    x ← port object;
    sp ← space s;
    boost ←
      (if negb (is_task sp =? TASK_NULL) then
         t ← call "task_imp_base" [is_task sp];
         r ← callb "ipc_importance_task_is_any_receiver_type" [t];
         if (r : bool) then call_ "ipc_importance_task_reference" [t];; mret (t, ip_impcount x)
         else mret (IIT_NULL, 0)
       else mret (IIT_NULL, 0));
    massert (ip_tempowner x);;
    upd_port object (set_ip_tempowner false);;
    mret boost.

(** Space and object are locked and active: the copyout itself. *)
Definition copyout_name_finish (s object msgt_name name i : Z) : M Z :=
  '(task_imp, assertcnt) ← copyout_name_boost s object msgt_name;
  '(kr, _) ← ipc_right_copyout s name i msgt_name None object;
  is_write_unlock s;;
  when (negb (task_imp =? IIT_NULL))
    (call_ "ipc_importance_task_hold_internal_assertion" [task_imp; assertcnt];;
     call_ "ipc_importance_task_release" [task_imp]);;
  mret kr.

Definition ipc_object_copyout_name (s object msgt_name name : Z) : M Z :=
  massert (IO_VALID object);;
  h ← io object;
  massert (io_otype h =? IOT_PORT);;
  r ← ipc_entry_alloc_name s name;
  match r with
  | inl kr => mret kr
  | inr i =>
      rev ← (if negb (msgt_name =? MACH_MSG_TYPE_PORT_SEND_ONCE)
             then ipc_right_reverse s object else mret None);
      match rev with
      | Some (oname, oi) =>
          if negb (name =? oname) then
            io_unlock object;;
            e ← entry s i;
            when (IE_BITS_TYPE (ie_bits e) =? MACH_PORT_TYPE_NONE) (entry_dealloc s name i);;
            is_write_unlock s;;
            mret KERN_RIGHT_EXISTS
          else
            massert (i =? oi);;
            e ← entry s i;
            massert (has (ie_bits e) MACH_PORT_TYPE_SEND_RECEIVE);;
            copyout_name_finish s object msgt_name name i
      | None =>
          inuse ← ipc_right_inuse s i;
          if (inuse : bool) then mret KERN_NAME_EXISTS
          else
            ok ← copyout_new_entry s name i object msgt_name;
            if negb ok then mret KERN_INVALID_CAPABILITY
            else copyout_name_finish s object msgt_name name i
      end
  end.

(** The object is locked and active; it is unlocked and loses a reference.
    Returns the receiver's name for the port. *)
Definition ipc_object_copyout_dest (s object msgt_name : Z) : M Z :=
  massert (IO_VALID object);;
  h ← io object;
  massert (io_active h);;
  let p := object in
  if msgt_name =? MACH_MSG_TYPE_PORT_SEND then
    x ← port p;
    let name := if ip_receiver x =? s then ip_receiver_name x else MACH_PORT_NULL in
    massert (0 <? ip_srights x);;
    upd_port p (set_ip_srights (ip_srights x - 1));;
    (if (ip_srights x - 1 =? 0) && negb (ip_nsrequest x =? IP_NULL) then
       upd_port p (set_ip_nsrequest IP_NULL);;
       ipc_port_clear_sync_rcv_thread_boost_locked p;;
       ipc_notify_no_senders (ip_nsrequest x) (ip_mscount x)
     else ipc_port_clear_sync_rcv_thread_boost_locked p);;
    ip_release p;;
    mret name
  else if msgt_name =? MACH_MSG_TYPE_PORT_SEND_ONCE then
    x ← port p;
    massert (0 <? ip_sorights x);;
    if ip_receiver x =? s then
      upd_port p (set_ip_sorights (ip_sorights x - 1));;
      ipc_port_clear_sync_rcv_thread_boost_locked p;;
      ip_release p;;
      mret (ip_receiver_name x)
    else
      ip_unlock p;;
      ipc_notify_send_once p;;
      mret MACH_PORT_NULL
  else panic "ipc_object_copyout_dest: strange rights".

(** Copies out a naked send right, or destroys it ([ipc/ipc_port.c]). *)
Definition ipc_port_copyout_send (sright s : Z) : M Z :=
  if IP_VALID sright then
    r ← ipc_object_copyout s sright MACH_MSG_TYPE_PORT_SEND None;
    match r with
    | inr (name, _) => mret name
    | inl kr =>
        ipc_port_release_send sright;;
        mret (if kr =? KERN_INVALID_CAPABILITY then MACH_PORT_DEAD else MACH_PORT_NULL)
    end
  else mret (u32 sright).
