(* ===== verification/MachPort.v ===== *)
(** * The system calls on ports (ipc/mach_port.c, ipc_pset_alloc* of ipc/ipc_pset.c)

    The kernel calls with which a task manages the names, rights and ports of a
    space.  Results that the source returns through pointers are returned with the
    return code: [inl] a code other than KERN_SUCCESS, [inr] the results.  The
    calls that look into the queue of a port or into the members of a port set
    (mach_port_peek, mach_port_get_set_status, mach_port_move_member,
    mach_port_insert_member, mach_port_extract_member) are not modelled. *)

From S2P Require Import Prelude IpcTypes IpcHash IpcTable KernelState Kernel IpcFreelist IpcEntry IpcPort IpcRight IpcObject.

Definition KERN_NOT_SUPPORTED : Z := 46.
Definition KERN_DENIED : Z := 53.

Definition kGUARD_EXC_SET_CONTEXT : Z := 0x4.
Definition kGUARD_EXC_UNGUARDED : Z := 0x8.
Definition kGUARD_EXC_INVALID_ARGUMENT : Z := 0x800.
Definition kGUARD_EXC_KERN_FAILURE : Z := 0x4000.

(** [ipc_port_translate_receive]; the port is then locked and active. *)
Definition ipc_port_translate_receive (s name : Z) : M (Z + Z) :=
  ipc_object_translate s name MACH_PORT_RIGHT_RECEIVE.

(** A reader of the lock of a space. *)
Definition is_read_lock (s : Z) : M unit := lock (LSpace s).
Definition is_read_unlock (s : Z) : M unit := unlock (LSpace s).

(** ** Names and types *)

Definition IP_TIMESTAMP_ORDER (one two : Z) : bool := 2 ^ 31 <=? u32 (one - two).

(** The type that [mach_port_names] reports of an entry. *)
Definition mach_port_names_helper (timestamp : Z) (e : ipc_entry) (name : Z) : M (Z * Z) :=
  let bits := ie_bits e in
  let request := ie_request e in
  let p := ie_object e in
  if has bits MACH_PORT_TYPE_RECEIVE then
    massert (IP_VALID p);;
    type ←
      (if negb (request =? IE_REQ_NONE) then
         ip_lock p;; require_ip_active p;;
         t ← ipc_port_request_type p name request;
         ip_unlock p;; mret t
       else mret 0);
    mret (name, Z.lor type (IE_BITS_TYPE bits))
  else if has bits MACH_PORT_TYPE_SEND_RIGHTS then
    massert (IP_VALID p);;
    ip_lock p;;
    reqtype ← (if negb (request =? IE_REQ_NONE) then ipc_port_request_type p name request
               else mret 0);
    active ← ip_active p;
    x ← port p;
    let live := active || IP_TIMESTAMP_ORDER timestamp (ip_timestamp x) in
    let type := if live then reqtype else 0 in
    let bits := if live then bits
                else Z.lor (Z.land bits (Z.lnot IE_BITS_TYPE_MASK)) MACH_PORT_TYPE_DEAD_NAME
                     + (if negb (reqtype =? 0) then 1 else 0) in
    ip_unlock p;;
    mret (name, Z.lor type (IE_BITS_TYPE bits))
  else mret (name, IE_BITS_TYPE bits).

(** The entries of the table from [index] on. *)
Fixpoint names_loop (n : nat) (timestamp : Z) (table : list ipc_entry) (index : Z)
    : M (list (Z * Z)) :=
  match n with
  | O => mret []
  | S n =>
      e ← deref (aget table index) "bounds";
      let bits := ie_bits e in
      if negb (IE_BITS_TYPE bits =? MACH_PORT_TYPE_NONE) then
        let name := MACH_PORT_MAKE index (IE_BITS_GEN bits) in
        r ← mach_port_names_helper timestamp e name;
        rest ← names_loop n timestamp table (index + 1);
        mret (r :: rest)
      else names_loop n timestamp table (index + 1)
  end.

(** Pages of the kernel map are 4 KB. *)
Definition vm_map_round_page (size : Z) : Z := Z.land (size + 0xfff) (Z.lnot 0xfff).

Definition names_free (addr1 addr2 size : Z) : M unit :=
  when (negb (size =? 0)) (call_ "kmem_free" [addr1; size];; call_ "kmem_free" [addr2; size]).

(** Allocates and wires the two arrays; [None] when that fails.
    [vm_allocate_kernel] returns the address, or 0 when it fails. *)
Definition names_alloc (size : Z) : M (option (Z * Z)) :=
  addr1 ← call "vm_allocate_kernel" [size];
  if addr1 =? 0 then mret None
  else
    addr2 ← call "vm_allocate_kernel" [size];
    if addr2 =? 0 then call_ "kmem_free" [addr1; size];; mret None
    else
      kr ← call "vm_map_wire_kernel" [addr1; size];
      if negb (kr =? KERN_SUCCESS) then names_free addr1 addr2 size;; mret None
      else
        kr ← call "vm_map_wire_kernel" [addr2; size];
        if negb (kr =? KERN_SUCCESS) then names_free addr1 addr2 size;; mret None
        else mret (Some (addr1, addr2)).

(** The arrays have room for the table, and the space is locked and active. *)
Fixpoint names_room (fuel : nat) (s addr1 addr2 size : Z) : M (Z + (Z * Z * Z)) :=
  match fuel with
  | O => panic "fuel"
  | S fuel =>
      is_read_lock s;;
      sp ← space s;
      if negb (is_active sp) then
        is_read_unlock s;; names_free addr1 addr2 size;; mret (inl KERN_INVALID_TASK)
      else
        let size_needed := vm_map_round_page (is_table_size sp * 4) in
        if size_needed <=? size then mret (inr (addr1, addr2, size))
        else
          is_read_unlock s;;
          names_free addr1 addr2 size;;
          r ← names_alloc size_needed;
          match r with
          | None => mret (inl KERN_RESOURCE_SHORTAGE)
          | Some (addr1, addr2) => names_room fuel s addr1 addr2 size_needed
          end
  end.

(** The arrays are handed to the caller; what is left of them is freed. *)
Definition names_copyout (addr1 addr2 size actual : Z) : M unit :=
  if actual =? 0 then names_free addr1 addr2 size
  else
    let size_used := actual * 4 in
    let vm_size_used := vm_map_round_page size_used in
    kr ← call "vm_map_unwire" [addr1; vm_size_used];
    massert (kr =? KERN_SUCCESS);;
    kr ← call "vm_map_unwire" [addr2; vm_size_used];
    massert (kr =? KERN_SUCCESS);;
    kr ← call "vm_map_copyin" [addr1; size_used];
    massert (kr =? KERN_SUCCESS);;
    kr ← call "vm_map_copyin" [addr2; size_used];
    massert (kr =? KERN_SUCCESS);;
    when (negb (vm_size_used =? size))
      (call_ "kmem_free" [addr1 + vm_size_used; size - vm_size_used];;
       call_ "kmem_free" [addr2 + vm_size_used; size - vm_size_used]).

Definition mach_port_names (fuel : nat) (s : Z) : M (Z + list (Z * Z)) :=
  if s =? IS_NULL then mret (inl KERN_INVALID_TASK)
  else
    r ← names_room fuel s 0 0 0;
    match r with
    | inl kr => mret (inl kr)
    | inr (addr1, addr2, size) =>
        timestamp ← ipc_port_timestamp;
        sp ← space s;
        l ← names_loop (Z.to_nat (is_table_size sp)) timestamp (is_table sp) 0;
        is_read_unlock s;;
        names_copyout addr1 addr2 size (alen l);;
        mret (inr l)
    end.

Definition mach_port_type (s name : Z) : M (Z + Z) :=
  if s =? IS_NULL then mret (inl KERN_INVALID_TASK)
  else if name =? MACH_PORT_NULL then mret (inl KERN_INVALID_NAME)
  else if name =? MACH_PORT_DEAD then mret (inr MACH_PORT_TYPE_DEAD_NAME)
  else
    r ← ipc_right_lookup_write s name;
    match r with
    | inl kr => mret (inl kr)
    | inr i =>
        '(type, _) ← ipc_right_info s name i;
        mret (inr (Z.land type
          (Z.lnot (Z.lor MACH_PORT_TYPE_SPREQUEST MACH_PORT_TYPE_SPREQUEST_DELAYED))))
    end.

Definition mach_port_rename (s oname nname : Z) : Z := KERN_NOT_SUPPORTED.

(** ** Allocation *)

(** A port set of the model is its header: the queue of a set is not modelled. *)
Definition ipc_pset_alloc (s : Z) : M (Z + (Z * Z)) :=
  r ← ipc_object_alloc s IOT_PORT_SET MACH_PORT_TYPE_PORT_SET 0;
  match r with
  | inl kr => mret (inl kr)
  | inr (name, pset) =>
      call_ "ipc_mqueue_init" [pset];;
      is_write_unlock s;;
      mret (inr (name, pset))
  end.

Definition ipc_pset_alloc_name (s name : Z) : M (Z + Z) :=
  r ← ipc_object_alloc_name s IOT_PORT_SET MACH_PORT_TYPE_PORT_SET 0 name;
  match r with
  | inl kr => mret (inl kr)
  | inr pset => call_ "ipc_mqueue_init" [pset];; mret (inr pset)
  end.

Record mach_port_qos := mkQos { mpq_name : bool; mpq_prealloc : bool; mpq_len : Z }.
Definition qos_template : mach_port_qos := mkQos false false 0.
Definition set_mpq_prealloc (v : bool) (q : mach_port_qos) : mach_port_qos :=
  mkQos (mpq_name q) v (mpq_len q).

Definition MACH_MSG_SIZE_MAX : Z := 0xffffffff.
Definition MAX_TRAILER_SIZE : Z := 68.
Definition IKM_SAVED_KMSG_SIZE : Z := 256.

(** The size of the structure of a message depends on the options of the build. *)
Definition IKM_SAVED_MSG_SIZE : M Z :=
  overhead ← call "sizeof(struct ipc_kmsg)" [];
  mret (u32 (IKM_SAVED_KMSG_SIZE - overhead)).

(** The message that is allocated in advance, [inl] when there is no memory. *)
Definition allocate_prealloc (q : mach_port_qos) : M (Z + Z) :=
  if mpq_prealloc q then
    saved ← IKM_SAVED_MSG_SIZE;
    if u32 (saved - MAX_TRAILER_SIZE) <? mpq_len q
    then panic "mach_port_allocate_internal: too large a prealloc kmsg"
    else
      kmsg ← call "ipc_kmsg_prealloc" [u32 (mpq_len q + MAX_TRAILER_SIZE)];
      if kmsg =? 0 then mret (inl KERN_RESOURCE_SHORTAGE) else mret (inr kmsg)
  else mret (inr 0).

Definition allocate_receive (s : Z) (q : mach_port_qos) (name : Z) : M (Z + Z) :=
  r ← allocate_prealloc q;
  match r with
  | inl kr => mret (inl kr)
  | inr kmsg =>
      r ← (if mpq_name q then
             r ← ipc_port_alloc_name s IPC_PORT_INIT_MESSAGE_QUEUE name;
             mret (match r with inl kr => inl kr | inr p => inr (name, p) end)
           else ipc_port_alloc s IPC_PORT_INIT_MESSAGE_QUEUE);
      match r with
      | inr (name, p) =>
          when (negb (kmsg =? 0)) (call_ "ipc_kmsg_set_prealloc" [kmsg; p]);;
          ip_unlock p;;
          mret (inr name)
      | inl kr => when (negb (kmsg =? 0)) (call_ "ipc_kmsg_free" [kmsg]);; mret (inl kr)
      end
  end.

Definition allocate_pset (s : Z) (q : mach_port_qos) (name : Z) : M (Z + Z) :=
  r ← (if mpq_name q then
         r ← ipc_pset_alloc_name s name;
         mret (match r with inl kr => inl kr | inr pset => inr (name, pset) end)
       else ipc_pset_alloc s);
  match r with
  | inr (name, pset) => io_unlock pset;; mret (inr name)
  | inl kr => mret (inl kr)
  end.

Definition mach_port_allocate_internal (s right : Z) (q : mach_port_qos) (name : Z) : M (Z + Z) :=
  massert (negb (s =? IS_NULL));;
  if right =? MACH_PORT_RIGHT_RECEIVE then allocate_receive s q name
  else if right =? MACH_PORT_RIGHT_PORT_SET then allocate_pset s q name
  else if right =? MACH_PORT_RIGHT_DEAD_NAME then ipc_object_alloc_dead s
  else mret (inl KERN_INVALID_VALUE).

Definition mach_port_allocate_full (s right proto : Z) (q : mach_port_qos) (name : Z) : M (Z + Z) :=
  if s =? IS_NULL then mret (inl KERN_INVALID_TASK)
  else if negb (proto =? MACH_PORT_NULL) then mret (inl KERN_INVALID_VALUE)
  else if mpq_name q && negb (MACH_PORT_VALID name) then mret (inl KERN_INVALID_VALUE)
  else if mpq_prealloc q && (MACH_MSG_SIZE_MAX - MAX_TRAILER_SIZE <? mpq_len q)
  then mret (inl KERN_RESOURCE_SHORTAGE)
  else if mpq_prealloc q && negb (right =? MACH_PORT_RIGHT_RECEIVE)
  then mret (inl KERN_INVALID_VALUE)
  else mach_port_allocate_internal s right (set_mpq_prealloc false q) name.

Definition mach_port_allocate_name (s right name : Z) : M Z :=
  if negb (MACH_PORT_VALID name) then mret KERN_INVALID_VALUE
  else
    r ← mach_port_allocate_full s right MACH_PORT_NULL (mkQos true false 0) name;
    mret (match r with inl kr => kr | inr _ => KERN_SUCCESS end).

Definition mach_port_allocate (s right : Z) : M (Z + Z) :=
  mach_port_allocate_full s right MACH_PORT_NULL qos_template 0.

Definition mach_port_allocate_qos (s right : Z) (q : mach_port_qos) : M (Z + Z) :=
  if mpq_name q then mret (inl KERN_INVALID_ARGUMENT)
  else mach_port_allocate_full s right MACH_PORT_NULL q 0.

(** ** Rights *)

(** The entry of [name], or a guard exception when there is none. *)
Definition guarded_lookup (s name : Z) : M (Z + Z) :=
  r ← ipc_right_lookup_write s name;
  match r with
  | inl kr => mach_port_guard_exception name 0 0 kGUARD_EXC_INVALID_NAME;; mret (inl kr)
  | inr i => mret (inr i)
  end.

Definition mach_port_destroy (s name : Z) : M Z :=
  if s =? IS_NULL then mret KERN_INVALID_TASK
  else if negb (MACH_PORT_VALID name) then mret KERN_SUCCESS
  else
    r ← guarded_lookup s name;
    match r with
    | inl kr => mret kr
    | inr i => ipc_right_destroy s name i true 0
    end.

Definition mach_port_deallocate (s name : Z) : M Z :=
  if s =? IS_NULL then mret KERN_INVALID_TASK
  else if negb (MACH_PORT_VALID name) then mret KERN_SUCCESS
  else
    r ← guarded_lookup s name;
    match r with
    | inl kr => mret kr
    | inr i => ipc_right_dealloc s name i
    end.

(** The number of references of a right of the type [type]. *)
Definition get_refs_count (right type urefs : Z) : M Z :=
  if has type (MACH_PORT_TYPE right) then
    if right =? MACH_PORT_RIGHT_SEND_ONCE then massert (urefs =? 1);; mret 1
    else if (right =? MACH_PORT_RIGHT_PORT_SET) || (right =? MACH_PORT_RIGHT_RECEIVE) then mret 1
    else if (right =? MACH_PORT_RIGHT_DEAD_NAME) || (right =? MACH_PORT_RIGHT_SEND) then
      massert (0 <? urefs);; mret urefs
    else panic "mach_port_get_refs: strange rights"
  else mret 0.

Definition mach_port_get_refs (s name right : Z) : M (Z + Z) :=
  if s =? IS_NULL then mret (inl KERN_INVALID_TASK)
  else if MACH_PORT_RIGHT_NUMBER <=? right then mret (inl KERN_INVALID_VALUE)
  else if negb (MACH_PORT_VALID name) then
    mret (if (right =? MACH_PORT_RIGHT_SEND) || (right =? MACH_PORT_RIGHT_SEND_ONCE)
          then inr 1 else inl KERN_INVALID_NAME)
  else
    r ← ipc_right_lookup_write s name;
    match r with
    | inl kr => mret (inl kr)
    | inr i =>
        '(type, urefs) ← ipc_right_info s name i;
        refs ← get_refs_count right type urefs;
        mret (inr refs)
    end.

Definition mach_port_mod_refs (s name right delta : Z) : M Z :=
  if s =? IS_NULL then mret KERN_INVALID_TASK
  else if MACH_PORT_RIGHT_NUMBER <=? right then mret KERN_INVALID_VALUE
  else if negb (MACH_PORT_VALID name) then
    mret (if (right =? MACH_PORT_RIGHT_SEND) || (right =? MACH_PORT_RIGHT_SEND_ONCE)
          then KERN_SUCCESS else KERN_INVALID_NAME)
  else
    r ← guarded_lookup s name;
    match r with
    | inl kr => mret kr
    | inr i => ipc_right_delta s name i right delta
    end.

Definition MACH_MSG_TYPE_PORT_ANY (x : Z) : bool :=
  (MACH_MSG_TYPE_MOVE_RECEIVE <=? x) && (x <=? MACH_MSG_TYPE_MAKE_SEND_ONCE).
Definition MACH_MSG_TYPE_PORT_ANY_RIGHT (x : Z) : bool :=
  (MACH_MSG_TYPE_MOVE_RECEIVE <=? x) && (x <=? MACH_MSG_TYPE_MOVE_SEND_ONCE).

Definition mach_port_insert_right (s name poly polyPoly : Z) : M Z :=
  if s =? IS_NULL then mret KERN_INVALID_TASK
  else if negb (MACH_PORT_VALID name) || negb (MACH_MSG_TYPE_PORT_ANY_RIGHT polyPoly)
  then mret KERN_INVALID_VALUE
  else if negb (IP_VALID poly) then mret KERN_INVALID_CAPABILITY
  else ipc_object_copyout_name s poly polyPoly name.

(** Returns the port and the type of the right. *)
Definition mach_port_extract_right (s name msgt_name : Z) : M (Z + (Z * Z)) :=
  if s =? IS_NULL then mret (inl KERN_INVALID_TASK)
  else if negb (MACH_MSG_TYPE_PORT_ANY msgt_name) then mret (inl KERN_INVALID_VALUE)
  else if negb (MACH_PORT_VALID name) then mret (inl KERN_INVALID_RIGHT)
  else
    '(kr, poly, _) ← ipc_object_copyin s name msgt_name 0 None IPC_KMSG_FLAGS_ALLOW_IMMOVABLE_SEND;
    mret (if kr =? KERN_SUCCESS then inr (poly, ipc_object_copyin_type msgt_name) else inl kr).

Definition MACH_NOTIFY_SEND_POSSIBLE : Z := 66.
Definition MACH_NOTIFY_PORT_DESTROYED : Z := 69.
Definition MACH_NOTIFY_NO_SENDERS : Z := 70.
Definition MACH_NOTIFY_DEAD_NAME : Z := 72.

Definition request_port_destroyed (s name sync notify : Z) : M (Z + Z) :=
  if negb (sync =? 0) then mret (inl KERN_INVALID_VALUE)
  else if negb (MACH_PORT_VALID name) then mret (inl KERN_INVALID_RIGHT)
  else
    r ← ipc_port_translate_receive s name;
    match r with
    | inl kr => mret (inl kr)
    | inr p =>
        h ← io p; x ← port p;
        if io_is_kobject h || io_is_kolabeled h || ip_specialreply x then
          ip_unlock p;; mret (inl KERN_INVALID_RIGHT)
        else if negb (ip_pdrequest x =? IP_NULL) then
          ip_unlock p;;
          mach_port_guard_exception name 0 0 kGUARD_EXC_KERN_FAILURE;;
          mret (inl KERN_FAILURE)
        else
          previous ← ipc_port_pdrequest p notify;
          massert (previous =? IP_NULL);;
          mret (inr previous)
    end.

Definition request_no_senders (s name sync notify : Z) : M (Z + Z) :=
  if negb (MACH_PORT_VALID name) then mret (inl KERN_INVALID_RIGHT)
  else
    r ← ipc_port_translate_receive s name;
    match r with
    | inl kr => mret (inl kr)
    | inr p => previous ← ipc_port_nsrequest p sync notify; mret (inr previous)
    end.

(** Returns the previous request. *)
Definition mach_port_request_notification (s name id sync notify : Z) : M (Z + Z) :=
  if s =? IS_NULL then mret (inl KERN_INVALID_TASK)
  else if notify =? IP_DEAD then mret (inl KERN_INVALID_CAPABILITY)
  else if id =? MACH_NOTIFY_PORT_DESTROYED then request_port_destroyed s name sync notify
  else if id =? MACH_NOTIFY_NO_SENDERS then request_no_senders s name sync notify
  else if (id =? MACH_NOTIFY_SEND_POSSIBLE) || (id =? MACH_NOTIFY_DEAD_NAME) then
    if negb (MACH_PORT_VALID name) then mret (inl KERN_INVALID_ARGUMENT)
    else
      '(kr, previous) ←
        ipc_right_request_alloc s name (negb (sync =? 0)) (id =? MACH_NOTIFY_SEND_POSSIBLE) notify;
      mret (if negb (kr =? KERN_SUCCESS) then inl kr else inr previous)
  else mret (inl KERN_INVALID_VALUE).

(** ** Attributes of a receive right *)

(** Runs [k] on the port of which [name] is the receive right. *)
Definition with_receive {A} (s name : Z) (k : Z -> M (Z + A)) : M (Z + A) :=
  if s =? IS_NULL then mret (inl KERN_INVALID_TASK)
  else if negb (MACH_PORT_VALID name) then mret (inl KERN_INVALID_RIGHT)
  else
    r ← ipc_port_translate_receive s name;
    match r with
    | inl kr => mret (inl kr)
    | inr p => k p
    end.

Definition mach_port_set_mscount (s name mscount : Z) : M (Z + unit) :=
  with_receive s name (fun p =>
    upd_port p (set_ip_mscount mscount);; ip_unlock p;; mret (inr tt)).

(** [ipc_mqueue_set_seqno] *)
Definition ipc_mqueue_set_seqno (p seqno : Z) : M unit :=
  imq_lock p;; upd_port p (set_imq_seqno seqno);; imq_unlock p.

Definition mach_port_set_seqno (s name seqno : Z) : M (Z + unit) :=
  with_receive s name (fun p =>
    ipc_mqueue_set_seqno p seqno;; ip_unlock p;; mret (inr tt)).

Definition mach_port_get_context (s name : Z) : M (Z + Z) :=
  with_receive s name (fun p =>
    x ← port p;
    let context := if ip_strict_guard x then 0 else ip_context x in
    ip_unlock p;; mret (inr context)).

Definition mach_port_set_context (s name context : Z) : M (Z + unit) :=
  with_receive s name (fun p =>
    x ← port p;
    if ip_strict_guard x then
      ip_unlock p;;
      mach_port_guard_exception name context (ip_context x) kGUARD_EXC_SET_CONTEXT;;
      mret (inl KERN_INVALID_ARGUMENT)
    else
      upd_port p (set_ip_context context);;
      ip_unlock p;; mret (inr tt)).

Definition MACH_PORT_STATUS_FLAG_TEMPOWNER : Z := 0x01.
Definition MACH_PORT_STATUS_FLAG_GUARDED : Z := 0x02.
Definition MACH_PORT_STATUS_FLAG_STRICT_GUARD : Z := 0x04.
Definition MACH_PORT_STATUS_FLAG_IMP_DONATION : Z := 0x08.
Definition MACH_PORT_STATUS_FLAG_TASKPTR : Z := 0x20.
Definition MACH_PORT_STATUS_FLAG_GUARD_IMMOVABLE_RECEIVE : Z := 0x40.
Definition MACH_PORT_STATUS_FLAG_NO_GRANT : Z := 0x80.

Record mach_port_status := mkStatus {
  mps_pset : bool;
  mps_seqno : Z;
  mps_mscount : Z;
  mps_qlimit : Z;
  mps_msgcount : Z;
  mps_sorights : Z;
  mps_srights : bool;
  mps_pdrequest : bool;
  mps_nsrequest : bool;
  mps_flags : Z
}.

Definition status_flags (x : ipc_port) : Z :=
  let bit (b : bool) f := if b then f else 0 in
  Z.lor (bit (ip_impdonation x)
    (Z.lor MACH_PORT_STATUS_FLAG_IMP_DONATION
      (bit (ip_tempowner x)
        (Z.lor MACH_PORT_STATUS_FLAG_TEMPOWNER
          (bit (negb (ip_imp_task x =? IIT_NULL)) MACH_PORT_STATUS_FLAG_TASKPTR)))))
  (Z.lor (bit (ip_guarded x)
    (Z.lor MACH_PORT_STATUS_FLAG_GUARDED
      (Z.lor (bit (ip_strict_guard x) MACH_PORT_STATUS_FLAG_STRICT_GUARD)
        (bit (ip_immovable_receive x) MACH_PORT_STATUS_FLAG_GUARD_IMMOVABLE_RECEIVE))))
    (bit (ip_no_grant x) MACH_PORT_STATUS_FLAG_NO_GRANT)).

Definition mach_port_get_status_helper (p : Z) : M mach_port_status :=
  imq_lock p;;
  x ← port p;
  imq_unlock p;;
  mret (mkStatus (ip_in_pset x) (imq_seqno x) (ip_mscount x) (imq_qlimit x) (imq_msgcount x)
          (ip_sorights x) (0 <? ip_srights x) (negb (ip_pdrequest x =? IP_NULL))
          (negb (ip_nsrequest x =? IP_NULL)) (status_flags x)).

Definition MACH_PORT_LIMITS_INFO : Z := 1.
Definition MACH_PORT_RECEIVE_STATUS : Z := 2.
Definition MACH_PORT_DNREQUESTS_SIZE : Z := 3.
Definition MACH_PORT_TEMPOWNER : Z := 4.
Definition MACH_PORT_IMPORTANCE_RECEIVER : Z := 5.
Definition MACH_PORT_DENAP_RECEIVER : Z := 6.
Definition MACH_PORT_INFO_EXT : Z := 7.
Definition MACH_PORT_LIMITS_INFO_COUNT : Z := 1.
Definition MACH_PORT_RECEIVE_STATUS_COUNT : Z := 10.
Definition MACH_PORT_DNREQUESTS_SIZE_COUNT : Z := 1.
Definition MACH_PORT_INFO_EXT_COUNT : Z := 17.

(** The information that a flavor gives, with the new value of [count]. *)
Inductive mach_port_info :=
  | InfoNone (count : Z)
  | InfoLimits (qlimit count : Z)
  | InfoStatus (status : mach_port_status) (count : Z)
  | InfoSize (size count : Z)
  | InfoExt (status : mach_port_status) (boost_cnt count : Z).

Definition mach_port_get_attributes (s name flavor count : Z) : M (Z + mach_port_info) :=
  if s =? IS_NULL then mret (inl KERN_INVALID_TASK)
  else if flavor =? MACH_PORT_LIMITS_INFO then
    if count <? MACH_PORT_LIMITS_INFO_COUNT then mret (inl KERN_FAILURE)
    else if negb (MACH_PORT_VALID name) then mret (inr (InfoNone 0))
    else with_receive s name (fun p =>
      x ← port p; ip_unlock p;; mret (inr (InfoLimits (imq_qlimit x) MACH_PORT_LIMITS_INFO_COUNT)))
  else if flavor =? MACH_PORT_RECEIVE_STATUS then
    if count <? MACH_PORT_RECEIVE_STATUS_COUNT then mret (inl KERN_FAILURE)
    else with_receive s name (fun p =>
      st ← mach_port_get_status_helper p;
      ip_unlock p;; mret (inr (InfoStatus st MACH_PORT_RECEIVE_STATUS_COUNT)))
  else if flavor =? MACH_PORT_DNREQUESTS_SIZE then
    if count <? MACH_PORT_DNREQUESTS_SIZE_COUNT then mret (inl KERN_FAILURE)
    else if negb (MACH_PORT_VALID name) then mret (inr (InfoSize 0 count))
    else with_receive s name (fun p =>
      x ← port p;
      size ← match ip_requests x with
             | None => mret 0
             | Some t => q ← request_size t; its_requests q
             end;
      ip_unlock p;; mret (inr (InfoSize size MACH_PORT_DNREQUESTS_SIZE_COUNT)))
  else if flavor =? MACH_PORT_INFO_EXT then
    if count <? MACH_PORT_INFO_EXT_COUNT then mret (inl KERN_FAILURE)
    else with_receive s name (fun p =>
      st ← mach_port_get_status_helper p;
      x ← port p;
      ip_unlock p;; mret (inr (InfoExt st (ip_impcount x) MACH_PORT_INFO_EXT_COUNT)))
  else mret (inl KERN_INVALID_ARGUMENT).

(** *** Setting attributes *)

Definition MACH_PORT_QLIMIT_MAX : Z := 1024.

(** The senders that the new limit lets in are woken up, each with a slot of the
    queue.  [imq_fullwaiters], which only the code that sends reads, is not part
    of the model. *)
Fixpoint qlimit_wakeup (n : nat) (p send_turnstile : Z) : M unit :=
  match n with
  | O => mret tt
  | S n =>
      if send_turnstile =? 0 then mret tt
      else
        woken ← callb "waitq_wakeup64_one" [send_turnstile];
        when woken
          (upd_port p (fun x => set_imq_msgcount (imq_msgcount x + 1) x);;
           qlimit_wakeup n p send_turnstile)
  end.

Definition ipc_mqueue_set_qlimit (p qlimit : Z) : M unit :=
  massert (qlimit <=? MACH_PORT_QLIMIT_MAX);;
  imq_lock p;;
  x ← port p;
  when (imq_qlimit x <? qlimit)
    (ts ← port_send_turnstile p; qlimit_wakeup (Z.to_nat (qlimit - imq_qlimit x)) p ts);;
  upd_port p (set_imq_qlimit qlimit);;
  imq_unlock p.

(** The assertions of the previous destination are dropped. *)
Definition tempowner_drop (release_imp_task assertcnt : Z) : M unit :=
  if negb (release_imp_task =? IIT_NULL) then
    rt ← callb "ipc_importance_task_is_any_receiver_type" [release_imp_task];
    massert rt;;
    when (0 <? assertcnt)
      (call_ "ipc_importance_task_drop_internal_assertion" [release_imp_task; assertcnt]);;
    call_ "ipc_importance_task_release" [release_imp_task]
  else when (0 <? assertcnt)
    (ev ← env;
     t ← call "task_imp_base" [e_current_task ev];
     when (negb (t =? IIT_NULL))
       (rt ← callb "ipc_importance_task_is_any_receiver_type" [t];
        when rt (call_ "ipc_importance_task_drop_internal_assertion" [t; assertcnt]))).

Definition set_tempowner (p : Z) : M (Z + unit) :=
  h ← io p; x ← port p;
  if io_is_kobject h || ip_specialreply x then ip_unlock p;; mret (inl KERN_INVALID_ARGUMENT)
  else
    let owned := ip_tempowner x && negb (ip_imp_task x =? IIT_NULL) in
    let release_imp_task := if owned then ip_imp_task x else IIT_NULL in
    let assertcnt := if owned || negb (ip_tempowner x) then ip_impcount x else 0 in
    when owned (upd_port p (set_ip_kobject IIT_NULL));;
    upd_port p (fun x => set_ip_tempowner true (set_ip_impdonation true x));;
    ip_unlock p;;
    tempowner_drop release_imp_task assertcnt;;
    mret (inr tt).

Definition set_receiver (p : Z) : M (Z + unit) :=
  h ← io p; x ← port p;
  if io_is_kobject h || ip_specialreply x then ip_unlock p;; mret (inl KERN_INVALID_ARGUMENT)
  else upd_port p (set_ip_impdonation true);; ip_unlock p;; mret (inr tt).

(** [info] is the limit of the queue or the size of the table of requests. *)
Definition mach_port_set_attributes (s name flavor info count : Z) : M (Z + unit) :=
  if s =? IS_NULL then mret (inl KERN_INVALID_TASK)
  else if flavor =? MACH_PORT_LIMITS_INFO then
    if count <? MACH_PORT_LIMITS_INFO_COUNT then mret (inl KERN_FAILURE)
    else if MACH_PORT_QLIMIT_MAX <? info then mret (inl KERN_INVALID_VALUE)
    else with_receive s name (fun p =>
      ipc_mqueue_set_qlimit p info;; ip_unlock p;; mret (inr tt))
  else if flavor =? MACH_PORT_DNREQUESTS_SIZE then
    if count <? MACH_PORT_DNREQUESTS_SIZE_COUNT then mret (inl KERN_FAILURE)
    else with_receive s name (fun p =>
      kr ← ipc_port_request_grow p info;
      mret (if negb (kr =? KERN_SUCCESS) then inl kr else inr tt))
  else if flavor =? MACH_PORT_TEMPOWNER then with_receive s name set_tempowner
  else if (flavor =? MACH_PORT_DENAP_RECEIVER) || (flavor =? MACH_PORT_IMPORTANCE_RECEIVER)
  then with_receive s name set_receiver
  else mret (inl KERN_INVALID_ARGUMENT).

(** The space gets a table of the given size. *)
Definition task_set_port_space (s table_entries : Z) : M Z :=
  if s =? IS_NULL then mret KERN_INVALID_TASK
  else
    is_write_lock s;;
    sp ← space s;
    if negb (is_active sp) then is_write_unlock s;; mret KERN_INVALID_TASK
    else
      kr ← ipc_entry_grow_table s table_entries;
      when (kr =? KERN_SUCCESS) (is_write_unlock s);;
      mret kr.

(** ** Guards *)

Definition MPG_STRICT : Z := 0x01.
Definition MPG_IMMOVABLE_RECEIVE : Z := 0x02.

(** The port is locked. *)
Definition mach_port_guard_locked (p guard flags : Z) : M Z :=
  x ← port p;
  if negb (ip_context x =? 0) then mret KERN_INVALID_ARGUMENT
  else
    imq_lock p;;
    upd_port p (fun x =>
      let x := set_ip_strict_guard (flag flags MPG_STRICT)
                 (set_ip_guarded true (set_ip_context guard x)) in
      if negb (ip_immovable_receive x)
      then set_ip_immovable_receive (flag flags MPG_IMMOVABLE_RECEIVE) x else x);;
    imq_unlock p;;
    mret KERN_SUCCESS.

Definition mach_port_unguard_locked (p name guard : Z) : M Z :=
  x ← port p;
  if negb (ip_guarded x) then
    mach_port_guard_exception name guard 0 kGUARD_EXC_UNGUARDED;;
    mret KERN_INVALID_ARGUMENT
  else if negb (ip_context x =? guard) then
    mach_port_guard_exception name guard (ip_context x) kGUARD_EXC_INCORRECT_GUARD;;
    mret KERN_INVALID_ARGUMENT
  else
    imq_lock p;;
    upd_port p (fun x => set_ip_strict_guard false (set_ip_guarded false (set_ip_context 0 x)));;
    imq_unlock p;;
    mret KERN_SUCCESS.

(** Runs [k] on the port of which [name] is the receive right; a name without
    one raises a guard exception. *)
Definition with_guarded (s name : Z) (k : Z -> M Z) : M Z :=
  if s =? IS_NULL then mret KERN_INVALID_TASK
  else if negb (MACH_PORT_VALID name) then mret KERN_INVALID_NAME
  else
    r ← ipc_port_translate_receive s name;
    match r with
    | inl kr =>
        mach_port_guard_exception name 0 0
          (if KERN_INVALID_NAME =? kr then kGUARD_EXC_INVALID_NAME else kGUARD_EXC_INVALID_RIGHT);;
        mret kr
    | inr p => k p
    end.

Definition mach_port_guard_with_flags (s name guard flags : Z) : M Z :=
  with_guarded s name (fun p =>
    kr ← mach_port_guard_locked p guard flags;
    ip_unlock p;;
    when (KERN_INVALID_ARGUMENT =? kr)
      (mach_port_guard_exception name 0 0 kGUARD_EXC_INVALID_ARGUMENT);;
    mret kr).

Definition mach_port_guard (s name guard : Z) (strict : bool) : M Z :=
  mach_port_guard_with_flags s name guard (if strict then MPG_STRICT else 0).

Definition mach_port_unguard (s name guard : Z) : M Z :=
  with_guarded s name (fun p =>
    kr ← mach_port_unguard_locked p name guard; ip_unlock p;; mret kr).

Definition mach_port_swap_guard (s name old_guard new_guard : Z) : M Z :=
  with_guarded s name (fun p =>
    x ← port p;
    if negb (ip_guarded x) then
      ip_unlock p;;
      mach_port_guard_exception name old_guard 0 kGUARD_EXC_UNGUARDED;;
      mret KERN_INVALID_ARGUMENT
    else if ip_strict_guard x then
      ip_unlock p;;
      mach_port_guard_exception name old_guard (ip_context x) kGUARD_EXC_SET_CONTEXT;;
      mret KERN_INVALID_ARGUMENT
    else if negb (ip_context x =? old_guard) then
      ip_unlock p;;
      mach_port_guard_exception name old_guard (ip_context x) kGUARD_EXC_INCORRECT_GUARD;;
      mret KERN_INVALID_ARGUMENT
    else
      imq_lock p;;
      upd_port p (set_ip_context new_guard);;
      imq_unlock p;;
      ip_unlock p;;
      mret KERN_SUCCESS).

(** ** Construction and destruction *)

Definition MPO_CONTEXT_AS_GUARD : Z := 0x01.
Definition MPO_QLIMIT : Z := 0x02.
Definition MPO_TEMPOWNER : Z := 0x04.
Definition MPO_IMPORTANCE_RECEIVER : Z := 0x08.
Definition MPO_INSERT_SEND_RIGHT : Z := 0x10.
Definition MPO_STRICT : Z := 0x20.
Definition MPO_DENAP_RECEIVER : Z := 0x40.
Definition MPO_IMMOVABLE_RECEIVE : Z := 0x80.
Definition MPO_FILTER_MSG : Z := 0x100.
Definition MPO_TG_BLOCK_TRACKING : Z := 0x200.

Definition TASK_POLICY_ROLE : Z := 0x2A.
Definition TASK_GRAPHICS_SERVER : Z := 4.

Record mach_port_options := mkOptions {
  mpo_flags : Z;
  mpo_qlimit : Z;
  work_interval_port : Z
}.

Definition mach_port_destruct (s name srdelta guard : Z) : M Z :=
  if s =? IS_NULL then mret KERN_INVALID_TASK
  else if negb (MACH_PORT_VALID name) then mret KERN_INVALID_NAME
  else
    r ← guarded_lookup s name;
    match r with
    | inl kr => mret kr
    | inr i => ipc_right_destruct s name i srdelta guard
    end.

(** The flags of the new port, [inl] when an option is refused. *)
Definition construct_init_flags (o : mach_port_options) : M (Z + Z) :=
  let init_flags :=
    Z.lor IPC_PORT_INIT_MESSAGE_QUEUE
      (Z.lor (if flag (mpo_flags o) MPO_INSERT_SEND_RIGHT then IPC_PORT_INIT_MAKE_SEND_RIGHT else 0)
        (if flag (mpo_flags o) MPO_FILTER_MSG then IPC_PORT_INIT_FILTER_MESSAGE else 0)) in
  if flag (mpo_flags o) MPO_TG_BLOCK_TRACKING then
    ev ← env;
    role ← call "proc_get_effective_task_policy" [e_current_task ev; TASK_POLICY_ROLE];
    if negb (role =? TASK_GRAPHICS_SERVER) then mret (inl KERN_DENIED)
    else
      render ← callb "work_interval_port_type_render_server" [work_interval_port o];
      if negb render then mret (inl KERN_INVALID_ARGUMENT)
      else mret (inr (Z.lor init_flags IPC_PORT_INIT_TG_BLOCK_TRACKING))
  else mret (inr init_flags).

(** The context of the new port, which is locked, and unlocked. *)
Definition construct_context (p context flags : Z) : M unit :=
  (if flag flags MPO_CONTEXT_AS_GUARD then
     kr ← mach_port_guard_locked p context
       (Z.lor (if flag flags MPO_STRICT then MPG_STRICT else 0)
              (if flag flags MPO_IMMOVABLE_RECEIVE then MPG_IMMOVABLE_RECEIVE else 0));
     massert (kr =? KERN_SUCCESS)
   else upd_port p (set_ip_context context));;
  ip_unlock p.

(** The attributes that the options ask for, in order. *)
Definition construct_attributes (o : mach_port_options) : list (Z * Z * Z) :=
  let attr opt a := if flag (mpo_flags o) opt then [a] else [] in
  attr MPO_QLIMIT (MACH_PORT_LIMITS_INFO, mpo_qlimit o, 1) ++
  attr MPO_TEMPOWNER (MACH_PORT_TEMPOWNER, 0, 0) ++
  attr MPO_IMPORTANCE_RECEIVER (MACH_PORT_IMPORTANCE_RECEIVER, 0, 0) ++
  attr MPO_DENAP_RECEIVER (MACH_PORT_DENAP_RECEIVER, 0, 0).

Fixpoint construct_set (s name : Z) (attrs : list (Z * Z * Z)) : M Z :=
  match attrs with
  | [] => mret KERN_SUCCESS
  | (flavor, info, count) :: attrs =>
      r ← mach_port_set_attributes s name flavor info count;
      match r with
      | inl kr => mret kr
      | inr _ => construct_set s name attrs
      end
  end.

(** Returns the name; a failure to set the attributes destroys the port again. *)
Definition mach_port_construct (s : Z) (o : mach_port_options) (context : Z) : M (Z + Z) :=
  if s =? IS_NULL then mret (inl KERN_INVALID_TASK)
  else
    fl ← construct_init_flags o;
    match fl with
    | inl kr => mret (inl kr)
    | inr init_flags =>
        r ← ipc_port_alloc s init_flags;
        match r with
        | inl kr => mret (inl kr)
        | inr (name, p) =>
            construct_context p context (mpo_flags o);;
            kr ← construct_set s name (construct_attributes o);
            if kr =? KERN_SUCCESS then mret (inr name)
            else
              mach_port_destruct s name
                (if flag (mpo_flags o) MPO_INSERT_SEND_RIGHT then -1 else 0) context;;
              mret (inl kr)
        end
    end.
