(* ===== verification/IpcObjectCopyin.v ===== *)
(** * Rights that go into a message (ipc/ipc_object.c, ipc_object_copyin)

    [ipc_object_copyin] looks a name up, takes the right for the message out of the
    entry ([ipc_right_copyin]), gives an emptied entry back, and releases what the
    right left behind.  The names of a space are looked up with
    [ipc_right_lookup_write], whose contract the other entry points share. *)

From S2P Require Import Prelude IpcTypes IpcBits IpcHash IpcTable KernelState Kernel IpcFreelist IpcEntry IpcEntryInv IpcGrow IpcAlloc IpcPort IpcRight IpcHeld IpcRights IpcNaked IpcRequests IpcRightCheck IpcRightLive IpcRightDealloc IpcCopyin IpcObject.

(** ** Looking up a name *)

(** Entry [i] of space [s] has the right [a] under [name]. *)
Definition named (R : rights) (s name i : Z) (a : right) : Prop :=
  R !! (s, i) = Some a /\ name = entry_name i (r_bits a).

Section lookup.
Context {X : gset (Z * Z)} {n : naked} {R : rights} {w : world} (I : inv_with X n R w).
Context {s : Z} {sp : ipc_space} (Hs : w_space w !! s = Some sp) (Hsa : is_active sp = true).

Lemma space_nonzero : (s =? 0) = false.
Proof.
  destruct I as [S _]. pose proof (si_null _ _ _ _ S) as Hz. apply Z.eqb_neq. intros E.
  change IS_NULL with 0 in Hz. rewrite <- E in Hz. unfold active_in in Hz. by rewrite Hs, Hsa in Hz.
Qed.

(** The lookup finds exactly the entries with a right. *)
Lemma wp_entry_lookup name w1 (Q : option Z -> world -> Prop) :
  0 <= name < 2 ^ 32 -> w_space w1 = w_space w ->
  (forall i a, named R s name i a -> Q (Some i) w1) ->
  ((forall i a, ~ named R s name i a) -> Q None w1) ->
  wp (entry_lookup s name) Q w1.
Proof.
  intros Hn Hw HS HN. destruct I as [S _].
  destruct (si_space _ _ _ _ S s sp Hs Hsa) as (l & Hr & _).
  destruct (lookup_ok sp l name) as (r & Hl & Hex); [apply Hr|done|done|].
  assert (Hright : forall i e, aget (is_table sp) i = Some e -> IE_BITS_TYPE (ie_bits e) <> MACH_PORT_TYPE_NONE ->
    R !! (s, i) = Some (mkRight (ie_object e) (ie_bits e) (ie_request e))).
  { intros i e He Ht. rewrite (si_rights _ _ _ _ S). unfold right_at. rewrite Hs. simpl. rewrite He. simpl.
    by rewrite (proj2 (Z.eqb_neq _ _) Ht). }
  unfold entry_lookup. apply wp_bind. eapply wp_space; [by rewrite Hw|].
  eapply wp_deref; [exact Hl|]. destruct r as [i|].
  - destruct (proj1 (Hex i) eq_refl) as (e & He & Ht & Hnm).
    eapply HS. split; [by apply Hright|done].
  - apply HN. intros i a [Ha Hnm]. destruct (space_hold S s sp Hs Hsa i a Ha) as (l1 & H1 & _).
    destruct (hd_entry _ _ _ _ _ _ _ _ _ H1) as (d & y & He).
    assert (Ht : IE_BITS_TYPE (r_bits a) <> MACH_PORT_TYPE_NONE).
    { rewrite (si_rights _ _ _ _ S) in Ha. unfold right_at in Ha. rewrite Hs in Ha. simpl in Ha. rewrite He in Ha.
      simpl in Ha. intros E. by rewrite E in Ha. }
    assert (None = Some i) as [=]. apply Hex. by eexists.
Qed.

Lemma wp_right_lookup_write name (Q : Z + Z -> world -> Prop) :
  0 <= name < 2 ^ 32 -> LSpace s ∉ w_locks w ->
  ((forall i a, ~ named R s name i a) -> Q (inl KERN_INVALID_NAME) w) ->
  (forall i a, named R s name i a -> Q (inr i) (set_w_locks ({[LSpace s]} ∪ w_locks w) w)) ->
  wp (ipc_right_lookup_write s name) Q w.
Proof.
  intros Hn Hl HN HS. pose proof space_nonzero as H0. pose proof wp_entry_lookup as Hlook.
  unfold ipc_right_lookup_write. apply wp_bind, wp_massert; [by rewrite H0|].
  unfold is_write_lock. apply wp_bind. apply wp_lock; [done|].
  apply wp_bind. eapply wp_space; [exact Hs|]. rewrite Hsa. cbn [negb].
  apply wp_bind, Hlook; [done|done|..].
  - intros i a Hi. apply wp_ret. by apply (HS i a).
  - intros Hi. unfold is_write_unlock. apply wp_bind, wp_unlock; [simpl; set_solver|]. apply wp_ret.
    specialize (HN Hi). destruct w. unfold set_w_locks. simpl. by rewrite unlock_again.
Qed.
End lookup.

(** ** The emptied entry is given back *)

Lemma wp_give_back {X n R s i name w} (Q : unit -> world -> Prop) :
  (s, i) ∉ X -> inv_with ({[(s, i)]} ∪ X) n (put (s, i) None R) w ->
  limbo_at ({[(s, i)]} ∪ X) s i name w ->
  (forall sp', inv_with X n (put (s, i) None R) (set_w_space (<[s := sp']> (w_space w)) w) ->
     Q tt (set_w_space (<[s := sp']> (w_space w)) w)) ->
  wp (entry_dealloc s name i) Q w.
Proof.
  intros HX [S O] (sp & l & b & Hs & H & Htb & Hbt & Hn) HQ.
  eapply wp_held_dealloc; [done|exact H|done..|]. intros sp' Hf. apply HQ.
  apply (inv_finish _ _ _ w _ s sp sp'); try done; [apply (fr_same _ _ _ _ _ Hf)|].
  assert (Hput : put (s, i) None (put (s, i) None R) = put (s, i) None R).
  { apply map_eq. intros k. destruct (decide (k = (s, i))) as [->|]; by rewrite ?put_eq, ?put_ne. }
  rewrite <- Hput.
  apply (space_step_freed S s sp Hs (hd_active _ _ _ _ _ _ _ _ _ H) i None sp' X ltac:(set_solver) l Htb); try done.
  apply H.
Qed.

(** ** The whole routine *)

(** The naked rights once the reference of a dead port has been released. *)
Definition released (release : Z) (n : naked) : naked :=
  if release =? IP_NULL then n else give release 0 0 0 (-1) n.

Definition object_copyin_flags (kmsg_flags : Z) : Z :=
  Z.lor IPC_RIGHT_COPYIN_FLAGS_DEADOK
    (if flag kmsg_flags IPC_KMSG_FLAGS_ALLOW_IMMOVABLE_SEND
     then IPC_RIGHT_COPYIN_FLAGS_ALLOW_IMMOVABLE_SEND else 0).

(** The name is unknown, or its right has been taken as [copyin_spec] says. *)
Definition object_copyin_post (n : naked) (R : rights) (w : world) (s name msgt context : Z)
    (gf : option Z) (kflags : Z) (r : Z * Z * option Z) (w' : world) : Prop :=
  w_locks w' = w_locks w /\ w_env w' = w_env w /\
  ((r.1 = (KERN_INVALID_NAME, IO_NULL) /\ (forall i a, ~ named R s name i a) /\ inv_with ∅ n R w') \/
   exists i a x h extra release a' n1, named R s name i a /\ port_of msgt w a x h /\
     copyin_spec msgt (object_copyin_flags kflags) context gf x h extra a n
       = (r.1.1, r.1.2, release, a', n1) /\
     inv_with ∅ (released release n1) (put (s, i) a' R) w').

(** The port of the right that [name] denotes, if any, is fit for the disposition. *)
Definition copyin_ready (msgt : Z) (R : rights) (w : world) (s name : Z) : Prop :=
  forall i a, named R s name i a -> exists x h, port_of msgt w a x h.

(** What copyin has to release is a reference that it got from the entry. *)
Lemma copyin_spec_release msgt flags context gf x h extra a n kr o rl a' n1 :
  copyin_spec msgt flags context gf x h extra a n = (kr, o, rl, a', n1) -> rl <> IP_NULL ->
  n1 = give rl 0 0 0 1 n.
Proof.
  unfold copyin_spec, copyin_make, copyin_receive, copyin_sends, copyin_dead.
  repeat case_match; intros [=]; by subst.
Qed.

Section copyin.
Context {n : naked} {R : rights} {w : world} (I : inv_with ∅ n R w).
Context {s : Z} {sp : ipc_space} (Hs : w_space w !! s = Some sp) (Hsa : is_active sp = true).
Context (Hlk : w_locks w = ∅).

(** The entry is given back when it is empty. *)
Lemma wp_entry_back {A} i name a' n' w1 (k : M A) (Q : A -> world -> Prop) :
  inv_with (emptied (s, i) a' ∅) n' (put (s, i) a' R) w1 ->
  (a' = None -> limbo_at ({[(s, i)]} ∪ ∅) s i name w1) ->
  (forall sps, inv_with ∅ n' (put (s, i) a' R) (set_w_space sps w1) -> wp k Q (set_w_space sps w1)) ->
  wp (e ← entry s i;
      when (IE_BITS_TYPE (ie_bits e) =? MACH_PORT_TYPE_NONE) (entry_dealloc s name i);; k) Q w1.
Proof.
  intros I1 Hlim HQ. destruct a' as [a'|]; cbn [emptied] in I1.
  - destruct (I1) as [S _]. pose proof (si_rights _ _ _ _ S s i) as Hr. rewrite put_eq in Hr. unfold right_at in Hr.
    destruct (w_space w1 !! s) as [sp1|] eqn:Hs1; [|done]. simpl in Hr.
    destruct (aget (is_table sp1) i) as [e|] eqn:He; [|done]. simpl in Hr.
    destruct (IE_BITS_TYPE (ie_bits e) =? MACH_PORT_TYPE_NONE) eqn:Ht; [done|].
    apply wp_bind. eapply wp_entry; [done..|]. rewrite Ht. cbn [when]. apply wp_bind, wp_ret.
    specialize (HQ (w_space w1)). destruct w1. by apply HQ.
  - destruct (Hlim eq_refl) as (sp1 & l & b & Hs1 & H & _ & Hbt & _).
    apply wp_bind. eapply wp_held_entry; [exact Hs1|exact H|]. intros d y. cbn [ie_bits]. rewrite Hbt. cbn [when].
    apply wp_bind. change (MACH_PORT_TYPE_NONE =? MACH_PORT_TYPE_NONE) with true. cbn [when].
    eapply wp_give_back; [|exact I1|by apply Hlim|]; [set_solver|]. intros sp' I2. by apply HQ.
Qed.

(** The rest of the routine, once the right has been taken. *)
Lemma wp_copyin_rest i name c a' n' n1 rl w1 (Q : (Z * Z * option Z) -> world -> Prop) :
  ci_release c = rl -> n' ≡ n1 -> (rl <> IP_NULL -> n1 = give rl 0 0 0 1 n) ->
  inv_with (emptied (s, i) a' ∅) n' (put (s, i) a' R) w1 ->
  (a' = None -> limbo_at ({[(s, i)]} ∪ ∅) s i name w1) ->
  w_locks w1 = {[LSpace s]} -> w_env w1 = w_env w ->
  (forall w', inv_with ∅ (released rl n1) (put (s, i) a' R) w' -> w_locks w' = ∅ -> w_env w' = w_env w ->
     Q (ci_kr c, ci_object c, ci_guard_flags c) w') ->
  wp (e ← entry s i;
      when (IE_BITS_TYPE (ie_bits e) =? MACH_PORT_TYPE_NONE) (entry_dealloc s name i);;
      is_write_unlock s;;
      ev ← env;
      when (0 <? ci_assertcnt c)
        (t ← call "task_imp_base" [e_current_task ev];
         rt ← callb "ipc_importance_task_is_any_receiver_type" [t];
         when rt (call_ "ipc_importance_task_drop_internal_assertion" [t; ci_assertcnt c]));;
      when (negb (ci_release c =? IP_NULL)) (ip_release (ci_release c));;
      when ((ci_kr c =? KERN_SUCCESS) && negb (ci_soright c =? IP_NULL))
        (ipc_notify_port_deleted (ci_soright c) name);;
      mret (ci_kr c, ci_object c, ci_guard_flags c)) Q w1.
Proof.
  intros Hrl En Hn1 I1 Hlim Hlk1 Hen1 HQ. apply (wp_entry_back i name a' n'); [done|done|].
  intros sps I2. set (w2 := set_w_space sps w1) in *.
  assert (Hlk2 : w_locks w2 = {[LSpace s]}) by done. assert (Hen2 : w_env w2 = w_env w) by done.
  clearbody w2. clear I1 Hlim Hlk1 Hen1. rewrite En in I2.
  apply wp_bind. unfold is_write_unlock. apply wp_unlock; [set_solver|].
  apply wp_bind, wp_env.
  assert (Himp : forall tr, wp
     (when (negb (ci_release c =? IP_NULL)) (ip_release (ci_release c));;
      when ((ci_kr c =? KERN_SUCCESS) && negb (ci_soright c =? IP_NULL))
        (ipc_notify_port_deleted (ci_soright c) name);;
      mret (ci_kr c, ci_object c, ci_guard_flags c)) Q
     (set_w_trace tr (set_w_locks (w_locks w2 ∖ {[LSpace s]}) w2))).
  { intros tr. rewrite Hrl. unfold released in HQ. apply wp_bind.
    assert (Hend : forall w3, inv_with ∅ (if rl =? IP_NULL then n1 else give rl 0 0 0 (-1) n1) (put (s, i) a' R) w3 ->
      w_locks w3 = ∅ -> w_env w3 = w_env w -> wp
      (when ((ci_kr c =? KERN_SUCCESS) && negb (ci_soright c =? IP_NULL))
        (ipc_notify_port_deleted (ci_soright c) name);;
       mret (ci_kr c, ci_object c, ci_guard_flags c)) Q w3).
    { intros w3 I3 Hlk3 Hen3. apply wp_bind, wp_when_call. intros tr3. apply wp_ret. by apply HQ. }
    assert (Hls : {[LSpace s]} ∖ {[LSpace s]} = (∅ : gset klock)) by set_solver.
    apply wp_when; intros Hz.
    - apply negb_true_iff in Hz. rewrite Hz in Hend. apply Z.eqb_neq in Hz. rewrite (Hn1 Hz) in *.
      pose proof (naked_inv I rl) as (? & ? & ? & ?). assert (Hh : exists h, w_io w2 !! rl = Some h).
      { destruct (w_io w2 !! rl) as [h|] eqn:E; [by exists h|]. destruct I2 as [_ O].
        apply (oi_none _ _ _ _ _ _ O) in E. simpl in E. rewrite bump_eq in E. lia. }
      destruct Hh as [h Hh]. apply (wp_io_release (w := set_w_trace tr (set_w_locks _ w2)) I2 rl h Hh).
      + simpl. rewrite !bump_eq. lia.
      + intros w3 I3 [_ Elk Een _ _ _]. apply Hend; [done|rewrite Elk; simpl; by rewrite Hlk2|by rewrite Een].
    - apply negb_false_iff in Hz. rewrite Hz in Hend. apply Hend; [done|simpl; by rewrite Hlk2|done]. }
  apply wp_bind. apply wp_when; intros _.
  - wp_steps. apply wp_when_call. intros tr. apply Himp.
  - specialize (Himp (w_trace w2)). by destruct w2.
Qed.

Context (Hsm : small_table sp) (Hu : user_space w s).

Lemma wp_object_copyin name msgt context gf kflags :
  0 <= name < 2 ^ 32 -> copyin_ready msgt R w s name ->
  wp (ipc_object_copyin s name msgt context gf kflags)
    (object_copyin_post n R w s name msgt context gf kflags) w.
Proof.
  intros Hname Hport. pose proof wp_copyin_rest as Hrest.
  unfold ipc_object_copyin. fold (object_copyin_flags kflags). apply wp_bind.
  apply (wp_right_lookup_write I Hs Hsa name); [done|rewrite Hlk; set_solver|..].
  - intros Hno. apply wp_ret. split_and!; auto.
  - intros i a Hna. destruct (Hna) as [Ha Hnm]. destruct (Hport i a Hna) as (x & h & Hp).
    rewrite Hlk. set (w0 := set_w_locks _ w).
    assert (Hat : at_right ∅ n R w0 s i a name).
    { split; [exact I|by exists sp|done|done|simpl; set_solver]. }
    apply wp_bind. eapply wp_mono; [apply (wp_right_copyin Hat msgt _ context gf x h Hp Hu)|].
    intros c w1 (a' & n' & (extra & n1 & En & Hspec & _ & _) & I1 & Hlim & Hlk1 & Hen1). simpl in Hlk1.
    eapply (Hrest i name c a' n' n1 _ w1); try done.
    + by eapply copyin_spec_release.
    + rewrite Hlk1. set_solver.
    + intros w' I' Hlk' Hen'. split; [by rewrite Hlk'|]. split; [done|]. right.
      by exists i, a, x, h, extra, (ci_release c), a', n1.
Qed.
End copyin.

(** C8.  ipc_object_copyin by a user's thread from an active space that is not the
    kernel's and has at most 4096 entries (so that no hash distance saturates), for
    any name and disposition, where the port that the name denotes, if it denotes
    one, has room for one more reference and, when its receive right is moved,
    meets the routine's assertion that a port that is no kernel object and has no
    temporary owner has no importance attached: the routine
    does not panic; a name that denotes no right gives KERN_INVALID_NAME and
    changes nothing; otherwise the right of the name is made, copied or moved as
    [copyin_spec] says, an entry that has lost its last right is given back to
    the free list, the reference to a port that was found dead is released, and
    the invariant of all spaces and ports holds with no lock held. *)
Theorem object_copyin_ok n R w s sp name msgt context gf kflags :
  inv_with ∅ n R w -> w_space w !! s = Some sp -> is_active sp = true -> small_table sp -> w_locks w = ∅ ->
  user_space w s -> 0 <= name < 2 ^ 32 -> copyin_ready msgt R w s name ->
  wp (ipc_object_copyin s name msgt context gf kflags)
    (object_copyin_post n R w s name msgt context gf kflags) w.
Proof. intros. by eapply wp_object_copyin. Qed.
