(* ===== verification/IpcObjectAlloc.v ===== *)
(** * New entries, objects and ports against the invariant (ipc/ipc_object.c, ipc/ipc_port.c)

    [ipc_entry_alloc] keeps the rights of all spaces; its entry is in limbo
    until it gets a type.  [ipc_object_alloc] and [ipc_port_alloc] give a new
    right to a new object, and the counts of the new port are those of the
    invariant of [IpcRights]. *)

From S2P Require Import Prelude IpcTypes IpcBits IpcHash IpcTable KernelState Kernel IpcFreelist IpcSpaceInit IpcEntry IpcEntryInv IpcGrow IpcAlloc IpcAllocName IpcPort IpcRight IpcHeld IpcRights IpcNaked IpcRightCheck IpcRightDealloc IpcObject.

(** ** The bits of a new right *)

Section new_bits.
Context (b v : Z) (Hb : gen_ok b).

Lemma new_type : IE_BITS_TYPE (Z.lor b v) = IE_BITS_TYPE v.
Proof.
  pose proof (gen_ok_type b Hb) as E. unfold IE_BITS_TYPE in *. by rewrite Z.land_lor_distr_l, E.
Qed.

Lemma new_urefs : IE_BITS_UREFS (Z.lor b v) = IE_BITS_UREFS v.
Proof.
  pose proof (gen_ok_urefs b Hb) as E. unfold IE_BITS_UREFS in *. by rewrite Z.land_lor_distr_l, E.
Qed.

Lemma new_gen_roll : gen_roll v = 0 -> gen_roll (Z.lor b v) = gen_roll b.
Proof. unfold gen_roll. intros E. by rewrite Z.land_lor_distr_l, E, Z.lor_0_r. Qed.
End new_bits.

(** ** Entries *)

(** The entries without a type are those in [X]. *)
Definition limbo_in (X : gset (Z * Z)) (s : Z) (sp : ipc_space) (l : list Z) : Prop :=
  forall j e, j ∉ 0 :: l -> aget (is_table sp) j = Some e ->
    IE_BITS_TYPE (ie_bits e) = MACH_PORT_TYPE_NONE ->
    (s, j) ∈ X /\ IE_BITS_UREFS (ie_bits e) = 0 /\ ie_request e = IE_REQ_NONE.

Lemma free_right_none spaces s sp l j :
  spaces !! s = Some sp -> space_wf sp l -> j ∈ 0 :: l \/ alen (is_table sp) <= j \/ j < 0 ->
  right_at spaces s j = None.
Proof.
  intros Hs W Hj. unfold right_at. rewrite Hs. simpl.
  destruct (aget (is_table sp) j) as [e|] eqn:He; [|done]. simpl.
  destruct Hj as [[->|Hj]%elem_of_cons|Hj].
  - destruct (sw_head _ _ W) as (h & Hh & _ & Hb). simplify_eq. by rewrite Hb.
  - by rewrite gen_ok_type by apply (sw_free _ _ W j e Hj He).
  - apply aget_Some_range in He. lia.
Qed.

Section entry_alloc.
Context {sizes : list Z} {X : gset (Z * Z)} {spaces : gmap Z ipc_space} {R : rights}.
Context (S : space_inv sizes X spaces R).
Context (s : Z) (sp sp' : ipc_space) (l l' taken : list Z) (X' : gset (Z * Z)).
Context (Hs : spaces !! s = Some sp) (Hr : space_ready sizes sp l) (Hty : limbo_in X s sp l).
Context (Hr' : space_ready sizes sp' l').
Context (Hk : entries_kept l (is_table sp) (is_table sp')).
Context (Hf : free_kept taken l (is_table sp) l' (is_table sp')).
Context (HX : X ⊆ X').
Context (Hnew : forall j e, j ∈ taken -> j ∈ 0 :: l \/ alen (is_table sp) <= j ->
  aget (is_table sp') j = Some e -> (s, j) ∈ X' /\
  IE_BITS_TYPE (ie_bits e) = MACH_PORT_TYPE_NONE /\ IE_BITS_UREFS (ie_bits e) = 0 /\
  ie_request e = IE_REQ_NONE).

(** An entry was in use before, is free, or has been taken and is empty. *)
Lemma alloc_cases j e :
  aget (is_table sp') j = Some e ->
  (exists e0, (j ∉ 0 :: l) /\ aget (is_table sp) j = Some e0 /\ set_ie_hash 0 0 e = set_ie_hash 0 0 e0)
  \/ ((j ∈ 0 :: l \/ alen (is_table sp) <= j) /\
      (j ∈ 0 :: l' \/ (s, j) ∈ X' /\ IE_BITS_TYPE (ie_bits e) = MACH_PORT_TYPE_NONE /\
         IE_BITS_UREFS (ie_bits e) = 0 /\ ie_request e = IE_REQ_NONE)).
Proof.
  intros He. apply aget_Some_range in He as Hrange.
  destruct (decide (j ∈ 0 :: l)) as [Hl|Hl]; [right; split; [by left|]|].
  - destruct (decide (j ∈ 0 :: l')) as [|Hl']; [by left|]. right.
    destruct (Hf j Hl' Hrange) as [Ht|[? _]]; [|done]. apply Hnew; auto.
  - destruct (decide (j < alen (is_table sp))) as [Hj|Hj].
    + left. destruct (aget_lt_Some (is_table sp) j) as [e0 He0]; [lia|]. exists e0.
      destruct (Hk j e0 Hl He0) as (e1 & He1 & E). rewrite He in He1. injection He1 as <-. done.
    + right. split; [right; lia|]. destruct (decide (j ∈ 0 :: l')) as [|Hl']; [by left|]. right.
      destruct (Hf j Hl' Hrange) as [Ht|[_ ?]]; [|lia]. apply Hnew; auto. right. lia.
Qed.

Lemma alloc_right j : right_at (<[s := sp']> spaces) s j = right_at spaces s j.
Proof.
  pose proof (sr_wf _ _ _ Hr) as W. pose proof (sr_wf _ _ _ Hr') as W'.
  destruct (aget (is_table sp') j) as [e|] eqn:He.
  - destruct (alloc_cases j e He) as [(e0 & Hl & He0 & E)|[Hold Hnow]].
    + apply (right_at_ext _ _ _ sp sp'); [done|apply lookup_insert_eq|]. rewrite He, He0. simpl.
      by rewrite E.
    + rewrite (free_right_none spaces s sp l) by (done || tauto). destruct Hnow as [Hj|(_ & Ht & _)].
      * apply (free_right_none _ s sp' l'); [apply lookup_insert_eq|done|by left].
      * unfold right_at. rewrite lookup_insert_eq. simpl. rewrite He. simpl. by rewrite Ht.
  - transitivity (@None right); [unfold right_at; rewrite lookup_insert_eq; simpl; by rewrite He|].
    destruct (decide (j ∈ 0 :: l)); [symmetry; apply (free_right_none _ _ sp l); auto|].
    unfold right_at. rewrite Hs. simpl. destruct (aget (is_table sp) j) as [e0|] eqn:He0; [|done].
    destruct (Hk j e0) as (e1 & He1 & _); [done..|]. congruence.
Qed.

Lemma alloc_limbo : limbo_in X' s sp' l'.
Proof.
  intros j e Hl He Ht. destruct (alloc_cases j e He) as [(e0 & Hl0 & He0 & (_ & Eb & En)%strip_eq)|[_ [?|?]]];
    [|done|tauto].
  rewrite Eb, En in *. destruct (Hty j e0 Hl0 He0 Ht) as (? & ?). split; [set_solver|done].
Qed.

Lemma alloc_active q : active_in (<[s := sp']> spaces) q = active_in spaces q.
Proof.
  unfold active_in. destruct (decide (s = q)) as [<-|]; [|by rewrite lookup_insert_ne].
  by rewrite lookup_insert_eq, Hs, (sr_active _ _ _ Hr), (sr_active _ _ _ Hr').
Qed.

Lemma space_inv_alloc : space_inv sizes X' (<[s := sp']> spaces) R.
Proof.
  split.
  - intros q j. rewrite (si_rights _ _ _ _ S). destruct (decide (q = s)) as [->|].
    + by rewrite alloc_right.
    + unfold right_at. by rewrite lookup_insert_ne.
  - intros q spq. destruct (decide (s = q)) as [<-|].
    + rewrite lookup_insert_eq. intros [= <-] _. exists l'. split; [done|].
      apply alloc_limbo.
    + rewrite lookup_insert_ne by done. intros H1 H2.
      destruct (si_space _ _ _ _ S q spq H1 H2) as (l1 & ? & Hty1).
      exists l1. split; [done|]. intros j e Hj He Ht.
      destruct (Hty1 j e Hj He Ht). split; [set_solver|done].
  - apply S.
  - rewrite alloc_active. apply S.
Qed.
End entry_alloc.

(** [ipc_entry_alloc]: the rights are the same; the new entry is held, in limbo. *)
Lemma wp_alloc_limbo {X R} s sp (Q : Z + (Z * Z) -> world -> Prop) w :
  let sizes := e_table_entries (w_env w) in
  space_inv sizes X (w_space w) R ->
  w_space w !! s = Some sp -> is_active sp = true -> LSpace s ∉ w_locks w ->
  (forall kr w' sp', kr = KERN_NO_SPACE \/ kr = KERN_RESOURCE_SHORTAGE ->
     is_active sp' = true -> only_space s sp' (w_locks w) w w' ->
     space_inv sizes X (w_space w') R -> Q (inl kr) w') ->
  (forall i b w' sp' l', R !! (s, i) = None -> gen_ok b ->
     only_space s sp' ({[LSpace s]} ∪ w_locks w) w w' ->
     space_inv sizes ({[(s, i)]} ∪ X) (w_space w') R ->
     held sizes sp' l' i false IO_NULL b IE_REQ_NONE sp' ->
     limbo_in ({[(s, i)]} ∪ X) s sp' l' -> Q (inr (entry_name i b, i)) w') ->
  wp (ipc_entry_alloc s) Q w.
Proof.
  intros sizes HS Hs Ha Hlk Qfail Qok.
  destruct (si_space _ _ _ _ HS s sp Hs Ha) as (l & Hr & Hty).
  eapply wp_mono; [by apply (wp_entry_alloc s w sp l)|].
  intros r w' (sp' & l' & Hr' & Hk & H).
  pose proof (sw_len _ _ (sr_wf _ _ _ Hr)) as Hlen. destruct r as [kr|[name i]].
  - destruct H as (Hkr & Hf & Hos). simpl in Hos. rewrite unlock_again in Hos by done.
    apply (Qfail kr w' sp'); [done|apply Hr'|by destruct Hos|].
    rewrite (os_space _ _ _ _ _ Hos). apply (space_inv_alloc HS s sp sp' l l' [] X); try done.
    intros j e ?%not_elem_of_nil. done.
  - destruct H as (Hi & (Hil & e & He & Ho & Hrq & Hg & ->) & Hf & Hos). simpl in Hos.
    assert (Hnew : forall j e0, j ∈ [i] -> j ∈ 0 :: l \/ alen (is_table sp) <= j ->
      aget (is_table sp') j = Some e0 -> (s, j) ∈ {[(s, i)]} ∪ X /\
      IE_BITS_TYPE (ie_bits e0) = MACH_PORT_TYPE_NONE /\ IE_BITS_UREFS (ie_bits e0) = 0 /\
      ie_request e0 = IE_REQ_NONE).
    { intros j e0 ->%list_elem_of_singleton _ He0. rewrite He in He0. injection He0 as <-.
      split; [set_solver|]. split; [by apply gen_ok_type|]. by rewrite gen_ok_urefs. }
    apply (Qok i (ie_bits e) w' sp' l'); [|done|by destruct Hos| | |].
    + rewrite (si_rights _ _ _ _ HS). apply (free_right_none _ s sp l); [done|apply Hr|].
      rewrite Hlen. destruct Hi; [left; set_solver|auto].
    + rewrite (os_space _ _ _ _ _ Hos). apply (space_inv_alloc HS s sp sp' l l' [i]); try done.
      set_solver.
    + pose proof (held_intro _ l' i e sp' Hr' Hil He) as Hh.
      by rewrite Ho, Hrq, entry_hashed_null in Hh by done.
    + apply (alloc_limbo HS s sp sp' l l' [i]); try done. set_solver.
Qed.

(** ** Objects *)

(** Memory that the zone allocator can give: no object is there. *)
Definition fresh_object (w : world) (o : Z) : Prop :=
  w_io w !! o = None /\ w_port w !! o = None /\ (LObject o ∉ w_locks w) /\ o <> IO_DEAD.

(** The next allocation from the zone of [otype] gives nothing, or memory that is
    not in use. *)
Definition zone_ok (otype : Z) (w : world) : Prop :=
  let o := e_ext (w_env w) (w_trace w) "zalloc" [otype] in o <> IO_NULL -> fresh_object w o.

Definition new_ports (otype o : Z) (ports : gmap Z ipc_port) : gmap Z ipc_port :=
  if otype =? IOT_PORT then <[o := ip_zero]> ports else ports.

Lemma new_ports_delete otype o ports :
  ports !! o = None -> delete o (new_ports otype o ports) = ports.
Proof.
  intros H. unfold new_ports. destruct (otype =? IOT_PORT); [by rewrite delete_insert_id|].
  by rewrite delete_id.
Qed.

Lemma wp_io_alloc otype (Q : Z -> world -> Prop) w :
  zone_ok otype w ->
  (forall tr, Q IO_NULL (set_w_trace tr w)) ->
  (forall o tr, o <> IO_NULL -> fresh_object w o ->
     Q o (set_w_trace tr (set_w_port (new_ports otype o (w_port w))
       (set_w_io (<[o := mkObject 0 0]> (w_io w)) w)))) ->
  wp (io_alloc otype) Q w.
Proof.
  intros Hz Qnull Qok. unfold zone_ok in Hz. unfold io_alloc. wp_step. wp_step.
  set (o := e_ext _ _ _ _) in *. specialize (Qok o). wstart w. clearbody o.
  destruct (Z.eqb_spec o IO_NULL) as [->|Ho]; wp_steps; [apply Qnull|].
  specialize (Qok (Call "zalloc" [otype] :: wtrace) Ho (Hz Ho)). unfold new_ports in Qok.
  destruct (otype =? IOT_PORT); wp_steps; exact Qok.
Qed.

(** An object that has just been allocated is freed again. *)
Lemma wp_io_free_new otype o (Q : unit -> world -> Prop) w io ports :
  w_io w = <[o := mkObject 0 0]> io -> w_port w = new_ports otype o ports ->
  io !! o = None -> ports !! o = None ->
  (forall tr, Q tt (set_w_trace tr (set_w_port ports (set_w_io io w)))) ->
  wp (io_free otype o) Q w.
Proof.
  intros Hio Hpo Ho Hp HQ. unfold io_free. apply wp_bind.
  assert (Hend : forall ports' tr, delete o ports' = ports ->
    wp (modify (fun w => set_w_port (delete o (w_port w)) (set_w_io (delete o (w_io w)) w))) Q
      (set_w_trace tr (set_w_port ports' w))).
  { intros ports' tr Hd. apply wp_modify. simpl. rewrite Hd, Hio, delete_insert_id by done.
    specialize (HQ tr). by destruct w. }
  apply wp_when; intros Ht.
  - eapply (wp_port_finalize o ip_zero (mkObject 0 0)); try done.
    + rewrite Hpo. unfold new_ports. rewrite Ht. apply lookup_insert_eq.
    + rewrite Hio. apply lookup_insert_eq.
    + intros ports' tr Hd. apply Hend. by rewrite Hd, Hpo, new_ports_delete.
  - specialize (Hend (w_port w) (w_trace w)). rewrite Hpo, new_ports_delete in Hend by done.
    rewrite <- Hpo in Hend. specialize (Hend eq_refl). by destruct w.
Qed.

(** What [ipc_object_alloc] gives: a right with the bits [v] to the new object. *)
Record object_alloced (X : gset (Z * Z)) (R : rights) (w : world) (s otype v : Z) (i b o : Z)
    (w' : world) : Prop := {
  oa_fresh : fresh_object w o;
  oa_null : o <> IO_NULL;
  oa_none : R !! (s, i) = None;
  oa_gen : gen_ok b;
  oa_spaces : space_inv (e_table_entries (w_env w)) X (w_space w')
    (put (s, i) (Some (mkRight o (Z.lor b v) IE_REQ_NONE)) R);
  oa_space : exists sp', is_active sp' = true /\ w_space w' = <[s := sp']> (w_space w);
  oa_io : w_io w' = <[o := mkObject (io_makebits true otype 0) 1]> (w_io w);
  oa_port : w_port w' = new_ports otype o (w_port w);
  oa_locks : w_locks w' = {[LObject o]} ∪ ({[LSpace s]} ∪ w_locks w);
  oa_env : w_env w' = w_env w;
  oa_assertions : w_assertions w' = w_assertions w
}.

(** The bits of a new right: a type that is not hashed, and references. *)
Record new_bits_ok (v : Z) : Prop := {
  nb_gen : gen_roll v = 0;
  nb_none : IE_BITS_TYPE v <> MACH_PORT_TYPE_NONE;
  nb_send : IE_BITS_TYPE v <> MACH_PORT_TYPE_SEND
}.

Section install.
Context {X : gset (Z * Z)} {n : naked} {R : rights} {w : world} (I : inv_with X n R w).
Context (s otype type urefs : Z).
Let v := Z.lor type urefs.
Let sizes := e_table_entries (w_env w).
Context (Hv : new_bits_ok v).

Lemma fresh_unused o : fresh_object w o -> o <> IO_NULL -> forall k a, R !! k = Some a -> r_object a <> o.
Proof.
  intros (Ho & _) Ho0 k a Ha Hr. destruct I as [_ O]. destruct (none_count O o Ho Ho0) as [Hc _].
  pose proof (count_get (is_ref o) R k) as H. rewrite Ha in H. simpl in H. unfold is_ref in H at 1.
  rewrite (proj2 (Z.eqb_eq _ _) Hr) in H. simpl in H. lia.
Qed.

Context (o i b : Z) (sp' : ipc_space) (l' : list Z) (w1 : world).
Context (Hfresh : fresh_object w o) (Ho : o <> IO_NULL) (Hnone : R !! (s, i) = None) (Hg : gen_ok b).
Context (Hio : w_io w1 = <[o := mkObject 0 0]> (w_io w)).
Context (Hpo : w_port w1 = new_ports otype o (w_port w)).
Context (Hsp : w_space w1 = <[s := sp']> (w_space w)).
Context (Hlk : w_locks w1 = {[LSpace s]} ∪ w_locks w) (Hen : w_env w1 = w_env w).
Context (Has : w_assertions w1 = w_assertions w).
Context (HS : space_inv sizes ({[(s, i)]} ∪ X) (w_space w1) R).
Context (Hd : held sizes sp' l' i false IO_NULL b IE_REQ_NONE sp').
Context (Hty : limbo_in ({[(s, i)]} ∪ X) s sp' l').

Lemma install_spaces sp1 :
  held sizes sp' l' i false o (Z.lor b v) IE_REQ_NONE sp1 ->
  space_inv sizes X (<[s := sp1]> (w_space w))
    (put (s, i) (Some (mkRight o (Z.lor b v) IE_REQ_NONE)) R).
Proof.
  intros H1. pose proof HS as HS'. rewrite Hsp in HS'.
  assert (E : <[s := sp1]> (w_space w) = <[s := sp1]> (<[s := sp']> (w_space w)))
    by by rewrite insert_insert_eq.
  rewrite E. eapply (space_step_held HS' s sp'); [apply lookup_insert_eq| |exact Hty|exact H1|..].
  - set_solver.
  - unfold right_of. rewrite new_type by done. by rewrite (proj2 (Z.eqb_neq _ _)) by apply Hv.
  - rewrite new_type by done. rewrite (proj2 (Z.eqb_neq _ MACH_PORT_TYPE_SEND)) by apply Hv.
    by rewrite andb_false_r.
  - rewrite new_type by done. intros E0. by destruct Hv.
  - intros a j a1 [= <-] _ Ha1 _ Hoa. exfalso. simpl in Hoa. by eapply fresh_unused.
Qed.

Lemma wp_alloc_install (Q : unit -> world -> Prop) :
  otype = IOT_PORT \/ otype = IOT_PORT_SET ->
  (forall w', object_alloced X R w s otype v i b o w' -> Q tt w') ->
  wp (alloc_install s otype type urefs (entry_name i b) i o;; upd_io o (set_io_references 1)) Q w1.
Proof.
  intros Hot HQ. pose proof install_spaces as Hinst.
  assert (Hlo : LObject o ∉ {[LSpace s]} ∪ w_locks w).
  { destruct Hfresh as (_ & _ & ? & _). set_solver. }
  assert (Hs1 : w_space w1 !! s = Some sp') by (rewrite Hsp; apply lookup_insert_eq).
  assert (Hi1 : w_io w1 !! o = Some (mkObject 0 0)) by (rewrite Hio; apply lookup_insert_eq).
  assert (Hlk1 : LObject o ∉ w_locks w1) by by rewrite Hlk.
  assert (Hp1 : otype = IOT_PORT -> w_port w1 !! o = Some ip_zero).
  { intros ->. rewrite Hpo. apply lookup_insert_eq. }
  assert (Hgr : gen_roll (Z.lor b v) = gen_roll b) by (apply new_gen_roll, Hv).
  assert (Hend : forall w' sp1, held sizes sp' l' i false o (Z.lor b v) IE_REQ_NONE sp1 ->
    w_space w' = <[s := sp1]> (w_space w1) -> w_port w' = w_port w1 ->
    w_io w' = <[o := mkObject (io_makebits true otype 0) 1]> (w_io w1) ->
    w_locks w' = {[LObject o]} ∪ w_locks w1 -> w_env w' = w_env w1 ->
    w_assertions w' = w_assertions w1 -> Q tt w').
  { intros w' sp1 H1 Es Ep Ei El Ee Ea. rewrite Hsp, insert_insert_eq in Es.
    rewrite Hio, insert_insert_eq in Ei. apply HQ. split; try done; try congruence.
    - rewrite Es. by apply Hinst.
    - exists sp1. split; [apply H1|done]. }
  clear Hinst HQ I. wopen w1. unfold alloc_install. wp_step. wp_step.
  eapply (wp_held_upd (sp := sp') (o := IO_NULL) (b := b)) with (o' := o) (b' := Z.lor b v) (r' := IE_REQ_NONE);
    [exact Hs1|exact Hd|hset|done|done|].
  intros sp2 Hd2. wp_step. wnorm. eapply wp_held_modified; [apply lookup_insert_eq|exact Hd2| |].
  { symmetry. by apply entry_name_roll. }
  intros sp3 Hd3. wnorm. rewrite insert_insert_eq. wp_step. wp_step.
  destruct Hot as [-> | ->].
  - eapply wp_ip_lock; [by apply Hp1|apply lookup_insert_eq|done|]. wp_steps.
    apply (Hend _ sp3); try done. simpl. by rewrite insert_insert_eq.
  - eapply wp_pset_lock; [apply lookup_insert_eq|done|done|]. wp_steps.
    apply (Hend _ sp3); try done. simpl. by rewrite insert_insert_eq.
Qed.
End install.

(** *** ipc_object_alloc *)

Section object_alloc.
Context {X : gset (Z * Z)} {n : naked} {R : rights} {w : world} (I : inv_with X n R w).
Context (s otype type urefs : Z) (sp : ipc_space).
Context (Hs : w_space w !! s = Some sp) (Ha : is_active sp = true) (Hlk : LSpace s ∉ w_locks w).
Context (Hz : zone_ok otype w).
Context (Hot : otype = IOT_PORT \/ otype = IOT_PORT_SET).
Context (Hv : new_bits_ok (Z.lor type urefs)).
Context (Htype : Z.land type MACH_PORT_TYPE_ALL_RIGHTS = type) (Hurefs : urefs <= MACH_PORT_UREFS_MAX).
Context (Htnone : type <> MACH_PORT_TYPE_NONE).

(** Nothing has changed but the memory of the space's table. *)
Definition alloc_failed (kr : Z) (w' : world) : Prop :=
  (kr = KERN_NO_SPACE \/ kr = KERN_RESOURCE_SHORTAGE) /\ inv_with X n R w' /\
  exists sp', is_active sp' = true /\ only_space s sp' (w_locks w) w w'.

Lemma alloc_fails kr sp' w' :
  kr = KERN_NO_SPACE \/ kr = KERN_RESOURCE_SHORTAGE -> is_active sp' = true ->
  only_space s sp' (w_locks w) w w' ->
  space_inv (e_table_entries (w_env w)) X (w_space w') R -> alloc_failed kr w'.
Proof.
  intros Hkr Ha' Hos HS. split; [done|]. split; [|by exists sp']. pose proof Hos as [Eio Epo Esp Elk Een Eti Eas].
  destruct I as [_ O]. unfold inv_with. rewrite Een, Eio, Epo. split; [done|].
  eapply obj_inv_active; [|done]. intros q. rewrite Esp. unfold active_in.
  destruct (decide (s = q)) as [<-|]; [|by rewrite lookup_insert_ne].
  by rewrite lookup_insert_eq, Hs, Ha, Ha'.
Qed.

Lemma wp_alloc_asserts (Q : unit -> world -> Prop) w1 :
  Q tt w1 -> wp (alloc_asserts otype type urefs) Q w1.
Proof.
  intros HQ. unfold alloc_asserts. apply wp_bind, wp_massert; [by destruct Hot as [-> | ->]|].
  apply wp_bind, wp_massert; [by apply Z.eqb_eq|].
  apply wp_bind, wp_massert; [by apply negb_true_iff, Z.eqb_neq|]. apply wp_massert; [|done].
  by apply Z.leb_le.
Qed.

Lemma wp_object_alloc (Q : Z + (Z * Z) -> world -> Prop) :
  (forall kr w', alloc_failed kr w' -> Q (inl kr) w') ->
  (forall i b o w', object_alloced X R w s otype (Z.lor type urefs) i b o w' ->
     Q (inr (entry_name i b, o)) w') ->
  wp (ipc_object_alloc s otype type urefs) Q w.
Proof.
  intros Qfail Qok. pose proof alloc_fails as Hfail. pose proof (@wp_alloc_install X n R w I) as Hinst.
  unfold ipc_object_alloc. apply wp_bind, wp_alloc_asserts. apply wp_bind, wp_io_alloc; [done|..].
  - intros tr. apply wp_ret, Qfail, (Hfail _ sp); [by right|done| |apply I].
    split; try done. simpl. by rewrite insert_id.
  - intros o tr Ho Hfresh. rewrite (proj2 (Z.eqb_neq _ _)) by done. apply wp_bind.
    destruct I as [HS _].
    eapply (wp_alloc_limbo s sp); [exact HS|exact Hs|exact Ha|exact Hlk|..].
    + intros kr w1 sp1 Hkr Ha1 Hos HS1. pose proof Hos as [Eio Epo Esp Elk Een Eti Eas]. apply wp_bind. destruct Hfresh as (? & ? & ? & ?).
      eapply wp_io_free_new; [exact Eio|exact Epo|done|done|]. intros tr1. apply wp_ret, Qfail.
      apply (Hfail _ sp1); [done|done| |done]. by split.
    + intros i b w1 sp1 l1 Hnone Hg Hos HS1 Hd Hty. pose proof Hos as [Eio Epo Esp Elk Een Eti Eas]. apply wp_bind.
      eapply wp_mono; [apply (wp_unbind (A := unit) (fun _ => Q (inr (entry_name i b, o))) _
        (fun _ => upd_io o (set_io_references 1)))|].
      * apply (Hinst s otype type urefs Hv o i b sp1 l1 w1); try done. intros. by apply Qok.
      * intros [] w2 H2. by apply wp_bind.
Qed.
End object_alloc.

(** ** Ports *)

Definition new_port (s flags name : Z) : ipc_port := ipc_port_init_fields s flags name ip_zero.
Definition new_header (flags : Z) : ipc_object :=
  mkObject (if flag flags IPC_PORT_INIT_FILTER_MESSAGE
            then Z.lor (io_makebits true IOT_PORT 0) IP_BIT_FILTER_MSG
            else io_makebits true IOT_PORT 0) 1.

(** The bits that [ipc_port_alloc] puts into the entry. *)
Definition port_alloc_bits (flags : Z) : Z :=
  Z.lor (port_alloc_type flags).1 (port_alloc_type flags).2.

Lemma port_alloc_bits_ok flags : new_bits_ok (port_alloc_bits flags).
Proof. unfold port_alloc_bits, port_alloc_type. by destruct (flag flags _). Qed.

Record port_alloced (X : gset (Z * Z)) (n : naked) (R : rights) (w : world) (s flags : Z)
    (name p i b : Z) (w' : world) : Prop := {
  pa_fresh : fresh_object w p;
  pa_null : p <> IO_NULL;
  pa_none : R !! (s, i) = None;
  pa_name : name = entry_name i b;
  pa_bits : IE_BITS_TYPE b = (port_alloc_type flags).1 /\ IE_BITS_UREFS b = (port_alloc_type flags).2;
  pa_inv : inv_with X n (put (s, i) (Some (mkRight p b IE_REQ_NONE)) R) w';
  pa_space : exists sp', is_active sp' = true /\ w_space w' = <[s := sp']> (w_space w);
  pa_io : w_io w' = <[p := new_header flags]> (w_io w);
  pa_port : w_port w' = <[p := new_port s flags name]> (w_port w);
  pa_locks : w_locks w' = {[LObject p]} ∪ w_locks w;
  pa_env : w_env w' = w_env w;
  pa_assertions : w_assertions w' = w_assertions w
}.

Section new_port.
Context {X : gset (Z * Z)} {n : naked} {R : rights} {w : world} (I : inv_with X n R w).
Context (s flags i b p : Z) (sp : ipc_space).
Context (Hs : w_space w !! s = Some sp) (Ha : is_active sp = true).
Context (Hfresh : fresh_object w p) (Hp : p <> IO_NULL) (Hg : gen_ok b).
Context (Hnone : R !! (s, i) = None).
Let v := port_alloc_bits flags.
Let b' := Z.lor b v.
Let R' := put (s, i) (Some (mkRight p b' IE_REQ_NONE)) R.
Let x := new_port s flags (entry_name i b').

(** The rights and references of the new port. *)
Lemma new_counts :
  count (is_ref p) R' = 1 /\ count (is_send p) R' = ip_srights x /\ count (is_sonce p) R' = 0 /\
  count (is_recv p) R' = 1 /\ n_ref n p = 0 /\ n_send n p = 0 /\ n_sonce n p = 0 /\ n_recv n p = 0.
Proof.
  destruct I as [_ O]. destruct Hfresh as (Hf & _). destruct (none_count O p Hf Hp) as [Hc Hr].
  destruct (oi_naked _ _ _ _ _ _ O p) as (? & ? & ? & ?).
  assert (Hz : forall P, (forall a, P a = true -> is_ref p a = true) -> count P R = 0).
  { intros P HP. pose proof (count_mono P (is_ref p) R HP). pose proof (count_nonneg P R). lia. }
  assert (Ht : IE_BITS_TYPE b' = IE_BITS_TYPE v) by by apply new_type.
  destruct (rights_at p (mkRight p b' IE_REQ_NONE) eq_refl) as (E1 & E2 & E3 & E4). simpl in E2, E3, E4.
  rewrite has_type, Ht in E2, E3, E4 by done. unfold R'. rewrite !count_put, Hnone. simpl.
  rewrite E1, E2, E3, E4, !(Hz (is_send p)), !(Hz (is_sonce p)), !(Hz (is_recv p)), Hc;
    try (intros a; unfold is_send, is_sonce, is_recv; rewrite andb_true_iff; tauto).
  unfold x, v, new_port, ipc_port_init_fields, port_alloc_bits, port_alloc_type.
  destruct (flag flags IPC_PORT_INIT_MAKE_SEND_RIGHT); repeat split; try lia; reflexivity.
Qed.

Lemma new_port_ok :
  port_ok (e_table_requests (w_env w)) (active_in (w_space w)) n R' p x (new_header flags).
Proof.
  destruct new_counts as (Er & Es & Eso & Erv & N1 & N2 & N3 & N4).
  assert (Hact : io_active (new_header flags) = true).
  { unfold new_header. by destruct (flag flags IPC_PORT_INIT_FILTER_MESSAGE). }
  split.
  - unfold new_header. by destruct (flag flags IPC_PORT_INIT_FILTER_MESSAGE).
  - intros _. rewrite Es, Eso, Erv, N2, N3, N4. split_and!; [lia|done|done|done].
  - congruence.
  - simpl. intros k a Hk Ho. unfold R' in Hk. destruct (decide ((s, i) = k)) as [<-|Hne].
    + rewrite put_eq in Hk. by injection Hk as <-.
    + rewrite put_ne in Hk by done. exfalso. by eapply (fresh_unused I).
Qed.

Lemma new_port_inv w' :
  space_inv (e_table_entries (w_env w)) X (w_space w') R' -> w_env w' = w_env w ->
  (forall q, active_in (w_space w') q = active_in (w_space w) q) ->
  w_io w' = <[p := new_header flags]> (w_io w) -> w_port w' = <[p := x]> (w_port w) ->
  inv_with X n R' w'.
Proof.
  intros HS He Hact Hio Hpo. unfold inv_with. rewrite He, Hio, Hpo. split; [done|].
  eapply obj_inv_active; [exact Hact|]. destruct new_counts as (Er & _ & _ & _ & N & _).
  pose proof new_port_ok as Hok. pose proof I as [_ O]. destruct Hfresh as (Hf & _ & _ & Hdead).
  assert (Ht : IE_BITS_TYPE b' = IE_BITS_TYPE v) by by apply new_type.
  assert (Hu : IE_BITS_UREFS b' = IE_BITS_UREFS v) by by apply new_urefs.
  eapply (step_put O p R' n) with (x' := Some x) (h' := new_header flags); try done.
  - apply moves_put; [by rewrite Hnone|]. intros a [= <-]. by left.
  - apply O.
  - rewrite Er, N. done.
  - unfold IO_MAX_REFERENCES. simpl. lia.
  - by intros x0 [= <-].
  - intros k a Hk Hor. unfold R' in Hk. destruct (decide ((s, i) = k)) as [<-|Hne].
    + rewrite put_eq in Hk. injection Hk as <-. split; cbn [r_object r_bits r_request fst snd].
      * unfold bits_ok. rewrite Ht, Hu. unfold v, port_alloc_bits, port_alloc_type.
        destruct (flag flags IPC_PORT_INIT_MAKE_SEND_RIGHT); [do 2 right; left|right; left];
          (split; [reflexivity|]); reflexivity.
      * rewrite Ht. unfold v, port_alloc_bits, port_alloc_type. by destruct (flag flags _).
      * rewrite Ht. unfold v, port_alloc_bits, port_alloc_type. by destruct (flag flags _).
      * intros _. exists x. split; [apply lookup_insert_eq|]. done.
    + rewrite put_ne in Hk by done. destruct Hor as [|Ho]; [done|]. exfalso. by eapply (fresh_unused I).
Qed.
End new_port.

Section port_alloc.
Context {X : gset (Z * Z)} {n : naked} {R : rights} {w : world} (I : inv_with X n R w).
Context (s flags : Z) (sp : ipc_space).
Context (Hs : w_space w !! s = Some sp) (Ha : is_active sp = true) (Hlk : LSpace s ∉ w_locks w).
Context (Hz : zone_ok IOT_PORT w).

Definition port_alloc_post (r : Z + (Z * Z)) (w' : world) : Prop :=
  match r with
  | inl kr => @alloc_failed X n R w s kr w'
  | inr (name, p) => exists i b, port_alloced X n R w s flags name p i b w'
  end.

Lemma wp_port_init p name w1 (Q : unit -> world -> Prop) ports :
  w_port w1 = <[p := ip_zero]> ports ->
  w_io w1 !! p = Some (mkObject (io_makebits true IOT_PORT 0) 1) ->
  Q tt (set_w_port (<[p := new_port s flags name]> ports)
    (set_w_io (<[p := new_header flags]> (w_io w1)) w1)) ->
  wp (ipc_port_init p s flags name) Q w1.
Proof.
  intros Hpo Hio HQ. unfold ipc_port_init. apply wp_bind.
  eapply wp_upd_port; [rewrite Hpo; apply lookup_insert_eq|]. rewrite Hpo, insert_insert_eq.
  unfold new_header in HQ. apply wp_when; intros E; rewrite E in HQ; cbv iota in HQ.
  - eapply wp_upd_io; [exact Hio|]. by destruct w1.
  - rewrite (insert_id (w_io w1)) in HQ by done. by destruct w1.
Qed.

Lemma wp_port_alloc : wp (ipc_port_alloc s flags) port_alloc_post w.
Proof.
  pose proof (port_alloc_bits_ok flags) as Hv. unfold ipc_port_alloc, port_alloc_bits in *.
  destruct (port_alloc_type flags) as [type urefs] eqn:E.
  assert (Htu : Z.land type MACH_PORT_TYPE_ALL_RIGHTS = type /\ urefs <= MACH_PORT_UREFS_MAX /\
    type <> MACH_PORT_TYPE_NONE /\ IE_BITS_TYPE (Z.lor type urefs) = type /\
    IE_BITS_UREFS (Z.lor type urefs) = urefs).
  { unfold port_alloc_type in E. destruct (flag flags _); injection E as <- <-; by vm_compute. }
  destruct Htu as (Ht & Hu & Hn & Et & Eu). apply wp_bind.
  apply (wp_object_alloc I s IOT_PORT type urefs sp); try done; [by left|].
  intros i b p w1 [Hf Hp Hnone Hg HS (sp1 & Ha1 & Hsp1) Hio Hpo Hlk1 Hen Has]. apply wp_bind.
  set (b' := Z.lor b (Z.lor type urefs)) in *.
  assert (En : entry_name i b = entry_name i b').
  { symmetry. apply entry_name_roll, new_gen_roll, Hv. }
  eapply wp_port_init; [exact Hpo|rewrite Hio; apply lookup_insert_eq|].
  apply wp_bind. apply wp_unlock; [simpl; rewrite Hlk1; set_solver|]. apply wp_ret.
  rewrite Hio, insert_insert_eq, En. exists i, b'.
  assert (Eb : b' = Z.lor b (port_alloc_bits flags)) by (unfold port_alloc_bits; by rewrite E).
  split; try done; simpl.
  - rewrite E. unfold b'. by rewrite new_type, new_urefs.
  - rewrite Eb. eapply (new_port_inv I s flags i b p); try done.
    + by rewrite <- Eb.
    + intros q. simpl. rewrite Hsp1. unfold active_in. destruct (decide (s = q)) as [<-|].
      * by rewrite lookup_insert_eq, Hs, Ha1, Ha.
      * by rewrite lookup_insert_ne.
  - exists sp1. done.
  - rewrite Hlk1. set_solver.
Qed.
End port_alloc.

(** ** Spaces *)

(** Memory for a space: no space is there, and no port has it as receiver. *)
Definition fresh_space (w : world) (s : Z) : Prop :=
  w_space w !! s = None /\ forall p x, w_port w !! p = Some x -> ip_receiver x <> s.

Section space_create.
Context {X : gset (Z * Z)} {n : naked} {R : rights} {w : world} (I : inv_with X n R w).
Context (s : Z) (Hs0 : s <> IS_NULL) (Hf : fresh_space w s).
Context (sp : ipc_space) (l : list Z).
Context (Hr : space_ready (e_table_entries (w_env w)) sp l).
Context (Hl : l ≡ₚ seqZ 1 (is_table_size sp - 1)).

Lemma new_space_right i : R !! (s, i) = None.
Proof.
  destruct I as [HS _]. rewrite (si_rights _ _ _ _ HS). unfold right_at. by rewrite (proj1 Hf).
Qed.

Lemma new_space_inv : space_inv (e_table_entries (w_env w)) X (<[s := sp]> (w_space w)) R.
Proof.
  pose proof (sr_wf _ _ _ Hr) as W. pose proof I as [HS _].
  assert (Hin : forall j, j ∈ 0 :: l \/ alen (is_table sp) <= j \/ j < 0).
  { intros j. rewrite (sw_len _ _ W), elem_of_cons, Hl, elem_of_seqZ. lia. }
  split.
  - intros q j. destruct (decide (q = s)) as [->|].
    + rewrite new_space_right. symmetry. eapply free_right_none; [apply lookup_insert_eq|exact W|done].
    + rewrite (si_rights _ _ _ _ HS). unfold right_at. by rewrite lookup_insert_ne.
  - intros q spq. destruct (decide (s = q)) as [<-|].
    + rewrite lookup_insert_eq. intros [= <-] _. exists l. split; [done|].
      intros j e Hj He _. apply aget_Some_range in He. destruct (Hin j) as [|[|]]; [done|lia..].
    + rewrite lookup_insert_ne by done. apply HS.
  - apply HS.
  - unfold active_in. rewrite lookup_insert_ne by done. apply HS.
Qed.

Lemma new_space_objects :
  obj_inv (e_table_requests (w_env w)) (active_in (<[s := sp]> (w_space w))) n R (w_io w) (w_port w).
Proof.
  destruct I as [_ [O1 O2 O3 O4 O5 O6 O7]]. split; try done. intros p x Hx.
  destruct (O5 p x Hx) as (h & Hh & [Hty Hlv Hdd Hrq]). exists h. split; [done|].
  split; [done| |done|done]. intros Ha. destruct (Hlv Ha) as (? & ? & ? & Hn). split_and!; try done.
  intros Hn1. unfold active_in. rewrite lookup_insert_ne by (intros E; by apply (proj2 Hf p x)).
  by apply Hn.
Qed.
End space_create.

Lemma wp_create_inv {X n R} initial label w :
  inv_with X n R w ->
  table_entries_ok (e_table_entries (w_env w)) = true ->
  0 <= initial -> initial + 1 < alen (e_table_entries (w_env w)) ->
  (let s := e_ext (w_env w) (w_trace w) "zalloc" [2] in s <> 0 -> fresh_space w s) ->
  wp (ipc_space_create initial label) (fun r w' => create_post initial w r w' /\
    inv_with X n R w' /\ (forall s, r = inr s -> active_in (w_space w') s = true)) w.
Proof.
  intros I Hok H0 Hi Hfresh. pose proof (wp_space_create initial label w Hok H0 Hi) as Hc.
  apply wp_run in Hc as (r & w' & Hrun & Hpost). unfold wp. rewrite Hrun. split; [done|].
  destruct Hpost as (Eio & Epo & Elk & Een & Hr). destruct r as [kr|s].
  - destruct Hr as [_ Esp]. split; [|done]. unfold inv_with. by rewrite Eio, Epo, Een, Esp.
  - destruct Hr as (Hs & Haddr & sp & l & Esp & Hready & _ & Hl). rewrite <- Haddr in Hfresh.
    specialize (Hfresh Hs). split.
    + unfold inv_with. rewrite Eio, Epo, Een, Esp. split; [by eapply new_space_inv|].
      by eapply new_space_objects.
    + intros s' [= <-]. unfold active_in. rewrite Esp, lookup_insert_eq. apply Hready.
Qed.

(** C11.  ipc_port_alloc in an active space: it returns.  Either it fails for want
    of memory or of space, and no right and no count has changed, or it gives a
    name that was not in use and a new, locked port of which the space has the
    receive right under that name (and a send right with one user reference,
    when asked for), and the invariant holds with this right added. *)
Theorem port_alloc_ok X n R w s flags sp :
  inv_with X n R w -> w_space w !! s = Some sp -> is_active sp = true -> LSpace s ∉ w_locks w ->
  zone_ok IOT_PORT w ->
  wp (ipc_port_alloc s flags) (@port_alloc_post X n R w s flags) w.
Proof. intros I Hs Ha Hl Hz. by apply (wp_port_alloc I s flags sp). Qed.
