(* ===== verification/MachPortAlloc.v ===== *)
(** * Contracts of the system calls that make names (ipc/mach_port.c)

    [mach_port_allocate] makes a receive right, a port set or a dead name. *)

From S2P Require Import Prelude IpcTypes IpcBits IpcHash IpcTable KernelState Kernel IpcFreelist IpcSpaceInit IpcEntry IpcEntryInv IpcGrow IpcAlloc IpcPort IpcRight IpcHeld IpcRights IpcNaked IpcRightCheck IpcRightLive IpcRightDealloc IpcCopyin IpcObject IpcObjectCopyin IpcObjectAlloc MachPort.

(** ** A new port set *)

Section new_pset.
Context {X : gset (Z * Z)} {n : naked} {R : rights} {w : world} (I : inv_with X n R w).
Context (s i b o : Z).
Context (Hfresh : fresh_object w o) (Ho : o <> IO_NULL) (Hg : gen_ok b) (Hnone : R !! (s, i) = None).
Let b' := Z.lor b (Z.lor MACH_PORT_TYPE_PORT_SET 0).
Let R' := put (s, i) (Some (mkRight o b' IE_REQ_NONE)) R.
Let h := mkObject (io_makebits true IOT_PORT_SET 0) 1.

Lemma new_pset_inv w' :
  space_inv (e_table_entries (w_env w)) X (w_space w') R' -> w_env w' = w_env w ->
  (forall q, active_in (w_space w') q = active_in (w_space w) q) ->
  w_io w' = <[o := h]> (w_io w) -> w_port w' = w_port w -> inv_with X n R' w'.
Proof.
  intros HS He Hact Hio Hpo. unfold inv_with. rewrite He, Hio, Hpo. split; [done|].
  eapply obj_inv_active; [exact Hact|]. pose proof I as [_ O]. destruct Hfresh as (Hf & Hfp & _ & Hdead).
  destruct (none_count O o Hf Ho) as [Hc Hr].
  assert (Ht : IE_BITS_TYPE b' = MACH_PORT_TYPE_PORT_SET) by by apply new_type.
  assert (Hu : IE_BITS_UREFS b' = 0) by by apply new_urefs.
  assert (Hcount : count (is_ref o) R' = 1).
  { unfold R'. rewrite count_put, Hnone, Hc. simpl. unfold is_ref. simpl. by rewrite Z.eqb_refl. }
  eapply (step_put O o R' n) with (x' := None) (h' := h); try done.
  - apply moves_put; [by rewrite Hnone|]. intros a [= <-]. by left.
  - apply O.
  - exact (eq_sym (delete_id (w_port w) o Hfp)).
  - rewrite Hcount. simpl. rewrite Hr. done.
  - by rewrite Hcount.
  - intros k a Hk Hor. unfold R' in Hk. destruct (decide ((s, i) = k)) as [<-|Hne].
    + rewrite put_eq in Hk. injection Hk as <-. split; cbn [r_object r_bits r_request]; rewrite ?Ht; try done.
      * unfold bits_ok. rewrite Ht, Hu. tauto.
      * intros _. split; [done|]. exists h. split; [apply lookup_insert_eq|done].
    + rewrite put_ne in Hk by done. destruct Hor as [|Hor]; [done|]. exfalso. by eapply (fresh_unused I).
Qed.
End new_pset.

(** ** A new dead name *)

Lemma new_dead_inv {X n R w} (I : inv_with X n R w) s i b w' :
  gen_ok b -> R !! (s, i) = None ->
  let a := mkRight IO_NULL (Z.lor b (Z.lor MACH_PORT_TYPE_DEAD_NAME 1)) IE_REQ_NONE in
  space_inv (e_table_entries (w_env w)) X (w_space w') (put (s, i) (Some a) R) -> w_env w' = w_env w ->
  (forall q, active_in (w_space w') q = active_in (w_space w) q) ->
  w_io w' = w_io w -> w_port w' = w_port w -> inv_with X n (put (s, i) (Some a) R) w'.
Proof.
  intros Hg Hnone a HS He Hact Hio Hpo. unfold inv_with. rewrite He, Hio, Hpo. split; [done|].
  eapply obj_inv_active; [exact Hact|]. destruct I as [_ O].
  assert (Ht : IE_BITS_TYPE (r_bits a) = MACH_PORT_TYPE_DEAD_NAME) by by apply new_type.
  assert (Hu : IE_BITS_UREFS (r_bits a) = 1) by by apply new_urefs.
  apply obj_inv_dead; try done.
  - by rewrite Hnone.
  - intros a0 [= <-]. by left.
  - intros a0 [= <-]. split; rewrite ?Ht; try done. unfold bits_ok. rewrite Ht, Hu. by do 5 right.
Qed.

(** ** mach_port_allocate *)

Lemma active_insert spaces s sp sp' :
  spaces !! s = Some sp -> is_active sp = true -> is_active sp' = true ->
  forall q, active_in (<[s := sp']> spaces) q = active_in spaces q.
Proof.
  intros Hs Ha Ha' q. unfold active_in. destruct (decide (s = q)) as [<-|].
  - by rewrite lookup_insert_eq, Hs, Ha, Ha'.
  - by rewrite lookup_insert_ne.
Qed.

(** A new name and its right, or nothing. *)
Definition allocate_post (n : naked) (R : rights) (w : world) (s right : Z) (r : Z + Z) (w' : world)
    : Prop :=
  w_locks w' = w_locks w /\ w_env w' = w_env w /\ active_in (w_space w') s = true /\
  match r with
  | inl kr => (kr ∈ [KERN_NO_SPACE; KERN_RESOURCE_SHORTAGE] \/
       kr = KERN_INVALID_VALUE /\
       right ∉ [MACH_PORT_RIGHT_RECEIVE; MACH_PORT_RIGHT_PORT_SET; MACH_PORT_RIGHT_DEAD_NAME]) /\
      inv_with ∅ n R w'
  | inr name => exists i a, R !! (s, i) = None /\ name = entry_name i (r_bits a) /\
      IE_BITS_TYPE (r_bits a) = MACH_PORT_TYPE right /\ inv_with ∅ n (put (s, i) (Some a) R) w'
  end.

Section allocate.
Context {n : naked} {R : rights} {w : world} (I : inv_with ∅ n R w).
Context (s : Z) (sp : ipc_space).
Context (Hs : w_space w !! s = Some sp) (Ha : is_active sp = true) (Hlk : w_locks w = ∅).

Lemma active_here sp' : is_active sp' = true -> active_in (<[s := sp']> (w_space w)) s = true.
Proof. intros H. unfold active_in. by rewrite lookup_insert_eq. Qed.

Lemma allocate_fails right kr w' :
  @alloc_failed ∅ n R w s kr w' -> allocate_post n R w s right (inl kr) w'.
Proof.
  intros (Hkr & I' & sp' & Ha' & [Eio Epo Esp Elk Een _ _]). split; [done|]. split; [done|].
  rewrite Esp. split; [by apply active_here|]. split; [|done]. left. destruct Hkr as [-> | ->]; set_solver.
Qed.

Lemma wp_allocate_receive q :
  zone_ok IOT_PORT w -> mpq_name q = false -> mpq_prealloc q = false ->
  wp (allocate_receive s q 0) (allocate_post n R w s MACH_PORT_RIGHT_RECEIVE) w.
Proof.
  intros Hz Hq1 Hq2. pose proof allocate_fails as Hfail. pose proof active_here as Hact.
  unfold allocate_receive, allocate_prealloc. rewrite Hq1, Hq2. apply wp_bind, wp_ret, wp_bind.
  eapply wp_mono; [apply (wp_port_alloc I s IPC_PORT_INIT_MESSAGE_QUEUE sp); try done; rewrite Hlk; set_solver|].
  intros [kr|[name p]] w1 Hpost; change (0 =? 0) with true; cbn [negb when].
  - apply wp_bind, wp_ret, wp_ret. by apply Hfail.
  - destruct Hpost as (i & b & [Hf Hp Hn Hname [Ht _] I1 (sp' & Ha' & Esp) _ _ Elk Een _]).
    apply wp_bind, wp_ret, wp_bind. unfold io_unlock. apply wp_unlock; [rewrite Elk; set_solver|]. apply wp_ret.
    split; [simpl; rewrite Elk, Hlk; set_solver|]. split; [done|]. simpl. rewrite Esp. split; [by apply Hact|].
    exists i, (mkRight p b IE_REQ_NONE). split_and!; try done. 
Qed.

Lemma wp_allocate_pset q :
  zone_ok IOT_PORT_SET w -> mpq_name q = false ->
  wp (allocate_pset s q 0) (allocate_post n R w s MACH_PORT_RIGHT_PORT_SET) w.
Proof.
  intros Hz Hq1. pose proof allocate_fails as Hfail. pose proof active_here as Hact.
  unfold allocate_pset, ipc_pset_alloc. rewrite Hq1. apply wp_bind, wp_bind.
  apply (wp_object_alloc I s IOT_PORT_SET MACH_PORT_TYPE_PORT_SET 0 sp); try done.
  - rewrite Hlk. set_solver.
  - by right.
  - intros kr w1 Hpost. apply wp_ret, wp_ret. by apply Hfail.
  - intros i b o w1 [Hf Ho Hn Hg HS (sp' & Ha' & Esp) Eio Epo Elk Een _]. apply wp_bind, wp_call_.
    apply wp_bind. unfold is_write_unlock. apply wp_unlock; [simpl; rewrite Elk; set_solver|].
    apply wp_ret, wp_bind. unfold io_unlock. apply wp_unlock; [simpl; rewrite Elk; set_solver|]. apply wp_ret.
    split; [simpl; rewrite Elk, Hlk; set_solver|]. split; [done|]. simpl. rewrite Esp. split; [by apply Hact|].
    exists i, (mkRight o (Z.lor b (Z.lor MACH_PORT_TYPE_PORT_SET 0)) IE_REQ_NONE). split_and!; try done.
    + symmetry. by apply entry_name_roll, new_gen_roll.
    + simpl. rewrite new_type by done. done.
    + eapply (new_pset_inv I s i b o); try done. intros q'. simpl. rewrite Esp. by apply (active_insert _ _ sp).
Qed.

Lemma wp_allocate_dead : wp (ipc_object_alloc_dead s) (allocate_post n R w s MACH_PORT_RIGHT_DEAD_NAME) w.
Proof.
  pose proof active_here as Hact. unfold ipc_object_alloc_dead. apply wp_bind. pose proof I as [HS O].
  eapply (wp_alloc_limbo s sp); [exact HS|exact Hs|exact Ha|rewrite Hlk; set_solver|..].
  - intros kr w1 sp' Hkr Ha' Hos HS1. apply wp_ret. apply allocate_fails.
    by eapply (alloc_fails I s sp).
  - intros i b w1 sp' l' Hn Hg [Eio Epo Esp Elk Een _ _] HS1 H Htb.
    set (v := Z.lor MACH_PORT_TYPE_DEAD_NAME 1).
    assert (Hgr : gen_roll (Z.lor b v) = gen_roll b) by by apply new_gen_roll.
    assert (Hbt : IE_BITS_TYPE (Z.lor b v) = MACH_PORT_TYPE_DEAD_NAME) by by apply new_type.
    assert (Hname : entry_name i b = entry_name i (Z.lor b v)) by (symmetry; by apply entry_name_roll).
    assert (Hs1 : w_space w1 !! s = Some sp') by (rewrite Esp; apply lookup_insert_eq).
    assert (Hlock : LSpace s ∈ w_locks w1) by (rewrite Elk; set_solver).
    assert (Hend : forall sp2, held (e_table_entries (w_env w)) sp' l' i false IO_NULL (Z.lor b v) IE_REQ_NONE sp2 ->
      allocate_post n R w s MACH_PORT_RIGHT_DEAD_NAME (inr (entry_name i b))
        (set_w_locks (w_locks w1 ∖ {[LSpace s]}) (set_w_space (<[s := sp2]> (w_space w1)) w1))).
    { intros sp2 H2. split; [simpl; rewrite Elk, Hlk; set_solver|]. split; [done|].
      pose proof (hd_active _ _ _ _ _ _ _ _ _ H2) as Ha2. pose proof (hd_active _ _ _ _ _ _ _ _ _ H) as Ha1.
      assert (Hspaces : <[s := sp2]> (w_space w1) = <[s := sp2]> (w_space w)) by by rewrite Esp, insert_insert_eq.
      simpl. rewrite Hspaces. split; [by apply Hact|]. exists i, (mkRight IO_NULL (Z.lor b v) IE_REQ_NONE).
      split_and!; try done. apply (new_dead_inv I s i b); try done; simpl.
      - rewrite <- Hspaces. eapply (space_step_held HS1 s sp' Hs1 i _ sp2 ∅ ltac:(set_solver) l' Htb false IO_NULL (Z.lor b v)); try done.
        + unfold right_of. by rewrite Hbt.
        + by rewrite Hbt.
        + intros a j a1 [= <-] Hnp. revert Hnp. unfold names_port. cbn [r_bits]. fold v. by types.
      - by apply (active_insert _ _ sp). }
    apply wp_bind. unfold make_dead_name. clear -Hend Hs1 H Hgr Hname Hlock. subst v. wopen w1. wp_steps; [done..|].
    apply Hend. done.
Qed.

Lemma wp_mach_port_allocate right :
  zone_ok IOT_PORT w -> zone_ok IOT_PORT_SET w ->
  wp (mach_port_allocate s right) (allocate_post n R w s right) w.
Proof.
  intros Hz1 Hz2. pose proof (space_nonzero I Hs Ha) as H0.
  unfold mach_port_allocate, mach_port_allocate_full, mach_port_allocate_internal.
  change IS_NULL with 0. rewrite !H0. cbn [negb andb mpq_name mpq_prealloc qos_template]. change (negb (MACH_PORT_NULL =? MACH_PORT_NULL)) with false.
  cbn iota. apply wp_bind, wp_massert; [done|].
  destruct (Z.eqb_spec right MACH_PORT_RIGHT_RECEIVE) as [->|]; [by apply wp_allocate_receive|].
  destruct (Z.eqb_spec right MACH_PORT_RIGHT_PORT_SET) as [->|]; [by apply wp_allocate_pset|].
  destruct (Z.eqb_spec right MACH_PORT_RIGHT_DEAD_NAME) as [->|]; [apply wp_allocate_dead|].
  apply wp_ret. split; [done|]. split; [done|]. split; [unfold active_in; by rewrite Hs|]. split; [right|done].
  split; [done|]. set_solver.
Qed.
End allocate.

(** C12.  [mach_port_allocate] on an active space makes a name that the space did
    not have, for a right of the kind that was asked for: a receive right for a new port, a new
    port set, or a dead name; or it fails for lack of space or memory, or because
    there is no such kind of right, and then no right has changed.  The invariant holds again. *)
Theorem mach_port_allocate_ok n R w s sp right :
  inv_with ∅ n R w -> w_space w !! s = Some sp -> is_active sp = true -> w_locks w = ∅ ->
  zone_ok IOT_PORT w -> zone_ok IOT_PORT_SET w ->
  wp (mach_port_allocate s right) (allocate_post n R w s right) w.
Proof. intros I Hs Ha Hlk Hz Hz'. by apply (wp_mach_port_allocate I s sp Hs Ha Hlk). Qed.

(** C28.  [mach_port_allocate_name] of a dead name does not look at the name that it is
    given: it does what [mach_port_allocate] does, and says that it succeeded when
    another name was allocated. *)
Theorem allocate_name_ignores_dead_name s name w :
  MACH_PORT_VALID name = true ->
  mach_port_allocate_name s MACH_PORT_RIGHT_DEAD_NAME name w =
  (r ← mach_port_allocate s MACH_PORT_RIGHT_DEAD_NAME;
   mret (match r with inl kr => kr | inr _ => KERN_SUCCESS end)) w.
Proof.
  intros Hv. unfold mach_port_allocate_name, mach_port_allocate, mach_port_allocate_full, mach_port_allocate_internal.
  rewrite Hv. cbn [negb andb mpq_name mpq_prealloc qos_template]. consts. by destruct (s =? IS_NULL).
Qed.

(** In a new space name 0x503 is asked for, and does not exist afterwards. *)
Definition example_dead_name : M (Z * option Z) :=
  _ ← ipc_space_create 0 0;
  kr ← mach_port_allocate_name example_s MACH_PORT_RIGHT_DEAD_NAME 0x503;
  i ← entry_lookup example_s 0x503;
  mret (kr, i).

Lemma allocate_name_ignores_dead_name_witness :
  (exists w, example_dead_name example_boot = Ret (KERN_SUCCESS, None) w) /\
  mach_port_allocate_name example_s MACH_PORT_RIGHT_DEAD_NAME 0x503 example_boot =
  (r ← mach_port_allocate example_s MACH_PORT_RIGHT_DEAD_NAME;
   mret (match r with inl kr => kr | inr _ => KERN_SUCCESS end)) example_boot.
Proof.
  split; [|apply (allocate_name_ignores_dead_name example_s 0x503 example_boot); reflexivity].
  eexists. vm_compute. reflexivity.
Defined.
