(* ===== verification/MachPortCalls.v ===== *)
(** * Contracts of the system calls on rights (ipc/mach_port.c)

    [mach_port_get_refs], [mach_port_deallocate], [mach_port_mod_refs] and
    [mach_port_extract_right] on a space: each looks a name up, does what the
    routine of ipc_right.c or ipc_object.c that it calls promises, and leaves no
    lock held. *)

From S2P Require Import Prelude IpcTypes IpcBits IpcHash IpcTable KernelState Kernel IpcFreelist IpcEntry IpcEntryInv IpcGrow IpcAlloc IpcPort IpcRight IpcHeld IpcRights IpcNaked IpcRequests IpcRightCheck IpcRightLive IpcRightDealloc IpcRightDelta IpcCopyin IpcRightReceive IpcObject IpcObjectCopyin MachPort.

(** ** What a right is *)

(** The type of a request is above the bits of rights. *)
Definition request_bits (t : Z) : Prop := Z.land t 0x1fffffff = 0.

Lemma slot_type_bits q : request_bits (slot_type q).
Proof. unfold request_bits, slot_type. by repeat case_match. Qed.

(** A right for a dead port is a dead name from now on. *)
Definition observed (live extra : bool) (a : right) : right :=
  if has (r_bits a) MACH_PORT_TYPE_RECEIVE || negb (has (r_bits a) MACH_PORT_TYPE_SEND_RIGHTS) || live
  then a else died extra a.

Definition info_ends (live : bool) (n : naked) (a : right) (r : Z * Z) (a' : option right) (n' : naked)
    : Prop :=
  exists extra t, a' = Some (observed live extra a) /\ n' ≡ n /\ request_bits t /\
    r = (Z.lor t (IE_BITS_TYPE (r_bits (observed live extra a))),
         IE_BITS_UREFS (r_bits (observed live extra a))).

Section info.
Context {X : gset (Z * Z)} {n : naked} {R : rights} {w : world} (I : inv_with X n R w).
Context {s i : Z} {sp : ipc_space} {a : right}.
Context (Hs : w_space w !! s = Some sp) (Hsa : is_active sp = true) (Ha : R !! (s, i) = Some a).
Context (name : Z) (Hn : name = entry_name i (r_bits a)) (Hlk : w_locks w = {[LSpace s]}).
Let p := r_object a.

(** The request of an entry is in the table of its port. *)
Lemma wp_right_request_type {x h} w1 (Q : Z -> world -> Prop) :
  w_port w !! p = Some x -> w_io w !! p = Some h -> r_request a <> IE_REQ_NONE ->
  w_port w1 !! p = Some x ->
  (forall t, request_bits t -> Q t w1) -> wp (ipc_port_request_type p name (r_request a)) Q w1.
Proof.
  intros Hx Hh Hr Hx1 HQ. pose proof (po_reqs _ _ _ _ _ _ _ (port_inv I p x h Hx Hh)) as Hreq.
  destruct (ip_requests x) as [t|] eqn:Ht; [|exfalso; by apply Hr, (Hreq (s, i))].
  destruct (req_slot _ R p t s i a Hreq Ha eq_refl Hr) as (q & _ & Hq & Hqn & _).
  eapply (wp_request_type p x t); [done|done|done|congruence|done|]. apply HQ, slot_type_bits.
Qed.

Let post := right_post X R s i w (info_ends (right_live w a) n a).

Lemma info_post t w' :
  request_bits t -> has (r_bits a) MACH_PORT_TYPE_RECEIVE || negb (has (r_bits a) MACH_PORT_TYPE_SEND_RIGHTS)
    || right_live w a = true ->
  inv_with X n R w' -> w_locks w' = w_locks w ∖ {[LSpace s]} -> w_env w' = w_env w ->
  post (Z.lor t (IE_BITS_TYPE (r_bits a)), IE_BITS_UREFS (r_bits a)) w'.
Proof.
  intros Hb Hobs I' Hl' He'. exists (Some a), n. split; [|by rewrite put_id].
  exists false, t. unfold observed. rewrite Hobs. by split_and!.
Qed.

Lemma wp_info_receive {x h} (Q : Z * Z -> world -> Prop) :
  w_port w !! p = Some x -> w_io w !! p = Some h -> has (r_bits a) MACH_PORT_TYPE_RECEIVE = true ->
  (forall r w', post r w' -> Q r w') -> wp (ipc_right_info s name i) Q w.
Proof.
  intros Hx Hh Hr HQ. destruct (right_hold I Hs Hsa Ha) as (l & H & _). fold p in H.
  pose proof (receive_live I Ha Hx Hh Hr) as Hact. destruct (port_addr I p h Hh) as (_ & _ & Hv).
  assert (Hend : forall t w', request_bits t -> inv_with X n R w' -> w_locks w' = w_locks w ∖ {[LSpace s]} ->
    w_env w' = w_env w -> Q (Z.lor t (IE_BITS_TYPE (r_bits a)), IE_BITS_UREFS (r_bits a)) w').
  { intros t w' Ht I' Hl' He'. apply HQ, info_post; try done. by rewrite Hr. }
  pose proof (fun w1 Q Hreq => wp_right_request_type w1 Q Hx Hh Hreq) as Htype.
  assert (Hls : w_locks w ∖ {[LSpace s]} = ∅) by (rewrite Hlk; set_solver).
  unfold ipc_right_info. apply wp_bind. eapply wp_held_entry; [exact Hs|exact H|]. intros d y.
  cbn [ie_bits ie_request ie_object]. rewrite Hr. apply wp_bind, wp_massert; [done|]. apply wp_bind.
  destruct (Z.eqb_spec (r_request a) IE_REQ_NONE) as [Er|Er]; cbn [negb].
  - apply wp_ret, wp_bind. unfold is_write_unlock. apply wp_unlock; [rewrite Hlk; set_solver|]. apply wp_ret.
    by apply (Hend 0).
  - apply wp_bind. apply (wp_ip_lock p x h); [done|done|rewrite Hlk; set_solver|].
    apply wp_bind. apply (wp_require_active (w := set_w_locks _ w) p h Hh Hact). apply wp_bind, Htype; [done|done|].
    intros t Ht. apply wp_bind. unfold io_unlock. apply wp_unlock; [simpl; set_solver|]. apply wp_ret, wp_bind.
    unfold is_write_unlock. apply wp_unlock; [simpl; rewrite Hlk; set_solver|]. apply wp_ret.
    apply Hend; try done. simpl. rewrite Hlk. set_solver.
Qed.

Context (Hsm : small_table sp).

Lemma wp_info_send {x h} (Q : Z * Z -> world -> Prop) :
  w_port w !! p = Some x -> w_io w !! p = Some h -> is_port_type (IE_BITS_TYPE (r_bits a)) = true ->
  has (r_bits a) MACH_PORT_TYPE_RECEIVE = false -> has (r_bits a) MACH_PORT_TYPE_SEND_RIGHTS = true ->
  (forall r w', post r w' -> Q r w') -> wp (ipc_right_info s name i) Q w.
Proof.
  intros Hx Hh Hty Hr Hsr HQ. destruct (right_hold I Hs Hsa Ha) as (l & H & _). fold p in H.
  assert (Hlive : right_live w a = io_active h) by (unfold right_live; fold p; by rewrite Hh).
  pose proof (fun w1 Q Hreq => wp_right_request_type w1 Q Hx Hh Hreq) as Htype.
  assert (Hlp : LObject p ∉ w_locks w) by (rewrite Hlk; set_solver).
  unfold ipc_right_info. apply wp_bind. eapply wp_held_entry; [exact Hs|exact H|]. intros d y.
  cbn [ie_bits ie_request ie_object]. rewrite Hr, Hsr. apply wp_bind.
  apply (dealloc_check I Hs Hsa Ha Hx Hh Hlp Hsm); [done|done|..]; intros Hact; cbn [negb].
  - assert (Hend : forall t, request_bits t ->
      wp (ip_unlock p;; is_write_unlock s;; mret (Z.lor t (IE_BITS_TYPE (r_bits a)), IE_BITS_UREFS (r_bits a)))
        Q (set_w_locks ({[LObject p]} ∪ w_locks w) w)).
    { intros t Ht. apply wp_bind. unfold io_unlock. apply wp_unlock; [simpl; set_solver|]. apply wp_bind.
      unfold is_write_unlock. apply wp_unlock; [simpl; rewrite Hlk; set_solver|]. apply wp_ret.
      apply HQ, info_post; try done; [by rewrite Hlive, Hact, orb_true_r|]. simpl. rewrite Hlk. set_solver. }
    apply wp_bind. destruct (Z.eqb_spec (r_request a) IE_REQ_NONE) as [Er|Er]; cbn [negb].
    + apply wp_ret. by apply (Hend 0).
    + by apply Htype.
  - intros extra w1 Hck. apply wp_bind. eapply wp_checked_entry; [exact Hck|]. intros d1 y1. cbn [ie_bits].
    destruct Hck as [I1 (sp1 & Hs1 & Hsa1) Elk Een Eio _].
    apply wp_bind, wp_massert; [by apply Z.eqb_eq, died_right_type|].
    apply wp_bind. unfold is_write_unlock. apply wp_unlock; [rewrite Elk, Hlk; set_solver|].
    apply wp_bind. eapply (wp_give_release I p _ (set_w_locks (w_locks w1 ∖ {[LSpace s]}) w1)); [exact I1| |].
    + simpl. rewrite Eio. exact Hh.
    + intros w' I' Elk' Een'. apply wp_ret, HQ. exists (Some (died extra a)), n.
      split; [|split; [done|split; [by rewrite Elk', <- Elk|by rewrite Een', <- Een]]].
      exists extra, 0. unfold observed. rewrite Hr, Hsr, Hlive, Hact. by split_and!.
Qed.

Lemma wp_right_info_post : wp (ipc_right_info s name i) post w.
Proof.
  destruct (right_hold I Hs Hsa Ha) as (l & H & _). fold p in H.
  assert (Hno : has (r_bits a) MACH_PORT_TYPE_RECEIVE = false ->
    has (r_bits a) MACH_PORT_TYPE_SEND_RIGHTS = false -> wp (ipc_right_info s name i) post w).
  { intros Hr Hsr. unfold ipc_right_info. apply wp_bind. eapply wp_held_entry; [exact Hs|exact H|]. intros d y.
    cbn [ie_bits ie_request ie_object]. rewrite Hr, Hsr. apply wp_bind. unfold is_write_unlock.
    apply wp_unlock; [rewrite Hlk; set_solver|]. apply wp_ret. apply (info_post 0); try done. by rewrite Hsr, orb_true_r. }
  destruct (right_types I Ha) as [Ht|[Ht|(x & h & Hx & Hh & _ & Hty)]]; [by apply Hno; types..|].
  destruct (has (r_bits a) MACH_PORT_TYPE_RECEIVE) eqn:Hr; [by apply (wp_info_receive (x := x) (h := h))|].
  apply (wp_info_send (x := x) (h := h)); try done; [by destruct Hty as [-> |[-> |[-> | ->]]]|].
  revert Hr. rewrite !(has_type (r_bits a)) by done. by destruct Hty as [-> |[-> |[-> | ->]]].
Qed.
End info.

(** ** The calls *)

(** A call on [name] ends without a right of that name, or with the right changed
    as [spec] says; no lock is held. *)
Definition call_post {A : Type} (n : naked) (R : rights) (w : world) (s name : Z) (unknown : A -> Prop)
    (spec : right -> A -> option right -> naked -> Prop) (r : A) (w' : world) : Prop :=
  w_locks w' = ∅ /\ w_env w' = w_env w /\
  ((forall i a, ~ named R s name i a) /\ unknown r /\ inv_with ∅ n R w' \/
   exists i a a' n', named R s name i a /\ spec a r a' n' /\ inv_with ∅ n' (put (s, i) a' R) w').

Section calls.
Context {n : naked} {R : rights} {w : world} (I : inv_with ∅ n R w).
Context {s : Z} {sp : ipc_space} (Hs : w_space w !! s = Some sp) (Hsa : is_active sp = true).
Context (Hlk : w_locks w = ∅) (name : Z) (Hname : 0 <= name < 2 ^ 32).
Let w0 := set_w_locks {[LSpace s]} w.

Lemma wp_lookup {A} (f k : Z -> M A) (Q : A -> world -> Prop) :
  ((forall i a, ~ named R s name i a) -> wp (f KERN_INVALID_NAME) Q w) ->
  (forall i a, named R s name i a -> wp (k i) Q w0) ->
  wp (r ← ipc_right_lookup_write s name; match r with inl kr => f kr | inr i => k i end) Q w.
Proof.
  intros Hno Hyes. apply wp_bind. apply (wp_right_lookup_write I Hs Hsa name); [done|rewrite Hlk; set_solver|done|].
  intros i a Hna. replace ({[LSpace s]} ∪ w_locks w) with ({[LSpace s]} : gset klock) by (rewrite Hlk; set_solver).
  by eapply Hyes.
Qed.

Lemma wp_guarded {A} (f k : Z -> M A) (Q : A -> world -> Prop) :
  ((forall i a, ~ named R s name i a) -> forall tr, wp (f KERN_INVALID_NAME) Q (set_w_trace tr w)) ->
  (forall i a, named R s name i a -> wp (k i) Q w0) ->
  wp (r ← guarded_lookup s name; match r with inl kr => f kr | inr i => k i end) Q w.
Proof.
  intros Hno Hyes. unfold guarded_lookup. apply wp_bind. apply wp_lookup.
  - intros Hnn. apply wp_bind. apply wp_call_. apply wp_ret. by apply Hno.
  - intros i a Hna. apply wp_ret. by eapply Hyes.
Qed.

(** A routine that unlocks the space. *)
Lemma call_found {A : Type} (unknown : A -> Prop) (spec : right -> A -> option right -> naked -> Prop) i a r w' :
  named R s name i a -> right_post ∅ R s i w0 (spec a) r w' -> call_post n R w s name unknown spec r w'.
Proof.
  intros Hna (a' & n' & Hsp & I' & Hl' & He'). split; [rewrite Hl'; simpl; set_solver|]. split; [done|].
  right. by exists i, a, a', n'.
Qed.

Lemma call_unknown {A : Type} (unknown : A -> Prop) spec (r : A) w' :
  (forall i a, ~ named R s name i a) -> unknown r -> w_space w' = w_space w -> w_io w' = w_io w ->
  w_port w' = w_port w -> w_locks w' = w_locks w -> w_env w' = w_env w ->
  call_post n R w s name unknown spec r w'.
Proof.
  intros Hno Hu E1 E2 E3 E4 E5. split; [by rewrite E4|]. split; [done|]. left. split; [done|]. split; [done|].
  unfold inv_with. by rewrite E1, E2, E3, E5.
Qed.

Context (Hsm : small_table sp).

Lemma named_at i a : named R s name i a -> at_right ∅ n R w0 s i a name.
Proof. intros [Ha Hn]. split; [by apply inv_set_locks|by exists sp|done|done|done]. Qed.

Lemma wp_mach_port_deallocate :
  MACH_PORT_VALID name = true ->
  wp (mach_port_deallocate s name)
    (call_post n R w s name (fun kr => kr = KERN_INVALID_NAME)
      (fun a => dealloc_ends (n := n) (a := a) (right_live w a))) w.
Proof.
  intros Hv. unfold mach_port_deallocate. pose proof (space_nonzero I Hs Hsa) as H0. change IS_NULL with 0.
  rewrite H0, Hv. cbn [negb]. apply wp_guarded.
  - intros Hno tr. apply wp_ret. by apply call_unknown.
  - intros i a Hna. pose proof (wp_right_dealloc _ _ _ _ _ _ _ _ (named_at i a Hna)) as Hd.
    eapply wp_mono; [exact Hd|]. intros kr w' Hp. eapply call_found; [exact Hna|exact Hp].
Qed.

Lemma wp_mach_port_mod_refs right delta :
  MACH_PORT_VALID name = true -> 0 <= right < MACH_PORT_RIGHT_NUMBER -> right <> MACH_PORT_RIGHT_RECEIVE ->
  wp (mach_port_mod_refs s name right delta)
    (call_post n R w s name (fun kr => kr = KERN_INVALID_NAME)
      (fun a => delta_ends (right_live w a) right delta n a)) w.
Proof.
  intros Hv Hr Hnr. unfold mach_port_mod_refs. pose proof (space_nonzero I Hs Hsa) as H0. change IS_NULL with 0.
  rewrite H0, Hv, (proj2 (Z.leb_gt _ _)) by lia. cbn [negb]. apply wp_guarded.
  - intros Hno tr. apply wp_ret. by apply call_unknown.
  - intros i a Hna.
    pose proof (wp_right_delta _ _ _ _ _ _ _ _ right delta (named_at i a Hna) Hr Hnr) as Hd.
    eapply wp_mono; [exact Hd|]. intros kr w' Hp. eapply call_found; [exact Hna|exact Hp].
Qed.

(** The port of the right of [name], where that is a right for a port, is ready to go. *)
Definition receiver_ready (R : rights) (w : world) (s name : Z) : Prop :=
  w_assertions w = 0 /\ forall i a, named R s name i a -> exists x h, receive_ready w a x h.

Definition mod_receive_ends (w : world) (n : naked) (delta : Z) (a : right) (kr : Z) (a' : option right)
    (n' : naked) : Prop :=
  exists x h, receive_ready w a x h /\ delta_receive_ends x delta n a kr a' n'.

Lemma wp_mach_port_mod_refs_receive delta :
  MACH_PORT_VALID name = true -> receiver_ready R w s name ->
  wp (mach_port_mod_refs s name MACH_PORT_RIGHT_RECEIVE delta)
    (call_post n R w s name (fun kr => kr = KERN_INVALID_NAME) (mod_receive_ends w n delta)) w.
Proof.
  intros Hv [Has Hready]. unfold mach_port_mod_refs. pose proof (space_nonzero I Hs Hsa) as H0. change IS_NULL with 0.
  rewrite H0, Hv. consts. cbn [negb]. apply wp_guarded.
  - intros Hno tr. apply wp_ret. by apply call_unknown.
  - intros i a Hna. destruct (Hready i a Hna) as (x & h & Hr).
    pose proof (wp_right_delta_receive _ _ _ _ _ _ _ _ x h delta (named_at i a Hna) Hr Has) as Hd.
    eapply wp_mono; [exact Hd|]. intros kr w' (a' & n' & Hends & Hp). eapply call_found; [exact Hna|].
    exists a', n'. split; [by exists x, h|exact Hp].
Qed.

(** *** User references *)

Lemma has_request t b m :
  request_bits t -> Z.land 0x1fffffff m = m -> has (Z.lor t b) m = has b m.
Proof.
  unfold request_bits, has. intros Ht Hm. rewrite Z.land_lor_distr_l.
  replace (Z.land t m) with 0; [done|]. by rewrite <- Hm, Z.land_assoc, Ht.
Qed.

(** The references of [right] that the bits of an entry stand for. *)
Definition refs_of (right b : Z) : Z :=
  if has b (MACH_PORT_TYPE right) && negb (right =? MACH_PORT_RIGHT_LABELH)
  then if (right =? MACH_PORT_RIGHT_SEND) || (right =? MACH_PORT_RIGHT_DEAD_NAME)
       then IE_BITS_UREFS b else 1
  else 0.

Lemma wp_refs_count right t b (Q : Z -> world -> Prop) w1 :
  bits_ok b -> request_bits t -> 0 <= right < MACH_PORT_RIGHT_NUMBER -> Q (refs_of right b) w1 ->
  wp (get_refs_count right (Z.lor t (IE_BITS_TYPE b)) (IE_BITS_UREFS b)) Q w1.
Proof.
  intros Hb Ht Hr HQ. unfold get_refs_count. unfold refs_of in HQ.
  assert (Hright : right = 0 \/ right = 1 \/ right = 2 \/ right = 3 \/ right = 4 \/ right = 5)
    by (unfold MACH_PORT_RIGHT_NUMBER in Hr; lia).
  rewrite has_request; [|done|by destruct Hright as [->|[->|[->|[->|[->| ->]]]]]].
  destruct Hright as [->|[->|[->|[->|[->| ->]]]]]; rewrite ?(has_type b) in HQ by done;
    destruct Hb as [[Et Hu]|[[Et Hu]|[[Et Hu]|[[Et Hu]|[[Et Hu]|[Et Hu]]]]]]; rewrite Et in *; cbn -[IE_BITS_UREFS] in HQ |- *;
    try (apply wp_ret; exact HQ); try (apply wp_bind, wp_massert; [by apply Z.ltb_lt|]; apply wp_ret; exact HQ);
    rewrite ?andb_false_r in HQ; try (apply wp_ret; exact HQ).
  apply wp_bind, wp_massert; [by apply Z.eqb_eq|]. apply wp_ret. exact HQ.
Qed.

Definition get_refs_ends (live : bool) (n : naked) (right : Z) (a : IpcRights.right) (r : Z + Z)
    (a' : option IpcRights.right) (n' : naked) : Prop :=
  exists extra, a' = Some (observed live extra a) /\ n' ≡ n /\
    r = inr (refs_of right (r_bits (observed live extra a))).

Lemma wp_mach_port_get_refs right :
  MACH_PORT_VALID name = true -> 0 <= right < MACH_PORT_RIGHT_NUMBER ->
  wp (mach_port_get_refs s name right)
    (call_post n R w s name (fun r => r = inl KERN_INVALID_NAME)
      (fun a => get_refs_ends (right_live w a) n right a)) w.
Proof.
  intros Hv Hr. unfold mach_port_get_refs. pose proof (space_nonzero I Hs Hsa) as H0. change IS_NULL with 0.
  rewrite H0, Hv, (proj2 (Z.leb_gt _ _)) by lia. cbn [negb]. apply wp_lookup.
  - intros Hno. apply wp_ret. by apply call_unknown.
  - intros i a Hna. destruct (named_at i a Hna) as [I0 (sp0 & Hs0 & Hsa0 & Hsm0) Ha Hn Hl0]. apply wp_bind.
    eapply wp_mono; [apply (wp_right_info_post I0 Hs0 Hsa0 Ha name Hn Hl0 Hsm0)|].
    intros [type urefs] w' (a' & n' & (extra & t & -> & En & Ht & [= -> ->]) & I' & Hl' & He').
    apply wp_bind, wp_refs_count; [|done|done|].
    + apply (ro_bits _ _ _ _ (the_right I' (put_eq (s, i) (Some (observed (right_live w0 a) extra a)) R))).
    + apply wp_ret. eapply call_found; [exact Hna|]. eexists _, n'. split; [|split; [exact I'|done]].
      by exists extra.
Qed.

(** *** Extraction of a right *)

Definition extract_ends (w : world) (n : naked) (msgt : Z) (a : right) (r : Z + (Z * Z))
    (a' : option right) (n' : naked) : Prop :=
  exists x h extra kr o release n1, port_of msgt w a x h /\
    copyin_spec msgt (object_copyin_flags IPC_KMSG_FLAGS_ALLOW_IMMOVABLE_SEND) 0 None x h extra a n
      = (kr, o, release, a', n1) /\ n' ≡ released release n1 /\
    r = if kr =? KERN_SUCCESS then inr (o, ipc_object_copyin_type msgt) else inl kr.

Lemma wp_mach_port_extract_right msgt :
  MACH_PORT_VALID name = true -> MACH_MSG_TYPE_PORT_ANY msgt = true ->
  copyin_ready msgt R w s name -> user_space w s ->
  wp (mach_port_extract_right s name msgt)
    (call_post n R w s name (fun r => r = inl KERN_INVALID_NAME) (extract_ends w n msgt)) w.
Proof.
  intros Hv Hm Hport Hu. unfold mach_port_extract_right. pose proof (space_nonzero I Hs Hsa) as H0.
  change IS_NULL with 0. rewrite H0, Hv, Hm. cbn [negb]. apply wp_bind.
  eapply wp_mono; [by apply (wp_object_copyin I Hs Hsa Hlk Hsm Hu)|].
  intros [[kr o] gf] w' (El & Ee & Hcase). apply wp_ret. split; [by rewrite El|]. split; [done|].
  destruct Hcase as [([= -> ->] & Hno & I')|(i & a & x & h & extra & rl & a' & n1 & Hna & Hp & Hspec & I')].
  - by left.
  - right. exists i, a, a', (released rl n1). split; [done|]. split; [|done].
    by exists x, h, extra, kr, o, rl, n1.
Qed.
End calls.


(** C14.  [mach_port_get_refs] on an active space of at most 4096 entries (in which no hash
    distance saturates) returns the user references of the right of a name: those of
    a send right or of a dead name, 1 for a right that is held once, 0 for a
    right of another kind.  A send right for a dead port is turned into a dead name
    on the way; nothing else changes. *)
Theorem mach_port_get_refs_ok n R w s sp name right :
  inv_with ∅ n R w -> w_space w !! s = Some sp -> is_active sp = true -> small_table sp -> w_locks w = ∅ ->
  0 <= name < 2 ^ 32 -> MACH_PORT_VALID name = true -> 0 <= right < MACH_PORT_RIGHT_NUMBER ->
  wp (mach_port_get_refs s name right)
    (call_post n R w s name (fun r => r = inl KERN_INVALID_NAME)
      (fun a => get_refs_ends (right_live w a) n right a)) w.
Proof. intros I Hs Ha Hsm Hlk Hn Hv Hr. by apply (wp_mach_port_get_refs I Hs Ha Hlk). Qed.
