(* ===== verification/MachPortNames.v ===== *)
(** * The names of a space (ipc/mach_port.c, mach_port_names)

    [mach_port_names] returns the name and the type of every right of a space. *)

From S2P Require Import Prelude IpcTypes IpcBits IpcHash IpcTable KernelState Kernel IpcFreelist IpcEntry IpcEntryInv IpcGrow IpcAlloc IpcPort IpcRight IpcHeld IpcRights IpcNaked IpcRequests IpcRightCheck IpcRightLive IpcRightDealloc IpcCopyin IpcObject IpcObjectCopyin MachPort MachPortCalls.

(** ** The answer *)

(** The type bits of the request of a right. *)
Definition request_type (w : world) (a : right) : Z :=
  if r_request a =? IE_REQ_NONE then 0
  else default 0 (x ← w_port w !! r_object a; t ← ip_requests x;
                  q ← aget (ipt_slots t) (r_request a); Some (slot_type q)).

(** The port is alive, or was when the call began. *)
Definition live_then (w : world) (timestamp : Z) (a : right) : bool :=
  right_live w a ||
  match w_port w !! r_object a with
  | Some x => IP_TIMESTAMP_ORDER timestamp (ip_timestamp x)
  | None => false
  end.

Definition names_type (w : world) (timestamp : Z) (a : right) : Z :=
  let q := request_type w a in
  let b := r_bits a in
  if has b MACH_PORT_TYPE_RECEIVE then Z.lor q (IE_BITS_TYPE b)
  else if has b MACH_PORT_TYPE_SEND_RIGHTS then
    if live_then w timestamp a then Z.lor q (IE_BITS_TYPE b)
    else IE_BITS_TYPE (died_bits b + (if negb (q =? 0) then 1 else 0))
  else IE_BITS_TYPE b.

Definition names_entry (w : world) (R : rights) (timestamp s j : Z) : list (Z * Z) :=
  match R !! (s, j) with
  | Some a => [(entry_name j (r_bits a), names_type w timestamp a)]
  | None => []
  end.

Fixpoint names_list (w : world) (R : rights) (timestamp s j : Z) (n : nat) : list (Z * Z) :=
  match n with
  | O => []
  | S n => names_entry w R timestamp s j ++ names_list w R timestamp s (j + 1) n
  end.

Section names.
Context {X : gset (Z * Z)} {n : naked} {R : rights} {w : world} (I : inv_with X n R w).
Context {s : Z} {sp : ipc_space} (Hs : w_space w !! s = Some sp) (Hsa : is_active sp = true).
Context (Hlk : w_locks w = {[LSpace s]}) (timestamp : Z).

Lemma wp_request_bits i a {x h} (Q : Z -> world -> Prop) w1 :
  R !! (s, i) = Some a -> w_port w !! r_object a = Some x -> w_io w !! r_object a = Some h ->
  w_port w1 = w_port w -> Q (request_type w a) w1 ->
  wp (if negb (r_request a =? IE_REQ_NONE)
      then ipc_port_request_type (r_object a) (entry_name i (r_bits a)) (r_request a) else mret 0) Q w1.
Proof.
  intros Ha Hx Hh Hw HQ. unfold request_type in HQ.
  destruct (Z.eqb_spec (r_request a) IE_REQ_NONE) as [Er|Er]; cbn [negb]; [by apply wp_ret|].
  pose proof (po_reqs _ _ _ _ _ _ _ (port_inv I _ x h Hx Hh)) as Hreq. rewrite Hx in HQ. simpl in HQ.
  destruct (ip_requests x) as [t|] eqn:Ht; [|exfalso; by apply Er, (Hreq (s, i))].
  destruct (req_slot _ R _ t s i a Hreq Ha eq_refl Er) as (q & _ & Hq & Hqn & _).
  simpl in HQ. rewrite Hq in HQ. simpl in HQ.
  eapply (wp_request_type _ x t); [by rewrite Hw|done|done|congruence|done|done].
Qed.

Lemma lock_and_unlock l : l ∉ w_locks w ->
  set_w_locks (w_locks (set_w_locks ({[l]} ∪ w_locks w) w) ∖ {[l]}) (set_w_locks ({[l]} ∪ w_locks w) w) = w.
Proof. intros Hl. destruct w. unfold set_w_locks. simpl in *. by rewrite unlock_again. Qed.

Lemma wp_names_helper i a d y (Q : Z * Z -> world -> Prop) :
  R !! (s, i) = Some a -> Q (entry_name i (r_bits a), names_type w timestamp a) w ->
  wp (mach_port_names_helper timestamp (mkEntry (r_object a) (r_bits a) d y (r_request a))
        (entry_name i (r_bits a))) Q w.
Proof.
  intros Ha HQ. unfold mach_port_names_helper. cbn [ie_bits ie_request ie_object].
  assert (Hno : has (r_bits a) MACH_PORT_TYPE_RECEIVE = false ->
    has (r_bits a) MACH_PORT_TYPE_SEND_RIGHTS = false -> Q (entry_name i (r_bits a), IE_BITS_TYPE (r_bits a)) w).
  { intros E1 E2. unfold names_type in HQ. by rewrite E1, E2 in HQ. }
  destruct (right_types I Ha) as [Ht|[Ht|(x & h & Hx & Hh & Hlive & Hty)]].
  1-2: revert Hno; types; intros Hno; by apply wp_ret, Hno. clear Hno.
  destruct (port_addr I _ h Hh) as (_ & _ & Hv).
  assert (Hl : LObject (r_object a) ∉ w_locks w) by (rewrite Hlk; set_solver).
  pose proof (lock_and_unlock _ Hl) as Hw. set (w1 := set_w_locks ({[LObject (r_object a)]} ∪ w_locks w) w) in *.
  pose proof (fun Q => wp_request_bits i a Q w1 Ha Hx Hh eq_refl) as Hreq.
  assert (Hlock : forall Q', Q' tt w1 -> wp (ip_lock (r_object a)) Q' w) by (intros Q' HQ'; by apply (wp_ip_lock _ x h)).
  assert (Hunlock : forall Q', Q' tt w -> wp (ip_unlock (r_object a)) Q' w1).
  { intros Q' HQ'. unfold io_unlock. apply wp_unlock; [simpl; set_solver|]. by rewrite Hw. }
  unfold names_type in HQ. destruct (has (r_bits a) MACH_PORT_TYPE_RECEIVE) eqn:Hr.
  - pose proof (receive_live I Ha Hx Hh Hr) as Hact. apply wp_bind, wp_massert; [done|]. apply wp_bind.
    destruct (Z.eqb_spec (r_request a) IE_REQ_NONE) as [Er|Er]; cbn [negb] in *.
    + apply wp_ret, wp_ret. unfold request_type in HQ. by rewrite Er in HQ.
    + apply wp_bind, Hlock. apply wp_bind. apply (wp_require_active (w := w1) _ h Hh Hact). apply wp_bind, Hreq.
      apply wp_bind, Hunlock, wp_ret. by apply wp_ret.
  - assert (Hsr : has (r_bits a) MACH_PORT_TYPE_SEND_RIGHTS = true).
    { revert Hr. rewrite !(has_type (r_bits a)) by done. by destruct Hty as [-> |[-> |[-> | ->]]]. }
    rewrite Hsr in HQ |- *. apply wp_bind, wp_massert; [done|]. apply wp_bind, Hlock. apply wp_bind, Hreq.
    apply wp_bind. unfold ip_active. apply wp_bind. eapply wp_io; [exact Hh|]. apply wp_ret.
    apply wp_bind. eapply wp_port; [exact Hx|]. apply wp_bind, Hunlock, wp_ret.
    unfold live_then in HQ. rewrite Hlive, Hx in HQ. fold (died_bits (r_bits a)).
    by destruct (io_active h || _).
Qed.

Lemma wp_names_loop m j (Q : list (Z * Z) -> world -> Prop) :
  0 <= j -> j + Z.of_nat m <= alen (is_table sp) -> Q (names_list w R timestamp s j m) w ->
  wp (names_loop m timestamp (is_table sp) j) Q w.
Proof.
  revert j Q. induction m as [|m IH]; intros j Q Hj Hlen HQ; cbn [names_loop names_list] in *; [by apply wp_ret|].
  destruct (aget_lt_Some (is_table sp) j) as [e He]; [lia|]. apply wp_bind. eapply wp_deref; [exact He|].
  destruct I as [S _]. pose proof (si_rights _ _ _ _ S s j) as Hr. unfold right_at in Hr. rewrite Hs in Hr.
  simpl in Hr. rewrite He in Hr. simpl in Hr. unfold names_entry in HQ. rewrite Hr in HQ.
  destruct (IE_BITS_TYPE (ie_bits e) =? MACH_PORT_TYPE_NONE) eqn:Ht; cbn [negb].
  - apply IH; [lia|lia|done].
  - apply wp_bind. destruct e as [o b d y r]. cbn [ie_object ie_bits ie_request] in *.
    apply (wp_names_helper j (mkRight o b r) d y); [done|]. apply wp_bind, IH; [lia|lia|]. apply wp_ret. done.
Qed.
End names.

(** ** The whole call *)

Lemma names_type_ext w w' timestamp a :
  w_io w' = w_io w -> w_port w' = w_port w -> names_type w' timestamp a = names_type w timestamp a.
Proof. intros E1 E2. unfold names_type, live_then, request_type, right_live. by rewrite E1, E2. Qed.

Lemma names_list_ext w w' R timestamp s j m :
  w_io w' = w_io w -> w_port w' = w_port w ->
  names_list w' R timestamp s j m = names_list w R timestamp s j m.
Proof.
  intros E1 E2. revert j. induction m as [|m IH]; intros j; [done|]. cbn [names_list]. rewrite IH. f_equal.
  unfold names_entry. destruct (R !! (s, j)); [|done]. by rewrite (names_type_ext w w').
Qed.

Lemma names_list_elem w R timestamp s j m name t :
  (name, t) ∈ names_list w R timestamp s j m <->
  exists i a, j <= i < j + Z.of_nat m /\ R !! (s, i) = Some a /\ name = entry_name i (r_bits a) /\
    t = names_type w timestamp a.
Proof.
  revert j. induction m as [|m IH]; intros j; cbn [names_list].
  - split; [intros H; by apply elem_of_nil in H|]. intros (i & a & ? & _). lia.
  - rewrite elem_of_app, IH. unfold names_entry. split.
    + intros [H|(i & a & ? & ?)]; [|exists i, a; split; [lia|done]].
      destruct (R !! (s, j)) as [a|] eqn:Ha; [|by apply elem_of_nil in H].
      apply list_elem_of_singleton in H as [= -> ->]. exists j, a. split; [lia|done].
    + intros (i & a & Hi & Ha & -> & ->). destruct (decide (i = j)) as [->|].
      * left. rewrite Ha. by apply list_elem_of_singleton.
      * right. exists i, a. split; [lia|done].
Qed.

Section distinct.
Context {X : gset (Z * Z)} {n : naked} {R : rights} {w : world} (I : inv_with X n R w).
Context {s : Z} {sp : ipc_space} (Hs : w_space w !! s = Some sp) (Hsa : is_active sp = true).

Lemma right_index i a :
  R !! (s, i) = Some a -> 0 <= i < 0 + Z.of_nat (Z.to_nat (is_table_size sp)) /\ is_table_size sp <= 2 ^ 24.
Proof.
  intros Ha. destruct (right_hold I Hs Hsa Ha) as (l & H & _).
  pose proof (sw_size _ _ (hd_wf _ _ _ _ _ _ _ _ _ H)). pose proof (sw_len _ _ (hd_wf _ _ _ _ _ _ _ _ _ H)).
  destruct (hd_entry _ _ _ _ _ _ _ _ _ H) as (d & y & He). apply aget_Some_range in He. lia.
Qed.

Lemma names_list_nodup timestamp m j : NoDup (names_list w R timestamp s j m).*1.
Proof.
  revert j. induction m as [|m IH]; intros j; [constructor|]. cbn [names_list]. rewrite fmap_app.
  unfold names_entry. destruct (R !! (s, j)) as [a|] eqn:Ha; [|apply IH]. simpl. constructor; [|apply IH].
  intros ([name t] & E & Hin)%list_elem_of_fmap. simpl in E. subst name.
  apply names_list_elem in Hin as (i & b & Hi & Hb & E & _).
  pose proof (right_index j a Ha). pose proof (right_index i b Hb).
  apply entry_name_inj in E as [-> _]; lia.
Qed.
End distinct.

(** The virtual memory calls on memory that has been allocated and wired succeed. *)
Definition vm_calls_ok (ev : kenv) : Prop :=
  forall tr args, e_ext ev tr "vm_map_unwire" args = KERN_SUCCESS /\
    e_ext ev tr "vm_map_copyin" args = KERN_SUCCESS.

Lemma wp_names_free addr1 addr2 size (Q : unit -> world -> Prop) w :
  (forall tr, Q tt (set_w_trace tr w)) -> wp (names_free addr1 addr2 size) Q w.
Proof.
  intros HQ. unfold names_free. apply wp_when; intros _.
  - apply wp_bind, wp_call_, wp_call_, HQ.
  - specialize (HQ (w_trace w)). by destruct w.
Qed.

Lemma wp_names_alloc size (Q : option (Z * Z) -> world -> Prop) w :
  (forall r tr, Q r (set_w_trace tr w)) -> wp (names_alloc size) Q w.
Proof.
  intros HQ. unfold names_alloc. apply wp_bind, wp_call.
  destruct (_ =? 0); [apply wp_ret, HQ|]. apply wp_bind, wp_call.
  destruct (_ =? 0); [apply wp_bind, wp_call_, wp_ret, HQ|]. apply wp_bind, wp_call.
  destruct (negb _); [apply wp_bind, wp_names_free; intros tr; apply wp_ret, HQ|]. apply wp_bind, wp_call.
  destruct (negb _); [apply wp_bind, wp_names_free; intros tr|]; apply wp_ret, HQ.
Qed.

Lemma wp_names_copyout addr1 addr2 size actual (Q : unit -> world -> Prop) w :
  vm_calls_ok (w_env w) -> (forall tr, Q tt (set_w_trace tr w)) ->
  wp (names_copyout addr1 addr2 size actual) Q w.
Proof.
  intros Hvm HQ. unfold names_copyout. destruct (actual =? 0); [by apply wp_names_free|].
  do 4 (apply wp_bind, wp_call; cbn [set_w_trace w_env]; 
        first [rewrite (proj1 (Hvm _ _))|rewrite (proj2 (Hvm _ _))]; apply wp_bind, wp_massert; [done|]).
  apply wp_when; intros _; [apply wp_bind, wp_call_, wp_call_, HQ|].
  apply (HQ (_ :: _ :: _ :: _ :: _)).
Qed.

Section call.
Context {X : gset (Z * Z)} {n : naked} {R : rights} {w : world} (I : inv_with X n R w).
Context {s : Z} {sp : ipc_space} (Hs : w_space w !! s = Some sp) (Hsa : is_active sp = true).
Context (Hlk : w_locks w = ∅).

Lemma room_size : 0 < vm_map_round_page (is_table_size sp * 4).
Proof.
  destruct I as [S _]. destruct (si_space _ _ _ _ S s sp Hs Hsa) as (l & Hr & _).
  pose proof (sw_size _ _ (sr_wf _ _ _ Hr)) as Hsz. unfold vm_map_round_page.
  change 0xfff with (Z.ones 12). rewrite <- Z.ldiff_land, Z.ldiff_ones_r by lia.
  rewrite Z.shiftr_div_pow2, Z.shiftl_mul_pow2 by lia. change (Z.ones 12) with 4095.
  assert (1 <= (is_table_size sp * 4 + 4095) / 2 ^ 12) by (apply Z.div_le_lower_bound; lia). lia.
Qed.

(** Two rounds: the arrays are allocated in the first. *)
Lemma wp_names_room (Q : Z + Z * Z * Z -> world -> Prop) :
  (forall tr, Q (inl KERN_RESOURCE_SHORTAGE) (set_w_trace tr w)) ->
  (forall addr1 addr2 size tr, Q (inr (addr1, addr2, size))
     (set_w_trace tr (set_w_locks {[LSpace s]} w))) ->
  wp (names_room 2 s 0 0 0) Q w.
Proof.
  intros Hno Hyes. pose proof room_size as Hsize. set (size := vm_map_round_page _) in *.
  assert (Hl0 : {[LSpace s]} ∪ ∅ = ({[LSpace s]} : gset klock)) by set_solver.
  assert (Hl1 : {[LSpace s]} ∖ {[LSpace s]} = (∅ : gset klock)) by set_solver.
  cbn [names_room]. apply wp_bind. unfold is_read_lock. apply wp_lock; [rewrite Hlk; set_solver|].
  apply wp_bind. eapply wp_space; [exact Hs|]. rewrite Hsa. cbn [negb]. fold size.
  rewrite (proj2 (Z.leb_gt size 0)) by lia. apply wp_bind. unfold is_read_unlock.
  apply wp_unlock; [simpl; set_solver|]. apply wp_bind. apply wp_names_free. intros tr.
  apply wp_bind, wp_names_alloc. intros [[addr1 addr2]|] tr'.
  - apply wp_bind, wp_lock; [simpl; rewrite Hlk; set_solver|]. apply wp_bind. eapply wp_space; [exact Hs|].
    rewrite Hsa. cbn [negb]. fold size. rewrite Z.leb_refl. apply wp_ret.
    specialize (Hyes addr1 addr2 size tr'). destruct w. unfold set_w_trace, set_w_locks in *. simpl in *.
    by rewrite Hlk, Hl0, Hl1, Hl0.
  - apply wp_ret. specialize (Hno tr'). destruct w. unfold set_w_trace, set_w_locks in *. simpl in *.
    rewrite Hlk in Hno. by rewrite Hlk, Hl0, Hl1.
Qed.

Lemma wp_mach_port_names (Q : Z + list (Z * Z) -> world -> Prop) :
  vm_calls_ok (w_env w) ->
  (forall tr, Q (inl KERN_RESOURCE_SHORTAGE) (set_w_trace tr w)) ->
  (forall tr t, Q (inr (names_list w R (w_timestamp w) s 0 (Z.to_nat (is_table_size sp))))
     (set_w_trace tr (set_w_timestamp t w))) ->
  wp (mach_port_names 2 s) Q w.
Proof.
  intros Hvm Hno Hyes. unfold mach_port_names. pose proof (space_nonzero I Hs Hsa) as H0. change IS_NULL with 0.
  rewrite H0. apply wp_bind, wp_names_room.
  - intros tr. apply wp_ret, Hno.
  - intros addr1 addr2 size tr. apply wp_bind. unfold ipc_port_timestamp. apply wp_bind, wp_gets.
    apply wp_bind, wp_modify, wp_ret. apply wp_bind. eapply wp_space; [exact Hs|]. apply wp_bind.
    assert (Hlen : alen (is_table sp) = is_table_size sp).
    { destruct I as [S _]. destruct (si_space _ _ _ _ S s sp Hs Hsa) as (l & Hr & _). apply (sr_wf _ _ _ Hr). }
    pose proof (alen_nonneg (is_table sp)).
    set (w1 := set_w_timestamp _ _). assert (I1 : inv_with X n R w1) by exact I.
    apply (wp_names_loop (w := w1) I1 Hs Hsa eq_refl); [lia|lia|].
    rewrite (names_list_ext w w1) by done. apply wp_bind. unfold is_read_unlock. apply wp_unlock; [simpl; set_solver|].
    apply wp_bind. apply wp_names_copyout; [done|]. intros tr'. apply wp_ret. cbn [w1 set_w_trace set_w_locks w_timestamp].
    assert (E : {[LSpace s]} ∖ {[LSpace s]} = w_locks w) by (rewrite Hlk; set_solver).
    specialize (Hyes tr' (u32 (w_timestamp w + 1))). destruct w. unfold set_w_trace, set_w_locks, set_w_timestamp in *.
    simpl in *. by rewrite E.
Qed.
End call.


(** ** A count at its maximum *)

(** One more user reference is carried into the type. *)
Lemma died_carry b :
  IE_BITS_UREFS b = MACH_PORT_UREFS_MAX ->
  IE_BITS_TYPE (died_bits b + 1) = Z.lor MACH_PORT_TYPE_DEAD_NAME MACH_PORT_TYPE_SEND.
Proof.
  rewrite <- died_urefs. pose proof (died_type b) as Ht. revert Ht. generalize (died_bits b). intros c.
  rewrite !IE_BITS_TYPE_div, IE_BITS_UREFS_mod. change MACH_PORT_TYPE_DEAD_NAME with (16 * 2 ^ 16).
  change (Z.lor _ _) with (17 * 2 ^ 16). change MACH_PORT_UREFS_MAX with (2 ^ 16 - 1). intros Ht Hu.
  pose proof (Z.div_mod c (2 ^ 16) ltac:(lia)) as Hc. rewrite Hu in Hc.
  replace (c + 1) with ((c / 2 ^ 16 + 1) * 2 ^ 16) by lia. rewrite Z.div_mul by lia.
  rewrite <- Z.add_mod_idemp_l by lia. replace ((c / 2 ^ 16) mod 2 ^ 5) with 16 by lia. reflexivity.
Qed.

(** C29.  mach_port_names adds the user reference of a pending notification to a send
    right for a dead port without a look at the maximum: of a right with 65535
    references it reports the type of a dead name and of a send right at once.  The
    routines that turn the right into a dead name leave the count at its maximum. *)
Theorem names_count_overflows w p x h t q name r ts bits d y :
  w_port w !! p = Some x -> w_io w !! p = Some h -> IP_VALID p = true -> LObject p ∉ w_locks w ->
  io_active h = false -> IP_TIMESTAMP_ORDER ts (ip_timestamp x) = false ->
  ip_requests x = Some t -> r <> IE_REQ_NONE -> aget (ipt_slots t) r = Some q -> ipr_name q = name ->
  slot_type q <> 0 -> IE_BITS_TYPE bits = MACH_PORT_TYPE_SEND -> IE_BITS_UREFS bits = MACH_PORT_UREFS_MAX ->
  wp (mach_port_names_helper ts (mkEntry p bits d y r) name)
    (fun v w' => v = (name, Z.lor MACH_PORT_TYPE_DEAD_NAME MACH_PORT_TYPE_SEND) /\ w_locks w' = w_locks w) w /\
  IE_BITS_TYPE (r_bits (died true (mkRight p bits r))) = MACH_PORT_TYPE_DEAD_NAME.
Proof.
  intros Hx Hh Hv Hl Ha Hts Ht Hr Hq Hname Hst Hty Hu. split; [|apply died_right_type].
  unfold mach_port_names_helper. cbn [ie_bits ie_next ie_object].
  assert (Hb1 : has bits MACH_PORT_TYPE_RECEIVE = false) by by types.
  assert (Hb2 : has bits MACH_PORT_TYPE_SEND_RIGHTS = true) by by types.
  rewrite Hb1, Hb2. apply wp_bind, wp_massert; [done|]. apply wp_bind. apply (wp_ip_lock p x h); [done..|].
  rewrite (proj2 (Z.eqb_neq _ _) Hr). cbn [negb]. apply wp_bind.
  eapply (wp_request_type p x t); [done|done|done|exact Hname|done|].
  apply wp_bind. unfold ip_active. apply wp_bind. apply (wp_io p h); [done|]. apply wp_ret.
  apply wp_bind. apply (wp_port p x); [done|]. rewrite Ha, Hts. cbn [orb].
  rewrite (proj2 (Z.eqb_neq _ _) Hst). cbn [negb]. apply wp_bind. unfold io_unlock.
  apply wp_unlock; [simpl; set_solver|]. apply wp_ret. split; [|simpl; set_solver].
  fold (died_bits bits). by rewrite (died_carry bits Hu).
Qed.

(** A port that died at time 4, and the send right of name 0x503 for it. *)
Definition overflow_port : ipc_port :=
  set_ip_requests (Some (mkRequests 0x7000 [mkRequest 0 0; mkRequest 0x6000 0x503]))
    (set_ip_receiver 4 ip_zero).
Definition overflow_world : world :=
  mkWorld {[0x5000 := mkObject (io_makebits false IOT_PORT 0) 1]} {[0x5000 := overflow_port]} ∅ ∅ [] 0 0 example_env.

Lemma names_count_overflows_witness :
  wp (mach_port_names_helper 8 (mkEntry 0x5000 (MACH_PORT_TYPE_SEND + 0xffff) 0 0 1) 0x503)
    (fun v w' => v = (0x503, Z.lor MACH_PORT_TYPE_DEAD_NAME MACH_PORT_TYPE_SEND) /\ w_locks w' = ∅) overflow_world.
Proof.
  apply (names_count_overflows overflow_world 0x5000 overflow_port (mkObject (io_makebits false IOT_PORT 0) 1)
    (mkRequests 0x7000 [mkRequest 0 0; mkRequest 0x6000 0x503]) (mkRequest 0x6000 0x503)); try reflexivity.
  - apply not_elem_of_empty.
  - discriminate.
  - discriminate.
Defined.
