(* ===== verification/MachPortGuard.v ===== *)
(** * Guards of ports (ipc/mach_port.c)

    The calls [mach_port_guard], [mach_port_guard_with_flags],
    [mach_port_unguard], [mach_port_swap_guard], [mach_port_set_context] and
    [mach_port_get_context] implement a small machine on the context and the
    guard bits of a port.  What a guard protects is proved of the machine, and
    the calls are proved to refine it. *)

From S2P Require Import Prelude IpcTypes IpcBits IpcHash IpcTable KernelState Kernel IpcFreelist IpcEntry IpcEntryInv IpcGrow IpcAlloc IpcPort IpcRight IpcHeld IpcRights IpcNaked IpcRequests IpcRightCheck IpcRightLive IpcRightDealloc IpcCopyin IpcObject IpcObjectCopyin MachPort MachPortCalls MachPortNames.

(** ** The machine *)

Record guard := mkGuard {
  g_context : Z;
  g_guarded : bool;
  g_strict : bool;
  g_immovable : bool
}.
#[export] Instance guard_eq_dec : EqDecision guard.
Proof. solve_decision. Defined.

Inductive guard_op :=
  | OpGuard (guard flags : Z)
  | OpUnguard (guard : Z)
  | OpSwap (old_guard new_guard : Z)
  | OpSetContext (context : Z)
  | OpGetContext.

(** What a call returns: its code, and the context where it returns one. *)
Definition guard_result : Type := Z * option Z.

Definition guard_step (op : guard_op) (g : guard) : guard_result * guard :=
  let refused := ((KERN_INVALID_ARGUMENT, None), g) in
  let done g' := ((KERN_SUCCESS, None), g') in
  match op with
  | OpGuard v flags =>
      if negb (g_context g =? 0) then refused
      else done (mkGuard v true (flag flags MPG_STRICT)
                   (g_immovable g || flag flags MPG_IMMOVABLE_RECEIVE))
  | OpUnguard v =>
      if negb (g_guarded g) || negb (g_context g =? v) then refused
      else done (mkGuard 0 false false (g_immovable g))
  | OpSwap old new =>
      if negb (g_guarded g) || g_strict g || negb (g_context g =? old) then refused
      else done (mkGuard new (g_guarded g) (g_strict g) (g_immovable g))
  | OpSetContext c =>
      if g_strict g then refused
      else done (mkGuard c (g_guarded g) (g_strict g) (g_immovable g))
  | OpGetContext => ((KERN_SUCCESS, Some (if g_strict g then 0 else g_context g)), g)
  end.

Fixpoint guard_run (ops : list guard_op) (g : guard) : list guard_result * guard :=
  match ops with
  | [] => ([], g)
  | op :: ops =>
      let '(r, g1) := guard_step op g in
      let '(rs, g2) := guard_run ops g1 in (r :: rs, g2)
  end.

(** A strict guard stands until it is taken back with its value. *)
Lemma strict_step op g :
  g_strict g = true -> g_guarded g = true -> g_context g <> 0 -> op <> OpUnguard (g_context g) ->
  (guard_step op g).2 = g /\ (op = OpGetContext -> (guard_step op g).1 = (KERN_SUCCESS, Some 0)) /\
  (op <> OpGetContext -> (guard_step op g).1 = (KERN_INVALID_ARGUMENT, None)).
Proof.
  intros Hs Hg Hc Hop. destruct op as [v f|v|o v|c|]; cbn [guard_step]; rewrite ?Hs, ?Hg; cbn [negb orb]; try done.
  - by rewrite (proj2 (Z.eqb_neq _ _) Hc).
  - destruct (Z.eqb_spec (g_context g) v) as [<-|]; done.
Qed.

(** ** The machine of a port *)

Definition guard_of (x : ipc_port) : guard :=
  mkGuard (ip_context x) (ip_guarded x) (ip_strict_guard x) (ip_immovable_receive x).

Definition with_guard (g : guard) (x : ipc_port) : ipc_port :=
  set_ip_immovable_receive (g_immovable g) (set_ip_strict_guard (g_strict g)
    (set_ip_guarded (g_guarded g) (set_ip_context (g_context g) x))).

Lemma with_guard_of x : with_guard (guard_of x) x = x.
Proof. by destruct x. Qed.

Lemma guard_of_with g x : guard_of (with_guard g x) = g.
Proof. by destruct g, x. Qed.

Definition of_unit (r : Z + unit) : guard_result :=
  match r with inl kr => (kr, None) | inr _ => (KERN_SUCCESS, None) end.
Definition of_context (r : Z + Z) : guard_result :=
  match r with inl kr => (kr, None) | inr c => (KERN_SUCCESS, Some c) end.

(** The calls; [strict] guards are made with the flag. *)
Definition run_guard_op (s name : Z) (op : guard_op) : M guard_result :=
  match op with
  | OpGuard v flags => kr ← mach_port_guard_with_flags s name v flags; mret (kr, None)
  | OpUnguard v => kr ← mach_port_unguard s name v; mret (kr, None)
  | OpSwap old new => kr ← mach_port_swap_guard s name old new; mret (kr, None)
  | OpSetContext c => r ← mach_port_set_context s name c; mret (of_unit r)
  | OpGetContext => r ← mach_port_get_context s name; mret (of_context r)
  end.

Fixpoint run_guard_ops (s name : Z) (ops : list guard_op) : M (list guard_result) :=
  match ops with
  | [] => mret []
  | op :: ops => r ← run_guard_op s name op; rs ← run_guard_ops s name ops; mret (r :: rs)
  end.

(** ** The calls refine the machine *)

(** Fields that the invariant does not read. *)
Lemma inv_fields {X n R w} (I : inv_with X n R w) p x x' w' :
  w_port w !! p = Some x -> port_same x x' -> ip_srights x' = ip_srights x -> ip_sorights x' = ip_sorights x ->
  w_space w' = w_space w -> w_env w' = w_env w -> w_io w' = w_io w -> w_port w' = <[p := x']> (w_port w) ->
  inv_with X n R w'.
Proof.
  intros Hx Hsame Es Eso Hsp He Hio Hpo. destruct (I) as [_ O].
  destruct (oi_port _ _ _ _ _ _ O p x Hx) as (h & Hh & _). rewrite <- (give_zero p n).
  pose proof (ref_range I p h Hh). pose proof (naked_inv I p) as (? & ? & ? & ?).
  apply (inv_naked I p x h Hx Hh 0 0 0 x' h w'); try done; try lia. by rewrite Hio, insert_id.
Qed.

(** [w'] is [w] but for the guard [g] of port [p], and calls that were made. *)
Record guard_changed (p : Z) (x : ipc_port) (g : guard) (w w' : world) : Prop := {
  gc_space : w_space w' = w_space w;
  gc_io : w_io w' = w_io w;
  gc_env : w_env w' = w_env w;
  gc_locks : w_locks w' = w_locks w;
  gc_port : w_port w' = <[p := with_guard g x]> (w_port w)
}.

(** In space [s], [name] is the receive right of port [p]. *)
Definition receives (R : rights) (s name p : Z) : Prop :=
  exists i a, named R s name i a /\ r_object a = p /\ has (r_bits a) MACH_PORT_TYPE_RECEIVE = true.

Section guards.
Context {n : naked} {R : rights} {w : world} (I : inv_with ∅ n R w).
Context {s : Z} {sp : ipc_space} (Hs : w_space w !! s = Some sp) (Hsa : is_active sp = true).
Context (Hlk : w_locks w = ∅) (name : Z) (Hname : 0 <= name < 2 ^ 32) (Hv : MACH_PORT_VALID name = true).
Context (p : Z) (x : ipc_port) (Hrcv : receives R s name p) (Hx : w_port w !! p = Some x).
Let wp_locked := set_w_locks {[LObject p]} w.

Lemma wp_translate_receive (Q : Z + Z -> world -> Prop) :
  Q (inr p) wp_locked -> wp (ipc_port_translate_receive s name) Q w.
Proof.
  intros HQ. destruct Hrcv as (i0 & a0 & [Ha0 Hn0] & Hp0 & Hr0).
  destruct (I) as [_ O]. destruct (oi_port _ _ _ _ _ _ O p x Hx) as (h & Hh & _).
  rewrite <- Hp0 in Hx, Hh. pose proof (receive_live I Ha0 Hx Hh Hr0) as Hact. rewrite Hp0 in Hx, Hh.
  destruct (port_addr I p h Hh) as (H0 & _). pose proof (right_hold I Hs Hsa Ha0) as (l & H & _).
  pose proof (right_index I Hs Hsa i0 a0 Ha0) as Hi0.
  assert (Huniq : forall i a, named R s name i a -> i = i0).
  { intros i a [Ha E]. pose proof (right_index I Hs Hsa i a Ha). rewrite Hn0 in E.
    apply entry_name_inj in E as [? _]; lia. }
  unfold ipc_port_translate_receive, ipc_object_translate.
  change (MACH_PORT_RIGHT_VALID_TRANSLATE MACH_PORT_RIGHT_RECEIVE) with true. cbn [negb].
  apply (wp_lookup I Hs Hsa Hlk name Hname); [intros Hno; by destruct (Hno i0 a0)|].
  intros i a Hna. rewrite (Huniq i a Hna).
  apply wp_bind. eapply wp_held_entry; [exact Hs|exact H|]. intros d y. cbn [ie_bits ie_object].
  unfold has in Hr0. change (MACH_PORT_TYPE MACH_PORT_RIGHT_RECEIVE) with MACH_PORT_TYPE_RECEIVE.
  change MACH_PORT_TYPE_NONE with 0. apply negb_true_iff in Hr0. rewrite Hr0, Hp0.
  apply wp_bind, wp_massert; [by rewrite (proj2 (Z.eqb_neq _ _) H0)|].
  apply wp_bind. apply (wp_ip_lock p x h); [done|done|simpl; set_solver|].
  apply wp_bind. unfold is_write_unlock. apply wp_unlock; [simpl; set_solver|].
  apply wp_bind. apply (wp_io p h); [done|]. rewrite Hact. apply wp_ret.
  replace (set_w_locks _ _) with wp_locked; [done|]. unfold wp_locked, set_w_locks. simpl. f_equal. set_solver.
Qed.

Let changed g w' := guard_changed p x g w w'.

Lemma unlocked_same tr :
  changed (guard_of x) (set_w_trace tr (set_w_locks ({[LObject p]} ∖ {[LObject p]}) w)).
Proof.
  split; try done; simpl; [rewrite Hlk; set_solver|]. by rewrite with_guard_of, insert_id.
Qed.

Lemma wp_unlock_same {A : Type} (r : A) (Q : A -> world -> Prop) :
  (forall w', changed (guard_of x) w' -> Q r w') -> wp (ip_unlock p;; mret r) Q wp_locked.
Proof.
  intros HQ. apply wp_bind. unfold io_unlock. apply wp_unlock; [simpl; set_solver|]. apply wp_ret, HQ.
  apply (unlocked_same (w_trace w)).
Qed.

Lemma wp_unlock_refused {A : Type} reason (r : A) v1 v2 (Q : A -> world -> Prop) :
  (forall w', changed (guard_of x) w' -> Q r w') ->
  wp (ip_unlock p;; mach_port_guard_exception name v1 v2 reason;; mret r) Q wp_locked.
Proof.
  intros HQ. apply wp_bind. unfold io_unlock. apply wp_unlock; [simpl; set_solver|].
  apply wp_bind, wp_call_, wp_ret, HQ. apply (unlocked_same (_ :: w_trace w)).
Qed.

(** The update of the guard under the lock of the message queue. *)
Lemma wp_guard_update {A : Type} (f : ipc_port -> ipc_port) g (k : M A) (Q : A -> world -> Prop) :
  f x = with_guard g x ->
  (forall w', w_locks w' = {[LObject p]} -> w_trace w' = w_trace w ->
     changed g (set_w_locks ∅ w') -> wp k Q w') ->
  wp (imq_lock p;; upd_port p f;; imq_unlock p;; k) Q wp_locked.
Proof.
  intros Hf HQ. apply wp_bind. unfold imq_lock. apply wp_lock; [simpl; set_solver|].
  apply wp_bind. apply (wp_upd_port p x); [done|].
  apply wp_bind. unfold imq_unlock. apply wp_unlock; [simpl; set_solver|].
  apply HQ; [simpl; set_solver|done|]. split; try done. simpl. by rewrite Hf.
Qed.

Lemma wp_unlock_changed {A : Type} g (r : A) (Q : A -> world -> Prop) w1 :
  w_locks w1 = {[LObject p]} -> changed g (set_w_locks ∅ w1) -> (forall w', changed g w' -> Q r w') ->
  wp (ip_unlock p;; mret r) Q w1.
Proof.
  intros Hl [E1 E2 E3 E4 E5] HQ. apply wp_bind. unfold io_unlock. apply wp_unlock; [rewrite Hl; set_solver|].
  apply wp_ret, HQ. split; try done. simpl. rewrite Hl, Hlk. set_solver.
Qed.

Lemma wp_with_receive {A : Type} (k : Z -> M (Z + A)) Q :
  wp (k p) Q wp_locked -> wp (with_receive s name k) Q w.
Proof.
  intros Hk. unfold with_receive. pose proof (space_nonzero I Hs Hsa) as H0. change IS_NULL with 0.
  rewrite H0, Hv. cbn [negb]. apply wp_bind, wp_translate_receive, Hk.
Qed.

Lemma wp_with_guarded (k : Z -> M Z) Q :
  wp (k p) Q wp_locked -> wp (with_guarded s name k) Q w.
Proof.
  intros Hk. unfold with_guarded. pose proof (space_nonzero I Hs Hsa) as H0. change IS_NULL with 0.
  rewrite H0, Hv. cbn [negb]. apply wp_bind, wp_translate_receive, Hk.
Qed.

Let ends op (r : guard_result) w' :=
  r = (guard_step op (guard_of x)).1 /\ changed (guard_step op (guard_of x)).2 w'.

Lemma wp_op_guard v flags : wp (run_guard_op s name (OpGuard v flags)) (ends (OpGuard v flags)) w.
Proof.
  cbn [run_guard_op]. unfold mach_port_guard_with_flags, mach_port_guard_locked, ends. cbn [guard_step g_context guard_of].
  apply wp_bind, wp_with_guarded, wp_bind, wp_bind. apply (wp_port p x); [done|].
  destruct (ip_context x =? 0) eqn:E0; cbn [negb].
  - apply wp_guard_update with (mkGuard v true (flag flags MPG_STRICT) (ip_immovable_receive x || flag flags MPG_IMMOVABLE_RECEIVE)).
    + destruct x. cbn. by destruct ip_immovable_receive.
    + intros w' Hl Ht Hch. apply wp_ret. apply wp_bind. unfold io_unlock. apply wp_unlock; [rewrite Hl; set_solver|].
      destruct Hch as [E1 E2 E3 E4 E5]. apply wp_ret, wp_ret. split; [done|]. split; try done. simpl. rewrite Hl, Hlk. set_solver.
  - apply wp_ret. apply wp_unlock_refused. intros w' Hch. apply wp_ret. by split.
Qed.

Lemma wp_op_unguard v : wp (run_guard_op s name (OpUnguard v)) (ends (OpUnguard v)) w.
Proof.
  cbn [run_guard_op]. unfold mach_port_unguard, mach_port_unguard_locked, ends.
  cbn [guard_step g_context g_guarded g_immovable guard_of].
  apply wp_bind, wp_with_guarded, wp_bind, wp_bind. apply (wp_port p x); [done|].
  destruct (ip_guarded x) eqn:Eg; cbn [negb orb]; [destruct (ip_context x =? v) eqn:E0; cbn [negb orb]|].
  - apply wp_guard_update with (mkGuard 0 false false (ip_immovable_receive x)); [by destruct x|].
    intros w' Hl _ Hch. apply wp_ret. eapply wp_unlock_changed; [done|done|]. intros w1 H1. apply wp_ret. by split.
  - apply wp_bind, wp_call_, wp_ret, wp_bind. unfold io_unlock. apply wp_unlock; [simpl; set_solver|].
    apply wp_ret, wp_ret. split; [done|]. apply (unlocked_same (_ :: w_trace w)).
  - apply wp_bind, wp_call_, wp_ret, wp_bind. unfold io_unlock. apply wp_unlock; [simpl; set_solver|].
    apply wp_ret, wp_ret. split; [done|]. apply (unlocked_same (_ :: w_trace w)).
Qed.

Lemma wp_op_swap old new : wp (run_guard_op s name (OpSwap old new)) (ends (OpSwap old new)) w.
Proof.
  cbn [run_guard_op]. unfold mach_port_swap_guard, ends. cbn [guard_step g_context g_guarded g_strict g_immovable guard_of].
  apply wp_bind, wp_with_guarded, wp_bind. apply (wp_port p x); [done|].
  assert (Hno : forall v1 v2 reason, wp (ip_unlock p;; mach_port_guard_exception name v1 v2 reason;;
      mret KERN_INVALID_ARGUMENT)
    (fun kr => wp (mret ((kr, None) : guard_result))
      (fun r w' => r = (KERN_INVALID_ARGUMENT, None) /\ changed (guard_of x) w'))
    wp_locked).
  { intros v1 v2 reason. apply wp_unlock_refused. intros w' H1. by apply wp_ret. }
  destruct (ip_guarded x) eqn:Eg; cbn [negb orb]; [|apply Hno].
  destruct (ip_strict_guard x) eqn:Es; cbn [negb orb]; [apply Hno|].
  destruct (ip_context x =? old) eqn:E0; cbn [negb orb]; [|apply Hno].
  apply wp_guard_update with (mkGuard new true false (ip_immovable_receive x)).
  - destruct x. simpl in *. by subst.
  - intros w' Hl _ Hch. eapply wp_unlock_changed; [done|done|]. intros w1 H1. apply wp_ret. by split.
Qed.

Lemma wp_op_set_context c : wp (run_guard_op s name (OpSetContext c)) (ends (OpSetContext c)) w.
Proof.
  cbn [run_guard_op]. unfold mach_port_set_context, ends. cbn [guard_step g_context g_guarded g_strict g_immovable guard_of].
  apply wp_bind, wp_with_receive, wp_bind. apply (wp_port p x); [done|].
  destruct (ip_strict_guard x) eqn:Es.
  - apply wp_unlock_refused. intros w' H1. by apply wp_ret.
  - apply wp_bind. apply (wp_upd_port p x); [done|].
    apply (wp_unlock_changed (mkGuard c (ip_guarded x) false (ip_immovable_receive x))); [done| |].
    + split; try done. simpl. f_equal. destruct x. simpl in *. by subst.
    + intros w' H1. by apply wp_ret.
Qed.

Lemma wp_guard_op op : wp (run_guard_op s name op) (ends op) w.
Proof.
  destruct op; [apply wp_op_guard|apply wp_op_unguard|apply wp_op_swap|apply wp_op_set_context|].
  cbn [run_guard_op]. unfold mach_port_get_context, ends. cbn [guard_step].
  apply wp_bind, wp_with_receive, wp_bind. apply (wp_port p x); [done|].
  apply wp_unlock_same. intros w' H1. by apply wp_ret.
Qed.
End guards.

Lemma with_guard_twice g1 g2 x : with_guard g2 (with_guard g1 x) = with_guard g2 x.
Proof. by destruct x. Qed.

Lemma changed_inv {n R w} p x g w' :
  inv_with ∅ n R w -> w_port w !! p = Some x -> guard_changed p x g w w' -> inv_with ∅ n R w'.
Proof.
  intros I Hx [E1 E2 E3 E4 E5]. by apply (inv_fields I p x (with_guard g x)); destruct x.
Qed.

Lemma wp_guard_ops s name p sp n R ops w x :
  inv_with ∅ n R w -> w_space w !! s = Some sp -> is_active sp = true -> w_locks w = ∅ ->
  0 <= name < 2 ^ 32 -> MACH_PORT_VALID name = true -> receives R s name p -> w_port w !! p = Some x ->
  wp (run_guard_ops s name ops) (fun rs w' => rs = (guard_run ops (guard_of x)).1 /\
    guard_changed p x (guard_run ops (guard_of x)).2 w w') w.
Proof.
  intros I Hs Hsa Hlk Hname Hv Hr Hx. revert w x I Hs Hlk Hx.
  induction ops as [|op ops IH]; intros w x I Hs Hlk Hx; cbn [run_guard_ops guard_run].
  - apply wp_ret. split; [done|]. split; try done. simpl. by rewrite with_guard_of, insert_id.
  - apply wp_bind. eapply wp_mono; [by apply (wp_guard_op I Hs Hsa Hlk name Hname Hv p x)|].
    intros r w1 [Er Hch]. destruct (guard_step op (guard_of x)) as [r1 g1]. simpl in Er, Hch. subst r1.
    destruct (Hch) as [E1 E2 E3 E4 E5]. apply wp_bind.
    eapply wp_mono; [apply (IH w1 (with_guard g1 x)); [by eapply changed_inv|congruence|congruence|]|].
    + rewrite E5. apply lookup_insert_eq.
    + rewrite guard_of_with. destruct (guard_run ops g1) as [rs g2]. intros rs' w2 [-> [F1 F2 F3 F4 F5]].
      apply wp_ret. split; [done|]. split; try congruence.
      by rewrite F5, E5, insert_insert_eq, with_guard_twice.
Qed.

(** *** Names without a receive right *)

Section no_receiver.
Context {n : naked} {R : rights} {w : world} (I : inv_with ∅ n R w).
Context {s : Z} {sp : ipc_space} (Hs : w_space w !! s = Some sp) (Hsa : is_active sp = true).
Context (Hlk : w_locks w = ∅) (name : Z) (Hname : 0 <= name < 2 ^ 32) (Hv : MACH_PORT_VALID name = true).

Lemma named_or_not : (exists i a, named R s name i a) \/ (forall i a, ~ named R s name i a).
Proof.
  assert (H : wp (entry_lookup s name) (fun r _ => match r with
    | Some i => exists i a, named R s name i a | None => forall i a, ~ named R s name i a end) w).
  { apply (wp_entry_lookup I Hs Hsa); [done|done|..]; eauto. }
  apply wp_run in H as ([i|] & w' & _ & H); auto.
Qed.

Lemma receives_or_not : (exists p, receives R s name p) \/ (forall p, ~ receives R s name p).
Proof.
  destruct named_or_not as [(i & a & Hna)|Hno].
  - destruct (has (r_bits a) MACH_PORT_TYPE_RECEIVE) eqn:Hr; [left; by exists (r_object a), i, a|].
    right. intros p (j & b & Hnb & _ & Hrb). destruct Hna as [Ha En], Hnb as [Hb Em].
    pose proof (right_index I Hs Hsa i a Ha). pose proof (right_index I Hs Hsa j b Hb).
    rewrite En in Em. apply entry_name_inj in Em as [-> _]; [|lia..]. rewrite Ha in Hb. injection Hb as <-. congruence.
  - right. intros p (j & b & Hnb & _). by destruct (Hno j b).
Qed.

Lemma wp_translate_fails (Q : Z + Z -> world -> Prop) :
  (forall p, ~ receives R s name p) ->
  (forall kr w', w_space w' = w_space w -> w_io w' = w_io w -> w_port w' = w_port w -> w_env w' = w_env w ->
     w_locks w' = ∅ -> Q (inl kr) w') ->
  wp (ipc_port_translate_receive s name) Q w.
Proof.
  intros Hno HQ. unfold ipc_port_translate_receive, ipc_object_translate.
  change (MACH_PORT_RIGHT_VALID_TRANSLATE MACH_PORT_RIGHT_RECEIVE) with true. cbn [negb].
  apply (wp_lookup I Hs Hsa Hlk name Hname); [intros _; apply wp_ret; by apply HQ|].
  intros i a [Ha Hn]. destruct (right_hold I Hs Hsa Ha) as (l & H & _).
  apply wp_bind. eapply wp_held_entry; [exact Hs|exact H|]. intros d y. cbn [ie_bits ie_object].
  destruct (Z.land (r_bits a) (MACH_PORT_TYPE MACH_PORT_RIGHT_RECEIVE) =? MACH_PORT_TYPE_NONE) eqn:E.
  - apply wp_bind. unfold is_write_unlock. apply wp_unlock; [simpl; set_solver|]. apply wp_ret, HQ; try done.
    simpl. set_solver.
  - destruct (Hno (r_object a)). exists i, a. split; [done|]. split; [done|]. unfold has.
    change MACH_PORT_TYPE_RECEIVE with (MACH_PORT_TYPE MACH_PORT_RIGHT_RECEIVE).
    change 0 with MACH_PORT_TYPE_NONE. by rewrite E.
Qed.

Let kept (w' : world) := inv_with ∅ n R w' /\ w_locks w' = ∅ /\ w_env w' = w_env w.

Lemma kept_intro w' :
  w_space w' = w_space w -> w_io w' = w_io w -> w_port w' = w_port w -> w_env w' = w_env w -> w_locks w' = ∅ ->
  kept w'.
Proof. intros E1 E2 E3 E4 E5. split; [|done]. unfold inv_with. by rewrite E1, E2, E3, E4. Qed.

Lemma wp_receive_fails {A : Type} (k : Z -> M (Z + A)) :
  (forall p, ~ receives R s name p) -> wp (with_receive s name k) (fun _ => kept) w.
Proof.
  intros Hno. unfold with_receive. pose proof (space_nonzero I Hs Hsa) as H0. change IS_NULL with 0.
  rewrite H0, Hv. cbn [negb]. apply wp_bind, wp_translate_fails; [done|]. intros. apply wp_ret. by apply kept_intro.
Qed.

Lemma wp_guarded_fails (k : Z -> M Z) :
  (forall p, ~ receives R s name p) -> wp (with_guarded s name k) (fun _ => kept) w.
Proof.
  intros Hno. unfold with_guarded. pose proof (space_nonzero I Hs Hsa) as H0. change IS_NULL with 0.
  rewrite H0, Hv. cbn [negb]. apply wp_bind, wp_translate_fails; [done|]. intros.
  apply wp_bind, wp_call_, wp_ret. by apply kept_intro.
Qed.

(** On any name, the calls keep the invariant. *)
Lemma wp_guard_any op : wp (run_guard_op s name op) (fun _ => kept) w.
Proof.
  destruct receives_or_not as [[p Hr]|Hno].
  - pose proof Hr as (i & a & [Ha _] & <- & Hrb).
    destruct (ro_port _ _ _ _ (the_right I Ha)) as (x & Hx & _).
    { destruct (right_types I Ha) as [Ht|[Ht|(_ & _ & _ & _ & _ & Hty)]];
        [revert Hrb; by types..|by destruct Hty as [-> |[-> |[-> | ->]]]]. }
    eapply wp_mono; [apply (wp_guard_op I Hs Hsa Hlk name Hname Hv _ x Hr Hx)|].
    intros r w' [_ Hch]. split; [by eapply changed_inv|]. destruct Hch as [_ _ -> -> _]. done.
  - destruct op; cbn [run_guard_op]; apply wp_bind;
      (eapply wp_mono; [by apply wp_guarded_fails || by apply wp_receive_fails|]); intros ? w' ?; by apply wp_ret.
Qed.
End no_receiver.

(** ** What guards promise *)

Definition strict_results (op : guard_op) (r : guard_result) : Prop :=
  r = match op with OpGetContext => (KERN_SUCCESS, Some 0) | _ => (KERN_INVALID_ARGUMENT, None) end.

Lemma strict_run ops g :
  g_strict g = true -> g_guarded g = true -> g_context g <> 0 -> OpUnguard (g_context g) ∉ ops ->
  (guard_run ops g).2 = g /\ Forall2 strict_results ops (guard_run ops g).1.
Proof.
  intros Hs Hg Hc. induction ops as [|op ops IH]; intros Hin; cbn [guard_run].
  - by split; [|constructor].
  - apply not_elem_of_cons in Hin as [Hop Hin]. destruct (strict_step op g Hs Hg Hc) as (E & Hget & Hno); [congruence|].
    destruct (guard_step op g) as [r g1]. simpl in E, Hget, Hno. subst g1. specialize (IH Hin).
    destruct (guard_run ops g) as [rs g2]. destruct IH as [E IH]. split; [done|]. constructor; [|done].
    unfold strict_results. destruct op; [by apply Hno..|by apply Hget].
Qed.

Lemma immovable_run ops g : g_immovable g = true -> g_immovable (guard_run ops g).2 = true.
Proof.
  revert g. induction ops as [|op ops IH]; intros g Hi; cbn [guard_run]; [done|].
  assert (H1 : g_immovable (guard_step op g).2 = true).
  { destruct op; cbn [guard_step]; repeat case_match; try done; simpl; by rewrite Hi. }
  destruct (guard_step op g) as [r g1]. specialize (IH g1 H1). by destruct (guard_run ops g1).
Qed.


(** C17. A strict guard other than 0 holds: no sequence of calls on the guard and
    the context of the port that does not contain [mach_port_unguard] with the
    value of the guard changes anything of the port, every call that would is refused,
    and [mach_port_get_context] does not disclose the guard. *)
Theorem strict_guard_holds n R w s sp name p x ops :
  inv_with ∅ n R w -> w_space w !! s = Some sp -> is_active sp = true -> w_locks w = ∅ ->
  0 <= name < 2 ^ 32 -> MACH_PORT_VALID name = true -> receives R s name p -> w_port w !! p = Some x ->
  ip_guarded x = true -> ip_strict_guard x = true -> ip_context x <> 0 -> OpUnguard (ip_context x) ∉ ops ->
  wp (run_guard_ops s name ops)
    (fun rs w' => Forall2 strict_results ops rs /\ w_port w' = w_port w /\ w_locks w' = ∅) w.
Proof.
  intros I Hs Hsa Hlk Hname Hv Hr Hx Hg Hst Hc Hin. eapply wp_mono; [by eapply wp_guard_ops|].
  destruct (strict_run ops (guard_of x) Hst Hg Hc Hin) as [E Hres].
  intros rs w' [-> [E1 E2 E3 E4 E5]]. split; [done|]. split; [|congruence].
  by rewrite E5, E, with_guard_of, insert_id.
Qed.
