(* ===== verification/MachSystem.v ===== *)
(** * The system of calls

    Spaces are created, and names are allocated, released, read, guarded and
    extracted by system calls in any order, while the kernel makes and releases
    rights that it holds itself.  The states that such sequences of calls reach
    satisfy the invariant of rights and objects, and in each of them every call
    that is allowed returns. *)

From S2P Require Import Prelude IpcTypes IpcBits IpcHash IpcTable KernelState Kernel IpcFreelist IpcSpaceInit IpcEntry IpcEntryInv IpcGrow IpcAlloc IpcPort IpcRight IpcHeld IpcRights IpcNaked IpcRightCheck IpcRightLive IpcRightDealloc IpcDestroy IpcRightDelta IpcCopyin IpcRightReceive IpcObject IpcObjectCopyin IpcObjectAlloc MachPort MachPortAlloc MachPortCalls MachPortNames MachPortGuard.

(** ** Calls *)

Inductive syscall :=
  | SysSpaceCreate (initial label : Z)
  | SysAllocate (s right : Z)
  | SysDeallocate (s name : Z)
  | SysModRefs (s name right delta : Z)
  | SysGetRefs (s name right : Z)
  | SysExtractRight (s name msgt : Z)
  | SysNames (s : Z)
  | SysGuard (s name : Z) (op : guard_op)
  | SysNaked (op : naked_op) (p : Z).

Definition ignore {A : Type} (m : M A) : M unit := _ ← m; mret tt.

Definition run_call (c : syscall) : M unit :=
  match c with
  | SysSpaceCreate initial label => ignore (ipc_space_create initial label)
  | SysAllocate s right => ignore (mach_port_allocate s right)
  | SysDeallocate s name => ignore (mach_port_deallocate s name)
  | SysModRefs s name right delta => ignore (mach_port_mod_refs s name right delta)
  | SysGetRefs s name right => ignore (mach_port_get_refs s name right)
  | SysExtractRight s name msgt => ignore (mach_port_extract_right s name msgt)
  | SysNames s => ignore (mach_port_names 2 s)
  | SysGuard s name op => ignore (run_guard_op s name op)
  | SysNaked op p => ignore (naked_run op p)
  end.

(** ** When a call may be made *)

Definition live_space (w : world) (s : Z) : Prop :=
  exists sp, w_space w !! s = Some sp /\ is_active sp = true.

(** No distance saturates in the hash of the space: entries can be deleted from it. *)
Definition small_space (w : world) (s : Z) : Prop :=
  exists sp, w_space w !! s = Some sp /\ is_active sp = true /\ small_table sp.

(** [name] denotes the right [a] in space [s]. *)
Definition denotes (w : world) (s name : Z) (a : right) : Prop :=
  exists i, right_at (w_space w) s i = Some a /\ name = entry_name i (r_bits a).

Definition user_name (name : Z) : Prop := 0 <= name < 2 ^ 32 /\ MACH_PORT_VALID name = true.

(** The caller of the kernel holds the right that [op] takes, whatever the
    rights held outside of spaces are. *)
Definition naked_allowed (w : world) (op : naked_op) (p : Z) : Prop :=
  exists x h, w_port w !! p = Some x /\ w_io w !! p = Some h /\
    forall n R, inv_with ∅ n R w -> naked_pre op n p x h.

Definition allowed (w : world) (c : syscall) : Prop :=
  match c with
  | SysSpaceCreate initial label =>
      0 <= initial /\ initial + 1 < alen (e_table_entries (w_env w)) /\
      (let s := e_ext (w_env w) (w_trace w) "zalloc" [2] in s <> 0 -> fresh_space w s)
  | SysAllocate s right => live_space w s /\ zone_ok IOT_PORT w /\ zone_ok IOT_PORT_SET w
  | SysDeallocate s name => small_space w s /\ user_name name
  | SysModRefs s name right delta => small_space w s /\ user_name name /\ 0 <= right < MACH_PORT_RIGHT_NUMBER /\
      (right = MACH_PORT_RIGHT_RECEIVE -> w_assertions w = 0 /\
       forall a, denotes w s name a -> exists x h, receive_ready w a x h)
  | SysGetRefs s name right => small_space w s /\ user_name name /\ 0 <= right < MACH_PORT_RIGHT_NUMBER
  | SysExtractRight s name msgt => small_space w s /\ user_name name /\ MACH_MSG_TYPE_PORT_ANY msgt = true /\
      user_space w s /\ forall a, denotes w s name a -> exists x h, port_of msgt w a x h
  | SysNames s => live_space w s /\ vm_calls_ok (w_env w)
  | SysGuard s name op => live_space w s /\ user_name name
  | SysNaked op p => naked_allowed w op p
  end.

(** ** The invariant *)

Record world_ok (w : world) : Prop := {
  wk_table : table_entries_ok (e_table_entries (w_env w)) = true;
  wk_locks : w_locks w = ∅;
  wk_inv : exists n R, inv_with ∅ n R w
}.

Lemma wp_ignore {A : Type} (m : M A) (P : world -> Prop) w :
  wp m (fun _ w' => P w') w -> wp (ignore m) (fun _ w' => P w') w.
Proof. intros H. apply wp_bind. eapply wp_mono; [exact H|]. intros a w' Hw. by apply wp_ret. Qed.

Lemma world_ok_next w w' :
  world_ok w -> w_env w' = w_env w -> w_locks w' = ∅ -> (exists n R, inv_with ∅ n R w') -> world_ok w'.
Proof. intros [H1 _ _] E1 E2 E3. by split; rewrite ?E1. Qed.

Lemma call_post_ok {A : Type} {n R w s name unknown spec} (r : A) w' :
  world_ok w -> call_post n R w s name unknown spec r w' -> world_ok w'.
Proof.
  intros K (El & Ee & H). apply (world_ok_next w); try done.
  destruct H as [(_ & _ & I')|(i & a & a' & n' & _ & _ & I')]; eauto.
Qed.

Section step.
Context (w : world) (K : world_ok w).
Let ok (c : syscall) := wp (run_call c) (fun _ w' => world_ok w') w.

Lemma create_keeps initial label : allowed w (SysSpaceCreate initial label) -> ok (SysSpaceCreate initial label).
Proof.
  pose proof K as [Ht Hlk (n & R & I)]. intros (H0 & Hi & Hf). apply wp_ignore.
  eapply wp_mono; [by apply (wp_create_inv initial label w I Ht)|].
  intros r w' ((_ & _ & El & Ee & _) & I' & _). apply (world_ok_next w); try done; [congruence|eauto].
Qed.

Lemma allocate_keeps s right : allowed w (SysAllocate s right) -> ok (SysAllocate s right).
Proof.
  pose proof K as [Ht Hlk (n & R & I)]. intros ((sp & Hs & Ha) & Hz & Hz'). apply wp_ignore.
  eapply wp_mono; [by apply (wp_mach_port_allocate I s sp Hs Ha Hlk)|].
  intros r w' (El & Ee & _ & H). apply (world_ok_next w); try done; [congruence|].
  destruct r as [kr|nm]; [destruct H as [_ I']|destruct H as (i & a & _ & _ & _ & I')]; eauto.
Qed.

Lemma mod_refs_keeps s name right delta :
  allowed w (SysModRefs s name right delta) -> ok (SysModRefs s name right delta).
Proof.
  pose proof K as [Ht Hlk (n & R & I)]. intros ((sp & Hs & Ha & Hsm) & (Hn & Hv) & Hr & Hrecv). apply wp_ignore.
  destruct (decide (right = MACH_PORT_RIGHT_RECEIVE)) as [->|Hne].
  - eapply wp_mono; [apply (wp_mach_port_mod_refs_receive I Hs Ha Hlk name Hn Hsm delta Hv)|
      intros r w'; by apply call_post_ok].
    destruct (Hrecv eq_refl) as [Has Hready]. split; [done|]. intros i a [Hi Ei].
    rewrite (si_rights _ _ _ _ (proj1 I)) in Hi. apply Hready. by exists i.
  - eapply wp_mono; [by apply (wp_mach_port_mod_refs I Hs Ha Hlk name Hn Hsm)|]. intros r w'. by apply call_post_ok.
Qed.

Lemma extract_keeps s name msgt : allowed w (SysExtractRight s name msgt) -> ok (SysExtractRight s name msgt).
Proof.
  pose proof K as [Ht Hlk (n & R & I)]. intros ((sp & Hs & Ha & Hsm) & (Hn & Hv) & Hm & Hu & Hp). apply wp_ignore.
  eapply wp_mono; [apply (wp_mach_port_extract_right I Hs Ha Hlk name Hn Hsm msgt Hv Hm); [|done]|
    intros r w'; by apply call_post_ok].
  intros i a [Hi Ei]. rewrite (si_rights _ _ _ _ (proj1 I)) in Hi. apply Hp. by exists i.
Qed.

Lemma naked_keeps op p : allowed w (SysNaked op p) -> ok (SysNaked op p).
Proof.
  pose proof K as [Ht Hlk (n & R & I)]. intros (x & h & Hx & Hh & Hpre). apply wp_ignore.
  eapply wp_mono; [apply (wp_naked_run ∅ n R w p x h op I Hx Hh); [rewrite Hlk; set_solver..|by eapply Hpre]|].
  intros r w'. unfold naked_post. destruct (naked_spec op (io_active h) p n) as [r' n'].
  intros (_ & I' & [_ El Ee _ _ _]). apply (world_ok_next w); try done; [congruence|eauto].
Qed.

(** One call. *)
Lemma call_keeps c : allowed w c -> ok c.
Proof.
  pose proof K as [Ht Hlk (n & R & I)].
  destruct c as [initial label|s right|s name|s name right delta|s name right|s name msgt|s|s name op|op p];
    [apply create_keeps|apply allocate_keeps| |apply mod_refs_keeps| |apply extract_keeps| | |apply naked_keeps];
    intros Hal; apply wp_ignore.
  - destruct Hal as ((sp & Hs & Ha & Hsm) & Hn & Hv).
    eapply wp_mono; [by apply (wp_mach_port_deallocate I Hs Ha Hlk name Hn Hsm)|]. intros r w'. by apply call_post_ok.
  - destruct Hal as ((sp & Hs & Ha & Hsm) & (Hn & Hv) & Hr).
    eapply wp_mono; [by apply (wp_mach_port_get_refs I Hs Ha Hlk name Hn Hsm)|]. intros r w'. by apply call_post_ok.
  - destruct Hal as ((sp & Hs & Ha) & Hvm).
    apply (wp_mach_port_names I Hs Ha Hlk); [done|..]; intros; by apply (world_ok_next w); eauto.
  - destruct Hal as ((sp & Hs & Ha) & Hn & Hv).
    eapply wp_mono; [by apply (wp_guard_any I Hs Ha Hlk name Hn Hv)|].
    intros r w' (I' & El & Ee). apply (world_ok_next w); eauto.
Qed.
End step.

(** ** Reachable states *)

(** A machine without spaces and ports. *)
Record booted (w : world) : Prop := {
  bt_empty : w_space w = ∅ /\ w_io w = ∅ /\ w_port w = ∅ /\ w_locks w = ∅;
  bt_table : table_entries_ok (e_table_entries (w_env w)) = true
}.

Inductive reachable : world -> Prop :=
  | reachable_boot w : booted w -> reachable w
  | reachable_call w c w' : reachable w -> allowed w c -> run_call c w = Ret tt w' -> reachable w'.

Lemma booted_ok w : booted w -> world_ok w.
Proof.
  intros [(Es & Ei & Ep & El) Ht]. split; try done.
  exists (mkNaked (fun _ => 0) (fun _ => 0) (fun _ => 0) (fun _ => 0)), ∅.
  unfold inv_with. rewrite Es, Ei, Ep. split; split; try done.
Qed.

Lemma reachable_ok w : reachable w -> world_ok w.
Proof.
  induction 1 as [w Hb|w c w' _ IH Hal Hrun]; [by apply booted_ok|].
  pose proof (call_keeps w IH c Hal) as Hwp. unfold wp in Hwp. by rewrite Hrun in Hwp.
Qed.

