(* ===== verification/IpcScenario.v ===== *)
(** * A space with a port

    A concrete state that the operations reach from an empty machine: a space is
    created and a port is allocated in it.  The contracts of the operations give
    its invariant; the theorems about rights are applied to it. *)

From S2P Require Import Prelude IpcTypes IpcBits IpcHash IpcTable KernelState Kernel IpcFreelist IpcSpaceInit IpcEntry IpcEntryInv IpcGrow IpcAlloc IpcPort IpcRight IpcHeld IpcRights IpcNaked IpcRightCheck IpcRightLive IpcRightDealloc IpcDestroy IpcRightDelta IpcCopyin IpcRightReceive IpcObject IpcObjectCopyin IpcObjectAlloc MachPort MachPortAlloc MachPortCalls MachPortNames MachPortGuard MachSystem.

Definition no_naked : naked := mkNaked (fun _ => 0) (fun _ => 0) (fun _ => 0) (fun _ => 0).

Lemma boot_inv : inv_with ∅ no_naked ∅ example_boot.
Proof. split; split; try done. Qed.

(** A space, and in it a port with a receive right and a send right. *)
Definition example_create : M (Z + Z) := ipc_space_create 0 0.
Definition example_alloc : M (Z + (Z * Z)) :=
  r ← example_create;
  match r with
  | inl kr => mret (inl kr)
  | inr s => ipc_port_alloc s IPC_PORT_INIT_MAKE_SEND_RIGHT
  end.

Definition example_result : Z + (Z * Z) :=
  match example_alloc example_boot with Ret r _ => r | Panic _ => inl 0 end.
Definition example_name : Z := match example_result with inr (name, _) => name | inl _ => 0 end.
Definition example_port : Z := match example_result with inr (_, p) => p | inl _ => 0 end.

Lemma example_succeeds : example_result = inr (example_name, example_port).
Proof. vm_compute. reflexivity. Qed.

(** The runs are evaluated by [vm_compute] only. *)
#[local] Opaque example_create.

Lemma example_created_inv :
  exists w sp, example_create example_boot = Ret (inr example_s) w /\
    inv_with ∅ no_naked ∅ w /\ w_space w !! example_s = Some sp /\ is_active sp = true /\
    w_locks w = ∅ /\ w_env w = example_env /\ w_io w = ∅ /\ w_port w = ∅ /\ w_assertions w = 0.
Proof.
  pose proof (wp_create_inv 0 0 example_boot boot_inv eq_refl
    ltac:(lia) eq_refl ltac:(by split)) as Hwp. change (ipc_space_create 0 0) with example_create in Hwp.
  apply wp_run in Hwp as (r & w & Hrun & Hc & I & _).
  assert (Hr : r = inr example_s).
  { apply (f_equal (fun o => match o with Ret r _ => r | _ => inl 0 end)) in Hrun.
    rewrite <- Hrun. vm_compute. reflexivity. }
  assert (Has : w_assertions w = 0).
  { apply (f_equal (fun o => match o with Ret _ w => w_assertions w | _ => 0 end)) in Hrun.
    rewrite <- Hrun. vm_compute. reflexivity. }
  subst r. destruct Hc as (Eio & Epo & Elk & Een & _ & _ & sp & l & Esp & Hready & _).
  exists w, sp. split; [exact Hrun|]. clear Hrun. split_and!; try done.
  - rewrite Esp. apply lookup_insert_eq.
  - apply Hready.
Qed.

Lemma wp_example_alloc :
  wp example_alloc (fun r w => exists w0, w_locks w0 = ∅ /\ w_env w0 = example_env /\
    w_assertions w0 = 0 /\
    forall name p, r = inr (name, p) -> exists i b,
    port_alloced ∅ no_naked ∅ w0 example_s IPC_PORT_INIT_MAKE_SEND_RIGHT name p i b w) example_boot.
Proof.
  destruct example_created_inv as (w0 & sp & Hrun & I & Hs & Ha & Elk & Een & Eio & Epo & Has).
  assert (Hz : zone_ok IOT_PORT w0).
  { clear Hrun. intros _. rewrite Een. unfold fresh_object. rewrite Eio, Epo, Elk.
    split_and!; [done|done|set_solver|done]. }
  pose proof (wp_port_alloc I example_s IPC_PORT_INIT_MAKE_SEND_RIGHT sp Hs Ha) as Hp.
  specialize (Hp ltac:(clear Hrun; rewrite Elk; set_solver) Hz).
  unfold example_alloc. apply wp_bind. unfold wp at 1. rewrite Hrun. clear Hrun.
  eapply wp_mono; [exact Hp|]. intros r w Hpost. exists w0. split_and!; [done..|].
  intros name p ->. exact Hpost.
Qed.
#[local] Opaque example_alloc.

Lemma example_run :
  exists w0 w i b, example_alloc example_boot = Ret (inr (example_name, example_port)) w /\
    w_locks w0 = ∅ /\ w_env w0 = example_env /\ w_assertions w0 = 0 /\
    is_table_size <$> w_space w !! example_s = Some 21 /\
    port_alloced ∅ no_naked ∅ w0 example_s IPC_PORT_INIT_MAKE_SEND_RIGHT
      example_name example_port i b w.
Proof.
  destruct (wp_run _ _ _ wp_example_alloc) as (r & w & Hrun & w0 & Hl & He & Has & Hpost).
  assert (Hr : r = inr (example_name, example_port)).
  { rewrite <- example_succeeds. unfold example_result. by rewrite Hrun. }
  assert (Hsz : is_table_size <$> w_space w !! example_s = Some 21).
  { apply (f_equal (fun o => match o with Ret _ w => is_table_size <$> w_space w !! example_s | _ => None end)) in Hrun.
    rewrite <- Hrun. vm_compute. reflexivity. }
  destruct (Hpost _ _ Hr) as (i & b & Hp). subst r. exists w0, w, i, b. split; [exact Hrun|].
  clear Hrun. by split_and!.
Qed.

#[local] Opaque example_name example_port example_result.

(** The right of the port, with its space locked as the right operations expect. *)
Lemma example_right :
  exists w i a, example_alloc example_boot = Ret (inr (example_name, example_port)) w /\
    at_right ∅ no_naked (put (example_s, i) (Some a) ∅) (set_w_locks {[LSpace example_s]} w)
      example_s i a example_name /\
    IE_BITS_TYPE (r_bits a) = MACH_PORT_TYPE_SEND_RECEIVE /\ IE_BITS_UREFS (r_bits a) = 1 /\
    r_object a = example_port /\ w_io w !! example_port = Some (new_header 1) /\
    w_port w !! example_port = Some (new_port example_s 1 example_name) /\ w_assertions w = 0 /\
    w_env w = example_env.
Proof.
  destruct example_run as (w0 & w & i & b & Hrun & Hl & He & Has & Hsz & [Hf Hp Hn Hname [Ht Hu] I Hsp Eio Epo Elk Een Eas]).
  exists w, i, (mkRight example_port b IE_REQ_NONE). split; [exact Hrun|]. clear Hrun.
  split; [|split; [exact Ht|split; [exact Hu|split; [done|]]]].
  - split; [exact I| |apply put_eq|exact Hname|reflexivity].
    destruct Hsp as (sp & Hsa & Esp). exists sp. rewrite Esp, lookup_insert_eq in Hsz. injection Hsz as Hsz.
    split; [|split; [exact Hsa|unfold small_table; rewrite Hsz; discriminate]].
    unfold set_w_locks, w_space at 1. rewrite Esp. apply lookup_insert_eq.
  - rewrite Eio, Epo, Eas, Een. split_and!; [apply lookup_insert_eq..|done|done].
Qed.

Lemma right_dealloc_ok_witness :
  exists w R i a, example_alloc example_boot = Ret (inr (example_name, example_port)) w /\
    let w := set_w_locks {[LSpace example_s]} w in
    wp (ipc_right_dealloc example_s example_name i)
      (right_post ∅ R example_s i w (dealloc_ends (n := no_naked) (a := a) (right_live w a))) w.
Proof.
  destruct example_right as (w & i & a & Hrun & Hat & _). eexists w, _, i, a. split; [exact Hrun|].
  clear Hrun. apply (right_dealloc_ok _ _ _ _ _ _ _ _ Hat).
Defined.

(** The user references of the send right grow by 5. *)
Lemma right_delta_ok_witness :
  exists w R i a, example_alloc example_boot = Ret (inr (example_name, example_port)) w /\
    let w := set_w_locks {[LSpace example_s]} w in
    wp (ipc_right_delta example_s example_name i MACH_PORT_RIGHT_SEND 5)
      (right_post ∅ R example_s i w (delta_ends (right_live w a) MACH_PORT_RIGHT_SEND 5 no_naked a)) w.
Proof.
  destruct example_right as (w & i & a & Hrun & Hat & _). eexists w, _, i, a. split; [exact Hrun|].
  clear Hrun. apply (right_delta_ok _ _ _ _ _ _ _ _ MACH_PORT_RIGHT_SEND 5 Hat); [split; reflexivity || discriminate|discriminate].
Defined.

(** The receive right is moved into a message. *)
Lemma right_copyin_ok_witness :
  exists w R i a x h, example_alloc example_boot = Ret (inr (example_name, example_port)) w /\
    let w := set_w_locks {[LSpace example_s]} w in
    wp (ipc_right_copyin example_s example_name i MACH_MSG_TYPE_MOVE_RECEIVE 0 0 None)
      (held_post ∅ R example_s i example_name w
        (copyin_ends (fun extra => copyin_spec MACH_MSG_TYPE_MOVE_RECEIVE 0 0 None x h extra a no_naked))) w.
Proof.
  destruct example_right as (w & i & a & Hrun & Hat & _ & _ & Eo & Hh & Hx & _ & He).
  eexists w, _, i, a, _, _. split; [exact Hrun|]. clear Hrun.
  apply (right_copyin_ok _ _ _ _ _ _ _ _ _ _ _ _ (new_port example_s 1 example_name) (new_header 1) Hat).
  - intros _. rewrite Eo. split_and!; [exact Hx|exact Hh|reflexivity|intros _ _ _; reflexivity].
  - unfold user_space. cbn [set_w_locks w_env]. rewrite He. split; discriminate.
Defined.

(** Both rights are taken by name: the receive right leaves the send right. *)
Lemma object_copyin_ok_witness :
  exists w R, example_alloc example_boot = Ret (inr (example_name, example_port)) w /\
    let w := set_w_locks ∅ w in
    wp (ipc_object_copyin example_s example_name MACH_MSG_TYPE_MOVE_RECEIVE 0 None 0)
      (object_copyin_post no_naked R w example_s example_name MACH_MSG_TYPE_MOVE_RECEIVE 0 None 0) w.
Proof.
  destruct example_right as (w & i & a & Hrun & [I (sp & Hs & Hsa & Hsm) _ _ _] & _ & _ & Eo & Hh & Hx & _ & He).
  eexists w, _. split; [exact Hrun|]. clear Hrun. apply inv_set_locks, (inv_set_locks _ _ _ ∅) in I.
  apply (object_copyin_ok _ _ _ _ sp example_name MACH_MSG_TYPE_MOVE_RECEIVE 0 None 0 I Hs Hsa Hsm eq_refl).
  - unfold user_space. cbn [set_w_locks w_env]. rewrite He. split; discriminate.
  - vm_compute. split; [discriminate|reflexivity].
  - intros j b [Hb _]. exists (new_port example_s 1 example_name), (new_header 1). intros _.
    assert (b = a) as ->.
    { destruct (decide ((example_s, i) = (example_s, j))) as [Ej|Hne].
      - rewrite <- Ej, put_eq in Hb. congruence.
      - rewrite put_ne, lookup_empty in Hb by done. discriminate. }
    rewrite Eo. split_and!; [exact Hx|exact Hh|reflexivity|intros _ _ _; reflexivity].
Defined.

Lemma port_alloc_ok_witness :
  exists w R, example_create example_boot = Ret (inr example_s) w /\
    wp (ipc_port_alloc example_s 0) (@port_alloc_post ∅ no_naked R w example_s 0) w.
Proof.
  destruct example_created_inv as (w & sp & Hrun & I & Hs & Ha & Elk & Een & Eio & Epo & Has).
  exists w, ∅. split; [exact Hrun|]. clear Hrun.
  apply (port_alloc_ok ∅ no_naked ∅ w example_s 0 sp I Hs Ha).
  - rewrite Elk. apply not_elem_of_empty.
  - intros _. rewrite Een. unfold fresh_object. rewrite Eio, Epo, Elk.
    split_and!; [reflexivity|reflexivity|apply not_elem_of_empty|discriminate].
Defined.

(** A send right is made for the port. *)
Lemma naked_rights_counted_witness :
  exists w R, example_alloc example_boot = Ret (inr (example_name, example_port)) w /\
    let w := set_w_locks ∅ w in
    wp (naked_run MakeSend example_port)
      (@naked_post ∅ no_naked R w example_port (new_header 1) MakeSend) w.
Proof.
  destruct example_right as (w & i & a & Hrun & [I _ _ _ _] & _ & _ & _ & Hh & Hx & _).
  eexists w, _. split; [exact Hrun|]. clear Hrun.
  apply inv_set_locks, (inv_set_locks _ _ _ ∅) in I.
  apply (naked_rights_counted _ _ _ (set_w_locks ∅ w) example_port
    (new_port example_s 1 example_name) (new_header 1) MakeSend I Hx Hh).
  - apply not_elem_of_empty.
  - apply not_elem_of_empty.
  - reflexivity.
Defined.

(** ** System calls *)

(** The space with its port, unlocked. *)
Lemma example_unlocked :
  exists w R sp i a, example_alloc example_boot = Ret (inr (example_name, example_port)) w /\
    let w := set_w_locks ∅ w in
    inv_with ∅ no_naked R w /\ w_space w !! example_s = Some sp /\ is_active sp = true /\ small_table sp /\
    named R example_s example_name i a /\ r_object a = example_port /\
    has (r_bits a) MACH_PORT_TYPE_RECEIVE = true /\
    w_port w !! example_port = Some (new_port example_s 1 example_name) /\ w_env w = example_env.
Proof.
  destruct example_right as (w & i & a & Hrun & [I (sp & Hs & Hsa & Hsm) Ha Hn _] & Ht & _ & Eo & _ & Hx & _ & He).
  eexists w, _, sp, i, a. split; [exact Hrun|]. clear Hrun. split; [exact (proj1 (inv_set_locks _ _ _ _ _) I)|].
  split; [exact Hs|]. split; [exact Hsa|]. split; [exact Hsm|]. split; [exact (conj Ha Hn)|]. split; [exact Eo|].
  split; [|exact (conj Hx He)]. rewrite (has_type (r_bits a)) by reflexivity. by rewrite Ht.
Qed.

Lemma example_name_valid : 0 <= example_name < 2 ^ 32 /\ MACH_PORT_VALID example_name = true.
Proof. vm_compute. split; [split; [discriminate|reflexivity]|reflexivity]. Qed.

Lemma mach_port_allocate_ok_witness :
  exists w R, example_create example_boot = Ret (inr example_s) w /\
    wp (mach_port_allocate example_s MACH_PORT_RIGHT_PORT_SET)
      (allocate_post no_naked R w example_s MACH_PORT_RIGHT_PORT_SET) w.
Proof.
  destruct example_created_inv as (w & sp & Hrun & I & Hs & Ha & Elk & Een & Eio & Epo & Has).
  exists w, ∅. split; [exact Hrun|]. clear Hrun.
  apply (mach_port_allocate_ok no_naked ∅ w example_s sp MACH_PORT_RIGHT_PORT_SET I Hs Ha Elk).
  - intros _. rewrite Een. unfold fresh_object. rewrite Eio, Epo, Elk.
    split_and!; [reflexivity|reflexivity|apply not_elem_of_empty|discriminate].
  - intros _. rewrite Een. unfold fresh_object. rewrite Eio, Epo, Elk.
    split_and!; [reflexivity|reflexivity|apply not_elem_of_empty|discriminate].
Defined.


Lemma mach_port_get_refs_ok_witness :
  exists w R, example_alloc example_boot = Ret (inr (example_name, example_port)) w /\
    let w := set_w_locks ∅ w in
    wp (mach_port_get_refs example_s example_name MACH_PORT_RIGHT_SEND)
      (call_post no_naked R w example_s example_name (fun r => r = inl KERN_INVALID_NAME)
        (fun a => get_refs_ends (right_live w a) no_naked MACH_PORT_RIGHT_SEND a)) w.
Proof.
  destruct example_unlocked as (w & R & sp & i & a & Hrun & I & Hs & Hsa & Hsm & _). exists w, R. split; [exact Hrun|].
  clear Hrun. destruct example_name_valid as [Hn Hv].
  apply (mach_port_get_refs_ok no_naked R _ example_s sp example_name MACH_PORT_RIGHT_SEND I Hs Hsa Hsm eq_refl Hn Hv).
  split; [discriminate|reflexivity].
Defined.


(** The port is guarded, and its guard is swapped; a second swap with the old
    value is refused. *)
Definition example_guard_ops : list guard_op :=
  [OpGuard 7 0; OpSwap 7 8; OpSwap 7 9; OpGetContext; OpUnguard 8].


(** A strictly guarded port. *)
Lemma example_strict :
  exists w R sp i a, inv_with ∅ no_naked R w /\ w_space w !! example_s = Some sp /\ is_active sp = true /\
    w_locks w = ∅ /\ named R example_s example_name i a /\ r_object a = example_port /\
    has (r_bits a) MACH_PORT_TYPE_RECEIVE = true /\
    w_port w !! example_port =
      Some (with_guard (mkGuard 7 true true false) (new_port example_s 1 example_name)).
Proof.
  destruct example_unlocked as (w & R & sp & i & a & _ & I & Hs & Hsa & _ & Hna & Eo & Hr & Hx & _).
  destruct example_name_valid as [Hn Hv].
  assert (Hrec : receives R example_s example_name example_port) by (exists i, a; exact (conj Hna (conj Eo Hr))).
  pose proof (wp_guard_ops example_s example_name example_port sp no_naked R [OpGuard 7 MPG_STRICT] _ _ I Hs Hsa eq_refl
    Hn Hv Hrec Hx) as Hwp.
  apply wp_run in Hwp as (rs & w' & _ & _ & Hch). pose proof (changed_inv _ _ _ _ I Hx Hch) as I'.
  destruct Hch as [E1 E2 E3 E4 E5].
  exists w', R, sp, i, a. split; [exact I'|]. rewrite E1, E4, E5. split; [exact Hs|]. split; [exact Hsa|].
  split; [reflexivity|]. split; [exact Hna|]. split; [exact Eo|]. split; [exact Hr|]. apply lookup_insert_eq.
Qed.

Definition example_strict_ops : list guard_op :=
  [OpSwap 7 8; OpGetContext; OpUnguard 5; OpSetContext 0; OpGuard 9 0].

Lemma strict_guard_holds_witness :
  exists w, (exists x, w_port w !! example_port = Some x /\ ip_context x = 7 /\ ip_strict_guard x = true) /\
    wp (run_guard_ops example_s example_name example_strict_ops)
      (fun rs w' => Forall2 strict_results example_strict_ops rs /\ w_port w' = w_port w /\ w_locks w' = ∅) w.
Proof.
  destruct example_strict as (w & R & sp & i & a & I & Hs & Hsa & Hlk & Hna & Eo & Hr & Hx).
  exists w. split; [eexists; split; [exact Hx|split; reflexivity]|]. destruct example_name_valid as [Hn Hv].
  apply (strict_guard_holds no_naked R w example_s sp example_name example_port _ example_strict_ops I Hs Hsa Hlk Hn Hv)
    with (2 := Hx); [exists i, a; exact (conj Hna (conj Eo Hr))|reflexivity|reflexivity|discriminate|].
  intros Hin. repeat (apply elem_of_cons in Hin as [Hin|Hin]; [discriminate|]). by apply elem_of_nil in Hin.
Defined.

(** The port is destroyed; the send right becomes a dead name. *)
Lemma receive_right_given_up_witness :
  exists w R i a, example_alloc example_boot = Ret (inr (example_name, example_port)) w /\
    let w := set_w_locks {[LSpace example_s]} w in let x := new_port example_s 1 example_name in
    wp (ipc_right_delta example_s example_name i MACH_PORT_RIGHT_RECEIVE (-1))
      (fun kr w' => right_post ∅ R example_s i w (delta_receive_ends x (-1) no_naked a) kr w' /\
       (kr = KERN_SUCCESS -> -1 = -1 -> ip_pdrequest x = IP_NULL ->
        forall h', w_io w' !! r_object a = Some h' -> io_otype h' = IOT_PORT -> io_active h' = false)) w.
Proof.
  destruct example_right as (w & i & a & Hrun & Hat & _ & _ & Eo & Hh & Hx & Has & _).
  eexists w, _, i, a. split; [exact Hrun|]. clear Hrun.
  apply (receive_right_given_up _ _ _ _ _ _ _ _ (new_port example_s 1 example_name) (new_header 1) (-1) Hat); [|exact Has].
  intros _. rewrite Eo. split; [exact Hx|]. split; [exact Hh|]. split; [|reflexivity].
  split; [reflexivity..|discriminate].
Defined.

