(* ===== verification/IpcSpace.v ===== *)
(** * Spaces (ipc/ipc_space.c, ipc/ipc_space.h)

    Cleaning and termination of a space. *)

From S2P Require Import Prelude IpcTypes IpcHash IpcTable KernelState Kernel IpcFreelist IpcSpaceInit IpcEntry IpcPort IpcRight.

(** ** Cleaning and termination *)

(** [while (is_growing(space)) is_write_sleep(space)]: nobody else runs, so a
    space that is growing never stops. *)
Definition wait_grown (s : Z) : M unit :=
  sp ← space s; if is_growing sp then panic "is_write_sleep" else mret tt.

(** The first entry in use, from [i] on, among the next [n]. *)
Fixpoint first_in_use (n : nat) (table : list ipc_entry) (i : Z) : option (Z * Z) :=
  match n with
  | O => None
  | S n =>
      match aget table i with
      | Some e =>
          if negb (IE_BITS_TYPE (ie_bits e) =? MACH_PORT_TYPE_NONE)
          then Some (i, MACH_PORT_MAKE i (IE_BITS_GEN (ie_bits e)))
          else first_in_use n table (i + 1)
      | None => None
      end
  end.

Fixpoint space_clean_loop (fuel : nat) (s : Z) : M unit :=
  match fuel with
  | O => panic "fuel"
  | S fuel =>
      is_write_lock s;;
      wait_grown s;;
      sp ← space s;
      if negb (is_active sp) then is_write_unlock s
      else
        match first_in_use (Z.to_nat (is_table_size sp)) (is_table sp) 0 with
        | Some (i, name) =>
            ipc_right_destroy s name i false 0;;
            space_clean_loop fuel s
        | None => is_write_unlock s
        end
  end.

(** Each iteration but the last destroys an entry. *)
Definition ipc_space_clean (s : Z) : M unit :=
  sp ← space s;
  space_clean_loop (S (length (is_table sp))) s.

(** The entries [i], ..., [i + n - 1] of a dead space. *)
Fixpoint space_terminate_loop (n : nat) (s i : Z) : M unit :=
  match n with
  | O => mret tt
  | S n =>
      e ← entry s i;
      when (negb (IE_BITS_TYPE (ie_bits e) =? MACH_PORT_TYPE_NONE))
        (ipc_right_terminate s (MACH_PORT_MAKE i (IE_BITS_GEN (ie_bits e))) i);;
      space_terminate_loop n s (i + 1)
  end.

Definition ipc_space_terminate (s : Z) : M unit :=
  massert (negb (s =? 0));;
  is_write_lock s;;
  sp ← space s;
  if negb (is_active sp) then is_write_unlock s
  else
    is_mark_inactive s;;
    wait_grown s;;
    is_write_unlock s;;
    sp ← space s;
    space_terminate_loop (Z.to_nat (is_table_size sp)) s 0;;
    call_ "it_entries_free" [is_table_next sp - 1];;
    upd_space s (fun sp => set_is_table_free 0 (set_is_table_size 0 (set_is_table [] sp)));;
    is_release s.
